(* ===== verification/_CoqProject ===== *)
-Q . S2P
Prelude.v
Utf8.v
Varint.v
Packet.v
Types.v
Errors.v
Tokens.v
Params.v
InFlight.v
Callbacks.v
Conn.v
CrateRoot.v
Bindings.v
CallbackTables.v
Crypto.v
Effects.v
Transport.v
Streams.v
Limiter.v
Routes.v
Tokio.v
Flow.v
World.v
Socket.v
ServerConn.v
Server.v
ServerInv.v
Accepted.v
Replay.v
System.v
Client.v
ClientInv.v
Delivery.v
Stack.v
Integrity.v
TestCerts.v
Interop.v
Fuzz.v
Quiche.v
QuicheApps.v
Build.v
UnitTests.v
UnitTestsC.v
PublicTests.v
