(* ===== verification/Prelude.v ===== *)
(** * ngtcp2-rs: a verification development

    The repository is a QUIC transport in Rust. The crate [ngtcp2] (src/ngtcp2/src)
    wraps the C library ngtcp2 without doing input or output; the crate [tokio-ngtcp2]
    (src/tokio-ngtcp2/src) drives it over UDP sockets as a client and a server. The
    development models the Rust code of both crates and proves it correct against what
    ngtcp2, its crypto helper, aws-lc, tokio and the operating system document.

    ** How the parts interact

    A datagram arrives at the server: [Server.handle_datagram] looks for its connection
    in the routing table ([Routes.resolve_dcid]). A connection whose handshake runs
    reads it ([ServerConn.read_packet]), which drains the events of the connection, and
    answers ([ServerConn.flush_to_packets], which is [Streams.write_packets]). After the
    handshake [Server.take_connection] hands the connection to the application as an
    [Accepted] connection: its routes move to the table [Routes.SharedRoutes], and the
    server and the accepted connections pass datagrams to each other through bounded
    channels. Other datagrams start a connection or are answered without one: Version
    Negotiation, Retry, CONNECTION_CLOSE, Stateless Reset ([Tokens], [Limiter]). Inside
    a connection ngtcp2 calls back into the crate while one of its functions runs
    ([Callbacks]); the callbacks queue events and release the buffers of acknowledged
    stream data ([InFlight]).

    ** Files

    - [Prelude]: machine integers with their width written out, slices, the [let?] of
      fallible code, [Update] of record fields, the hint database and tactics.
    - [Varint] (varint.rs), [Packet] (packet.rs): integers of variable length, and the
      split of a buffer into coalesced packets.
    - [Types] (types.rs and the address conversions of conn.rs), [Errors] (error.rs):
      versions, ids, addresses; the error type and its classification.
    - [Tokens] (reset.rs, retry.rs, version.rs): packets without a connection and the
      tokens in them. [Params] (settings.rs, config.rs, stats.rs): what is handed to
      ngtcp2 and read from it.
    - [InFlight], [Callbacks], [Conn] (conn.rs, event.rs): a connection. A run of a C
      function is a tree of callbacks and replies, which [Callbacks.exec] runs against
      the state of the connection. [Utf8]: what the standard library does to the reason of
      a peer's close and to the version of the library. [Crypto] (crypto.rs): ALPN, TLS
      contexts and sessions; it implements the interface [Conn.Tls].
    - [CrateRoot] (ngtcp2/src/lib.rs): the version and the constants of the crate.
      [Bindings] (ngtcp2-sys/src/bindings.rs): the structures of ngtcp2 in memory.
      [CallbackTables] (conn.rs): which function is in which field of [ngtcp2_callbacks].
    - [Effects]: the monad of the functions of tokio-ngtcp2, with state, error, panic and
      divergence, and its weakest preconditions. [Transport]: the class between the two
      crates. Its laws [TransportDoc] are what tokio-ngtcp2 relies on; the model of
      [Connection] implements the class and satisfies the laws.
    - [Streams] (streams.rs), [Limiter], [Routes], [ServerConn], [Server], [Accepted]
      (server.rs), [Client] (client.rs), [Tokio] (lib.rs, qlog.rs, and the choice of a
      socket in socket.rs): the definitions carry the names of the Rust functions.
      [World]: the clock, the random generator, the packets sent, the shared routes, the
      channels, and the lock around them. [Socket] (socket.rs): what lies below the packets sent, down to the
      bytes of addresses and control messages.
    - [ServerInv]: the invariant of [Server] and its theorems. [ClientInv]: those of
      [Client]. [System]: the server with all its accepted connections, as a transition
      system of tasks, and its abstract specification. [Replay]: a task is where it is
      because of what it found each time it took the lock.
    - [Flow], [Delivery]: events, datagrams and the bytes of one stream on their way
      through an endpoint, for the calls of clients and of accepted connections. [Stack]:
      tokio-ngtcp2 on the model of [Connection]. [Integrity]: the same through both crates.
    - [Interop] (interop/src/lib.rs): the echo server and the clients of the
      interoperability tests, as programs on the two kinds of connections. [Quiche],
      [QuicheApps] (interop/quiche-driver/src): the driver of quiche that these tests
      run against. [Fuzz] (fuzz/fuzz_targets): the fuzz targets with their assertions.
    - [Build] (ngtcp2-sys/build.rs): the build script, on a machine with files, an
      environment and programs to start. [TestCerts] (interop/src/lib.rs, the test module
      of ngtcp2/src/lib.rs): the certificates that tests write and remove. [UnitTests],
      [UnitTestsC]: the unit tests inside the crates, run on the model, the second ones
      with stand-ins for aws-lc and the parsers of ngtcp2. [PublicTests]: those of the tests
      directories that need no handshake.

    ** What the theorems show

    - The two ends. [Integrity.stream_integrity]: what one application writes to a stream
      is what the other is given, and each event and datagram at most once, over any calls
      of both. [Interop.echo_roundtrip]: a
      payload comes back from the echo server.
    - The server and its tasks. [ServerInv.server_loop_safe]: no sequence of datagrams,
      timers and socket errors makes the receive loop panic or diverge; every route leads
      to a connection, there are at most 1024. [System.system_coherent]: under every
      interleaving of the tasks each shared route leads to a live connection;
      [System.system_refines]: what the tasks share is a post office, a table of routes
      and a mailbox for each connection. [Stack.stack_coherent]: the same on the model of
      [Connection]. [ServerInv.take_connection_hands_over], [ServerInv.register_new_routes],
      [Routes.resolve_dcid_correct], [Routes.shared_routes_lifecycle],
      [Accepted.sync_routes_applies]: routes follow the life of a connection.
      [ServerInv.stateless_reset_guarded], [ServerInv.retry_before_state],
      [Limiter.limiter_rate], [Routes.taken_ids_remembered],
      [Tokens.stateless_reset_shrinks]: answers without a connection are bounded.
    - Clients. [ClientInv.client_well_formed], [ClientInv.client_closed_once],
      [Client.connect_safe].
    - Stream data. [Streams.write_packets_conserves]: no byte is lost, repeated or
      reordered on the way to the connection. [InFlight.in_flight_pointers_stable]: the
      pointers ngtcp2 holds stay valid; [InFlight.in_flight_refines_queue],
      [InFlight.in_flight_released], [Conn.write_stream_in_flight],
      [Conn.in_flight_follows_callbacks]: the buffers are the queue of unacknowledged
      bytes, and are released.
    - Events. [Callbacks.callbacks_in_order], [Callbacks.issued_ids_recorded],
      [Conn.read_pkt_events_fifo], [ServerConn.read_packet_delivers],
      [Accepted.closed_reported_once]: each event reaches the application once and in
      order.
    - Datagrams. [Socket.datagram_roundtrip], [Socket.reply_path],
      [Socket.send_packets_refines], [Socket.sockaddr_copies_agree].
    - Termination and safety of loops. [Streams.write_packets_terminates],
      [Accepted.recv_event_safe], [Packet.split_packets_partition],
      [Fuzz.fuzz_targets_total], [Fuzz.conn_read_pkt_total].
    - Ownership of C objects. [Conn.constructors_own_conn], [Crypto.contexts_own_ctx]: what a
      constructor creates it deletes on every error, and what it returns deletes it once. The
      calls that create and delete are events beside the result ([tracked]).
    - Memory shared with C. [Bindings.layout_sound], [Bindings.layouts_portable]: the
      assertions of bindings.rs hold of its structures, on the system it was made on and on
      Linux. [Bindings.address_in_place]: addresses are written where the C library reads
      them. [Bindings.constants_agree]: the constants of the models are those of bindings.rs.
      [CallbackTables.callback_tables_complete]: ngtcp2 has every callback it requires, and
      the application's are the same for clients and servers.
    - Text. [Utf8.from_utf8_iff], [Conn.close_reason_is_text], [CrateRoot.version_is_text].
    - Encodings. The round trips of [Varint], [Packet], [Types], [Tokens], [Params] and
      [Tokio], and [Crypto.alpn_select_correct].
    - The driver of quiche. [Quiche.quiche_clients_in_order], [Quiche.quiche_clients_end],
      [QuicheApps.echo_client_tells_once], [QuicheApps.echo_server_echoes_call],
      [QuicheApps.driver_arguments], [QuicheApps.driver_client_exits].
    - The build. [Build.build_script_correct], [Build.fetch_ngtcp2_correct],
      [Build.aws_lc_include_dir_correct], [Build.target_platform_released].
    - Tests. [TestCerts.test_certs_usable], [TestCerts.test_certs_cleaned_up],
      [TestCerts.server_tls_ctx_once], [UnitTests.unit_tests_pass],
      [UnitTestsC.tests_with_libraries_pass], [PublicTests.public_tests_pass].
    - Theorems that record a defect: [System.key_reuse_loses_routes],
      [Streams.blocked_stream_starves], [Packet.split_packets_type3],
      [Client.expiry_error_dropped], [Client.unaccepted_packet_dropped],
      [Client.longest_timeout_panics], [Crypto.encode_alpn_truncates],
      [Crypto.new_server_leaks], [ServerInv.retried_route_inserted],
      [QuicheApps.echo_server_loses_parts], [QuicheApps.echo_server_reports],
      [Build.branch_stays_behind], [Build.stale_libraries_accepted].

    ** Hypotheses, fuel and bounds

    Code outside the repository is an operation of a class, its documented behaviour a
    class of laws: [TokenApi], [Ngtcp2Api], [SslApi], [Endpoint], [Env] (clock and random
    bytes), [Kernel] (the system calls, with [KernelDoc] and, for two sockets that are
    connected, [Loopback]), [HashOrder] (the order of a [HashMap]). Each theorem that has
    laws comes with a witness, which instantiates the classes with concrete functions.
    [usize] has 64 bits; C integers are 32 bits wide and little-endian.

    Between the crates stand [TransportDoc], [TransportBudget], [TransportAccept] and
    [StreamsDoc]. They are laws of code of the repository, so each is proved of the model
    of [Connection]: [Transport.connection_transport_doc], [Stack.connection_budget],
    [Integrity.connection_accept], [Integrity.connection_streams_doc], from laws of ngtcp2
    alone ([Ngtcp2Doc], [Ngtcp2WriteDoc], [Ngtcp2Budget], [Ngtcp2StreamsDoc]).

    Loops that the code bounds by a list are [Fixpoint]s on it. The loops of [Streams]
    and [ServerConn] run until ngtcp2 has nothing more to do; their fuel is computed from
    the state: the pending bytes and [TransportBudget], the number of packets that
    congestion and flow control still allow. Running out of fuel is [Diverges], which no
    theorem allows. What [select] waits for is a list of inputs, so that every theorem
    holds for every interleaving of one task's inputs. The tasks of [System] interleave
    as on a runtime with several threads: a step of a task goes from where it takes the
    mutex around the shared routes to where it takes it next ([World.lock]). To write the
    tasks as ordinary functions, the world of a task carries what it will find each time
    it takes the lock ([World.Schedule]); a task in the middle of a job is the state in
    which it began and what it found so far, and [Replay] shows that running it again
    with one more thing to find continues it. Theorems
    allow a panic in two places: in [Interop], where it is a test that fails, and in
    [Client.connect_inner], when the sum of the clock and the handshake timeout is more than
    an [Instant] holds ([Effects.wpp], [Client.deadline_overflows]).

    ** What is not modelled

    Of bindings.rs, the declarations of foreign functions, which are the operations of
    [Ngtcp2Api], [TokenApi] and [SslApi], and the types of function pointers. Of the tests
    directories, the tests that complete a TLS handshake, most of them between both crates
    over real sockets; the tests of ngtcp2-sys, which only call the C library, and two
    tests of null pointers, which the models do not have. Log messages. The lengths of
    timers are computed, but time does not pass by itself: a timer fires when the inputs
    say so. Re-exports have no behaviour, nor do [Debug] implementations other than those
    of [ConnectionId] and [SessionTicket]. What a client does to change its address is
    modelled ([Client.migrate]); there is no theorem on both ends across a migration, since
    the path validation between them is the C library's. *)
From Stdlib Require Export ZArith Lia Bool.
From stdpp Require Export base tactics option list gmap strings.
#[global] Set Default Goal Selector "!".
#[global] Open Scope Z_scope.
(** [lia] on goals with [/] and [mod] by literals *)
#[global] Ltac Zify.zify_post_hook ::= Z.to_euclidean_division_equations.

(** ** Machine integers

    [u8], [u16], [u32], [u64] and [usize] are [Z] with their range written out.
    [usize] is 64 bits wide, as on the targets the crates build for. *)

Definition u16_max : Z := 2 ^ 16 - 1.
Definition u32_max : Z := 2 ^ 32 - 1.
Definition u64_max : Z := 2 ^ 64 - 1.
Definition usize_max : Z := 2 ^ 64 - 1.

Definition is_u8 (z : Z) : Prop := 0 <= z < 256.
Definition is_u32 (z : Z) : Prop := 0 <= z <= u32_max.
Definition is_u64 (z : Z) : Prop := 0 <= z <= u64_max.

(** [x as u8], [x as u16], ... on an unsigned value: truncation. *)
Definition as_u8 (z : Z) : Z := z mod 2 ^ 8.
Definition as_u16 (z : Z) : Z := z mod 2 ^ 16.
Definition as_u32 (z : Z) : Z := z mod 2 ^ 32.
Definition as_u64 (z : Z) : Z := z mod 2 ^ 64.

Definition checked_add (a b : Z) : option Z :=
  if a + b <=? usize_max then Some (a + b) else None.
Definition sat_add (a b : Z) : Z := Z.min (a + b) u64_max.
Definition sat_sub (a b : Z) : Z := Z.max (a - b) 0.
Definition sat_mul (a b : Z) : Z := Z.min (a * b) u64_max.

(** ** Slices

    A byte slice is a [list Z] whose elements are [is_u8]. [slen] is [len()],
    [get], [slice] and [slice_from] are the [get] methods of slices with an
    index, a range and an open range: [None] out of range. *)

Abbreviation bytes := (list Z) (only parsing).
Definition are_bytes (l : bytes) : Prop := Forall is_u8 l.

Definition slen {A} (l : list A) : Z := Z.of_nat (length l).

Definition get {A} (l : list A) (i : Z) : option A :=
  if i <? 0 then None else l !! Z.to_nat i.

Definition slice {A} (l : list A) (a b : Z) : option (list A) :=
  if (0 <=? a) && (a <=? b) && (b <=? slen l)
  then Some (take (Z.to_nat (b - a)) (drop (Z.to_nat a) l))
  else None.

Definition slice_from {A} (l : list A) (a : Z) : option (list A) :=
  if (0 <=? a) && (a <=? slen l) then Some (drop (Z.to_nat a) l) else None.

(** ** Results and panics

    [result] is [Result<T, E>]; [outcome] is a computation that may panic. *)

Inductive result (E A : Type) : Type :=
| Ok (a : A)
| Err (e : E).
Arguments Ok {E A} a.
Arguments Err {E A} e.

Inductive outcome (A : Type) : Type :=
| Ret (a : A)
| Panic.
Arguments Ret {A} a.
Arguments Panic {A}.

Declare Scope rust_scope.
Delimit Scope rust_scope with rust.

(** [e?] in a function that returns an [Option] *)
Notation "'let?' x ':=' e 'in' k" :=
  (match e with Some x => k | None => None end)
  (at level 10, x pattern, e at level 100, k at level 200) : rust_scope.

(** [e?] in a function that returns a [Result] *)
Notation "'let!' x ':=' e 'in' k" :=
  (match e with Ok x => k | Err err => Err err end)
  (at level 10, x pattern, e at level 100, k at level 200) : rust_scope.

(** ** Objects of C libraries

    [tracked A]: a value, and the objects of C libraries that were created and deleted by
    hand on the way to it, in order. *)
Inductive c_object := Ngtcp2Conn | SslCtx | AlpnData.
Inductive c_event := Created (o : c_object) | Deleted (o : c_object).
Definition tracked (A : Type) : Type := A * list c_event.
#[export] Instance tracked_ret : MRet tracked := fun A a => (a, []).
#[export] Instance tracked_bind : MBind tracked := fun A B f m =>
  let '(a, l) := m in let '(b, l') := f a in (b, l ++ l').

(** A C function that gives out an object, or a null pointer *)
Definition creates {A} (o : c_object) (r : option A) : tracked (option A) :=
  (r, match r with Some _ => [Created o] | None => [] end).
Definition deletes (o : c_object) : tracked unit := (tt, [Deleted o]).

(** ** Record update

    [r <| f := v |>] is [r] with field [f] set to [v]: an assignment to a field of
    a struct. A record type declares its eta-expansion once, and the setter of a
    field is found from it. *)
Class Eta (R : Type) := eta : R -> R.
Class Update {R T : Type} (proj : R -> T) := update : T -> R -> R.

Ltac find_update :=
  match goal with
  | |- @Update ?R ?T ?proj =>
      let v := fresh "v" in let r := fresh "r" in intros v r;
      let e := eval hnf in (eta r) in
      let p := eval pattern (proj r) in e in
      match p with
      | ?g _ => let t := eval cbv beta in (g v) in exact t
      end
  end.
#[export] Hint Extern 1 (Update _) => find_update : typeclass_instances.

Notation "r '<|' f ':=' v '|>'" := (update (proj := f) v r)
  (at level 1, left associativity, f at level 9, v at level 200).

(** ** Big-endian integers *)

Fixpoint be_bytes (k : nat) (v : Z) : bytes :=
  match k with
  | O => []
  | S k' => (v / 2 ^ (8 * Z.of_nat k')) mod 256 :: be_bytes k' v
  end.

Fixpoint be_value (l : bytes) : Z :=
  match l with
  | [] => 0
  | b :: l' => b * 2 ^ (8 * slen l') + be_value l'
  end.

(** ** Tactics *)

Ltac deex :=
  repeat match goal with
  | H : exists x, _ |- _ => let y := fresh x in destruct H as [y H]
  | H : _ /\ _ |- _ => destruct H
  end.

(** Evaluate the powers of two with closed exponents. *)
Ltac has_var e := match e with context [?x] => is_var x end.
Ltac eval_pow2 :=
  repeat match goal with
  | |- context [2 ^ ?e] =>
      tryif has_var e then fail else
      (let v := eval vm_compute in (2 ^ e) in change (2 ^ e) with v)
  | H : context [2 ^ ?e] |- _ =>
      tryif has_var e then fail else
      (let v := eval vm_compute in (2 ^ e) in change (2 ^ e) with v in H)
  end.

(** Equality of two lists built with [::] and [++], up to associativity. *)
Ltac app_eq := repeat (progress cbn [app] || rewrite <- app_assoc); reflexivity.

(** Split on the boolean comparisons of the goal or of a hypothesis. *)
Ltac bool_cases :=
  repeat match goal with
  | |- context [?a <? ?b] => destruct (Z.ltb_spec a b)
  | |- context [?a <=? ?b] => destruct (Z.leb_spec a b)
  | |- context [?a =? ?b] => destruct (Z.eqb_spec a b)
  | H : context [?a <? ?b] |- _ => destruct (Z.ltb_spec a b)
  | H : context [?a <=? ?b] |- _ => destruct (Z.leb_spec a b)
  | H : context [?a =? ?b] |- _ => destruct (Z.eqb_spec a b)
  end.

(** [are_bytes] of a concrete list *)
Ltac solve_bytes :=
  apply (bool_decide_unpack (Forall (fun z => 0 <= z < 256) _)); vm_compute; exact I.

(** ** Lemmas on slices *)

Section slices.
Context {A : Type}.
Implicit Types l : list A.

Lemma slen_nonneg l : 0 <= slen l.
Proof. unfold slen; lia. Qed.

Lemma slen_nil : slen (@nil A) = 0.
Proof. reflexivity. Qed.

Lemma slen_cons x l : slen (x :: l) = 1 + slen l.
Proof. unfold slen; simpl; lia. Qed.

Lemma slen_app l1 l2 : slen (l1 ++ l2) = slen l1 + slen l2.
Proof. unfold slen; rewrite length_app; lia. Qed.

Lemma slen_zero_inv l : slen l = 0 -> l = [].
Proof. destruct l; [done|]. rewrite slen_cons. pose proof (slen_nonneg l). lia. Qed.

(** A list padded to a length, taken from its front. *)
Lemma take_padded (n : nat) (l : list A) (x : A) :
  take (S n) (l ++ x :: replicate n x) = default x (head l) :: take n (tail l ++ replicate n x).
Proof.
  destruct l as [|y l]; cbn; [done|]. f_equal. rewrite !take_app. f_equal.
  change (x :: replicate n x) with (replicate (S n) x). rewrite !take_replicate. f_equal. lia.
Qed.

Lemma slen_drop l (n : Z) :
  0 <= n <= slen l -> slen (drop (Z.to_nat n) l) = slen l - n.
Proof. unfold slen; intros; rewrite length_drop; lia. Qed.

Lemma slen_take l (n : Z) :
  0 <= n <= slen l -> slen (take (Z.to_nat n) l) = n.
Proof. unfold slen; intros; rewrite length_take; lia. Qed.

Lemma get_Some_range l i x : get l i = Some x -> 0 <= i < slen l.
Proof.
  unfold get, slen. destruct (Z.ltb_spec i 0); [done|].
  intros ?%lookup_lt_Some. lia.
Qed.

Lemma get_app_l l1 l2 i : i < slen l1 -> get (l1 ++ l2) i = get l1 i.
Proof.
  unfold get, slen. destruct (Z.ltb_spec i 0); [done|].
  intros. apply lookup_app_l. lia.
Qed.

Lemma get_app_r l1 l2 i :
  slen l1 <= i -> get (l1 ++ l2) i = get l2 (i - slen l1).
Proof.
  unfold get, slen. intros.
  destruct (Z.ltb_spec i 0); [lia|].
  destruct (Z.ltb_spec (i - Z.of_nat (length l1)) 0); [lia|].
  rewrite lookup_app_r by lia. f_equal. lia.
Qed.

(** Reading at a known position of a list written as a concatenation. *)
Lemma get_at l i l1 x l2 : l = l1 ++ x :: l2 -> i = slen l1 -> get l i = Some x.
Proof. intros -> ->. rewrite get_app_r by lia. by rewrite Z.sub_diag. Qed.

Lemma slice_from_at l i l1 l2 : l = l1 ++ l2 -> i = slen l1 -> slice_from l i = Some l2.
Proof.
  intros -> ->. unfold slice_from. rewrite slen_app.
  pose proof (slen_nonneg l1). pose proof (slen_nonneg l2).
  destruct (Z.leb_spec 0 (slen l1)), (Z.leb_spec (slen l1) (slen l1 + slen l2));
    simpl; try lia.
  unfold slen. by rewrite Nat2Z.id, drop_app_length.
Qed.

Lemma slice_at l a b l1 l2 l3 :
  l = l1 ++ l2 ++ l3 -> a = slen l1 -> b = slen l1 + slen l2 -> slice l a b = Some l2.
Proof.
  intros -> -> ->. unfold slice. rewrite !slen_app.
  pose proof (slen_nonneg l1). pose proof (slen_nonneg l2). pose proof (slen_nonneg l3).
  destruct (Z.leb_spec 0 (slen l1)), (Z.leb_spec (slen l1) (slen l1 + slen l2)),
    (Z.leb_spec (slen l1 + slen l2) (slen l1 + (slen l2 + slen l3)));
    simpl; try lia.
  replace (slen l1 + slen l2 - slen l1) with (slen l2) by lia.
  unfold slen. rewrite !Nat2Z.id, drop_app_length, take_app_length. done.
Qed.

Lemma get_cons_0 x l : get (x :: l) 0 = Some x.
Proof. reflexivity. Qed.

Lemma get_head l : get l 0 = head l.
Proof. by destruct l. Qed.

Lemma slice_from_Some l a r :
  slice_from l a = Some r -> 0 <= a <= slen l /\ r = drop (Z.to_nat a) l.
Proof.
  unfold slice_from.
  destruct (Z.leb_spec 0 a), (Z.leb_spec a (slen l)); simpl; [|done..].
  intros [= <-]. lia || done.
Qed.
End slices.

Lemma checked_add_Some a b c :
  checked_add a b = Some c -> c = a + b /\ a + b <= usize_max.
Proof. unfold checked_add. destruct (Z.leb_spec (a + b) usize_max); naive_solver. Qed.

Lemma checked_add_ok a b : a + b <= usize_max -> checked_add a b = Some (a + b).
Proof. unfold checked_add. destruct (Z.leb_spec (a + b) usize_max); [done|lia]. Qed.

(** Testing one bit with a mask. *)
Lemma land_pow2 n k : 0 <= k -> Z.land n (2 ^ k) = (n / 2 ^ k) mod 2 * 2 ^ k.
Proof.
  intros Hk. apply Z.bits_inj'. intros i Hi.
  rewrite Z.land_spec, Z.pow2_bits_eqb by lia.
  destruct (Z.eqb_spec k i) as [<-|Hne].
  - rewrite andb_true_r, Z.mul_pow2_bits, Z.sub_diag by lia.
    change 2 with (2 ^ 1) at 2. rewrite Z.mod_pow2_bits_low, Z.div_pow2_bits by lia.
    done.
  - rewrite andb_false_r. destruct (Z.lt_ge_cases i k).
    + by rewrite Z.mul_pow2_bits_low.
    + rewrite Z.mul_pow2_bits by lia. change 2 with (2 ^ 1) at 2.
      by rewrite Z.mod_pow2_bits_high by lia.
Qed.

Lemma land_1 n : Z.land n 1 = n mod 2.
Proof.
  pose proof (land_pow2 n 0 ltac:(lia)) as H. eval_pow2.
  by rewrite Z.div_1_r, Z.mul_1_r in H.
Qed.

Lemma land_2 n : Z.land n 2 = (n / 2) mod 2 * 2.
Proof. by apply (land_pow2 n 1). Qed.

(** ** Lemmas on bytes and big-endian integers *)

Lemma length_be_bytes k v : length (be_bytes k v) = k.
Proof. induction k; simpl; congruence. Qed.

Lemma slen_be_bytes k v : slen (be_bytes k v) = Z.of_nat k.
Proof. unfold slen. by rewrite length_be_bytes. Qed.

Lemma are_bytes_be_bytes k v : are_bytes (be_bytes k v).
Proof.
  induction k; simpl; constructor; [|done].
  apply Z.mod_pos_bound. lia.
Qed.

Lemma be_value_be_bytes k v :
  0 <= v -> be_value (be_bytes k v) = v mod 2 ^ (8 * Z.of_nat k).
Proof.
  intros Hv. induction k as [|k IH].
  - simpl. by rewrite Z.mod_1_r.
  - cbn [be_bytes be_value]. rewrite IH, slen_be_bytes.
    replace (8 * Z.of_nat (S k)) with (8 * Z.of_nat k + 8) by lia.
    rewrite Z.pow_add_r by lia.
    rewrite Z.rem_mul_r by lia. change (2 ^ 8) with 256. lia.
Qed.

Lemma be_value_range l : are_bytes l -> 0 <= be_value l < 2 ^ (8 * slen l).
Proof.
  induction 1 as [|b l Hb _ IH]; [done|].
  cbn [be_value]. rewrite slen_cons.
  replace (8 * (1 + slen l)) with (8 + 8 * slen l) by lia.
  pose proof (slen_nonneg l).
  rewrite Z.pow_add_r by lia. unfold is_u8 in Hb.
  assert (0 < 2 ^ (8 * slen l)) by (apply Z.pow_pos_nonneg; lia). nia.
Qed.

Lemma be_bytes_add_high k v w : be_bytes k (v + w * 2 ^ (8 * Z.of_nat k)) = be_bytes k v.
Proof.
  revert w. induction k as [|k IH]; intros w; [done|].
  cbn [be_bytes].
  replace (w * 2 ^ (8 * Z.of_nat (S k))) with (w * 256 * 2 ^ (8 * Z.of_nat k)).
  - rewrite IH. f_equal.
    rewrite Z.div_add by (apply Z.pow_nonzero; lia). apply Z.mod_add. lia.
  - replace (8 * Z.of_nat (S k)) with (8 * Z.of_nat k + 8) by lia.
    rewrite Z.pow_add_r by lia. change (2 ^ 8) with 256. ring.
Qed.

Lemma be_bytes_be_value l : are_bytes l -> be_bytes (length l) (be_value l) = l.
Proof.
  induction 1 as [|b l Hb Hl IH]; [done|].
  cbn [length be_bytes be_value]. unfold is_u8 in Hb.
  pose proof (be_value_range l Hl) as Hr. unfold slen in *.
  f_equal.
  - rewrite Z.add_comm, Z.div_add by lia.
    rewrite Z.div_small by lia. apply Z.mod_small. lia.
  - rewrite Z.add_comm, be_bytes_add_high. done.
Qed.

Lemma are_bytes_app l1 l2 : are_bytes (l1 ++ l2) <-> are_bytes l1 /\ are_bytes l2.
Proof. apply Forall_app. Qed.

Lemma are_bytes_drop n l : are_bytes l -> are_bytes (drop n l).
Proof. apply Forall_drop. Qed.

Lemma are_bytes_take n l : are_bytes l -> are_bytes (take n l).
Proof. apply Forall_take. Qed.

Create HintDb rust.
Create Rewrite HintDb rust.
#[export] Hint Resolve slen_nonneg are_bytes_be_bytes are_bytes_drop are_bytes_take : rust.
#[export] Hint Rewrite @slen_nil @slen_cons @slen_app slen_be_bytes : rust.
