(* ===== verification/Utf8.v ===== *)
(** * UTF-8 in the standard library of Rust

    [from_utf8] is [str::from_utf8] and [CStr::to_str]: whether bytes are UTF-8.
    [from_utf8_lossy] puts U+FFFD for what is not: [get_connection_error] does this to the
    reason that the peer gave. Both go through the chunks of [Utf8Chunks]: a character, or
    the longest prefix of the rest that starts one and does not end it. *)
From S2P Require Import Prelude.

Module Utf8.

(** ** Definitions *)

(** [utf8_char_width]: 0 where no character begins. *)
Definition utf8_char_width (b : Z) : Z :=
  if b <? 0x80 then 1 else if b <? 0xC2 then 0 else if b <? 0xE0 then 2
  else if b <? 0xF0 then 3 else if b <? 0xF5 then 4 else 0.

Definition between (a b x : Z) : bool := (a <=? x) && (x <=? b).
Definition continues (b : Z) : bool := between 0x80 0xBF b.

(** The second byte excludes what is encoded shorter, the surrogates, and what is beyond
    the last character. *)
Definition second_of_3 (b b1 : Z) : bool :=
  between 0x80 0xBF b1 &&
  (if b =? 0xE0 then 0xA0 <=? b1 else if b =? 0xED then b1 <=? 0x9F else true).
Definition second_of_4 (b b1 : Z) : bool :=
  between 0x80 0xBF b1 &&
  (if b =? 0xF0 then 0x90 <=? b1 else if b =? 0xF4 then b1 <=? 0x8F else true).

(** 0 past the end *)
Definition safe_get (l : bytes) (i : nat) : Z := default 0 (l !! i).

(** Whether the first chunk is a character, and its length. *)
Definition scan (l : bytes) : bool * nat :=
  let b := safe_get l 0 in
  match utf8_char_width b with
  | 1 => (true, 1%nat)
  | 2 => if continues (safe_get l 1) then (true, 2%nat) else (false, 1%nat)
  | 3 =>
      if negb (second_of_3 b (safe_get l 1)) then (false, 1%nat) else
      if negb (continues (safe_get l 2)) then (false, 2%nat) else (true, 3%nat)
  | 4 =>
      if negb (second_of_4 b (safe_get l 1)) then (false, 1%nat) else
      if negb (continues (safe_get l 2)) then (false, 2%nat) else
      if negb (continues (safe_get l 3)) then (false, 3%nat) else (true, 4%nat)
  | _ => (false, 1%nat)
  end.

Fixpoint chunks (fuel : nat) (l : bytes) : list (bool * bytes) :=
  match fuel, l with
  | S fuel, _ :: _ =>
      let '(ok, n) := scan l in (ok, take n l) :: chunks fuel (drop n l)
  | _, _ => []
  end.

Definition REPLACEMENT : bytes := [0xEF; 0xBF; 0xBD].

Definition from_utf8 (l : bytes) : bool := forallb fst (chunks (length l) l).
Definition from_utf8_lossy (l : bytes) : bytes :=
  concat (map (fun c : bool * bytes => if c.1 then c.2 else REPLACEMENT) (chunks (length l) l)).

(** ** What UTF-8 is (RFC 3629): the encodings of the scalar values *)

Definition scalar (c : Z) : Prop := 0 <= c < 0xD800 \/ 0xE000 <= c < 0x110000.
Definition encode (c : Z) : bytes :=
  if c <? 0x80 then [c]
  else if c <? 0x800 then [0xC0 + c / 64; 0x80 + c mod 64]
  else if c <? 0x10000 then [0xE0 + c / 4096; 0x80 + c / 64 mod 64; 0x80 + c mod 64]
  else [0xF0 + c / 262144; 0x80 + c / 4096 mod 64; 0x80 + c / 64 mod 64; 0x80 + c mod 64].
Definition is_utf8 (l : bytes) : Prop := exists cs, Forall scalar cs /\ l = concat (map encode cs).

(** ** One character *)

Ltac arith := Z.to_euclidean_division_equations; lia.
Ltac comparisons :=
  repeat match goal with
  | |- context [?a <? ?b] => destruct (Z.ltb_spec a b); try arith
  | |- context [?a <=? ?b] => destruct (Z.leb_spec a b); try arith
  | |- context [?a =? ?b] => destruct (Z.eqb_spec a b); try arith
  end; try done.

Lemma scan_encode c r : scalar c -> scan (encode c ++ r) = (true, length (encode c)).
Proof.
  unfold scalar, encode, scan, utf8_char_width, continues, second_of_3, second_of_4, between.
  intros Hc. destruct (Z.ltb_spec c 0x80); [|destruct (Z.ltb_spec c 0x800); [|
    destruct (Z.ltb_spec c 0x10000)]]; unfold safe_get; cbn -[Z.add Z.div Z.modulo Z.ltb Z.leb Z.eqb];
  comparisons.
Qed.

Lemma scan_pos l : (1 <= (scan l).2)%nat.
Proof.
  unfold scan. repeat case_match; cbn; lia.
Qed.

(** The scalar value of two, three and four bytes *)
Lemma encode_2 b b1 : 0xC2 <= b <= 0xDF -> 0x80 <= b1 <= 0xBF ->
  exists c, scalar c /\ encode c = [b; b1].
Proof.
  intros Hb H1. exists ((b - 0xC0) * 64 + (b1 - 0x80)). split; [unfold scalar; lia|].
  unfold encode. comparisons. repeat f_equal; arith.
Qed.
Lemma encode_3 b b1 b2 : 0xE0 <= b <= 0xEF -> second_of_3 b b1 = true -> 0x80 <= b2 <= 0xBF ->
  exists c, scalar c /\ encode c = [b; b1; b2].
Proof.
  unfold second_of_3, between. intros Hb H1 H2.
  exists ((b - 0xE0) * 4096 + (b1 - 0x80) * 64 + (b2 - 0x80)).
  assert (0x80 <= b1 <= 0xBF /\ (b = 0xE0 -> 0xA0 <= b1) /\ (b = 0xED -> b1 <= 0x9F)) as (H3 & H4 & H5).
  { destruct (Z.eqb_spec b 0xE0), (Z.eqb_spec b 0xED); lia. }
  split; [unfold scalar; lia|]. unfold encode. comparisons. repeat f_equal; arith.
Qed.
Lemma encode_4 b b1 b2 b3 :
  0xF0 <= b <= 0xF4 -> second_of_4 b b1 = true -> 0x80 <= b2 <= 0xBF -> 0x80 <= b3 <= 0xBF ->
  exists c, scalar c /\ encode c = [b; b1; b2; b3].
Proof.
  unfold second_of_4, between. intros Hb H1 H2 H3.
  exists ((b - 0xF0) * 262144 + (b1 - 0x80) * 4096 + (b2 - 0x80) * 64 + (b3 - 0x80)).
  assert (0x80 <= b1 <= 0xBF /\ (b = 0xF0 -> 0x90 <= b1) /\ (b = 0xF4 -> b1 <= 0x8F)) as (H4 & H5 & H6).
  { destruct (Z.eqb_spec b 0xF0), (Z.eqb_spec b 0xF4); lia. }
  split; [unfold scalar; lia|]. unfold encode. comparisons. repeat f_equal; arith.
Qed.

Lemma continues_range b : continues b = true -> 0x80 <= b <= 0xBF.
Proof. unfold continues, between. lia. Qed.

Lemma scan_decode b l n : is_u8 b -> scan (b :: l) = (true, n) ->
  exists c, scalar c /\ take n (b :: l) = encode c.
Proof.
  intros Hb. unfold scan. change (safe_get (b :: l) 0) with b.
  assert (b < 0x80 /\ utf8_char_width b = 1 \/ 0xC2 <= b <= 0xDF /\ utf8_char_width b = 2 \/
    0xE0 <= b <= 0xEF /\ utf8_char_width b = 3 \/ 0xF0 <= b <= 0xF4 /\ utf8_char_width b = 4 \/
    utf8_char_width b = 0) as Hw.
  { unfold utf8_char_width. comparisons; lia. }
  destruct Hw as [[Hr ->]|[[Hr ->]|[[Hr ->]|[[Hr ->]| ->]]]]; [..|done].
  - intros [= <-]. exists b. unfold is_u8 in Hb. split; [unfold scalar; lia|].
    unfold encode. by comparisons.
  - destruct l as [|b1 l]; [done|]. change (safe_get (b :: b1 :: l) 1) with b1.
    destruct (continues b1) eqn:E1; intros [= <-]. apply continues_range in E1.
    destruct (encode_2 _ _ Hr E1) as (c & Hc & E). exists c. by rewrite E.
  - destruct l as [|b1 [|b2 l]]; unfold safe_get; cbn -[second_of_3];
      [by destruct (second_of_3 _ _)..|].
    destruct (second_of_3 b b1) eqn:E1; [|done]. destruct (continues b2) eqn:E2; [|done].
    intros [= <-]. apply continues_range in E2.
    destruct (encode_3 _ _ _ Hr E1 E2) as (c & Hc & E). exists c. by rewrite E.
  - destruct l as [|b1 [|b2 [|b3 l]]]; unfold safe_get; cbn -[second_of_4 continues];
      [by destruct (second_of_4 _ _)|by destruct (second_of_4 _ _)|
       by destruct (second_of_4 _ _), (continues b2)|].
    destruct (second_of_4 b b1) eqn:E1; [|done]. destruct (continues b2) eqn:E2; [|done].
    destruct (continues b3) eqn:E3; [|done].
    intros [= <-]. apply continues_range in E2, E3.
    destruct (encode_4 _ _ _ _ Hr E1 E2 E3) as (c & Hc & E). exists c. by rewrite E.
Qed.

(** ** Chunks *)

Lemma encode_pos c : (1 <= length (encode c))%nat.
Proof. unfold encode. repeat case_match; cbn; lia. Qed.

Lemma chunks_concat fuel l : (length l <= fuel)%nat -> concat (map snd (chunks fuel l)) = l.
Proof.
  revert l. induction fuel as [|fuel IH]; intros [|b l] Hl; try done; [cbn in Hl; lia|].
  cbn [chunks]. pose proof (scan_pos (b :: l)) as Hp. destruct (scan (b :: l)) as [ok n].
  cbn [map concat snd] in *. rewrite IH; [apply take_drop|]. rewrite length_drop. cbn in *. lia.
Qed.

Lemma chunks_sound fuel l : are_bytes l ->
  Forall (fun c => c.1 = true -> exists x, scalar x /\ c.2 = encode x) (chunks fuel l).
Proof.
  revert l. induction fuel as [|fuel IH]; intros [|b l] Hl; try constructor.
  cbn [chunks]. destruct (scan (b :: l)) as [ok n] eqn:E. constructor; [|by apply IH, are_bytes_drop].
  cbn. intros ->. apply Forall_cons in Hl as [Hb _]. destruct (scan_decode _ _ _ Hb E) as (c & ? & ?).
  by exists c.
Qed.

Lemma chunks_encode cs fuel :
  Forall scalar cs -> (length (concat (map encode cs)) <= fuel)%nat ->
  chunks fuel (concat (map encode cs)) = map (fun c => (true, encode c)) cs.
Proof.
  intros Hcs. revert fuel. induction Hcs as [|c cs Hc Hcs IH]; intros fuel Hf; [by destruct fuel|].
  cbn [map concat] in *. rewrite length_app in Hf. pose proof (encode_pos c) as Hl.
  pose proof (scan_encode c (concat (map encode cs)) Hc) as Hs.
  destruct (encode c) as [|b e] eqn:E; [cbn in Hl; lia|].
  destruct fuel as [|fuel]; [cbn in *; lia|]. cbn [app chunks]. cbn [app] in Hs. rewrite Hs.
  change (b :: e ++ ?r) with ((b :: e) ++ r). rewrite take_app_length, drop_app_length.
  f_equal. apply IH. cbn in *. lia.
Qed.

(** ** Theorems *)

Theorem from_utf8_iff l : are_bytes l -> from_utf8 l = true <-> is_utf8 l.
Proof.
  intros Hl. unfold from_utf8. split.
  - intros H%Is_true_eq_left%forallb_True. pose proof (chunks_sound (length l) l Hl) as Hs.
    rewrite <- (chunks_concat (length l) l) by done. revert H Hs. generalize (chunks (length l) l).
    induction 1 as [|[ok x] cs Hok _ IH]; intros Hs; [by exists []|].
    apply Forall_cons in Hs as [Hx Hs]. destruct (IH Hs) as (xs & Hxs & E).
    destruct (Hx ltac:(by destruct ok)) as (c & Hc & Ec). exists (c :: xs).
    split; [by constructor|]. cbn [map concat snd] in *. rewrite Ec, E. done.
  - intros (cs & Hcs & ->). rewrite chunks_encode by done. clear. by induction cs.
Qed.

Lemma replacement_encode : REPLACEMENT = encode 0xFFFD.
Proof. done. Qed.

(** What is made of any bytes is UTF-8, and UTF-8 stays as it is. *)
Theorem from_utf8_lossy_utf8 l : are_bytes l -> is_utf8 (from_utf8_lossy l).
Proof.
  intros Hl. unfold from_utf8_lossy. pose proof (chunks_sound (length l) l Hl) as Hs.
  revert Hs. generalize (chunks (length l) l) as cs. intros cs.
  induction 1 as [|[ok x] cs Hx _ (xs & Hxs & E)]; [by exists []|].
  destruct ok; cbn in *.
  - destruct (Hx eq_refl) as (c & Hc & ->). exists (c :: xs). cbn. rewrite E. by split; [constructor|].
  - exists (0xFFFD :: xs). cbn [map concat]. rewrite E, <- replacement_encode.
    split; [constructor; [unfold scalar; lia|done]|done].
Qed.

Theorem from_utf8_lossy_id l : is_utf8 l -> from_utf8_lossy l = l.
Proof.
  intros (cs & Hcs & ->). unfold from_utf8_lossy. rewrite chunks_encode by done.
  rewrite map_map. cbn. done.
Qed.
End Utf8.
