(* ===== verification/Varint.v ===== *)
(** * QUIC variable-length integers (src/ngtcp2/src/varint.rs)

    [encoded_len], [encode], [encode_to_vec] and [decode], with the round trip,
    the canonical length, the panics and the bounds. *)
From S2P Require Import Prelude.

Module Varint.
Local Open Scope rust_scope.

(** ** Definitions *)

Definition MAX : Z := Z.shiftl 1 62 - 1.

Definition encoded_len (n : Z) : Z :=
  if n <? 64 then 1
  else if n <? 16384 then 2
  else if n <? 1073741824 then 4
  else 8.

(** The bytes each arm of the [match len] of [encode] writes. *)
Definition encode_word (n : Z) : bytes :=
  let len := encoded_len n in
  if len =? 1 then [as_u8 n]
  else if len =? 2 then be_bytes 2 (Z.lor (as_u16 n) 0x4000)
  else if len =? 4 then be_bytes 4 (Z.lor (as_u32 n) 0x80000000)
  else be_bytes 8 (Z.lor n 0xc000000000000000).

(** [encode buf n]: the buffer after the call and the number of bytes written.
    The two [assert!]s are the two panics. *)
Definition encode (buf : bytes) (n : Z) : outcome (bytes * Z) :=
  if negb (n <=? MAX) then Panic
  else
    let len := encoded_len n in
    if negb (len <=? slen buf) then Panic
    else Ret (encode_word n ++ drop (Z.to_nat len) buf, len).

(** [buf.resize(start + len, 0); encode(&mut buf[start..], n)] *)
Definition encode_to_vec (n : Z) (buf : bytes) : outcome bytes :=
  let len := encoded_len n in
  let start := length buf in
  let resized := buf ++ replicate (Z.to_nat len) 0 in
  match encode (drop start resized) n with
  | Ret (tail, _) => Ret (take start resized ++ tail)
  | Panic => Panic
  end.

Definition decode (buf : bytes) : option (Z * Z) :=
  let? first := head buf in
  let len := Z.shiftl 1 (Z.shiftr first 6) in
  if slen buf <? len then None
  else
    let value :=
      if len =? 1 then first
      else if len =? 2 then Z.land (be_value (take 2 buf)) 0x3fff
      else if len =? 4 then Z.land (be_value (take 4 buf)) 0x3fffffff
      else Z.land (be_value (take 8 buf)) 0x3fffffffffffffff in
    Some (value, len).

(** ** Lemmas *)

Lemma MAX_val : MAX = 4611686018427387903.
Proof. reflexivity. Qed.

Lemma encoded_len_cases n :
  (n < 64 /\ encoded_len n = 1) \/
  (64 <= n < 16384 /\ encoded_len n = 2) \/
  (16384 <= n < 1073741824 /\ encoded_len n = 4) \/
  (1073741824 <= n /\ encoded_len n = 8).
Proof. unfold encoded_len. bool_cases; lia. Qed.

Ltac len_cases n :=
  destruct (encoded_len_cases n) as [[? Hlen]|[[? Hlen]|[[? Hlen]|[? Hlen]]]].

Ltac eval_log2 :=
  change (Z.log2 1) with 0; change (Z.log2 2) with 1;
  change (Z.log2 4) with 2; change (Z.log2 8) with 3.

Lemma encoded_len_range n : 1 <= encoded_len n <= 8.
Proof. len_cases n; lia. Qed.

(** A tag in bits the value does not use is added to it. *)
Lemma lor_tag n k t :
  0 <= n < 2 ^ k -> 0 <= k -> Z.lor n (t * 2 ^ k) = n + t * 2 ^ k.
Proof.
  intros Hn Hk. rewrite <- Z.add_lor_land.
  replace (Z.land n (t * 2 ^ k)) with 0; [lia|].
  symmetry. apply Z.bits_inj'. intros i Hi.
  rewrite Z.land_spec, Z.bits_0.
  destruct (Z.lt_ge_cases i k).
  - rewrite Z.mul_pow2_bits_low by lia. apply andb_false_r.
  - rewrite <- (Z.mod_small n (2 ^ k)) by lia.
    by rewrite Z.mod_pow2_bits_high by lia.
Qed.

Lemma slen_encode_word n : slen (encode_word n) = encoded_len n.
Proof. unfold encode_word. len_cases n; rewrite Hlen; reflexivity. Qed.

(** The encoding is the tagged big-endian integer of its length. *)
Lemma encode_word_value n :
  0 <= n <= MAX ->
  encode_word n =
    be_bytes (Z.to_nat (encoded_len n))
      (n + Z.log2 (encoded_len n) * 2 ^ (8 * encoded_len n - 2)).
Proof.
  rewrite MAX_val. intros Hn. unfold encode_word, as_u8, as_u16, as_u32.
  len_cases n; rewrite Hlen; cbn -[be_bytes Z.lor Z.modulo].
  - change (Z.to_nat 1) with 1%nat. cbn [be_bytes]. change (2 ^ 8) with 256.
    do 2 f_equal. change (2 ^ (8 * Z.of_nat 0)) with 1. rewrite Z.mul_0_l, Z.add_0_r, Z.div_1_r. done.
  - rewrite Z.mod_small by lia. change 0x4000 with (1 * 2 ^ 14).
    rewrite lor_tag by lia. reflexivity.
  - rewrite Z.mod_small by lia. change 0x80000000 with (2 * 2 ^ 30).
    rewrite lor_tag by lia. reflexivity.
  - change 0xc000000000000000 with (3 * 2 ^ 62).
    rewrite lor_tag by lia. reflexivity.
Qed.

Lemma are_bytes_encode_word n : 0 <= n <= MAX -> are_bytes (encode_word n).
Proof. intros. rewrite encode_word_value by done. apply are_bytes_be_bytes. Qed.

Lemma land_ones_14 v : Z.land v 0x3fff = v mod 2 ^ 14.
Proof. change 0x3fff with (Z.ones 14). apply Z.land_ones. lia. Qed.
Lemma land_ones_30 v : Z.land v 0x3fffffff = v mod 2 ^ 30.
Proof. change 0x3fffffff with (Z.ones 30). apply Z.land_ones. lia. Qed.
Lemma land_ones_62 v : Z.land v 0x3fffffffffffffff = v mod 2 ^ 62.
Proof. change 0x3fffffffffffffff with (Z.ones 62). apply Z.land_ones. lia. Qed.

(** [decode] on a non-empty buffer, with the prefix as a power of two and the
    mask as a remainder. *)
Lemma decode_eq b l :
  is_u8 b ->
  decode (b :: l) =
    let len := 2 ^ (b / 64) in
    if slen (b :: l) <? len then None
    else Some (be_value (take (Z.to_nat len) (b :: l)) mod 2 ^ (8 * len - 2), len).
Proof.
  intros Hb. unfold is_u8 in Hb. unfold decode. cbn [head].
  rewrite Z.shiftr_div_pow2 by lia. change (2 ^ 6) with 64.
  rewrite Z.shiftl_mul_pow2, Z.mul_1_l by (apply Z.div_pos; lia).
  destruct (slen (b :: l) <? 2 ^ (b / 64)); [done|].
  rewrite land_ones_14, land_ones_30, land_ones_62. cbv zeta.
  assert (b / 64 = 0 \/ b / 64 = 1 \/ b / 64 = 2 \/ b / 64 = 3) as Hq by lia.
  destruct Hq as [Hq|[Hq|[Hq|Hq]]]; rewrite Hq; [|reflexivity..].
  change (2 ^ 0) with 1. change (take (Z.to_nat 1) (b :: l)) with [b].
  change (8 * 1 - 2) with 6. change (be_value [b]) with (b * 1 + 0).
  change (1 =? 1) with true. cbv iota. do 2 f_equal.
  rewrite Z.mod_small; lia.
Qed.

(** The first byte of an encoding carries the length in its top two bits. *)
Lemma encode_word_head n :
  0 <= n <= MAX ->
  exists b l, encode_word n = b :: l /\ is_u8 b /\ 2 ^ (b / 64) = encoded_len n.
Proof.
  intros Hn. rewrite encode_word_value by done. rewrite MAX_val in Hn.
  unfold is_u8.
  len_cases n; rewrite Hlen; eexists _, _; (split; [reflexivity|]);
    eval_log2; eval_pow2;
    (split; [lia|]);
    match goal with |- 2 ^ ?e = ?r =>
      let k := eval vm_compute in (Z.log2 r) in replace e with k by lia
    end; reflexivity.
Qed.

Lemma decode_encode_word n rest :
  0 <= n <= MAX -> decode (encode_word n ++ rest) = Some (n, encoded_len n).
Proof.
  intros Hn. destruct (encode_word_head n Hn) as (b & l & Heq & Hb & Hp).
  rewrite Heq. cbn [app]. rewrite decode_eq by done. cbv zeta. rewrite Hp.
  change (b :: l ++ rest) with ((b :: l) ++ rest). rewrite <- Heq.
  rewrite slen_app, slen_encode_word. pose proof (slen_nonneg rest).
  destruct (Z.ltb_spec (encoded_len n + slen rest) (encoded_len n)); [lia|].
  do 2 f_equal.
  rewrite take_app_length'.
  2:{ pose proof (slen_encode_word n). unfold slen in *. lia. }
  rewrite encode_word_value by done. rewrite MAX_val in Hn.
  rewrite be_value_be_bytes by (len_cases n; rewrite Hlen; cbn; lia).
  len_cases n; rewrite Hlen; eval_log2; eval_pow2; lia.
Qed.

Lemma decode_bounds b (x len : Z) :
  is_u8 b -> len = 2 ^ (b / 64) -> 0 <= x mod 2 ^ (8 * len - 2) <= MAX.
Proof.
  unfold is_u8. rewrite MAX_val. intros Hb ->.
  assert (b / 64 = 0 \/ b / 64 = 1 \/ b / 64 = 2 \/ b / 64 = 3) as Hq by lia.
  destruct Hq as [Hq|[Hq|[Hq|Hq]]]; rewrite Hq; eval_pow2; lia.
Qed.

(** What [decode] can return. *)
Lemma decode_Some buf v len :
  are_bytes buf -> decode buf = Some (v, len) ->
  0 <= v <= MAX /\ len ∈ [1; 2; 4; 8] /\ encoded_len v <= len <= slen buf.
Proof.
  destruct buf as [|b l]; [done|]. intros Hbs.
  pose proof (Forall_inv Hbs) as Hb. rewrite decode_eq by done.
  cbv zeta. destruct (Z.ltb_spec (slen (b :: l)) (2 ^ (b / 64))) as [|Hlt]; [done|].
  intros [= <- <-].
  split; [by apply (decode_bounds b)|]. unfold is_u8 in Hb.
  remember (be_value _) as x. remember (slen _) as s. clear Heqx Heqs Hbs.
  assert (b / 64 = 0 \/ b / 64 = 1 \/ b / 64 = 2 \/ b / 64 = 3) as Hq by lia.
  unfold encoded_len.
  destruct Hq as [Hq|[Hq|[Hq|Hq]]]; rewrite Hq in *; clear Hq; eval_pow2;
    (split; [set_solver|]); bool_cases; lia.
Qed.

(** A decoded encoding of canonical length is the encoding of the value. *)
Lemma decode_canonical buf v len :
  are_bytes buf -> decode buf = Some (v, len) -> encoded_len v = len ->
  take (Z.to_nat len) buf = encode_word v.
Proof.
  destruct buf as [|b l]; [done|]. intros Hbs.
  pose proof (Forall_inv Hbs) as Hb. rewrite decode_eq by done.
  cbv zeta. destruct (Z.ltb_spec (slen (b :: l)) (2 ^ (b / 64))); [done|].
  intros [= <- <-] Hc.
  set (len := 2 ^ (b / 64)) in *. set (w := take (Z.to_nat len) (b :: l)) in *.
  unfold is_u8 in Hb.
  assert (0 < len) as Hpos by (apply Z.pow_pos_nonneg; lia).
  assert (slen w = len) as Hw by (apply slen_take; lia).
  assert (are_bytes w) as Hwb by (by apply are_bytes_take).
  pose proof (be_bytes_be_value w Hwb) as Hbe.
  replace (length w) with (Z.to_nat len) in Hbe by (unfold slen in Hw; lia).
  assert (exists l', w = b :: l' /\ slen l' = len - 1 /\ are_bytes l') as (l' & Hl' & Hs & Hb').
  { exists (take (Z.to_nat (len - 1)) l). unfold w.
    replace (Z.to_nat len) with (S (Z.to_nat (len - 1))) by lia.
    rewrite slen_cons in *. split; [done|]. split; [apply slen_take; lia|].
    apply are_bytes_take. by apply Forall_inv_tail in Hbs. }
  assert (0 <= be_value w mod 2 ^ (8 * len - 2) <= MAX) as Hv.
  { by apply (decode_bounds b). }
  rewrite encode_word_value, Hc by done. rewrite <- Hbe at 1. f_equal.
  pose proof (be_value_range l' Hb') as Hr. rewrite Hs in Hr.
  rewrite Hl'. cbn [be_value]. rewrite Hs.
  assert (b / 64 = 0 \/ b / 64 = 1 \/ b / 64 = 2 \/ b / 64 = 3) as Hq by lia.
  subst len.
  destruct Hq as [Hq|[Hq|[Hq|Hq]]]; rewrite Hq in *; eval_pow2; eval_log2; lia.
Qed.

(** ** Properties *)

(** C38: encoding a value and decoding the buffer gives the value back, whatever
    follows it, and consumes exactly the bytes written; [encode] touches only the
    bytes it counts. *)
Theorem encode_decode_roundtrip (buf : bytes) (n : Z)
    (Hn : 0 <= n <= MAX) (Hbuf : encoded_len n <= slen buf) :
  exists w, length w = Z.to_nat (encoded_len n) /\
    encode buf n = Ret (w ++ drop (length w) buf, encoded_len n) /\
    decode (w ++ drop (length w) buf) = Some (n, encoded_len n).
Proof.
  exists (encode_word n).
  assert (length (encode_word n) = Z.to_nat (encoded_len n)) as Hl.
  { pose proof (slen_encode_word n). unfold slen in *. lia. }
  split; [done|]. rewrite Hl. split; [|by apply decode_encode_word].
  unfold encode.
  destruct (Z.leb_spec n MAX); [|lia]. cbn [negb].
  destruct (Z.leb_spec (encoded_len n) (slen buf)); [|lia]. done.
Qed.

Lemma encode_decode_roundtrip_witness :
  exists w, length w = 2%nat /\
    encode [0; 0; 7] 15293 = Ret (w ++ drop (length w) [0; 0; 7], 2) /\
    decode (w ++ drop (length w) [0; 0; 7]) = Some (15293, 2).
Proof. apply (encode_decode_roundtrip [0; 0; 7] 15293); [vm_compute; split; discriminate|vm_compute; discriminate]. Defined.

(** [encode] panics exactly on a value above [MAX] or a short buffer, and
    [encode_to_vec] exactly on a value above [MAX]; otherwise it appends the
    encoding, which is as long as [encoded_len] says, and keeps the contents of
    the vector. *)
Theorem encode_panics (buf : bytes) (n : Z) :
  (encode buf n = Panic <-> MAX < n \/ slen buf < encoded_len n) /\
  (encode_to_vec n buf = Panic <-> MAX < n) /\
  (n <= MAX ->
    encode_to_vec n buf = Ret (buf ++ encode_word n) /\
    slen (encode_word n) = encoded_len n).
Proof.
  assert (forall b, encode b n = Panic <-> MAX < n \/ slen b < encoded_len n) as He.
  { intros b. unfold encode. bool_cases; cbn [negb]; split; naive_solver lia. }
  set (z := replicate (Z.to_nat (encoded_len n)) 0).
  assert (slen z = encoded_len n) as Hz.
  { unfold z, slen. rewrite length_replicate.
    pose proof (encoded_len_range n). lia. }
  assert (n <= MAX -> encode z n = Ret (encode_word n, encoded_len n)) as Hok.
  { intros Hn. unfold encode. bool_cases; cbn [negb]; try lia.
    rewrite drop_ge, app_nil_r; [done|]. unfold slen in Hz. lia. }
  split; [done|]. unfold encode_to_vec. fold z.
  rewrite drop_app_length, take_app_length. pose proof (He z) as Hez. split.
  - destruct (Z.le_gt_cases n MAX) as [Hn|Hn].
    + rewrite Hok by done. split; [done|lia].
    + rewrite (proj2 Hez) by auto. split; [lia|done].
  - intros Hn. rewrite Hok by done. split; [done|]. apply slen_encode_word.
Qed.

Lemma encode_panics_witness :
  encode_to_vec 64 [1; 2] = Ret ([1; 2] ++ encode_word 64) /\
  slen (encode_word 64) = 2 /\ encode_word 64 = [64; 64].
Proof.
  destruct (encode_panics [1; 2] 64) as (_ & _ & H).
  destruct H as [H1 H2]; [vm_compute; discriminate|].
  exact (conj H1 (conj H2 eq_refl)).
Defined.

(** [decode] fails only on an empty buffer or one shorter than the length its
    first byte announces; what it returns is in the range of the format, consumes
    1, 2, 4 or 8 bytes that are in the buffer and at least as many as the shortest
    encoding, and when it consumes that many, encoding the value again gives the
    bytes consumed. *)
Theorem decode_sound (buf : bytes) (Hb : are_bytes buf) :
  (decode buf = None <->
     buf = [] \/ exists b, head buf = Some b /\ slen buf < 2 ^ (b / 64)) /\
  forall v len, decode buf = Some (v, len) ->
    0 <= v <= MAX /\ len ∈ [1; 2; 4; 8] /\ encoded_len v <= len <= slen buf /\
    (encoded_len v = len -> take (Z.to_nat len) buf = encode_word v).
Proof.
  split.
  - destruct buf as [|b l]; [split; [by left|done]|].
    rewrite decode_eq by (by apply Forall_inv in Hb). cbv zeta. cbn [head].
    bool_cases; split; try done.
    + intros _. right. by exists b.
    + intros [|(b' & [= <-] & ?)]; [done|lia].
  - intros v len Hd. destruct (decode_Some buf v len Hb Hd) as (?&?&?).
    do 3 (split; [done|]). intros. by apply decode_canonical.
Qed.

Lemma decode_sound_witness :
  decode [0x40; 0x19] = Some (25, 2) /\ (0 <= 25 <= MAX) /\
  decode [0x7b; 0xbd; 7] = Some (15293, 2) /\
  take (Z.to_nat 2) [0x7b; 0xbd; 7] = encode_word 15293.
Proof.
  assert (are_bytes [0x7b; 0xbd; 7]) as Hb by (solve_bytes).
  assert (are_bytes [0x40; 0x19]) as Hb' by (solve_bytes).
  split; [reflexivity|]. split; [|split; [reflexivity|]].
  - apply (proj2 (decode_sound _ Hb') 25 2 eq_refl).
  - apply (proj2 (decode_sound _ Hb) 15293 2 eq_refl). reflexivity.
Defined.
End Varint.
