(* ===== verification/Packet.v ===== *)
(** * Splitting a buffer into QUIC packets (src/ngtcp2/src/packet.rs)

    [packet_len] and [split_packets]: the split loses nothing and terminates, and
    it recovers the packets of a coalesced datagram of QUIC version 1. *)
From S2P Require Import Prelude Varint.

Module Packet.
Local Open Scope rust_scope.

(** ** Definitions *)

(** [usize::try_from] of a [u64] cannot fail where [usize] has 64 bits. *)
Definition packet_len (buf : bytes) : option Z :=
  let? first := head buf in
  if Z.land first 0x80 =? 0 then Some (slen buf)
  else
    let? v := slice buf 1 5 in
    let version := be_value v in
    if version =? 0 then Some (slen buf)
    else
      let pos := 5 in
      let? dcid_len := get buf pos in
      let? pos := checked_add pos 1 in
      let? pos := checked_add pos dcid_len in
      let? scid_len := get buf pos in
      let? pos := checked_add pos 1 in
      let? pos := checked_add pos scid_len in
      let packet_type := Z.shiftr (Z.land first 0x30) 4 in
      if packet_type =? 3 then Some (slen buf)
      else
        let? pos :=
          (if packet_type =? 0 then
             let? tail := slice_from buf pos in
             let? (token_len, len) := Varint.decode tail in
             let? pos := checked_add pos len in
             checked_add pos token_len
           else Some pos) in
        let? tail := slice_from buf pos in
        let? (length, len) := Varint.decode tail in
        let? pos := checked_add pos len in
        let? end_ := checked_add pos length in
        if end_ <=? slen buf then Some end_ else None.

(** [slice::split_at], which panics out of range. *)
Definition split_at (l : bytes) (n : Z) : outcome (bytes * bytes) :=
  if (0 <=? n) && (n <=? slen l)
  then Ret (take (Z.to_nat n) l, drop (Z.to_nat n) l) else Panic.

(** The [while] loop, a turn per unit of fuel; [None] when the fuel runs out. *)
Fixpoint split_loop (fuel : nat) (packets : list bytes) (rest : bytes)
    : option (outcome (list bytes)) :=
  match rest with
  | [] => Some (Ret packets)
  | _ :: _ =>
      match fuel with
      | O => None
      | S fuel =>
          match packet_len rest with
          | None => Some (Ret (packets ++ [rest]))
          | Some len =>
              match split_at rest len with
              | Panic => Some Panic
              | Ret (packet, tail) => split_loop fuel (packets ++ [packet]) tail
              end
          end
      end
  end.

Definition split_packets (buf : bytes) : option (outcome (list bytes)) :=
  split_loop (length buf) [] buf.

(** A QUIC version 1 packet with a long header and a Length field, as RFC 9000
    section 17.2 lays it out: what a peer or ngtcp2 writes. *)
Record long_packet := {
  lp_first : Z; lp_version : Z; lp_dcid : bytes; lp_scid : bytes;
  lp_token : bytes; lp_payload : bytes }.

Definition lp_type (p : long_packet) : Z := Z.shiftr (Z.land (lp_first p) 0x30) 4.

Definition lp_header (p : long_packet) : bytes :=
  lp_first p :: be_bytes 4 (lp_version p) ++
  slen (lp_dcid p) :: lp_dcid p ++ slen (lp_scid p) :: lp_scid p.

Definition lp_token_field (p : long_packet) : bytes :=
  if lp_type p =? 0 then Varint.encode_word (slen (lp_token p)) ++ lp_token p else [].

Definition write_long (p : long_packet) : bytes :=
  lp_header p ++ lp_token_field p ++
  Varint.encode_word (slen (lp_payload p)) ++ lp_payload p.

Record lp_ok (p : long_packet) : Prop := {
  ok_first : Z.land (lp_first p) 0x80 <> 0;
  ok_type : lp_type p <> 3;
  ok_version : 0 < lp_version p < 2 ^ 32;
  ok_token : slen (lp_token p) <= Varint.MAX;
  ok_payload : slen (lp_payload p) <= Varint.MAX;
  ok_dcid : slen (lp_dcid p) < 256;
  ok_scid : slen (lp_scid p) < 256 }.

(** ** Lemmas *)

Lemma packet_len_range buf n :
  are_bytes buf -> packet_len buf = Some n -> 0 < n <= slen buf.
Proof.
  intros Hb. destruct buf as [|b l]; [done|].
  assert (0 < slen (b :: l)) as Hpos by (rewrite slen_cons; pose proof (slen_nonneg l); lia).
  remember (b :: l) as buf. unfold packet_len.
  assert (forall i x, get buf i = Some x -> 0 <= x) as Hget.
  { unfold get. intros i x. destruct (i <? 0); [done|]. intros Hx.
    pose proof (Forall_lookup_1 _ _ _ _ Hb Hx) as Hu. unfold is_u8 in Hu. lia. }
  assert (forall i tail v len, slice_from buf i = Some tail ->
    Varint.decode tail = Some (v, len) -> 0 <= v /\ 0 < len) as Hvar.
  { intros i tail v len [_ ->]%slice_from_Some Hd.
    apply Varint.decode_Some in Hd as (?&?&?); [|by apply are_bytes_drop].
    pose proof (Varint.encoded_len_range v). lia. }
  repeat (case_match; try done); intros [= <-]; try lia;
    repeat match goal with
    | H : checked_add _ _ = Some _ |- _ => apply checked_add_Some in H as [? _]
    | H : (match _ with _ => _ end) = Some _ |- _ => repeat (case_match; try done)
    | H1 : slice_from buf ?i = Some ?t, H2 : Varint.decode ?t = Some _ |- _ =>
        apply (Hvar i t) in H2; [|exact H1]; clear H1
    | H : get buf _ = Some _ |- _ => apply Hget in H
    end; simplify_eq/=; bool_cases; lia.
Qed.

Lemma slen_lp_header p : slen (lp_header p) = 7 + slen (lp_dcid p) + slen (lp_scid p).
Proof. unfold lp_header. autorewrite with rust. lia. Qed.

Lemma slen_lp_token_field p :
  slen (lp_token p) <= Varint.MAX ->
  0 <= slen (lp_token_field p) /\ slen (lp_token_field p) <= 8 + Varint.MAX.
Proof.
  intros. unfold lp_token_field.
  pose proof (slen_nonneg (lp_token p)). rewrite Varint.MAX_val in *.
  pose proof (Varint.encoded_len_range (slen (lp_token p))).
  destruct (lp_type p =? 0).
  - rewrite slen_app, Varint.slen_encode_word. lia.
  - change (slen (@nil Z)) with 0. lia.
Qed.

Lemma packet_len_token p rest :
  lp_ok p ->
  (if lp_type p =? 0 then
     let? tail := slice_from (write_long p ++ rest) (slen (lp_header p)) in
     let? (token_len, len) := Varint.decode tail in
     let? pos := checked_add (slen (lp_header p)) len in
     checked_add pos token_len
   else Some (slen (lp_header p))) = Some (slen (lp_header p) + slen (lp_token_field p)).
Proof.
  intros []. unfold write_long, lp_token_field.
  pose proof (slen_lp_header p).
  pose proof (Varint.encoded_len_range (slen (lp_token p))).
  pose proof (slen_nonneg (lp_dcid p)). pose proof (slen_nonneg (lp_scid p)).
  pose proof (slen_nonneg (lp_token p)).
  destruct (lp_type p =? 0); [|by rewrite slen_nil, Z.add_0_r].
  erewrite slice_from_at; [|by rewrite <- app_assoc|done].
  rewrite <- !app_assoc, Varint.decode_encode_word by lia.
  rewrite Varint.MAX_val in *.
  rewrite !checked_add_ok by (unfold usize_max; lia).
  rewrite slen_app, Varint.slen_encode_word. f_equal. lia.
Qed.

(** The reads of the invariant header, up to the packet type. *)
Lemma packet_len_header p rest :
  Z.land (lp_first p) 0x80 <> 0 -> 0 < lp_version p < 2 ^ 32 ->
  slen (lp_dcid p) < 256 -> slen (lp_scid p) < 256 ->
  packet_len (write_long p ++ rest) =
    if lp_type p =? 3 then Some (slen (write_long p ++ rest))
    else
      let? pos :=
        (if lp_type p =? 0 then
           let? tail := slice_from (write_long p ++ rest) (slen (lp_header p)) in
           let? (token_len, len) := Varint.decode tail in
           let? pos := checked_add (slen (lp_header p)) len in
           checked_add pos token_len
         else Some (slen (lp_header p))) in
      let? tail := slice_from (write_long p ++ rest) pos in
      let? (length, len) := Varint.decode tail in
      let? pos := checked_add pos len in
      let? end_ := checked_add pos length in
      if end_ <=? slen (write_long p ++ rest) then Some end_ else None.
Proof.
  intros Hf Hv Hd Hs. unfold packet_len.
  pose proof (slen_lp_header p) as Hhd.
  pose proof (slen_nonneg (lp_dcid p)). pose proof (slen_nonneg (lp_scid p)).
  set (buf := write_long p ++ rest).
  change (head buf) with (Some (lp_first p)). cbv iota beta.
  destruct (Z.eqb_spec (Z.land (lp_first p) 128) 0); [done|].
  rewrite (slice_at buf 1 5 [lp_first p] (be_bytes 4 (lp_version p)) _
    eq_refl eq_refl eq_refl).
  rewrite be_value_be_bytes, Z.mod_small by lia.
  cbv zeta. destruct (Z.eqb_spec (lp_version p) 0); [lia|].
  rewrite (get_at buf 5 (lp_first p :: be_bytes 4 (lp_version p)) (slen (lp_dcid p)) _
    eq_refl eq_refl).
  rewrite !checked_add_ok by (unfold usize_max; lia).
  rewrite (get_at buf (5 + 1 + slen (lp_dcid p))
    (lp_first p :: be_bytes 4 (lp_version p) ++ slen (lp_dcid p) :: lp_dcid p)
    (slen (lp_scid p)) (lp_scid p ++ lp_token_field p ++
      Varint.encode_word (slen (lp_payload p)) ++ lp_payload p ++ rest));
    [|unfold buf, write_long, lp_header; app_eq|autorewrite with rust; lia].
  rewrite !checked_add_ok by (unfold usize_max; lia).
  replace (5 + 1 + slen (lp_dcid p) + 1 + slen (lp_scid p)) with (slen (lp_header p)) by lia.
  reflexivity.
Qed.

(** The token field and the Length field are where [packet_len] looks for them. *)
Lemma packet_len_write_long p rest :
  lp_ok p -> packet_len (write_long p ++ rest) = Some (slen (write_long p)).
Proof.
  intros Hok. pose proof Hok as []. rewrite packet_len_header by done.
  destruct (Z.eqb_spec (lp_type p) 3); [done|].
  rewrite packet_len_token by done.
  pose proof (slen_lp_header p).
  pose proof (Varint.encoded_len_range (slen (lp_payload p))).
  pose proof (slen_lp_token_field p ltac:(done)).
  pose proof (slen_nonneg (lp_dcid p)). pose proof (slen_nonneg (lp_scid p)).
  pose proof (slen_nonneg (lp_payload p)). pose proof (slen_nonneg rest).
  rewrite (slice_from_at (write_long p ++ rest) _ (lp_header p ++ lp_token_field p)
      (Varint.encode_word (slen (lp_payload p)) ++ lp_payload p ++ rest));
    [|unfold write_long; app_eq|by rewrite slen_app].
  rewrite Varint.decode_encode_word by lia.
  assert (slen (write_long p) = slen (lp_header p) + slen (lp_token_field p)
    + Varint.encoded_len (slen (lp_payload p)) + slen (lp_payload p)) as Hlen.
  { unfold write_long. rewrite !slen_app, Varint.slen_encode_word. lia. }
  rewrite Varint.MAX_val in *.
  rewrite !checked_add_ok by (unfold usize_max; lia).
  rewrite slen_app. bool_cases; [f_equal|]; lia.
Qed.

(** ** The loop *)

(** What a split of [rest] is: every part but the last is as long as [packet_len]
    says at its position, and so is the last unless no length could be found. *)
Inductive splits : bytes -> list bytes -> Prop :=
| splits_nil : splits [] []
| splits_rest rest : rest <> [] -> packet_len rest = None -> splits rest [rest]
| splits_cons p tail ps :
    p <> [] -> packet_len (p ++ tail) = Some (slen p) ->
    splits tail ps -> splits (p ++ tail) (p :: ps).

Lemma splits_concat rest ps : splits rest ps -> concat ps = rest.
Proof. induction 1; cbn; rewrite ?app_nil_r; congruence. Qed.

Lemma splits_nonempty rest ps : splits rest ps -> Forall (fun p => p <> []) ps.
Proof. induction 1; auto. Qed.

Lemma splits_whole p : p <> [] -> packet_len p = Some (slen p) -> splits p [p].
Proof.
  intros Hp Hl. pose proof (splits_cons p [] []) as H. rewrite app_nil_r in H.
  by apply H; [| |constructor].
Qed.

Lemma splits_det rest ps1 ps2 : splits rest ps1 -> splits rest ps2 -> ps1 = ps2.
Proof.
  intros H. revert ps2.
  induction H as [|rest Hne Hn|p tail ps Hne Hp Hs IH]; intros ps2 H2.
  - inversion H2 as [|?? Hx|p' tail' ps' Hne' _ _ Heq]; [done|congruence|].
    by destruct p'.
  - inversion H2; subst; congruence.
  - inversion H2 as [Heq|rest' _ Hn|p' tail' ps' Hne' Hp' Hs' Heq]; subst.
    + by destruct p.
    + congruence.
    + rewrite Heq in Hp'. rewrite Hp in Hp'.
      assert (p' = p /\ tail' = tail) as [-> ->].
      { apply app_inj_1; [|done]. injection Hp'. unfold slen. lia. }
      f_equal. by apply IH.
Qed.

(** The loop ends before the fuel does, does not panic and returns the split. *)
Lemma split_loop_splits fuel packets rest :
  are_bytes rest -> (length rest <= fuel)%nat ->
  exists ps, split_loop fuel packets rest = Some (Ret (packets ++ ps)) /\ splits rest ps.
Proof.
  revert packets rest. induction fuel as [|fuel IH]; intros packets rest Hb Hf.
  - destruct rest; [|cbn in Hf; lia]. exists []. rewrite app_nil_r. split; constructor.
  - destruct rest as [|b l]; [exists []; rewrite app_nil_r; split; constructor|].
    cbn [split_loop]. destruct (packet_len (b :: l)) as [n|] eqn:Hn.
    + destruct (packet_len_range _ _ Hb Hn) as [Hn0 Hn1].
      unfold split_at. bool_cases; try lia. cbn [andb].
      set (p := take (Z.to_nat n) (b :: l)). set (tail := drop (Z.to_nat n) (b :: l)).
      assert (slen p = n) as Hp by (apply slen_take; lia).
      assert (b :: l = p ++ tail) as Heq by (symmetry; apply take_drop).
      destruct (IH (packets ++ [p]) tail) as (ps & Hps & Hs).
      * by apply are_bytes_drop.
      * apply (f_equal length) in Heq. rewrite length_app in Heq.
        unfold slen in Hp. lia.
      * exists (p :: ps). rewrite Hps, <- app_assoc. split; [done|].
        rewrite Heq. apply splits_cons; [|congruence|done].
        intros ->. by rewrite <- Hp in Hn0.
    + exists [b :: l]. split; [done|]. by constructor.
Qed.

(** ** Properties *)

(** C26: [split_packets] terminates without a panic on every buffer and loses
    nothing: the parts are non-empty and their concatenation is the buffer; each
    part is the packet [packet_len] finds at its position, or the whole rest where
    it finds none, and no other list of parts is. *)
Theorem split_packets_partition (buf : bytes) (Hb : are_bytes buf) :
  exists ps, split_packets buf = Some (Ret ps) /\
    concat ps = buf /\ Forall (fun p => p <> []) ps /\
    (forall ps', splits buf ps' <-> ps' = ps).
Proof.
  destruct (split_loop_splits (length buf) [] buf Hb (le_n _)) as (ps & Hps & Hs).
  exists ps. split; [done|]. split; [by apply splits_concat|].
  split; [by eapply splits_nonempty|].
  intros ps'. split; [|by intros ->]. intros H. by eapply splits_det.
Qed.

Lemma split_packets_partition_witness :
  exists ps, split_packets [0xc3; 0xff; 0x40; 0x11] = Some (Ret ps) /\
    concat ps = [0xc3; 0xff; 0x40; 0x11].
Proof.
  assert (are_bytes [0xc3; 0xff; 0x40; 0x11]) as Hb
    by (solve_bytes).
  destruct (split_packets_partition _ Hb) as (ps & H1 & H2 & _).
  exists ps. exact (conj H1 H2).
Defined.

(** A 1-RTT packet: the header form bit is clear. *)
Definition short_header (l : bytes) : Prop :=
  exists b l', l = b :: l' /\ Z.land b 0x80 = 0.

Lemma packet_len_short l : short_header l -> packet_len l = Some (slen l).
Proof. intros (b & l' & -> & Hb). unfold packet_len. cbn [head]. by rewrite Hb. Qed.

Lemma splits_coalesced ps tail :
  Forall lp_ok ps -> tail = [] \/ short_header tail ->
  splits (concat (map write_long ps) ++ tail)
    (map write_long ps ++ match tail with [] => [] | _ => [tail] end).
Proof.
  intros Hps Ht. induction Hps as [|p ps Hp _ IH]; cbn [map concat app].
  - destruct Ht as [->|Hsh]; [constructor|].
    pose proof (packet_len_short _ Hsh) as Hl. destruct Hsh as (b & l' & -> & _).
    by apply splits_whole.
  - rewrite <- app_assoc. apply splits_cons; [done| |done].
    by apply packet_len_write_long.
Qed.

Lemma split_packets_splits buf ps :
  are_bytes buf -> splits buf ps -> split_packets buf = Some (Ret ps).
Proof.
  intros Hb Hs.
  destruct (split_loop_splits (length buf) [] buf Hb (le_n _)) as (ps' & Hps & Hs').
  unfold split_packets. rewrite Hps. cbn [app].
  by rewrite (splits_det _ _ _ Hs Hs').
Qed.

(** Splitting a datagram that coalesces well-formed long-header packets of
    QUIC version 1, with or without a 1-RTT packet at the end, gives exactly those
    packets back. *)
Theorem split_packets_coalesced (ps : list long_packet) (tail : bytes)
    (Hps : Forall lp_ok ps) (Ht : tail = [] \/ short_header tail)
    (Hb : are_bytes (concat (map write_long ps) ++ tail)) :
  split_packets (concat (map write_long ps) ++ tail) =
    Some (Ret (map write_long ps ++ match tail with [] => [] | _ => [tail] end)).
Proof. apply split_packets_splits; [done|]. by apply splits_coalesced. Qed.

Definition example_initial : long_packet :=
  {| lp_first := 0xc3; lp_version := 1; lp_dcid := [1; 2]; lp_scid := [3];
     lp_token := [9; 9; 9]; lp_payload := [7; 7] |}.
Definition example_handshake : long_packet :=
  {| lp_first := 0xe3; lp_version := 1; lp_dcid := [1; 2]; lp_scid := [];
     lp_token := []; lp_payload := [5] |}.

Lemma example_initial_ok : lp_ok example_initial.
Proof. constructor; done. Defined.
Lemma example_handshake_ok : lp_ok example_handshake.
Proof. constructor; done. Defined.

Lemma split_packets_coalesced_witness :
  split_packets (write_long example_initial ++ write_long example_handshake ++ [0x41; 8])
    = Some (Ret [write_long example_initial; write_long example_handshake; [0x41; 8]]).
Proof.
  apply (split_packets_coalesced [example_initial; example_handshake] [0x41; 8]).
  - constructor; [apply example_initial_ok|].
    constructor; [apply example_handshake_ok|constructor].
  - right. exists 0x41, [8]. split; reflexivity.
  - solve_bytes.
Defined.

(** The packet type bits are read as those of QUIC version 1 whatever the
    version field says: a long-header packet whose type bits are [11], and that is
    a Retry packet in version 1 but a Handshake packet in version 2, is never
    separated from what follows it. *)
Theorem split_packets_type3 (p : long_packet) (rest : bytes)
    (Hf : Z.land (lp_first p) 0x80 <> 0) (Hty : lp_type p = 3)
    (Hv : 0 < lp_version p < 2 ^ 32)
    (Hd : slen (lp_dcid p) < 256) (Hs : slen (lp_scid p) < 256)
    (Hb : are_bytes (write_long p ++ rest)) :
  split_packets (write_long p ++ rest) = Some (Ret [write_long p ++ rest]).
Proof.
  apply split_packets_splits; [done|].
  apply splits_whole; [done|]. rewrite packet_len_header by done. by rewrite Hty.
Qed.

(** A Handshake packet of QUIC version 2 (RFC 9369) and a 1-RTT packet. *)
Lemma split_packets_type3_witness :
  let p := {| lp_first := 0xf3; lp_version := 0x6b3343cf; lp_dcid := [1; 2];
              lp_scid := []; lp_token := []; lp_payload := [5] |} in
  split_packets (write_long p ++ [0x41; 8]) = Some (Ret [write_long p ++ [0x41; 8]]).
Proof.
  apply split_packets_type3; try reflexivity; [discriminate|split; reflexivity|].
  solve_bytes.
Defined.
End Packet.
