(* ===== verification/Types.v ===== *)
(** * Basic types (src/ngtcp2/src/types.rs) and socket addresses

    Versions, connection ids, stream ids and paths, and the conversions between
    [SocketAddr] and the C [sockaddr] of conn.rs and of socket.rs, byte for byte
    in the layout of Linux on a little-endian machine. *)
From S2P Require Import Prelude.

Module Types.
Local Open Scope rust_scope.

(** ** QUIC versions *)

Definition NGTCP2_PROTO_VER_V1 : Z := 0x00000001.
Definition NGTCP2_PROTO_VER_V2 : Z := 0x6b3343cf.

Inductive QuicVersion := V1 | V2.

Definition QuicVersion_default : QuicVersion := V1.

Definition as_u32 (v : QuicVersion) : Z :=
  match v with V1 => NGTCP2_PROTO_VER_V1 | V2 => NGTCP2_PROTO_VER_V2 end.

Definition from_u32 (version : Z) : option QuicVersion :=
  if version =? NGTCP2_PROTO_VER_V1 then Some V1
  else if version =? NGTCP2_PROTO_VER_V2 then Some V2
  else None.

#[export] Instance QuicVersion_eq_dec : EqDecision QuicVersion.
Proof. solve_decision. Defined.

(** ** Connection ids *)

Definition NGTCP2_MAX_CIDLEN : Z := 20.
Definition NGTCP2_MIN_CIDLEN : Z := 1.

Record ConnectionId := mkCid { data : bytes }.

#[export] Instance ConnectionId_eq_dec : EqDecision ConnectionId.
Proof. solve_decision. Defined.
#[export] Instance ConnectionId_countable : Countable ConnectionId :=
  inj_countable' data mkCid (fun c => match c with mkCid _ => eq_refl end).

(** The constructors check only what the code checks. *)
Definition new (d : bytes) : option ConnectionId :=
  if NGTCP2_MAX_CIDLEN <? slen d then None else Some (mkCid d).

Definition empty : ConnectionId := mkCid [].

(** [fill len] is what [aws_lc_rs::rand::fill] does to a buffer of [len] bytes:
    the bytes it leaves there, or the error it reports. *)
Definition random (fill : Z -> option bytes) (len : Z) : option ConnectionId :=
  if (len <? NGTCP2_MIN_CIDLEN) || (NGTCP2_MAX_CIDLEN <? len) then None
  else
    let? d := fill len in
    Some (mkCid d).

Definition as_bytes (c : ConnectionId) : bytes := data c.
Definition len (c : ConnectionId) : Z := slen (data c).
Definition is_empty (c : ConnectionId) : bool :=
  match data c with [] => true | _ => false end.

(** [{:02x}] of each byte. *)
Definition hex_digit (d : Z) : Ascii.ascii :=
  Ascii.ascii_of_nat (Z.to_nat (if d <? 10 then 48 + d else 87 + d)).
Fixpoint hex (l : bytes) : String.string :=
  match l with
  | [] => String.EmptyString
  | b :: l' => String.String (hex_digit (b / 16)) (String.String (hex_digit (b mod 16)) (hex l'))
  end.
Definition fmt_Display (c : ConnectionId) : String.string := hex (data c).
Definition fmt_Debug (c : ConnectionId) : String.string :=
  String.append "ConnectionId(" (String.append (hex (data c)) ")").

(** ** Streams *)

(** [i64] with the two's complement [&] of Rust, which is [Z.land]. *)
Definition StreamId : Type := Z.
Inductive StreamType := Bidirectional | Unidirectional.
Inductive StreamDirection := ClientInitiated | ServerInitiated.

Definition StreamType_from_stream_id (stream_id : StreamId) : StreamType :=
  if Z.land stream_id 0x2 =? 0 then Bidirectional else Unidirectional.
Definition StreamDirection_from_stream_id (stream_id : StreamId) : StreamDirection :=
  if Z.land stream_id 0x1 =? 0 then ClientInitiated else ServerInitiated.

(** ** Addresses and paths *)

(** [std::net::SocketAddr]: an IPv4 address of 4 octets or an IPv6 address of 16. *)
Inductive SocketAddr :=
| SockV4 (ip : bytes) (port : Z)
| SockV6 (ip : bytes) (port flowinfo scope_id : Z).

#[export] Instance SocketAddr_eq_dec : EqDecision SocketAddr.
Proof. solve_decision. Defined.
#[export] Instance SocketAddr_countable : Countable SocketAddr.
Proof.
  refine (inj_countable'
    (fun a => match a with
       | SockV4 ip port => inl (ip, port)
       | SockV6 ip port flow scope => inr (ip, port, flow, scope) end)
    (fun s => match s with
       | inl (ip, port) => SockV4 ip port
       | inr (ip, port, flow, scope) => SockV6 ip port flow scope end) _).
  by intros [].
Defined.

Definition addr_ok (a : SocketAddr) : Prop :=
  match a with
  | SockV4 ip port => are_bytes ip /\ slen ip = 4 /\ 0 <= port < 2 ^ 16
  | SockV6 ip port flow scope =>
      are_bytes ip /\ slen ip = 16 /\ 0 <= port < 2 ^ 16 /\
      0 <= flow < 2 ^ 32 /\ 0 <= scope < 2 ^ 32
  end.

Record PathInfo := { local : SocketAddr; remote : SocketAddr }.
#[export] Instance PathInfo_eq_dec : EqDecision PathInfo.
Proof. solve_decision. Defined.

Record PacketInfo := { ecn : Z }.
Definition PacketInfo_default : PacketInfo := {| ecn := 0 |}.

Definition AF_INET : Z := 2.
Definition AF_INET6 : Z := 10.
Definition sizeof_sockaddr_in : Z := 16.
Definition sizeof_sockaddr_in6 : Z := 28.
Definition sizeof_sockaddr_storage : Z := 128.

(** A native little-endian field of [k] bytes. *)
Definition le_bytes (k : nat) (v : Z) : bytes := rev (be_bytes k v).
Definition le_value (l : bytes) : Z := be_value (rev l).

(** [mem::zeroed()] with [l] written at the front. *)
Definition zero_extended (n : Z) (l : bytes) : bytes :=
  l ++ replicate (Z.to_nat (n - slen l)) 0.

Definition sockaddr_to_raw (addr : SocketAddr) : bytes * Z :=
  match addr with
  | SockV4 ip port =>
      (zero_extended sizeof_sockaddr_storage
         (le_bytes 2 AF_INET ++ be_bytes 2 port ++ ip), sizeof_sockaddr_in)
  | SockV6 ip port flow scope =>
      (zero_extended sizeof_sockaddr_storage
         (le_bytes 2 AF_INET6 ++ be_bytes 2 port ++ le_bytes 4 flow ++ ip
          ++ le_bytes 4 scope), sizeof_sockaddr_in6)
  end.

(** [addr] is [None] for a null pointer, else the memory behind it. *)
Definition sockaddr_from_raw (addr : option bytes) (len : Z) : option SocketAddr :=
  let? mem := addr in
  let? family := slice mem 0 2 in
  if le_value family =? AF_INET then
    if len <? sizeof_sockaddr_in then None
    else
      let? port := slice mem 2 4 in
      let? ip := slice mem 4 8 in
      Some (SockV4 ip (be_value port))
  else if le_value family =? AF_INET6 then
    if len <? sizeof_sockaddr_in6 then None
    else
      let? port := slice mem 2 4 in
      let? ip := slice mem 8 24 in
      Some (SockV6 ip (be_value port) 0 0)
  else None.

(** [ngtcp2_path]: two [ngtcp2_addr], each a pointer and a length. *)
Record raw_path := { raw_local : option bytes; raw_local_len : Z;
                     raw_remote : option bytes; raw_remote_len : Z }.

Definition path_to_raw (info : PathInfo) : raw_path :=
  let '(l, ll) := sockaddr_to_raw (local info) in
  let '(r, rl) := sockaddr_to_raw (remote info) in
  {| raw_local := Some l; raw_local_len := ll;
     raw_remote := Some r; raw_remote_len := rl |}.

Definition path_info_from_raw (path : option raw_path) : option PathInfo :=
  let? p := path in
  let? l := sockaddr_from_raw (raw_local p) (raw_local_len p) in
  let? r := sockaddr_from_raw (raw_remote p) (raw_remote_len p) in
  Some {| local := l; remote := r |}.

(** An address as it comes back from its C form. *)
Definition drop_scope (a : SocketAddr) : SocketAddr :=
  match a with
  | SockV4 ip port => SockV4 ip port
  | SockV6 ip port _ _ => SockV6 ip port 0 0
  end.

(** ** Lemmas *)

Lemma slen_le_bytes k v : slen (le_bytes k v) = Z.of_nat k.
Proof. unfold le_bytes, slen. by rewrite length_rev, length_be_bytes. Qed.

Lemma le_value_le_bytes k v :
  0 <= v < 2 ^ (8 * Z.of_nat k) -> le_value (le_bytes k v) = v.
Proof.
  intros. unfold le_value, le_bytes. rewrite rev_involutive, be_value_be_bytes by lia.
  by apply Z.mod_small.
Qed.

Lemma be_value_port port : 0 <= port < 2 ^ 16 -> be_value (be_bytes 2 port) = port.
Proof. intros. rewrite be_value_be_bytes by lia. by apply Z.mod_small. Qed.

Lemma sockaddr_roundtrip a :
  addr_ok a ->
  let '(mem, n) := sockaddr_to_raw a in
  slen mem = sizeof_sockaddr_storage /\ sockaddr_from_raw (Some mem) n = Some (drop_scope a).
Proof.
  destruct a as [ip port|ip port flow scope]; cbn [addr_ok sockaddr_to_raw].
  - intros (Hb & Hl & Hp). split.
    { unfold zero_extended. rewrite slen_app.
      rewrite !slen_app, slen_le_bytes, slen_be_bytes, Hl.
      unfold slen. rewrite length_replicate. done. }
    unfold sockaddr_from_raw, zero_extended. cbv zeta.
    rewrite (slice_at _ 0 2 [] (le_bytes 2 AF_INET) (be_bytes 2 port ++ ip ++ replicate _ 0))
      by (rewrite ?slen_le_bytes; reflexivity || app_eq).
    rewrite le_value_le_bytes by (unfold AF_INET; lia). cbn [Z.eqb AF_INET Pos.eqb].
    change (sizeof_sockaddr_in <? sizeof_sockaddr_in) with false. cbv iota.
    rewrite (slice_at _ 2 4 (le_bytes 2 AF_INET) (be_bytes 2 port) (ip ++ replicate _ 0))
      by (rewrite ?slen_le_bytes; reflexivity || app_eq).
    rewrite (slice_at _ 4 8 (le_bytes 2 AF_INET ++ be_bytes 2 port) ip (replicate _ 0))
      by (rewrite ?slen_app, ?slen_le_bytes, ?slen_be_bytes, ?Hl; reflexivity || app_eq).
    by rewrite be_value_port.
  - intros (Hb & Hl & Hp & Hf & Hs). split.
    { unfold zero_extended. rewrite slen_app.
      rewrite !slen_app, !slen_le_bytes, slen_be_bytes, Hl.
      unfold slen. rewrite length_replicate. done. }
    unfold sockaddr_from_raw, zero_extended. cbv zeta.
    rewrite (slice_at _ 0 2 [] (le_bytes 2 AF_INET6)
      (be_bytes 2 port ++ le_bytes 4 flow ++ ip ++ le_bytes 4 scope ++ replicate _ 0))
      by (rewrite ?slen_le_bytes; reflexivity || app_eq).
    rewrite le_value_le_bytes by (unfold AF_INET6; lia).
    change (AF_INET6 =? AF_INET) with false. change (AF_INET6 =? AF_INET6) with true.
    change (sizeof_sockaddr_in6 <? sizeof_sockaddr_in6) with false. cbv iota.
    rewrite (slice_at _ 2 4 (le_bytes 2 AF_INET6) (be_bytes 2 port)
      (le_bytes 4 flow ++ ip ++ le_bytes 4 scope ++ replicate _ 0))
      by (rewrite ?slen_le_bytes; reflexivity || app_eq).
    rewrite (slice_at _ 8 24 (le_bytes 2 AF_INET6 ++ be_bytes 2 port ++ le_bytes 4 flow) ip
      (le_bytes 4 scope ++ replicate _ 0))
      by (rewrite ?slen_app, ?slen_le_bytes, ?slen_be_bytes, ?Hl; reflexivity || app_eq).
    by rewrite be_value_port.
Qed.

Lemma hex_digit_inj a b :
  0 <= a < 16 -> 0 <= b < 16 -> hex_digit a = hex_digit b -> a = b.
Proof.
  intros Ha Hb H. apply (f_equal Ascii.nat_of_ascii) in H. unfold hex_digit in H.
  rewrite !Ascii.nat_ascii_embedding in H by (bool_cases; lia). bool_cases; lia.
Qed.

Lemma hex_inj l1 l2 : are_bytes l1 -> are_bytes l2 -> hex l1 = hex l2 -> l1 = l2.
Proof.
  intros H1. revert l2. induction H1 as [|a l1 Ha _ IH]; intros [|b l2] H2; cbn; try done.
  apply Forall_cons in H2 as [Hb H2]. unfold is_u8 in *.
  intros [= E1%hex_digit_inj E2%hex_digit_inj E3]; [|lia..].
  f_equal; [lia|by apply IH].
Qed.

(** ** Properties *)

(** A path handed to ngtcp2 comes back with the same addresses and ports, in
    [sockaddr_storage] objects of 128 bytes; the flow information and the scope id
    of an IPv6 address are lost on the way back. *)
Theorem path_roundtrip (info : PathInfo)
    (Hl : addr_ok (local info)) (Hr : addr_ok (remote info)) :
  path_info_from_raw (Some (path_to_raw info)) =
    Some {| local := drop_scope (local info); remote := drop_scope (remote info) |} /\
  slen (sockaddr_to_raw (local info)).1 = sizeof_sockaddr_storage.
Proof.
  unfold path_to_raw, path_info_from_raw.
  pose proof (sockaddr_roundtrip _ Hl). pose proof (sockaddr_roundtrip _ Hr).
  destruct (sockaddr_to_raw (local info)), (sockaddr_to_raw (remote info)).
  destruct H as [Hs1 H1], H0 as [_ H2]. cbn -[sockaddr_from_raw]. by rewrite H1, H2.
Qed.

(** A link-local address with the scope id of its interface. *)
Lemma path_roundtrip_witness :
  let v4 := SockV4 [192; 0; 2; 1] 4433 in
  let ip := [0xfe; 0x80; 0; 0; 0; 0; 0; 0; 0; 0; 0; 0; 0; 0; 0; 1] in
  path_info_from_raw (Some (path_to_raw {| local := v4; remote := SockV6 ip 4433 0 3 |})) =
    Some {| local := v4; remote := SockV6 ip 4433 0 0 |}.
Proof.
  refine (proj1 (path_roundtrip {| local := SockV4 _ _; remote := SockV6 _ _ _ _ |} _ _)).
  - cbn. split; [solve_bytes|]. split; [reflexivity|lia].
  - cbn. split; [solve_bytes|]. split; [reflexivity|lia].
Defined.

(** [new] accepts exactly the byte strings of at most 20 bytes, the empty one
    included; [random] accepts exactly the lengths 1 to 20 and gives an id of that
    length; the printed form of an id identifies it. *)
Theorem connection_id_valid (d : bytes) (fill : Z -> option bytes) (n : Z)
    (Hfill : forall k b, fill k = Some b -> slen b = k) :
  (forall c, new d = Some c <-> slen d <= 20 /\ as_bytes c = d) /\
  (forall c, random fill n = Some c <->
     1 <= n <= 20 /\ fill n = Some (as_bytes c)) /\
  (forall c, random fill n = Some c -> len c = n /\ is_empty c = false) /\
  (forall c1 c2, are_bytes (as_bytes c1) -> are_bytes (as_bytes c2) ->
     fmt_Display c1 = fmt_Display c2 -> c1 = c2).
Proof.
  assert (forall c, random fill n = Some c <-> 1 <= n <= 20 /\ fill n = Some (as_bytes c)) as Hr.
  { intros [b]. unfold random, NGTCP2_MIN_CIDLEN, NGTCP2_MAX_CIDLEN. cbn.
    bool_cases; cbn; destruct (fill n); naive_solver lia. }
  split; [|split; [done|split]].
  - intros [b]. unfold new, NGTCP2_MAX_CIDLEN. cbn. bool_cases; naive_solver lia.
  - intros c Hc. pose proof Hc as [Hn Hf]%Hr. apply Hfill in Hf. destruct c as [b].
    unfold len, is_empty. cbn in *. split; [done|]. destruct b; [|done].
    rewrite slen_nil in Hf. lia.
  - intros [b1] [b2] H1 H2 H. f_equal. by apply hex_inj.
Qed.

Lemma connection_id_valid_witness :
  random (fun k => Some (replicate (Z.to_nat k) 7)) 3 = Some (mkCid [7; 7; 7]) /\
  len (mkCid [7; 7; 7]) = 3 /\ new (replicate 21 0) = None.
Proof.
  assert (forall k b, (fun k => if k <? 0 then None else Some (replicate (Z.to_nat k) 7)) k = Some b ->
    slen b = k) as Hf.
  { intros k b. cbn. destruct (Z.ltb_spec k 0); [done|]. intros [= <-].
    unfold slen. rewrite length_replicate. lia. }
  destruct (connection_id_valid [] _ 3 Hf) as (_ & _ & H & _).
  split; [reflexivity|]. split; [|reflexivity]. exact (proj1 (H (mkCid [7; 7; 7]) eq_refl)).
Defined.

(** The version numbers of the wire and [QuicVersion] correspond one to one,
    and a stream id built from an index, a direction and a type has that direction
    and that type, for client and server streams of both kinds. *)
Theorem versions_and_stream_ids :
  (forall v, from_u32 (as_u32 v) = Some v) /\
  (forall n v, from_u32 n = Some v -> as_u32 v = n) /\
  (forall k d t,
     let id := 4 * k + match t with Bidirectional => 0 | Unidirectional => 2 end
                     + match d with ClientInitiated => 0 | ServerInitiated => 1 end in
     StreamDirection_from_stream_id id = d /\ StreamType_from_stream_id id = t).
Proof.
  split; [by intros []|]. split.
  - intros n v. unfold from_u32. bool_cases; naive_solver.
  - intros k d t id. subst id.
    unfold StreamDirection_from_stream_id, StreamType_from_stream_id.
    rewrite land_1, land_2. destruct d, t; bool_cases; split; done || lia.
Qed.
End Types.
