(* ===== verification/Errors.v ===== *)
(** * Errors and their classification (src/ngtcp2/src/error.rs) *)
From stdpp Require Import pretty.
From S2P Require Import Prelude Types.

Module Errors.

(** ** ngtcp2's error codes that the crates name *)

Definition NGTCP2_ERR_INVALID_STATE : Z := -204.
Definition NGTCP2_ERR_STREAM_DATA_BLOCKED : Z := -208.
Definition NGTCP2_ERR_STREAM_SHUT_WR : Z := -219.
Definition NGTCP2_ERR_CLOSING : Z := -223.
Definition NGTCP2_ERR_DRAINING : Z := -224.
Definition NGTCP2_ERR_DISCARD_PKT : Z := -226.
Definition NGTCP2_ERR_WRITE_MORE : Z := -230.
Definition NGTCP2_ERR_RETRY : Z := -231.
Definition NGTCP2_ERR_DROP_CONN : Z := -232.
Definition NGTCP2_ERR_VERSION_NEGOTIATION : Z := -235.
Definition NGTCP2_ERR_HANDSHAKE_TIMEOUT : Z := -236.
Definition NGTCP2_ERR_IDLE_CLOSE : Z := -238.
Definition NGTCP2_ERR_CALLBACK_FAILURE : Z := -502.

(** ** Definitions *)

Inductive Error :=
| Ngtcp2 (msg : string) (code : Z)
| InvalidArgument (msg : string)
| ConnectionClosed
| StreamDataBlocked (id : Types.StreamId)
| StreamShutWr (id : Types.StreamId)
| Internal (msg : string).

#[export] Instance Error_eq_dec : EqDecision Error.
Proof. unfold EqDecision; intros [] []; unfold Decision, Types.StreamId in *; decide equality;
  (apply Z.eq_dec || apply String.string_dec). Defined.

Definition fmt_Display (e : Error) : string :=
  match e with
  | Ngtcp2 msg code => "ngtcp2 error: " +:+ msg +:+ " (" +:+ pretty code +:+ ")"
  | InvalidArgument msg => "invalid argument: " +:+ msg
  | ConnectionClosed => "connection is closed"
  | StreamDataBlocked id => "stream data blocked: " +:+ pretty (id : Z)
  | StreamShutWr id => "stream shut wr: " +:+ pretty (id : Z)
  | Internal msg => "internal error: " +:+ msg
  end.

Inductive ConnectionErrorKind :=
| Ignore | SilentDrop | Terminal | TransportClose | ApplicationClose | InternalKind.

#[export] Instance ConnectionErrorKind_eq_dec : EqDecision ConnectionErrorKind.
Proof. solve_decision. Defined.

(** [ngtcp2_strerror] is C code: a message for a code, or a null pointer. *)
Class Strerror := ngtcp2_strerror : Z -> option string.

Section errors.
Context `{!Strerror}.

Definition from_ngtcp2 (code : Z) : Error :=
  Ngtcp2 (match ngtcp2_strerror code with
          | None => "unknown error"%string
          | Some msg => msg
          end) code.

Definition is_retry_required (e : Error) : bool :=
  match e with Ngtcp2 _ code => code =? NGTCP2_ERR_RETRY | _ => false end.

Definition classify_connection_error (e : Error) : ConnectionErrorKind :=
  match e with
  | Ngtcp2 _ code =>
      if code =? NGTCP2_ERR_DISCARD_PKT then Ignore
      else if (code =? NGTCP2_ERR_DROP_CONN) || (code =? NGTCP2_ERR_IDLE_CLOSE)
              || (code =? NGTCP2_ERR_RETRY) then SilentDrop
      else if (code =? NGTCP2_ERR_DRAINING) || (code =? NGTCP2_ERR_CLOSING) then Terminal
      else TransportClose
  | StreamDataBlocked _ | StreamShutWr _ => Ignore
  | ConnectionClosed => Terminal
  | InvalidArgument _ | Internal _ => InternalKind
  end.

Definition check_ngtcp2 (code : Z) : result Error unit :=
  if code <? 0 then Err (from_ngtcp2 code) else Ok tt.

(** ** Properties *)

(** A negative return code of ngtcp2, and no other, becomes an error that keeps
    the code; the error closes the connection with a CONNECTION_CLOSE unless the
    code is one of the six that ngtcp2's contract lists: [DISCARD_PKT] is ignored,
    [DROP_CONN], [IDLE_CLOSE] and [RETRY] drop the connection silently, [DRAINING]
    and [CLOSING] leave it to its end. No error is ever classified as an
    application close, and a Retry is asked for only by [RETRY]. *)
Theorem classify_contract (code : Z) :
  (check_ngtcp2 code = Ok tt <-> 0 <= code) /\
  (forall e, check_ngtcp2 code = Err e ->
     code < 0 /\ (exists m, e = Ngtcp2 m code) /\
     (classify_connection_error e = Ignore <-> code = NGTCP2_ERR_DISCARD_PKT) /\
     (classify_connection_error e = SilentDrop <->
        code ∈ [NGTCP2_ERR_DROP_CONN; NGTCP2_ERR_IDLE_CLOSE; NGTCP2_ERR_RETRY]) /\
     (classify_connection_error e = Terminal <->
        code ∈ [NGTCP2_ERR_DRAINING; NGTCP2_ERR_CLOSING]) /\
     (is_retry_required e = true <-> code = NGTCP2_ERR_RETRY)) /\
  (forall e, classify_connection_error e <> ApplicationClose) /\
  (forall e, is_retry_required e = true -> classify_connection_error e = SilentDrop).
Proof.
  unfold check_ngtcp2. split; [bool_cases; split; done || lia|].
  split.
  - intros e. bool_cases; [|done]. intros [= <-]. split; [done|].
    split; [by eexists|].
    unfold classify_connection_error, is_retry_required, from_ngtcp2.
    rewrite !elem_of_cons, elem_of_nil.
    unfold NGTCP2_ERR_DISCARD_PKT, NGTCP2_ERR_DROP_CONN, NGTCP2_ERR_IDLE_CLOSE,
      NGTCP2_ERR_RETRY, NGTCP2_ERR_DRAINING, NGTCP2_ERR_CLOSING.
    bool_cases; cbn; repeat split; intros; simplify_eq/=; try done; try lia; naive_solver lia.
  - unfold NGTCP2_ERR_RETRY. split; intros [m code'| | | | |]; cbn; try done.
    + bool_cases; cbn; done.
    + intros ->%Z.eqb_eq. reflexivity.
Qed.
End errors.

Lemma classify_contract_witness :
  let _ : Strerror := fun _ => Some "message"%string in
  check_ngtcp2 NGTCP2_ERR_RETRY = Err (from_ngtcp2 NGTCP2_ERR_RETRY) /\
  is_retry_required (from_ngtcp2 NGTCP2_ERR_RETRY) = true /\
  classify_connection_error (from_ngtcp2 NGTCP2_ERR_RETRY) = SilentDrop.
Proof.
  intros S. split; [reflexivity|]. split; [reflexivity|].
  apply (proj2 (proj2 (proj2 (classify_contract 0)))). reflexivity.
Defined.
End Errors.
