(* ===== verification/Tokens.v ===== *)
(** * Stateless Reset, address validation tokens and version negotiation
    (src/ngtcp2/src/reset.rs, retry.rs, version.rs)

    The packets a server answers without a connection. The C functions that
    write and parse them are the operations of the class [TokenApi]. *)
From S2P Require Import Prelude Types Errors.
Import Types Errors.

Module Tokens.
Local Open Scope rust_scope.

(** ** The C side *)

Record raw_cid := mkRawCid { datalen : Z; cid_data : bytes }.

Record ngtcp2_version_cid := {
  vc_version : Z; vc_dcid : option bytes; vc_scid : option bytes }.

Record ngtcp2_pkt_hd := {
  hd_version : Z; hd_dcid : raw_cid; hd_scid : raw_cid; hd_token : option bytes }.

(** A function that writes to a buffer takes its contents and returns its return
    value with the new contents; [rand_fill n] is [aws_lc_rs::rand::fill] on a
    buffer of [n] bytes. *)
Class TokenApi := {
  rand_fill : Z -> option bytes;
  ngtcp2_crypto_generate_stateless_reset_token : bytes -> raw_cid -> Z * bytes;
  ngtcp2_pkt_write_stateless_reset2 : bytes -> bytes -> bytes -> Z * bytes;
  ngtcp2_accept : bytes -> Z * ngtcp2_pkt_hd;
  ngtcp2_crypto_generate_retry_token2 :
    bytes -> Z -> bytes * Z -> raw_cid -> raw_cid -> Z -> Z * bytes;
  ngtcp2_crypto_verify_retry_token2 :
    bytes -> bytes -> Z -> bytes * Z -> raw_cid -> Z -> Z -> Z * raw_cid;
  ngtcp2_crypto_generate_regular_token : bytes -> bytes * Z -> Z -> Z * bytes;
  ngtcp2_crypto_verify_regular_token : bytes -> bytes -> bytes * Z -> Z -> Z -> Z;
  ngtcp2_crypto_write_retry :
    bytes -> Z -> raw_cid -> raw_cid -> raw_cid -> bytes -> Z * bytes;
  ngtcp2_crypto_write_connection_close :
    bytes -> Z -> raw_cid -> raw_cid -> Z -> bytes -> Z * bytes;
  ngtcp2_pkt_decode_version_cid : bytes -> Z * ngtcp2_version_cid;
  ngtcp2_pkt_write_version_negotiation :
    bytes -> Z -> bytes -> bytes -> list Z -> Z * bytes }.

(** What the documentation of these functions states, as far as the theorems
    need it. *)
Class TokenApiDoc (api : TokenApi) : Prop := {
  (** the buffer is filled *)
  rand_fill_len n b : rand_fill n = Some b -> slen b = n /\ are_bytes b;
  (** the random octets, truncated to the buffer, precede the token *)
  reset2_len buf token random rv buf' :
    ngtcp2_pkt_write_stateless_reset2 buf token random = (rv, buf') -> 0 <= rv ->
    rv = Z.min (slen random) (slen buf - 16) + 16;
  (** "starts with NGTCP2_CRYPTO_TOKEN_MAGIC_RETRY2", in the caller's array *)
  retry_token_magic secret version addr scid odcid ts rv token :
    ngtcp2_crypto_generate_retry_token2 secret version addr scid odcid ts = (rv, token) ->
    0 <= rv -> 1 <= rv <= slen token /\ head token = Some 183;
  (** "starts with NGTCP2_CRYPTO_TOKEN_MAGIC_REGULAR", in the caller's array *)
  new_token_magic secret addr ts rv token :
    ngtcp2_crypto_generate_regular_token secret addr ts = (rv, token) ->
    0 <= rv -> 1 <= rv <= slen token /\ head token = Some 54 }.

Section tokens.
Context {str : Strerror} {api : TokenApi}.

(** ** reset.rs *)

Definition STATELESS_RESET_TOKEN_LEN : Z := 16.
Definition STATELESS_RESET_SECRET_LEN : Z := 32.
Definition MIN_RANDOM_LEN : Z := 5.
Definition MAX_RANDOM_LEN : Z := NGTCP2_MAX_CIDLEN + 22 - STATELESS_RESET_TOKEN_LEN.
Definition MIN_STATELESS_RESET_SIZE : Z := 1 + MIN_RANDOM_LEN + STATELESS_RESET_TOKEN_LEN.

Definition StatelessResetToken : Type := bytes.
Definition StatelessResetSecret : Type := bytes.

Definition reset_secret_generate : option StatelessResetSecret :=
  rand_fill STATELESS_RESET_SECRET_LEN.

(** [raw.data[..cid.len()].copy_from_slice(..)] panics past the 20 bytes of the
    array. *)
Definition cid_to_raw (cid : ConnectionId) : outcome raw_cid :=
  if NGTCP2_MAX_CIDLEN <? Types.len cid then Panic
  else Ret (mkRawCid (Types.len cid) (zero_extended NGTCP2_MAX_CIDLEN (as_bytes cid))).

Definition reset_token (secret : StatelessResetSecret) (cid : ConnectionId)
    : outcome (option StatelessResetToken) :=
  match cid_to_raw cid with
  | Panic => Panic
  | Ret raw =>
      let '(rv, token) := ngtcp2_crypto_generate_stateless_reset_token secret raw in
      Ret (if negb (rv =? 0) then None else Some token)
  end.

Definition write_stateless_reset (buf : bytes) (token : StatelessResetToken)
    (received_len : Z) : result Error (Z * bytes) :=
  let random_len :=
    Z.min MAX_RANDOM_LEN (sat_sub received_len (1 + STATELESS_RESET_TOKEN_LEN)) in
  if random_len <? MIN_RANDOM_LEN then Ok (0, buf)
  else
    match rand_fill random_len with
    | None => Err (Internal "failed to generate random bytes")
    | Some random =>
        let '(rv, buf') := ngtcp2_pkt_write_stateless_reset2 buf token random in
        if rv <? 0 then Err (from_ngtcp2 rv) else Ok (rv, buf')
    end.

(** ** retry.rs *)

Definition RETRY_SECRET_LEN : Z := 32.
(** magic, [ngtcp2_sockaddr_union] (28 bytes), cid length, cid, timestamp, AEAD
    tag, random data *)
Definition MAX_RETRY_TOKEN_LEN : Z := 1 + 28 + 1 + NGTCP2_MAX_CIDLEN + 8 + 16 + 16.
Definition MAX_NEW_TOKEN_LEN : Z := 1 + 8 + 16 + 16.
Definition MAX_CLOSE_REASON_LEN : Z := 64.
Definition NGTCP2_CRYPTO_TOKEN_MAGIC_RETRY2 : Z := 183.
Definition NGTCP2_CRYPTO_TOKEN_MAGIC_REGULAR : Z := 54.
Definition NGTCP2_CRYPTO_ERR_UNREADABLE_TOKEN : Z := -202.
Definition NGTCP2_CRYPTO_ERR_VERIFY_TOKEN : Z := -203.
Definition TRANSPORT_ERROR_INVALID_TOKEN : Z := 0x0b.

Inductive AddressValidationTokenKind := KRetry | KNewToken.
#[export] Instance AddressValidationTokenKind_eq_dec : EqDecision AddressValidationTokenKind.
Proof. solve_decision. Defined.

Definition kind_as_raw (k : AddressValidationTokenKind) : Z :=
  match k with KRetry => 1 | KNewToken => 2 end.

Record AddressValidationToken := mkToken {
  tok_bytes : bytes; tok_kind : AddressValidationTokenKind }.

Definition RetrySecret : Type := bytes.

Definition retry_secret_generate : option RetrySecret := rand_fill RETRY_SECRET_LEN.

Definition token_kind (token : bytes) : option AddressValidationTokenKind :=
  let? magic := head token in
  if magic =? as_u8 NGTCP2_CRYPTO_TOKEN_MAGIC_RETRY2 then Some KRetry
  else if magic =? as_u8 NGTCP2_CRYPTO_TOKEN_MAGIC_REGULAR then Some KNewToken
  else None.

Definition from_packet (b : bytes) : option AddressValidationToken :=
  let? kind := token_kind b in
  Some (mkToken b kind).

Record AcceptedInitial := {
  ai_version : Z; ai_dcid : ConnectionId; ai_scid : ConnectionId; ai_token : bytes }.

(** The bytes [hd.dcid.data[..datalen]] points to. *)
Definition raw_cid_bytes (c : raw_cid) : bytes := take (Z.to_nat (datalen c)) (cid_data c).

Definition accept_initial (dgram : bytes) : option AcceptedInitial :=
  let '(rv, hd) := ngtcp2_accept dgram in
  if negb (rv =? 0) then None
  else
    let token := match hd_token hd with None => [] | Some t => t end in
    let? dcid := Types.new (raw_cid_bytes (hd_dcid hd)) in
    let? scid := Types.new (raw_cid_bytes (hd_scid hd)) in
    Some {| ai_version := hd_version hd; ai_dcid := dcid; ai_scid := scid;
            ai_token := token |}.

(** [token[..rv as usize]] of the local array, which panics out of range. *)
Definition token_prefix (token : bytes) (rv : Z) (kind : AddressValidationTokenKind)
    : outcome (result Error AddressValidationToken) :=
  match slice token 0 rv with
  | None => Panic
  | Some b => Ret (Ok (mkToken b kind))
  end.

Definition generate_retry_token (secret : RetrySecret) (version : QuicVersion)
    (client_addr : SocketAddr) (retry_scid original_dcid : ConnectionId) (ts : Z)
    : outcome (result Error AddressValidationToken) :=
  match cid_to_raw retry_scid, cid_to_raw original_dcid with
  | Ret retry_scid_raw, Ret odcid_raw =>
      let '(rv, token) := ngtcp2_crypto_generate_retry_token2 secret (as_u32 version)
        (sockaddr_to_raw client_addr) retry_scid_raw odcid_raw ts in
      if rv <? 0 then Ret (Err (Internal "ngtcp2_crypto_generate_retry_token2 failed"))
      else token_prefix token rv KRetry
  | _, _ => Panic
  end.

Definition verify_retry_token (secret : RetrySecret) (token : bytes) (version : QuicVersion)
    (client_addr : SocketAddr) (retry_dcid : ConnectionId) (timeout ts : Z)
    : outcome (result Error ConnectionId) :=
  match cid_to_raw retry_dcid with
  | Panic => Panic
  | Ret dcid_raw =>
      let '(rv, odcid_raw) := ngtcp2_crypto_verify_retry_token2 secret token (as_u32 version)
        (sockaddr_to_raw client_addr) dcid_raw (as_u64 timeout) ts in
      if negb (rv =? 0) then
        Ret (Err (InvalidArgument
          (if rv =? NGTCP2_CRYPTO_ERR_UNREADABLE_TOKEN
           then "retry token is badly formatted or fails integrity check"
           else if rv =? NGTCP2_CRYPTO_ERR_VERIFY_TOKEN
           then "retry token does not prove the client address or has expired"
           else "retry token verification failed")))
      else
        match Types.new (raw_cid_bytes odcid_raw) with
        | None => Ret (Err (InvalidArgument "retry token contains an invalid cid"))
        | Some c => Ret (Ok c)
        end
  end.

Definition generate_new_token (secret : RetrySecret) (client_addr : SocketAddr) (ts : Z)
    : outcome (result Error AddressValidationToken) :=
  let '(rv, token) := ngtcp2_crypto_generate_regular_token secret
    (sockaddr_to_raw client_addr) ts in
  if rv <? 0 then Ret (Err (Internal "ngtcp2_crypto_generate_regular_token failed"))
  else token_prefix token rv KNewToken.

Definition verify_new_token (secret : RetrySecret) (token : bytes)
    (client_addr : SocketAddr) (timeout ts : Z) : result Error unit :=
  let rv := ngtcp2_crypto_verify_regular_token secret token
    (sockaddr_to_raw client_addr) (as_u64 timeout) ts in
  if negb (rv =? 0)
  then Err (InvalidArgument "new token does not prove the client address or has expired")
  else Ok tt.

Definition write_retry_packet (buf : bytes) (version : QuicVersion)
    (client_scid retry_scid original_dcid : ConnectionId) (token : bytes)
    : outcome (result Error (Z * bytes)) :=
  match cid_to_raw client_scid, cid_to_raw retry_scid, cid_to_raw original_dcid with
  | Ret c, Ret r, Ret o =>
      let '(rv, buf') := ngtcp2_crypto_write_retry buf (as_u32 version) c r o token in
      Ret (if rv <? 0 then Err (Internal "ngtcp2_crypto_write_retry failed")
           else Ok (rv, buf'))
  | _, _, _ => Panic
  end.

Definition write_stateless_connection_close (buf : bytes) (version : QuicVersion)
    (client_scid server_scid : ConnectionId) (error_code : Z) (reason : bytes)
    : outcome (result Error (Z * bytes)) :=
  match cid_to_raw client_scid, cid_to_raw server_scid with
  | Ret c, Ret s =>
      let reason := take (Z.to_nat (Z.min (slen reason) MAX_CLOSE_REASON_LEN)) reason in
      let '(rv, buf') :=
        ngtcp2_crypto_write_connection_close buf (as_u32 version) c s error_code reason in
      Ret (if rv <? 0 then Err (Internal "ngtcp2_crypto_write_connection_close failed")
           else Ok (rv, buf'))
  | _, _ => Panic
  end.

(** ** version.rs *)

Inductive LongHeaderType := Initial | ZeroRtt | Handshake | Retry.
#[export] Instance LongHeaderType_eq_dec : EqDecision LongHeaderType.
Proof. solve_decision. Defined.

Definition long_header_type (version first_byte : Z) : option LongHeaderType :=
  let bits := Z.land (Z.shiftr first_byte 4) 0x3 in
  if version =? NGTCP2_PROTO_VER_V1 then
    Some (if bits =? 0 then Initial else if bits =? 1 then ZeroRtt
          else if bits =? 2 then Handshake else Retry)
  else if version =? NGTCP2_PROTO_VER_V2 then
    Some (if bits =? 1 then Initial else if bits =? 2 then ZeroRtt
          else if bits =? 3 then Handshake else Retry)
  else None.

Record PacketVersion := {
  pv_version : Z; pv_dcid : ConnectionId; pv_scid : ConnectionId;
  pv_header_type : option LongHeaderType }.

Definition is_initial (p : PacketVersion) : bool :=
  bool_decide (pv_header_type p = Some Initial).

Definition decode_packet_version (dgram : bytes) : option PacketVersion :=
  let? first := head dgram in
  if Z.land first 0x80 =? 0 then None
  else
    let '(rv, raw) := ngtcp2_pkt_decode_version_cid dgram in
    if negb (rv =? 0) && negb (rv =? NGTCP2_ERR_VERSION_NEGOTIATION) then None
    else
      match vc_dcid raw, vc_scid raw with
      | Some dcid_bytes, Some scid_bytes =>
          if vc_version raw =? 0 then None
          else
            let? dcid := Types.new dcid_bytes in
            let? scid := Types.new scid_bytes in
            Some {| pv_version := vc_version raw; pv_dcid := dcid; pv_scid := scid;
                    pv_header_type := long_header_type (vc_version raw) first |}
      | _, _ => None
      end.

Definition write_version_negotiation (buf : bytes) (client_scid client_dcid : ConnectionId)
    (supported_versions : list QuicVersion) : result Error (Z * bytes) :=
  match supported_versions with
  | [] => Err (InvalidArgument "supported_versions must not be empty")
  | _ =>
      match rand_fill 1 with
      | Some (unused_random :: _) =>
          let versions := map as_u32 supported_versions in
          let '(rv, buf') := ngtcp2_pkt_write_version_negotiation buf unused_random
            (as_bytes client_scid) (as_bytes client_dcid) versions in
          if rv <? 0 then Err (from_ngtcp2 rv) else Ok (rv, buf')
      | _ => Err (Internal "failed to generate random bits")
      end
  end.

(** ** Lemmas *)

Definition cid_ok (c : ConnectionId) : Prop := Types.len c <= NGTCP2_MAX_CIDLEN.

Lemma new_cid_ok d c : Types.new d = Some c -> cid_ok c /\ as_bytes c = d.
Proof.
  unfold Types.new, cid_ok, Types.len. bool_cases; [done|]. intros [= <-]. done.
Qed.

Lemma cid_to_raw_ok c :
  cid_ok c -> exists raw, cid_to_raw c = Ret raw /\ raw_cid_bytes raw = as_bytes c.
Proof.
  unfold cid_ok, cid_to_raw. intros Hc. bool_cases; [lia|].
  eexists. split; [done|]. unfold raw_cid_bytes, zero_extended, Types.len, slen, as_bytes.
  cbn. by rewrite Nat2Z.id, take_app_length.
Qed.

Lemma token_prefix_kind token rv kind :
  1 <= rv <= slen token -> token_kind token = Some kind ->
  exists b, token_prefix token rv kind = Ret (Ok (mkToken b kind)) /\
    slen b = rv /\ from_packet b = Some (mkToken b kind).
Proof.
  intros Hrv Hk. unfold token_prefix, slice. bool_cases; try lia. cbn [andb].
  rewrite Z.sub_0_r, drop_0. eexists. split; [done|]. split; [apply slen_take; lia|].
  unfold from_packet.
  replace (token_kind (take (Z.to_nat rv) token)) with (Some kind); [done|].
  rewrite <- Hk. destruct token as [|t l]; [done|].
  replace (Z.to_nat rv) with (S (Z.to_nat (rv - 1))) by lia. done.
Qed.

Lemma verify_retry_token_ret secret token v a dcid timeout ts :
  cid_ok dcid ->
  exists r, verify_retry_token secret token v a dcid timeout ts = Ret r /\
    forall c, r = Ok c -> cid_ok c.
Proof.
  intros Hd. unfold verify_retry_token. destruct (cid_to_raw_ok _ Hd) as (raw & -> & _).
  destruct (ngtcp2_crypto_verify_retry_token2 _ _ _ _ _ _ _) as [rv o].
  destruct (negb (rv =? 0)); [by eexists|].
  destruct (Types.new (raw_cid_bytes o)) as [c|] eqn:Hc; [|by eexists].
  eexists. split; [done|]. intros c' [= <-]. by apply new_cid_ok in Hc as [? _].
Qed.

Context {api_doc : TokenApiDoc api}.

(** Tokens are generated without a panic: what the C function returned lies in its array. *)
Lemma generate_retry_token_ret secret v a scid odcid ts :
  cid_ok scid -> cid_ok odcid ->
  exists r, generate_retry_token secret v a scid odcid ts = Ret r.
Proof.
  intros Hs Ho. destruct (cid_to_raw_ok scid Hs) as (rs & Hrs & _).
  destruct (cid_to_raw_ok odcid Ho) as (ro & Hro & _).
  unfold generate_retry_token. rewrite Hrs, Hro.
  destruct (ngtcp2_crypto_generate_retry_token2 _ _ _ _ _ _) as [rv tok] eqn:Hg.
  destruct (Z.ltb_spec rv 0); [by eexists|]. apply retry_token_magic in Hg as [Hr Hm]; [|lia].
  destruct (token_prefix_kind tok rv KRetry Hr) as (b & -> & _).
  { unfold token_kind. by rewrite Hm. }
  by eexists.
Qed.

Lemma generate_new_token_ret secret addr ts :
  exists r, generate_new_token secret addr ts = Ret r.
Proof.
  unfold generate_new_token. destruct (ngtcp2_crypto_generate_regular_token _ _ _) as [rv tok] eqn:Hg.
  destruct (Z.ltb_spec rv 0); [by eexists|]. apply new_token_magic in Hg as [Hr Hm]; [|lia].
  destruct (token_prefix_kind tok rv KNewToken Hr) as (b & -> & _).
  { unfold token_kind. by rewrite Hm. }
  by eexists.
Qed.

(** ** Properties *)

(** A Stateless Reset is always shorter than the packet that triggered it, so
    two endpoints cannot answer each other for ever; nothing is written for a
    packet shorter than [MIN_STATELESS_RESET_SIZE], and in a buffer that can hold
    the longest one a reset has at least 21 and at most 42 bytes. *)
Theorem stateless_reset_shrinks (buf : bytes) (token : StatelessResetToken)
    (received_len n : Z) (buf' : bytes) (Hn : 0 <= received_len)
    (Hok : write_stateless_reset buf token received_len = Ok (n, buf')) :
  (received_len < MIN_STATELESS_RESET_SIZE -> n = 0 /\ buf' = buf) /\
  (MIN_STATELESS_RESET_SIZE <= received_len -> n < received_len /\ n <= 42) /\
  (MIN_STATELESS_RESET_SIZE <= received_len -> 42 <= slen buf -> 21 <= n).
Proof.
  revert Hok. unfold write_stateless_reset, sat_sub.
  unfold MIN_STATELESS_RESET_SIZE, STATELESS_RESET_TOKEN_LEN, MIN_RANDOM_LEN, MAX_RANDOM_LEN,
    NGTCP2_MAX_CIDLEN, STATELESS_RESET_TOKEN_LEN.
  set (r := Z.min (20 + 22 - 16) (Z.max (received_len - (1 + 16)) 0)).
  destruct (Z.ltb_spec r 5); [intros [= <- <-]; split; [done|split; lia]|].
  destruct (rand_fill r) as [random|] eqn:Hr; [|done].
  apply rand_fill_len in Hr as [Hr _].
  destruct (ngtcp2_pkt_write_stateless_reset2 buf token random) as [rv b] eqn:Hw.
  destruct (Z.ltb_spec rv 0); [done|]. intros [= <- <-].
  pose proof (reset2_len _ _ _ _ _ Hw ltac:(lia)). lia.
Qed.

(** C39: a token generated for a Retry packet or a NEW_TOKEN frame fits its array
    and is recognised as what it is when it comes back in an Initial packet; a
    token that verifies as a Retry token yields the connection id that the C code
    extracted, of at most 20 bytes. No call panics on connection ids of at most 20
    bytes. *)
Theorem address_tokens_recognised (secret : RetrySecret) (version : QuicVersion)
    (addr : SocketAddr) (scid odcid : ConnectionId) (ts : Z)
    (Hs : cid_ok scid) (Ho : cid_ok odcid) :
  (exists r, generate_retry_token secret version addr scid odcid ts = Ret r /\
     forall t, r = Ok t -> tok_kind t = KRetry /\ from_packet (tok_bytes t) = Some t) /\
  (exists r, generate_new_token secret addr ts = Ret r /\
     forall t, r = Ok t -> tok_kind t = KNewToken /\ from_packet (tok_bytes t) = Some t) /\
  (forall token timeout, exists r,
     verify_retry_token secret token version addr scid timeout ts = Ret r /\
     forall c, r = Ok c -> cid_ok c /\
       exists raw_scid raw, cid_to_raw scid = Ret raw_scid /\
         ngtcp2_crypto_verify_retry_token2 secret token (as_u32 version)
           (sockaddr_to_raw addr) raw_scid (as_u64 timeout) ts = (0, raw) /\
         as_bytes c = raw_cid_bytes raw).
Proof.
  destruct (cid_to_raw_ok scid Hs) as (rs & Hrs & _).
  destruct (cid_to_raw_ok odcid Ho) as (ro & Hro & _).
  split; [|split].
  - unfold generate_retry_token. rewrite Hrs, Hro.
    destruct (ngtcp2_crypto_generate_retry_token2 _ _ _ _ _ _) as [rv tok] eqn:Hg.
    destruct (Z.ltb_spec rv 0); [by eexists|].
    apply retry_token_magic in Hg as [Hr Hm]; [|lia].
    destruct (token_prefix_kind tok rv KRetry Hr) as (b & Hb & _ & Hf).
    { unfold token_kind. by rewrite Hm. }
    rewrite Hb. eexists. split; [done|]. by intros t [= <-].
  - unfold generate_new_token.
    destruct (ngtcp2_crypto_generate_regular_token _ _ _) as [rv tok] eqn:Hg.
    destruct (Z.ltb_spec rv 0); [by eexists|].
    apply new_token_magic in Hg as [Hr Hm]; [|lia].
    destruct (token_prefix_kind tok rv KNewToken Hr) as (b & Hb & _ & Hf).
    { unfold token_kind. by rewrite Hm. }
    rewrite Hb. eexists. split; [done|]. by intros t [= <-].
  - intros token timeout. unfold verify_retry_token. rewrite Hrs.
    destruct (ngtcp2_crypto_verify_retry_token2 _ _ _ _ _ _ _) as [rv raw] eqn:Hv.
    destruct (Z.eqb_spec rv 0) as [->|]; cbn [negb]; [|by eexists].
    destruct (Types.new (raw_cid_bytes raw)) as [c|] eqn:Hc; [|by eexists].
    eexists. split; [done|]. intros c' [= <-]. apply new_cid_ok in Hc as [Hc Hb].
    split; [done|]. by exists rs, raw.
Qed.

(** The type bits of RFC 9000 section 17.2; RFC 9369 section 3.2 adds one to them
    modulo four. *)
Definition rfc9000_type_bits (t : LongHeaderType) : Z :=
  match t with Initial => 0 | ZeroRtt => 1 | Handshake => 2 | Retry => 3 end.

(** The type of a long-header packet is recognised exactly for versions 1 and 2,
    with the type bits of RFC 9000 for version 1 and those bits plus one modulo four
    for version 2; a decoded packet has the long header form, a version other than 0
    and connection ids of at most 20 bytes, and is an Initial packet only when its
    version is known. *)
Theorem packet_version_sound (version first : Z) (t : LongHeaderType) (dgram : bytes)
    (p : PacketVersion) (Hf : is_u8 first) (Hp : decode_packet_version dgram = Some p) :
  (long_header_type version first = Some t <->
     (version = NGTCP2_PROTO_VER_V1 /\ (first / 16) mod 4 = rfc9000_type_bits t) \/
     (version = NGTCP2_PROTO_VER_V2 /\ (first / 16) mod 4 = (rfc9000_type_bits t + 1) mod 4)) /\
  (exists b, head dgram = Some b /\ Z.land b 0x80 <> 0 /\
     pv_header_type p = long_header_type (pv_version p) b) /\
  pv_version p <> 0 /\ cid_ok (pv_dcid p) /\ cid_ok (pv_scid p) /\
  (is_initial p = true -> from_u32 (pv_version p) <> None).
Proof.
  split.
  { unfold long_header_type. rewrite Z.shiftr_div_pow2 by lia. change (2 ^ 4) with 16.
    change 0x3 with (Z.ones 2). rewrite Z.land_ones by lia. change (2 ^ 2) with 4.
    assert ((first / 16) mod 4 = 0 \/ (first / 16) mod 4 = 1 \/
      (first / 16) mod 4 = 2 \/ (first / 16) mod 4 = 3) as Hq by lia.
    destruct (Z.eqb_spec version NGTCP2_PROTO_VER_V1), (Z.eqb_spec version NGTCP2_PROTO_VER_V2);
      destruct Hq as [Hq|[Hq|[Hq|Hq]]]; rewrite Hq; clear Hq;
      destruct t; cbn; split; intros; simplify_eq; naive_solver congruence. }
  unfold decode_packet_version in Hp. destruct (head dgram) as [b|] eqn:Hh; [|done].
  destruct (Z.eqb_spec (Z.land b 128) 0); [done|].
  destruct (ngtcp2_pkt_decode_version_cid dgram) as [rv raw].
  destruct (_ && _); [done|].
  destruct (vc_dcid raw) as [d|], (vc_scid raw) as [s|]; try done.
  destruct (Z.eqb_spec (vc_version raw) 0); [done|].
  destruct (Types.new d) as [dc|] eqn:Hd; [|done].
  destruct (Types.new s) as [sc|] eqn:Hs; [|done].
  injection Hp as <-. cbn. apply new_cid_ok in Hd as [Hd _], Hs as [Hs _].
  split; [by eexists|]. do 3 (split; [done|]).
  unfold is_initial. cbn. rewrite bool_decide_eq_true.
  unfold long_header_type, from_u32. bool_cases; done.
Qed.
End tokens.

(** ** A concrete C side

    Random bytes are zeros; tokens are the magic followed by the odcid in clear. *)
#[local] Instance toy_strerror : Strerror := fun _ => None.
Definition toy_cid (l : bytes) : raw_cid := mkRawCid (slen l) l.
Definition toy_api : TokenApi := {|
  rand_fill n := if n <? 0 then None else Some (replicate (Z.to_nat n) 0);
  ngtcp2_crypto_generate_stateless_reset_token secret c := (0, replicate 16 (datalen c));
  ngtcp2_pkt_write_stateless_reset2 buf token random :=
    if slen buf <? 21 then (-203, buf)
    else
      let r := take (Z.to_nat (slen buf - 16)) random in
      (slen r + 16, r ++ token ++ drop (length r + 16) buf);
  ngtcp2_accept d :=
    (if slen d <? 1200 then -201 else 0,
     {| hd_version := 1; hd_dcid := toy_cid (replicate 8 1); hd_scid := toy_cid [];
        hd_token := None |});
  ngtcp2_crypto_generate_retry_token2 _ _ _ _ odcid _ :=
    (1 + slen (cid_data odcid), 183 :: cid_data odcid);
  ngtcp2_crypto_verify_retry_token2 _ token _ _ _ _ _ := (0, toy_cid (drop 1 token));
  ngtcp2_crypto_generate_regular_token _ _ _ := (2, [54; 0]);
  ngtcp2_crypto_verify_regular_token _ _ _ _ _ := 0;
  ngtcp2_crypto_write_retry buf _ _ _ _ _ := (0, buf);
  ngtcp2_crypto_write_connection_close buf _ _ _ _ _ := (0, buf);
  ngtcp2_pkt_decode_version_cid d :=
    (0, {| vc_version := match slice d 1 5 with Some v => be_value v | None => 0 end;
           vc_dcid := Some []; vc_scid := Some [] |});
  ngtcp2_pkt_write_version_negotiation buf _ _ _ _ := (0, buf) |}.

#[local] Instance toy_api_doc : TokenApiDoc toy_api.
Proof.
  constructor; cbn.
  - intros n b. destruct (Z.ltb_spec n 0); [done|]. intros [= <-].
    split; [unfold slen; rewrite length_replicate; lia|].
    apply Forall_replicate. done.
  - intros buf token random rv buf'. destruct (Z.ltb_spec (slen buf) 21); [intros [= <- <-]; lia|].
    intros [= <- _] _. unfold slen in *. rewrite length_take. lia.
  - intros ? ? ? ? odcid ? rv token [= <- <-] _. rewrite slen_cons.
    pose proof (slen_nonneg (cid_data odcid)). split; [lia|done].
  - intros ? ? ? rv token [= <- <-] _. done.
Qed.

Lemma stateless_reset_shrinks_witness :
  let tok := replicate 16 9 in
  exists buf', write_stateless_reset (api := toy_api) (replicate 64 0) tok 30 = Ok (29, buf')
  /\ 29 < 30 /\ 21 <= 29.
Proof.
  intros tok. eexists. split; [reflexivity|].
  edestruct (stateless_reset_shrinks (api := toy_api) (replicate 64 0) tok 30 29) as (_ & H1 & H2);
    [lia|reflexivity|].
  split; [apply H1; discriminate|apply H2; discriminate].
Defined.

Lemma address_tokens_recognised_witness :
  let c := mkCid [1; 2; 3] in
  exists r, generate_retry_token (api := toy_api) [] V1 (SockV4 [127; 0; 0; 1] 80) c c 7
    = Ret r /\ forall t, r = Ok t -> from_packet (tok_bytes t) = Some t.
Proof.
  intros c. assert (cid_ok c) as Hc by (vm_compute; discriminate).
  destruct (address_tokens_recognised (api := toy_api) [] V1 (SockV4 [127; 0; 0; 1] 80) c c 7 Hc Hc)
    as ((r & Hr & Ht) & _).
  exists r. split; [exact Hr|]. intros t Heq. exact (proj2 (Ht t Heq)).
Defined.

Lemma packet_version_sound_witness :
  let p := {| pv_version := 0x6b3343cf; pv_dcid := mkCid []; pv_scid := mkCid [];
              pv_header_type := Some Initial |} in
  decode_packet_version (api := toy_api) [0xd0; 0x6b; 0x33; 0x43; 0xcf] = Some p /\
  is_initial p = true /\ from_u32 (pv_version p) <> None.
Proof.
  intros p. split; [reflexivity|]. split; [reflexivity|].
  apply (packet_version_sound (api := toy_api) 1 0 Initial
    [0xd0; 0x6b; 0x33; 0x43; 0xcf] p); [split; [discriminate|reflexivity]|reflexivity|reflexivity].
Defined.
End Tokens.
