(* ===== verification/Params.v ===== *)
(** * Settings, transport parameters and statistics
    (src/ngtcp2/src/settings.rs, config.rs, stats.rs)

    The Rust values and the C structures they are converted to and from. A
    [Duration] is its number of nanoseconds. *)
From S2P Require Import Prelude Types Tokens.
Import Types Tokens.

Module Params.

(** ** Durations *)

(** Seconds in 64 bits and nanoseconds below one second. *)
Definition Duration : Type := Z.
Definition duration_ok (d : Duration) : Prop := 0 <= d < (u64_max + 1) * 10 ^ 9.
Definition from_nanos (n : Z) : Duration := n.
Definition from_secs (s : Z) : Duration := s * 10 ^ 9.
Definition from_millis (ms : Z) : Duration := ms * 10 ^ 6.
Definition as_nanos (d : Duration) : Z := d.

(** ** settings.rs *)

Definition DEFAULT_MAX_TX_UDP_PAYLOAD_SIZE : Z := 1350.
Definition DEFAULT_INITIAL_RTT : Duration := from_millis 333.

Inductive CongestionAlgorithm := Reno | Cubic | Bbr2.
#[export] Instance CongestionAlgorithm_eq_dec : EqDecision CongestionAlgorithm.
Proof. solve_decision. Defined.

Definition NGTCP2_CC_ALGO_RENO : Z := 0.
Definition NGTCP2_CC_ALGO_CUBIC : Z := 1.
Definition NGTCP2_CC_ALGO_BBR : Z := 2.

Definition cc_from_raw (value : Z) : CongestionAlgorithm :=
  if value =? NGTCP2_CC_ALGO_RENO then Reno
  else if value =? NGTCP2_CC_ALGO_BBR then Bbr2
  else Cubic.

Definition cc_as_raw (a : CongestionAlgorithm) : Z :=
  match a with
  | Reno => NGTCP2_CC_ALGO_RENO
  | Cubic => NGTCP2_CC_ALGO_CUBIC
  | Bbr2 => NGTCP2_CC_ALGO_BBR
  end.

Definition finite_duration (nanos : Z) : option Duration :=
  if negb (nanos =? u64_max) then Some (from_nanos nanos) else None.

(** [d.as_nanos() as u64] keeps the low 64 bits. *)
Definition nanos_or_max (duration : option Duration) : Z :=
  match duration with None => u64_max | Some d => as_u64 (as_nanos d) end.

Record Settings := mkSettings {
  initial_ts : Z;
  congestion_algorithm : CongestionAlgorithm;
  initial_rtt : Duration;
  handshake_timeout : option Duration;
  max_tx_udp_payload_size : Z;
  max_window : Z;
  max_stream_window : Z;
  ack_threshold : Z;
  no_tx_udp_payload_size_shaping : bool;
  no_pmtud : bool;
  keep_alive_timeout : option Duration;
  address_validation_token : option AddressValidationToken;
  stateless_reset_secret : option StatelessResetSecret;
  preferred_versions : list QuicVersion;
  available_versions : list QuicVersion;
  qlog : bool }.

#[export] Instance Settings_eta : Eta Settings := fun s =>
  mkSettings (initial_ts s) (congestion_algorithm s) (initial_rtt s) (handshake_timeout s)
    (max_tx_udp_payload_size s) (max_window s) (max_stream_window s) (ack_threshold s)
    (no_tx_udp_payload_size_shaping s) (no_pmtud s) (keep_alive_timeout s)
    (address_validation_token s) (stateless_reset_secret s) (preferred_versions s)
    (available_versions s) (qlog s).

(** The fields of [ngtcp2_settings] that the crate touches. A pointer with a
    length is the array it points to while the call lasts; [raw_qlog_write] says
    whether the callback is set. *)
Record ngtcp2_settings := mkRawSettings {
  raw_initial_ts : Z;
  raw_cc_algo : Z;
  raw_initial_rtt : Z;
  raw_handshake_timeout : Z;
  raw_max_tx_udp_payload_size : Z;
  raw_max_window : Z;
  raw_max_stream_window : Z;
  raw_ack_thresh : Z;
  raw_no_tx_udp_payload_size_shaping : Z;
  raw_no_pmtud : Z;
  raw_preferred_versions : list Z;
  raw_available_versions : list Z;
  raw_qlog_write : bool;
  raw_token : bytes;
  raw_token_type : Z }.

#[export] Instance ngtcp2_settings_eta : Eta ngtcp2_settings := fun r =>
  mkRawSettings (raw_initial_ts r) (raw_cc_algo r) (raw_initial_rtt r)
    (raw_handshake_timeout r) (raw_max_tx_udp_payload_size r) (raw_max_window r)
    (raw_max_stream_window r) (raw_ack_thresh r) (raw_no_tx_udp_payload_size_shaping r)
    (raw_no_pmtud r) (raw_preferred_versions r) (raw_available_versions r)
    (raw_qlog_write r) (raw_token r) (raw_token_type r).

Definition bool_u8 (b : bool) : Z := if b then 1 else 0.

Section settings.
(** What [ngtcp2_settings_default] leaves in a zeroed structure. *)
Context (settings_default : ngtcp2_settings).

Definition default_raw (ts : Z) : ngtcp2_settings :=
  settings_default
    <| raw_initial_ts := ts |>
    <| raw_max_tx_udp_payload_size := DEFAULT_MAX_TX_UDP_PAYLOAD_SIZE |>.

Definition Settings_new (ts : Z) : Settings :=
  let raw := default_raw ts in
  {| initial_ts := ts;
     congestion_algorithm := cc_from_raw (raw_cc_algo raw);
     initial_rtt := from_nanos (raw_initial_rtt raw);
     handshake_timeout := finite_duration (raw_handshake_timeout raw);
     max_tx_udp_payload_size := raw_max_tx_udp_payload_size raw;
     max_window := raw_max_window raw;
     max_stream_window := raw_max_stream_window raw;
     ack_threshold := raw_ack_thresh raw;
     no_tx_udp_payload_size_shaping := negb (raw_no_tx_udp_payload_size_shaping raw =? 0);
     no_pmtud := negb (raw_no_pmtud raw =? 0);
     keep_alive_timeout := None;
     address_validation_token := None;
     stateless_reset_secret := None;
     preferred_versions := [];
     available_versions := [];
     qlog := false |}.

Definition to_raw (s : Settings) : ngtcp2_settings :=
  let raw := (default_raw (initial_ts s))
    <| raw_cc_algo := cc_as_raw (congestion_algorithm s) |>
    <| raw_initial_rtt := as_u64 (as_nanos (initial_rtt s)) |>
    <| raw_handshake_timeout := nanos_or_max (handshake_timeout s) |>
    <| raw_max_tx_udp_payload_size := max_tx_udp_payload_size s |>
    <| raw_max_window := max_window s |>
    <| raw_max_stream_window := max_stream_window s |>
    <| raw_ack_thresh := ack_threshold s |>
    <| raw_no_tx_udp_payload_size_shaping := bool_u8 (no_tx_udp_payload_size_shaping s) |>
    <| raw_no_pmtud := bool_u8 (no_pmtud s) |> in
  let raw :=
    match preferred_versions s with
    | [] => raw
    | vs => raw <| raw_preferred_versions := map as_u32 vs |>
    end in
  let raw :=
    match available_versions s with
    | [] => raw
    | vs => raw <| raw_available_versions := map as_u32 vs |>
    end in
  let raw := if qlog s then raw <| raw_qlog_write := true |> else raw in
  match address_validation_token s with
  | Some token =>
      raw <| raw_token := tok_bytes token |>
        <| raw_token_type := kind_as_raw (tok_kind token) |>
  | None => raw
  end.
End settings.

(** ** config.rs *)

Definition duration_nanos (d : Duration) : Z :=
  if as_nanos d <=? u64_max then as_nanos d else u64_max - 1.

(** [ngtcp2_preferred_addr] *)
Record ngtcp2_preferred_addr := mkPreferredAddr {
  pa_cid : raw_cid;
  pa_ipv4 : bytes;
  pa_ipv6 : bytes;
  pa_ipv4_present : Z;
  pa_ipv6_present : Z;
  pa_stateless_reset_token : bytes }.
#[export] Instance ngtcp2_preferred_addr_eta : Eta ngtcp2_preferred_addr := fun p =>
  mkPreferredAddr (pa_cid p) (pa_ipv4 p) (pa_ipv6 p) (pa_ipv4_present p)
    (pa_ipv6_present p) (pa_stateless_reset_token p).

Record TransportParams := mkTransportParams {
  initial_max_stream_data_bidi_local : Z;
  initial_max_stream_data_bidi_remote : Z;
  initial_max_stream_data_uni : Z;
  initial_max_data : Z;
  initial_max_streams_bidi : Z;
  initial_max_streams_uni : Z;
  max_idle_timeout : Z;
  max_udp_payload_size : Z;
  active_connection_id_limit : Z;
  ack_delay_exponent : Z;
  max_ack_delay : Z;
  max_datagram_frame_size : Z;
  disable_active_migration : Z;
  grease_quic_bit : Z;
  reset_stream_at : Z;
  stateless_reset_token : bytes;
  stateless_reset_token_present : Z;
  original_dcid : raw_cid;
  original_dcid_present : Z;
  retry_scid : raw_cid;
  retry_scid_present : Z;
  preferred_addr : ngtcp2_preferred_addr;
  preferred_addr_present : Z }.
#[export] Instance TransportParams_eta : Eta TransportParams := fun p =>
  mkTransportParams (initial_max_stream_data_bidi_local p)
    (initial_max_stream_data_bidi_remote p) (initial_max_stream_data_uni p)
    (initial_max_data p) (initial_max_streams_bidi p) (initial_max_streams_uni p)
    (max_idle_timeout p) (max_udp_payload_size p) (active_connection_id_limit p)
    (ack_delay_exponent p) (max_ack_delay p) (max_datagram_frame_size p)
    (disable_active_migration p) (grease_quic_bit p) (reset_stream_at p)
    (stateless_reset_token p) (stateless_reset_token_present p) (original_dcid p)
    (original_dcid_present p) (retry_scid p) (retry_scid_present p) (preferred_addr p)
    (preferred_addr_present p).

(** [transport_params_default]: what [ngtcp2_transport_params_default] leaves in a
    zeroed structure. *)
Definition TransportParams_new (transport_params_default : TransportParams) : TransportParams :=
  transport_params_default
    <| initial_max_stream_data_bidi_local := 1024 * 1024 |>
    <| initial_max_stream_data_bidi_remote := 1024 * 1024 |>
    <| initial_max_stream_data_uni := 1024 * 1024 |>
    <| initial_max_data := 10 * 1024 * 1024 |>
    <| initial_max_streams_bidi := 100 |>
    <| initial_max_streams_uni := 100 |>
    <| max_idle_timeout := duration_nanos (from_secs 30) |>
    <| active_connection_id_limit := 8 |>.

Section builders.
Context (p : TransportParams).

Definition with_max_idle_timeout (timeout : Duration) : TransportParams :=
  p <| max_idle_timeout := duration_nanos timeout |>.
Definition with_initial_max_data (n : Z) : TransportParams := p <| initial_max_data := n |>.
Definition with_initial_max_stream_data_bidi_local (n : Z) : TransportParams :=
  p <| initial_max_stream_data_bidi_local := n |>.
Definition with_initial_max_stream_data_bidi_remote (n : Z) : TransportParams :=
  p <| initial_max_stream_data_bidi_remote := n |>.
Definition with_initial_max_stream_data_uni (n : Z) : TransportParams :=
  p <| initial_max_stream_data_uni := n |>.
Definition with_max_streams_bidi (n : Z) : TransportParams :=
  p <| initial_max_streams_bidi := n |>.
Definition with_max_streams_uni (n : Z) : TransportParams :=
  p <| initial_max_streams_uni := n |>.
Definition with_active_connection_id_limit (n : Z) : TransportParams :=
  p <| active_connection_id_limit := n |>.
Definition with_max_ack_delay (delay : Duration) : TransportParams :=
  p <| max_ack_delay := duration_nanos delay |>.
Definition with_ack_delay_exponent (n : Z) : TransportParams := p <| ack_delay_exponent := n |>.
Definition with_max_udp_payload_size (n : Z) : TransportParams :=
  p <| max_udp_payload_size := n |>.
Definition with_disable_active_migration (b : bool) : TransportParams :=
  p <| disable_active_migration := bool_u8 b |>.
Definition with_grease_quic_bit (b : bool) : TransportParams :=
  p <| grease_quic_bit := bool_u8 b |>.
Definition with_datagram (n : Z) : TransportParams := p <| max_datagram_frame_size := n |>.
Definition with_reset_stream_at (b : bool) : TransportParams :=
  p <| reset_stream_at := bool_u8 b |>.
Definition with_stateless_reset_token (token : StatelessResetToken) : TransportParams :=
  p <| stateless_reset_token := token |> <| stateless_reset_token_present := 1 |>.

(** [datalen = len; data[..len].copy_from_slice(cid.as_bytes())]: what follows the
    id in the array keeps its old value. *)
Definition write_cid (raw : raw_cid) (cid : ConnectionId) : outcome raw_cid :=
  if NGTCP2_MAX_CIDLEN <? Types.len cid then Panic
  else Ret (mkRawCid (Types.len cid)
    (as_bytes cid ++ drop (Z.to_nat (Types.len cid)) (cid_data raw))).

Definition with_original_dcid (dcid : ConnectionId) : outcome TransportParams :=
  match write_cid (original_dcid p) dcid with
  | Panic => Panic
  | Ret raw => Ret (p <| original_dcid := raw |> <| original_dcid_present := 1 |>)
  end.

Definition has_original_dcid : bool := negb (original_dcid_present p =? 0).

Definition with_retry_scid (scid : ConnectionId) : outcome TransportParams :=
  match write_cid (retry_scid p) scid with
  | Panic => Panic
  | Ret raw => Ret (p <| retry_scid := raw |> <| retry_scid_present := 1 |>)
  end.

Definition with_preferred_address (cid : ConnectionId) (addr : SocketAddr)
    (reset_token : StatelessResetToken) : outcome TransportParams :=
  match write_cid (pa_cid (preferred_addr p)) cid with
  | Panic => Panic
  | Ret raw =>
      let pa := (preferred_addr p) <| pa_cid := raw |> in
      let pa :=
        match addr with
        | SockV4 ip port =>
            pa <| pa_ipv4 := zero_extended sizeof_sockaddr_in
                   (le_bytes 2 AF_INET ++ be_bytes 2 port ++ ip) |>
              <| pa_ipv4_present := 1 |>
        | SockV6 ip port _ _ =>
            pa <| pa_ipv6 := zero_extended sizeof_sockaddr_in6
                   (le_bytes 2 AF_INET6 ++ be_bytes 2 port ++ le_bytes 4 0 ++ ip) |>
              <| pa_ipv6_present := 1 |>
        end in
      let pa := pa <| pa_stateless_reset_token := reset_token |> in
      Ret (p <| preferred_addr := pa |> <| preferred_addr_present := 1 |>)
  end.
End builders.

Record RemoteTransportParams := {
  r_initial_max_data : Z;
  r_initial_max_stream_data_bidi_local : Z;
  r_initial_max_stream_data_bidi_remote : Z;
  r_initial_max_stream_data_uni : Z;
  r_initial_max_streams_bidi : Z;
  r_initial_max_streams_uni : Z;
  r_max_idle_timeout : Duration;
  r_max_udp_payload_size : Z;
  r_active_connection_id_limit : Z;
  r_ack_delay_exponent : Z;
  r_max_ack_delay : Duration;
  r_max_datagram_frame_size : Z;
  r_disable_active_migration : bool;
  r_grease_quic_bit : bool;
  r_reset_stream_at : bool;
  r_retry_scid : option ConnectionId }.

(** [&data[..datalen]] of the 20-byte array panics past its end. *)
Definition remote_from_raw (raw : TransportParams) : outcome RemoteTransportParams :=
  let snapshot scid :=
    {| r_initial_max_data := initial_max_data raw;
       r_initial_max_stream_data_bidi_local := initial_max_stream_data_bidi_local raw;
       r_initial_max_stream_data_bidi_remote := initial_max_stream_data_bidi_remote raw;
       r_initial_max_stream_data_uni := initial_max_stream_data_uni raw;
       r_initial_max_streams_bidi := initial_max_streams_bidi raw;
       r_initial_max_streams_uni := initial_max_streams_uni raw;
       r_max_idle_timeout := from_nanos (max_idle_timeout raw);
       r_max_udp_payload_size := max_udp_payload_size raw;
       r_active_connection_id_limit := active_connection_id_limit raw;
       r_ack_delay_exponent := ack_delay_exponent raw;
       r_max_ack_delay := from_nanos (max_ack_delay raw);
       r_max_datagram_frame_size := max_datagram_frame_size raw;
       r_disable_active_migration := negb (disable_active_migration raw =? 0);
       r_grease_quic_bit := negb (grease_quic_bit raw =? 0);
       r_reset_stream_at := negb (reset_stream_at raw =? 0);
       r_retry_scid := scid |} in
  if negb (retry_scid_present raw =? 0) then
    match slice (cid_data (retry_scid raw)) 0 (datalen (retry_scid raw)) with
    | None => Panic
    | Some b => Ret (snapshot (Types.new b))
    end
  else Ret (snapshot None).

(** ** stats.rs *)

Definition optional_nanos (value : Z) : option Duration :=
  if negb (value =? u64_max) then Some (from_nanos value) else None.
Definition optional_bytes (value : Z) : option Z :=
  if negb (value =? u64_max) then Some value else None.

Record ngtcp2_conn_info := {
  ci_latest_rtt : Z; ci_min_rtt : Z; ci_smoothed_rtt : Z; ci_rttvar : Z; ci_cwnd : Z;
  ci_ssthresh : Z; ci_bytes_in_flight : Z; ci_pkt_sent : Z; ci_bytes_sent : Z;
  ci_pkt_recv : Z; ci_bytes_recv : Z; ci_pkt_lost : Z; ci_bytes_lost : Z;
  ci_ping_recv : Z; ci_pkt_discarded : Z }.

Record ConnStats := {
  latest_rtt : Duration; min_rtt : option Duration; smoothed_rtt : Duration;
  rttvar : Duration; cwnd : Z; ssthresh : option Z; bytes_in_flight : Z;
  packets_sent : Z; bytes_sent : Z; packets_received : Z; bytes_received : Z;
  packets_lost : Z; bytes_lost : Z; pings_received : Z; packets_discarded : Z }.

Definition stats_from_raw (raw : ngtcp2_conn_info) : ConnStats :=
  {| latest_rtt := from_nanos (ci_latest_rtt raw);
     min_rtt := optional_nanos (ci_min_rtt raw);
     smoothed_rtt := from_nanos (ci_smoothed_rtt raw);
     rttvar := from_nanos (ci_rttvar raw);
     cwnd := ci_cwnd raw;
     ssthresh := optional_bytes (ci_ssthresh raw);
     bytes_in_flight := ci_bytes_in_flight raw;
     packets_sent := ci_pkt_sent raw;
     bytes_sent := ci_bytes_sent raw;
     packets_received := ci_pkt_recv raw;
     bytes_received := ci_bytes_recv raw;
     packets_lost := ci_pkt_lost raw;
     bytes_lost := ci_bytes_lost raw;
     pings_received := ci_ping_recv raw;
     packets_discarded := ci_pkt_discarded raw |}.

(** ** Lemmas *)

Lemma cc_roundtrip a : cc_from_raw (cc_as_raw a) = a.
Proof. by destruct a. Qed.

Lemma bool_u8_nonzero b : negb (bool_u8 b =? 0) = b.
Proof. by destruct b. Qed.

Lemma bool_u8_flag z : z = 0 \/ z = 1 -> bool_u8 (negb (z =? 0)) = z.
Proof. by intros [-> | ->]. Qed.

Lemma finite_nanos d :
  is_u64 d -> nanos_or_max (finite_duration d) = d.
Proof.
  unfold is_u64, finite_duration, nanos_or_max, as_nanos, from_nanos, as_u64.
  unfold u64_max. intros. bool_cases; cbn; lia.
Qed.

Lemma duration_nanos_spec d :
  0 <= d -> duration_nanos d = (if d <=? u64_max then d else u64_max - 1).
Proof. done. Qed.

(** What the crate relies on in ngtcp2's defaults: values of the types of the
    fields, a known algorithm, no token, no version list and no qlog. *)
Record default_ok (d : ngtcp2_settings) : Prop := {
  dok_cc : raw_cc_algo d ∈ [NGTCP2_CC_ALGO_RENO; NGTCP2_CC_ALGO_CUBIC; NGTCP2_CC_ALGO_BBR];
  dok_rtt : is_u64 (raw_initial_rtt d);
  dok_hs : is_u64 (raw_handshake_timeout d);
  dok_shaping : raw_no_tx_udp_payload_size_shaping d = 0 \/
                raw_no_tx_udp_payload_size_shaping d = 1;
  dok_pmtud : raw_no_pmtud d = 0 \/ raw_no_pmtud d = 1 }.

(** ** Properties *)

(** [Settings::new] describes ngtcp2's defaults: converting it back gives the
    default structure again, with the creation time and a maximum payload size of
    1350 bytes as the only differences. A setting that was changed reads back as
    itself from the structure handed to ngtcp2, timeouts below 2^64 - 1
    nanoseconds included. *)
Theorem settings_roundtrip (d : ngtcp2_settings) (ts : Z) (s : Settings)
    (Hd : default_ok d) (Ht : forall t, handshake_timeout s = Some t -> 0 <= t < u64_max)
    (Hr : 0 <= initial_rtt s <= u64_max) :
  to_raw d (Settings_new d ts) =
    d <| raw_initial_ts := ts |>
      <| raw_max_tx_udp_payload_size := DEFAULT_MAX_TX_UDP_PAYLOAD_SIZE |> /\
  let raw := to_raw d s in
  cc_from_raw (raw_cc_algo raw) = congestion_algorithm s /\
  from_nanos (raw_initial_rtt raw) = initial_rtt s /\
  finite_duration (raw_handshake_timeout raw) = handshake_timeout s /\
  negb (raw_no_tx_udp_payload_size_shaping raw =? 0) = no_tx_udp_payload_size_shaping s /\
  negb (raw_no_pmtud raw =? 0) = no_pmtud s /\
  (qlog s = true -> raw_qlog_write raw = true) /\
  (forall t, address_validation_token s = Some t ->
     raw_token raw = tok_bytes t /\ raw_token_type raw = kind_as_raw (tok_kind t)) /\
  (preferred_versions s <> [] ->
     raw_preferred_versions raw = map as_u32 (preferred_versions s)).
Proof.
  destruct Hd. split.
  - unfold to_raw, Settings_new, default_raw. cbn -[as_u64 cc_as_raw cc_from_raw].
    rewrite !bool_u8_flag, finite_nanos by done.
    replace (cc_as_raw (cc_from_raw (raw_cc_algo d))) with (raw_cc_algo d).
    2:{ rewrite !elem_of_cons, elem_of_nil in dok_cc0.
        destruct dok_cc0 as [->|[->|[->|[]]]]; done. }
    unfold as_u64, as_nanos, from_nanos, is_u64, u64_max in *.
    rewrite Z.mod_small by lia. done.
  - cbv zeta.
    assert (as_u64 (initial_rtt s) = initial_rtt s) as Hrtt.
    { unfold as_u64, u64_max in *. apply Z.mod_small. lia. }
    assert (finite_duration (nanos_or_max (handshake_timeout s)) = handshake_timeout s) as Hhs.
    { unfold finite_duration, nanos_or_max, as_u64, as_nanos, u64_max in *.
      destruct (handshake_timeout s) as [t|]; [|done]. specialize (Ht t eq_refl).
      rewrite Z.mod_small by lia. bool_cases; [lia|done]. }
    unfold to_raw, default_raw, as_nanos.
    destruct (preferred_versions s), (available_versions s), (qlog s),
      (address_validation_token s);
      cbn -[as_u64 finite_duration nanos_or_max Z.eqb];
      rewrite ?Hrtt, ?Hhs, ?cc_roundtrip, ?bool_u8_nonzero; naive_solver.
Qed.

(** [nanos_or_max] keeps a timeout below 2^64 - 1 nanoseconds, but a longer one
    is not clamped: 2^64 - 1 nanoseconds are written as "disabled", and 2^64 + k
    nanoseconds as k. [duration_nanos], which the transport parameters use, clamps
    instead: it fits 64 bits, preserves the order, and writes "disabled" for one
    duration only, that of exactly 2^64 - 1 nanoseconds. *)
Theorem timeout_conversions (a b : Duration) (Ha : 0 <= a <= b) :
  (a < u64_max -> finite_duration (nanos_or_max (Some a)) = Some a) /\
  finite_duration (nanos_or_max (Some u64_max)) = None /\
  (a < u64_max -> finite_duration (nanos_or_max (Some (2 ^ 64 + a))) = Some a) /\
  is_u64 (duration_nanos a) /\
  (duration_nanos a = u64_max <-> a = u64_max) /\
  (a <> u64_max -> b <> u64_max -> duration_nanos a <= duration_nanos b).
Proof.
  unfold duration_nanos, finite_duration, nanos_or_max, as_u64, as_nanos, from_nanos,
    is_u64, u64_max in *.
  repeat split; intros.
  - rewrite Z.mod_small by lia. bool_cases; [lia|done].
  - replace (2 ^ 64 + a) with (a + 1 * 2 ^ 64) by lia.
    rewrite Z.mod_add, Z.mod_small by lia. bool_cases; [lia|done].
  - bool_cases; lia.
  - bool_cases; lia.
  - bool_cases; lia.
  - bool_cases; lia.
  - bool_cases; lia.
Qed.

(** What the local endpoint sets in its transport parameters is what
    [RemoteTransportParams::from_raw] reads from the same structure: the Retry
    source connection id of at most 20 bytes, clamped timeouts, flags; and setting
    one leaves the others alone. *)
Theorem params_roundtrip (p : TransportParams) (scid : ConnectionId) (idle delay : Duration)
    (no_migration grease reset_at : bool) (Hc : cid_ok scid) :
  let q := with_reset_stream_at (with_grease_quic_bit (with_disable_active_migration
             (with_max_ack_delay (with_max_idle_timeout p idle) delay) no_migration) grease)
             reset_at in
  exists q' r, with_retry_scid q scid = Ret q' /\ remote_from_raw q' = Ret r /\
    r_retry_scid r = Some scid /\
    r_max_idle_timeout r = duration_nanos idle /\ r_max_ack_delay r = duration_nanos delay /\
    r_disable_active_migration r = no_migration /\ r_grease_quic_bit r = grease /\
    r_reset_stream_at r = reset_at /\
    r_initial_max_data r = initial_max_data p /\
    r_initial_max_streams_bidi r = initial_max_streams_bidi p /\
    has_original_dcid q' = has_original_dcid p.
Proof.
  intros q. unfold cid_ok in Hc. unfold with_retry_scid, write_cid.
  destruct (Z.ltb_spec NGTCP2_MAX_CIDLEN (Types.len scid)) as [|_]; [lia|].
  set (raw := mkRawCid _ _). set (q' := (q <| retry_scid := raw |>) <| retry_scid_present := 1 |>).
  assert (remote_from_raw q' = match slice (cid_data raw) 0 (datalen raw) with
    | None => Panic
    | Some b => Ret _ end) as Hr by reflexivity.
  rewrite (slice_at _ 0 (datalen raw) [] (as_bytes scid)
    (drop (Z.to_nat (Types.len scid)) (cid_data (retry_scid q)))) in Hr by done.
  exists q'. eexists. split; [done|]. split; [exact Hr|].
  assert (Types.new (as_bytes scid) = Some scid) as ->.
  { unfold Types.new. destruct scid as [d]. cbn in *. unfold Types.len in Hc. cbn in Hc.
    destruct (Z.ltb_spec NGTCP2_MAX_CIDLEN (slen d)); [lia|done]. }
  subst q' q. cbn -[duration_nanos Z.eqb bool_u8 Params.has_original_dcid].
  rewrite !bool_u8_nonzero. done.
Qed.

(** ** Witnesses *)

Definition toy_default : ngtcp2_settings :=
  {| raw_initial_ts := 0; raw_cc_algo := NGTCP2_CC_ALGO_CUBIC;
     raw_initial_rtt := as_nanos DEFAULT_INITIAL_RTT; raw_handshake_timeout := u64_max;
     raw_max_tx_udp_payload_size := 1452; raw_max_window := 0; raw_max_stream_window := 0;
     raw_ack_thresh := 2; raw_no_tx_udp_payload_size_shaping := 0; raw_no_pmtud := 0;
     raw_preferred_versions := []; raw_available_versions := []; raw_qlog_write := false;
     raw_token := []; raw_token_type := 0 |}.

Lemma settings_roundtrip_witness :
  let s := (Settings_new toy_default 5) <| handshake_timeout := Some (from_secs 3) |> in
  finite_duration (raw_handshake_timeout (to_raw toy_default s)) = Some 3000000000 /\
  raw_max_tx_udp_payload_size (to_raw toy_default (Settings_new toy_default 5)) = 1350.
Proof.
  intros s.
  destruct (settings_roundtrip toy_default 5 s) as (H1 & _ & _ & H2 & _).
  - constructor; try (by left); [set_solver|done..].
  - intros t [= <-]. done.
  - done.
  - split; [exact H2|]. rewrite H1. reflexivity.
Defined.

(** Half a second more than 2^64 nanoseconds. *)
Lemma timeout_conversions_witness :
  finite_duration (nanos_or_max (Some (2 ^ 64 + 500000000))) = Some 500000000.
Proof. apply (timeout_conversions 500000000 500000000); done. Defined.

Definition toy_params : TransportParams :=
  let c := mkRawCid 0 (replicate 20 0) in
  mkTransportParams 0 0 0 0 0 0 0 65527 2 3 25000000 0 0 0 0 [] 0 c 0 c 0
    (mkPreferredAddr c [] [] 0 0 []) 0.

Lemma params_roundtrip_witness :
  exists q' r,
    with_retry_scid (with_reset_stream_at (with_grease_quic_bit
      (with_disable_active_migration (with_max_ack_delay
        (with_max_idle_timeout (TransportParams_new toy_params) (from_secs 60)) 1) true)
      false) false) (mkCid [7; 8]) = Ret q' /\ remote_from_raw q' = Ret r /\
    r_retry_scid r = Some (mkCid [7; 8]) /\ r_max_idle_timeout r = from_secs 60.
Proof.
  destruct (params_roundtrip (TransportParams_new toy_params) (mkCid [7; 8]) (from_secs 60) 1
    true false false) as (q & r & H1 & H2 & H3 & H4 & _); [done|].
  exists q, r. exact (conj H1 (conj H2 (conj H3 H4))).
Defined.
End Params.
