(* ===== verification/InFlight.v ===== *)
(** * Unacknowledged stream data (src/ngtcp2/src/conn.rs, lines 124-304)

    ngtcp2 keeps pointers into the buffers it was given until their data is
    acknowledged. [InFlightStreamData] owns those buffers. The model gives every
    [Vec] the identity of its allocation, so that "the pointer is still valid and
    still reads the same bytes" is a statement about it. *)
From S2P Require Import Prelude Types.
Import Types.

Module InFlight.

(** ** Vectors with their allocation *)

(** [alloc] identifies the allocation of a [Vec<u8>], [cap] is its capacity and
    [elems] its contents. *)
Record vec := mkVec { alloc : nat; cap : Z; elems : bytes }.

Record RetiredBuffer := mkRetired { rb_data : vec; rb_end : Z }.

Record InFlightStreamData := mkEntry {
  offset : Z; buf : vec; start : Z; retired : list RetiredBuffer }.

#[export] Instance InFlightStreamData_eta : Eta InFlightStreamData := fun e =>
  mkEntry (offset e) (buf e) (start e) (retired e).

(** [Vec::new]: no allocation yet, capacity 0. *)
Definition vec_new : vec := mkVec 0 0 [].

(** The entry [or_insert_with] creates. *)
Definition new_entry : InFlightStreamData := mkEntry 0 vec_new 0 [].

(** The bytes not yet acknowledged. *)
Definition unacked (e : InFlightStreamData) : bytes :=
  drop (Z.to_nat (start e)) (elems (buf e)).

(** [Vec::with_capacity n] may allocate more than asked. *)
Class Allocator := real_cap : Z -> Z.
Class AllocatorDoc (a : Allocator) : Prop := real_cap_ge n : n <= real_cap n.

Section ops.
Context {allocator : Allocator}.

Definition ack_until (e : InFlightStreamData) (off : Z) : InFlightStreamData :=
  if off <=? offset e then e
  else
    let acked := Z.min (off - offset e) usize_max in
    let acked := Z.min acked (slen (elems (buf e)) - start e) in
    let e := e <| offset := offset e + acked |> <| start := start e + acked |> in
    let e :=
      if start e =? slen (elems (buf e))
      then e <| buf := mkVec (alloc (buf e)) (cap (buf e)) [] |> <| start := 0 |>
      else e in
    e <| retired := filter (fun r => rb_end r > offset e) (retired e) |>.

(** [extend_from_slice] within the capacity stays in the allocation. *)
Definition extend (v : vec) (d : bytes) : vec := mkVec (alloc v) (cap v) (elems v ++ d).

(** [fresh] identifies the next allocation. The result is the entry, the range of
    the data just appended, and the next allocation to come. *)
Definition append (e : InFlightStreamData) (d : bytes) (fresh : nat)
    : InFlightStreamData * (Z * Z) * nat :=
  let '(e, fresh) :=
    if cap (buf e) <? slen (elems (buf e)) + slen d then
      let needed := slen (elems (buf e)) + slen d in
      let capacity := Z.max needed (sat_mul (cap (buf e)) 2) in
      match elems (buf e) with
      | [] => (e <| buf := mkVec fresh (real_cap capacity) [] |>, S fresh)
      | _ =>
          let new_data := mkVec fresh (real_cap capacity)
            (drop (Z.to_nat (start e)) (elems (buf e))) in
          let end_ := offset e + (slen (elems (buf e)) - start e) in
          (e <| retired := retired e ++ [mkRetired (buf e) end_] |>
             <| buf := new_data |> <| start := 0 |>, S fresh)
      end
    else (e, fresh) in
  let s := slen (elems (buf e)) in
  let e := e <| buf := extend (buf e) d |> in
  (e, (s, slen (elems (buf e))), fresh).

Definition truncate_unwritten (e : InFlightStreamData) (len : Z) : InFlightStreamData :=
  e <| buf := mkVec (alloc (buf e)) (cap (buf e))
                (take (Z.to_nat (start e + len)) (elems (buf e))) |>.

(** What [write_stream_with_flags] does around the call to ngtcp2, which accepts
    the first [written] bytes of [d] (none when it reports no STREAM frame). *)
Definition write_entry (e : InFlightStreamData) (d : bytes) (written : Z) (fresh : nat)
    : InFlightStreamData * (Z * Z) * nat :=
  let '(e, appended, fresh) := append e d fresh in
  (truncate_unwritten e (sat_sub appended.1 (start e) + written), appended, fresh).
End ops.

(** [ConnectionUserData::acked_stream_data] and [closed_stream] on the map of the
    entries. *)
Definition acked_stream_data (m : gmap StreamId InFlightStreamData)
    (stream_id : StreamId) (off datalen : Z) : gmap StreamId InFlightStreamData :=
  match m !! stream_id with
  | None => m
  | Some entry => <[stream_id := ack_until entry (sat_add off datalen)]> m
  end.

Definition closed_stream (m : gmap StreamId InFlightStreamData) (stream_id : StreamId)
    : gmap StreamId InFlightStreamData := delete stream_id m.

(** ** Pointers handed to ngtcp2 *)

(** A pointer range given to ngtcp2: allocation, position, the bytes it showed, and
    the stream offset just past them. *)
Record lent := mkLent { l_alloc : nat; l_pos : Z; l_bytes : bytes; l_end : Z }.

Definition reads (v : vec) (l : lent) : Prop :=
  alloc v = l_alloc l /\
  slice (elems v) (l_pos l) (l_pos l + slen (l_bytes l)) = Some (l_bytes l).

(** Some live buffer still holds the bytes at the address. *)
Definition readable (e : InFlightStreamData) (l : lent) : Prop :=
  reads (buf e) l \/ exists r, r ∈ retired e /\ reads (rb_data r) l.

(** [sent] is every byte of the stream that ngtcp2 accepted so far. *)
Record state := mkState {
  entry : InFlightStreamData; fresh : nat; lents : list lent; sent : bytes }.

Definition initial : state := mkState new_entry 1 [] [].

Section steps.
Context {allocator : Allocator}.

(** The life of an entry: writes, of which ngtcp2 keeps a pointer to the bytes it
    accepted, and acknowledgements. *)
Inductive step : state -> state -> Prop :=
| step_write e n ls st d written e' appended n' :
    0 <= written <= slen d ->
    write_entry e d written n = (e', appended, n') ->
    step (mkState e n ls st)
      (mkState e' n'
        (mkLent (alloc (buf e')) appended.1 (take (Z.to_nat written) d)
           (slen st + written) :: ls)
        (st ++ take (Z.to_nat written) d))
| step_ack e n ls st off :
    0 <= off <= u64_max ->
    step (mkState e n ls st) (mkState (ack_until e off) n ls st).

Inductive reachable : state -> Prop :=
| reachable_initial : reachable initial
| reachable_step s1 s2 : reachable s1 -> step s1 s2 -> reachable s2.

(** ** Well-formedness *)

Record wf (e : InFlightStreamData) : Prop := {
  wf_start : 0 <= start e <= slen (elems (buf e));
  wf_cap : slen (elems (buf e)) <= cap (buf e);
  wf_offset : 0 <= offset e;
  wf_acked : elems (buf e) <> [] -> start e < slen (elems (buf e));
  wf_retired : Forall (fun r => rb_end r <= offset e + slen (unacked e)) (retired e) }.

Lemma new_entry_wf : wf new_entry.
Proof. constructor; done. Qed.

Lemma slen_unacked e : wf e -> slen (unacked e) = slen (elems (buf e)) - start e.
Proof. intros []. apply slen_drop. lia. Qed.

Lemma wf_empty_start e : wf e -> elems (buf e) = [] -> start e = 0.
Proof. intros [Hs _ _ _ _] He. rewrite He, (@slen_nil Z) in Hs. lia. Qed.

Lemma slen_unacked_nil e : elems (buf e) = [] -> slen (unacked e) = 0.
Proof. unfold unacked. intros ->. by rewrite drop_nil. Qed.

(** *** Acknowledgements *)

(** The bytes an acknowledgement up to [off] removes. *)
Definition acked_by (e : InFlightStreamData) (off : Z) : Z :=
  Z.max 0 (Z.min (off - offset e) (slen (unacked e))).

Lemma ack_until_shape e off :
  wf e -> off <= u64_max ->
  let k := acked_by e off in
  offset (ack_until e off) = offset e + k /\
  unacked (ack_until e off) = drop (Z.to_nat k) (unacked e) /\
  alloc (buf (ack_until e off)) = alloc (buf e) /\
  retired (ack_until e off) =
    (if off <=? offset e then retired e
     else filter (fun r => rb_end r > offset e + k) (retired e)) /\
  (k < slen (unacked e) ->
     elems (buf (ack_until e off)) = elems (buf e) /\
     start (ack_until e off) = start e + k) /\
  wf (ack_until e off).
Proof.
  intros Hwf Hoff. pose proof (slen_unacked e Hwf) as Hlen. cbv zeta.
  pose proof Hwf as [Hs Hc Ho Ha Hr]. unfold acked_by. rewrite Hlen.
  unfold ack_until. destruct (Z.leb_spec off (offset e)) as [Hle|Hgt].
  - replace (Z.max 0 _) with 0 by lia. change (Z.to_nat 0) with 0%nat.
    rewrite drop_0, !Z.add_0_r. done.
  - set (k := Z.min (Z.min (off - offset e) usize_max) (slen (elems (buf e)) - start e)).
    replace (Z.max 0 _) with k by (unfold k, u64_max, usize_max in *; lia).
    assert (0 <= k <= slen (elems (buf e)) - start e) as Hk
      by (unfold k, u64_max, usize_max in *; lia).
    assert (drop (Z.to_nat (start e + k)) (elems (buf e)) =
      drop (Z.to_nat k) (unacked e)) as Hdrop.
    { unfold unacked. rewrite drop_drop. f_equal. lia. }
    assert (Forall (fun r => rb_end r <= offset e + (slen (elems (buf e)) - start e))
      (filter (fun r => rb_end r > offset e + k) (retired e))) as Hr'.
    { apply Forall_forall. intros r [_ Hin]%list_elem_of_filter.
      rewrite Hlen in Hr. by eapply Forall_forall in Hr. }
    cbn. destruct (Z.eqb_spec (start e + k) (slen (elems (buf e)))) as [Heq|Hne].
    + cbn. assert (drop (Z.to_nat k) (unacked e) = []) as Hnil.
      { apply slen_zero_inv. rewrite slen_drop; lia. }
      rewrite Hnil. split_and!; try done; [lia|].
      pose proof (slen_nonneg (elems (buf e))).
      constructor; cbn [elems buf start cap offset update retired];
        rewrite ?(@slen_nil Z); [lia|lia|lia|done|].
      eapply Forall_impl; [exact Hr'|]. intros r. cbn beta. rewrite slen_unacked_nil; cbn; [lia|done].
    + cbn. split_and!; try done.
      constructor; cbn; [lia|done|lia|lia|].
      unfold unacked. cbn. rewrite Hdrop, slen_drop, Hlen by lia.
      eapply Forall_impl; [exact Hr'|]. cbn. intros r. lia.
Qed.
(** *** Writes *)

(** How a write changes the buffers: in place, in a first allocation, or in a new
    allocation with the old buffer retired. *)
Inductive moved (e : InFlightStreamData) (n : nat) : InFlightStreamData -> bytes -> nat -> Prop :=
| moved_in_place e' :
    alloc (buf e') = alloc (buf e) -> retired e' = retired e -> start e' = start e ->
    moved e n e' (elems (buf e)) n
| moved_first e' :
    elems (buf e) = [] -> start e' = start e ->
    alloc (buf e') = n -> retired e' = retired e -> moved e n e' [] (S n)
| moved_retired e' :
    alloc (buf e') = n -> start e' = 0 -> elems (buf e) <> [] ->
    retired e' = retired e ++ [mkRetired (buf e) (offset e + slen (unacked e))] ->
    moved e n e' (unacked e) (S n).

Lemma append_shape `{!AllocatorDoc allocator} e d n e' appended n' :
  wf e -> append e d n = (e', appended, n') ->
  exists base, moved e n e' base n' /\
    elems (buf e') = base ++ d /\ appended = (slen base, slen base + slen d) /\
    offset e' = offset e /\ slen (base ++ d) <= cap (buf e').
Proof.
  intros Hwf. pose proof (slen_unacked e Hwf) as Hun. pose proof Hwf as [Hs Hc _ _ _].
  unfold append. destruct (Z.ltb_spec (cap (buf e)) (slen (elems (buf e)) + slen d)) as [Hlt|Hge].
  - set (capacity := Z.max _ _). pose proof (real_cap_ge capacity).
    assert (slen (elems (buf e)) + slen d <= capacity) by (unfold capacity; lia).
    clearbody capacity. destruct (elems (buf e)) as [|b l] eqn:He.
    + intros [= <- <- <-]. exists []. cbn. rewrite !(@slen_nil Z) in *.
      split; [by apply moved_first|]. split_and!; try done; lia.
    + rewrite <- He in *. intros [= <- <- <-]. exists (unacked e). cbn.
      split; [|split_and!; try done; rewrite slen_app; done || lia].
      apply moved_retired; cbn; [done|done|congruence|]. by rewrite Hun.
  - intros [= <- <- <-]. exists (elems (buf e)). cbn.
    split; [by apply moved_in_place|]. split_and!; try done; rewrite slen_app; done || lia.
Qed.

Lemma moved_start e n e' base n' :
  wf e -> moved e n e' base n' ->
  0 <= start e' <= slen base /\ drop (Z.to_nat (start e')) base = unacked e /\
  (base <> [] -> start e' < slen base).
Proof.
  intros Hwf. pose proof Hwf as [Hs _ _ Ha _]. intros [e1 _ _ ->|e1 He Hst|e1 _ -> He _].
  - done.
  - rewrite Hst, (wf_empty_start _ Hwf He). change (slen (@nil Z)) with 0.
    split; [lia|]. split; [|done].
    unfold unacked. by rewrite He, !drop_nil.
  - split; [split; [done|apply slen_nonneg]|]. split; [apply drop_0|].
    intros _. rewrite slen_unacked by done. specialize (Ha He). lia.
Qed.

Lemma write_entry_shape `{!AllocatorDoc allocator} e d written n e' appended n' :
  wf e -> 0 <= written <= slen d -> write_entry e d written n = (e', appended, n') ->
  let w := take (Z.to_nat written) d in
  exists base, moved e n e' base n' /\ elems (buf e') = base ++ w /\
    appended = (slen base, slen base + slen d) /\
    offset e' = offset e /\ unacked e' = unacked e ++ w /\ slen w = written /\ wf e'.
Proof.
  intros Hwf Hw. unfold write_entry. destruct (append e d n) as [[e1 app] n1] eqn:Happ.
  destruct (append_shape _ _ _ _ _ _ Hwf Happ) as (base & Hm & He1 & -> & Ho & Hcap).
  intros [= <- <- <-]. cbv zeta. exists base.
  pose proof (moved_start _ _ _ _ _ Hwf Hm) as (Hst & Hdrop & Hne).
  set (w := take (Z.to_nat written) d).
  assert (slen w = written) as Hlw by (by apply slen_take).
  assert (take (Z.to_nat (start e1 + (sat_sub (slen base) (start e1) + written)))
    (elems (buf e1)) = base ++ w) as Htr.
  { rewrite He1. unfold sat_sub.
    replace (start e1 + _) with (slen base + written) by lia.
    rewrite take_app_ge by (unfold slen in *; lia).
    f_equal. unfold w. f_equal. unfold slen. lia. }
  assert (unacked (truncate_unwritten e1 (sat_sub (slen base) (start e1) + written))
    = unacked e ++ w) as Hun.
  { unfold unacked, truncate_unwritten. cbn. fold (unacked e).
    rewrite Htr. rewrite drop_app_le by (unfold slen in *; lia). by rewrite Hdrop. }
  split; [destruct Hm; by constructor|]. cbn [fst]. split_and!; try done.
  pose proof Hwf as [_ _ Hoff _ Hr].
  constructor; cbn [truncate_unwritten buf start offset cap elems retired update];
    rewrite ?Htr, ?slen_app, ?Ho.
  - pose proof (slen_nonneg w). lia.
  - rewrite slen_app in Hcap. lia.
  - done.
  - intros Hnil. destruct (decide (base = [])) as [->|Hb]; [|specialize (Hne Hb); lia].
    rewrite (@slen_nil Z) in *. destruct w; [done|]. rewrite slen_cons in *.
    pose proof (slen_nonneg w). lia.
  - rewrite Hun, slen_app.
    assert (Forall (fun r => rb_end r <= offset e + (slen (unacked e) + slen w)) (retired e)) as Hr'.
    { eapply Forall_impl; [exact Hr|]. cbn. intros r. lia. }
    destruct Hm as [e1 _ -> _|e1 _ _ _ ->|e1 _ _ _ ->]; [done|done|].
    apply Forall_app. split; [done|]. constructor; [cbn; lia|done].
Qed.
(** *** The invariant *)

(** Where the bytes of a pointer range are: in the current buffer, at the place of
    their stream offset, or in a retired buffer that ends after them. *)
Definition tracked (e : InFlightStreamData) (l : lent) : Prop :=
  (reads (buf e) l /\ l_end l = offset e + (l_pos l + slen (l_bytes l) - start e)) \/
  (exists r, r ∈ retired e /\ reads (rb_data r) l /\ l_end l <= rb_end r).

Definition allocs (e : InFlightStreamData) : list nat :=
  alloc (buf e) :: map (fun r => alloc (rb_data r)) (retired e).

Record inv (s : state) : Prop := {
  inv_wf : wf (entry s);
  inv_fresh : Forall (fun a => (a < fresh s)%nat) (allocs (entry s));
  inv_allocs : NoDup (allocs (entry s));
  inv_sent : offset (entry s) <= slen (sent s) /\
    unacked (entry s) = drop (Z.to_nat (offset (entry s))) (sent s);
  inv_lents : Forall (fun l =>
    slice (sent s) (l_end l - slen (l_bytes l)) (l_end l) = Some (l_bytes l) /\
    (l_end l <= offset (entry s) \/ tracked (entry s) l)) (lents s) }.

Lemma initial_inv : inv initial.
Proof.
  constructor; [apply new_entry_wf|repeat constructor|apply NoDup_singleton|done|constructor].
Qed.

Lemma sent_length s :
  inv s -> slen (sent s) = offset (entry s) + slen (unacked (entry s)).
Proof.
  intros [Hwf _ _ [Ho Hu] _]. rewrite Hu, slen_drop; [lia|].
  pose proof (wf_offset _ Hwf). lia.
Qed.

Lemma reads_range v l : reads v l -> 0 <= l_pos l /\ l_pos l + slen (l_bytes l) <= slen (elems v).
Proof. intros [_ H]. unfold slice in H. bool_cases; cbn in H; done || lia. Qed.

Lemma allocs_filter e P `{!forall r, Decision (P r)} :
  map (fun r => alloc (rb_data r)) (filter P (retired e)) `sublist_of`
  map (fun r => alloc (rb_data r)) (retired e).
Proof. apply (fmap_sublist (fun r => alloc (rb_data r))), sublist_filter. Qed.

Lemma ack_allocs e off :
  wf e -> off <= u64_max -> allocs (ack_until e off) `sublist_of` allocs e.
Proof.
  intros Hwf Hoff. destruct (ack_until_shape e off Hwf Hoff) as (_ & _ & Ha & Hr & _).
  unfold allocs. rewrite Ha, Hr. apply sublist_skip.
  destruct (off <=? offset e); [done|]. apply allocs_filter.
Qed.

Lemma ack_tracked e off l :
  wf e -> off <= u64_max -> tracked e l ->
  l_end l <= offset (ack_until e off) \/ tracked (ack_until e off) l.
Proof.
  intros Hwf Hoff Ht.
  destruct (ack_until_shape e off Hwf Hoff) as (Ho & _ & Ha & Hr & Hk & _).
  pose proof (slen_unacked e Hwf) as Hun.
  destruct (Z.le_gt_cases (l_end l) (offset (ack_until e off))) as [|Hgt]; [by left|right].
  destruct Ht as [[Hrd Hend]|(r & Hin & Hrd & Hend)].
  - left. pose proof (reads_range _ _ Hrd) as [_ Hle].
    destruct Hk as [He Hst]; [lia|].
    split; [|rewrite Ho, Hst; lia].
    destruct Hrd as [Hal Hs]. split; [congruence|by rewrite He].
  - right. exists r. split; [|done]. rewrite Hr.
    destruct (off <=? offset e); [done|]. apply list_elem_of_filter. split; [lia|done].
Qed.

Lemma inv_ack e n ls st off :
  0 <= off <= u64_max -> inv (mkState e n ls st) -> inv (mkState (ack_until e off) n ls st).
Proof.
  intros Hoff Hinv. pose proof (sent_length _ Hinv) as Hlen.
  destruct Hinv as [Hwf Hf Hnd [Ho Hu] Hl]. cbn in *.
  destruct (ack_until_shape e off Hwf ltac:(lia)) as (Hoff' & Hun & _ & _ & _ & Hwf').
  pose proof (ack_allocs e off Hwf ltac:(lia)) as Hsub.
  pose proof (slen_nonneg (unacked e)). pose proof (wf_offset _ Hwf).
  assert (0 <= acked_by e off <= slen (unacked e)) by (unfold acked_by; lia).
  constructor; cbn; [done| | | |].
  - rewrite Forall_forall in *. intros a Ha. apply Hf. by eapply elem_of_sublist.
  - by eapply sublist_NoDup.
  - rewrite Hun, Hoff', Hu, drop_drop. split; [lia|]. f_equal. lia.
  - eapply Forall_impl; [exact Hl|]. cbn. intros l [Hs Ht]. split; [done|].
    destruct Ht as [Hle|Ht]; [left; lia|]. by apply ack_tracked; [|lia|].
Qed.
Lemma reads_app a c1 c2 l1 l2 l :
  reads (mkVec a c1 l1) l -> reads (mkVec a c2 (l1 ++ l2)) l.
Proof.
  intros Hr. pose proof (reads_range _ _ Hr) as [H1 H2]. destruct Hr as [Ha Hs].
  split; [done|]. cbn in *. pose proof (slen_nonneg (l_bytes l)).
  unfold slice in *. rewrite slen_app. pose proof (slen_nonneg l2).
  bool_cases; try lia. cbn in *. rewrite <- Hs. f_equal.
  rewrite drop_app_le by (unfold slen in *; lia).
  apply take_app_le. unfold slen in *. rewrite length_drop. lia.
Qed.

(** A write keeps what is tracked. *)
Lemma write_tracked e n e' base n' w l :
  wf e -> moved e n e' base n' -> elems (buf e') = base ++ w -> offset e' = offset e ->
  0 < slen (l_bytes l) \/ offset e < l_end l -> tracked e l ->
  l_end l <= offset e' \/ tracked e' l.
Proof.
  intros Hwf Hm He' Ho Hpos Ht. pose proof (slen_unacked e Hwf) as Hun.
  destruct Ht as [[Hrd Hend]|(r & Hin & Hrd & Hend)].
  - pose proof (reads_range _ _ Hrd) as [_ Hle].
    destruct Hm as [e' Ha _ Hs|e' He Hs _ _|e' _ _ _ Hr].
    + right. left. split; [|rewrite Ho, Hs; lia].
      destruct (buf e') as [a' c' el'], (buf e) as [a c el]. cbn in *. subst.
      by eapply reads_app.
    + left. rewrite He, (@slen_nil Z) in Hle. pose proof (wf_empty_start _ Hwf He). lia.
    + right. right. eexists. rewrite Hr. split; [by apply elem_of_app; right; left|].
      cbn. split; [done|]. lia.
  - right. right. exists r. split; [|done].
    destruct Hm as [e' _ -> _|e' _ _ _ ->|e' _ _ _ ->]; [done|done|].
    apply elem_of_app. by left.
Qed.

Lemma move_allocs e n e' base n' :
  Forall (fun a => (a < n)%nat) (allocs e) -> NoDup (allocs e) -> moved e n e' base n' ->
  Forall (fun a => (a < n')%nat) (allocs e') /\ NoDup (allocs e').
Proof.
  intros Hf Hnd Hm. unfold allocs in *.
  assert (n ∉ alloc (buf e) :: map (fun r => alloc (rb_data r)) (retired e)) as Hn.
  { intros Hin. rewrite Forall_forall in Hf. specialize (Hf _ Hin). lia. }
  assert (Forall (fun a => (a < S n)%nat)
    (alloc (buf e) :: map (fun r => alloc (rb_data r)) (retired e))) as Hf'.
  { eapply Forall_impl; [exact Hf|]. cbn. lia. }
  apply not_elem_of_cons in Hn as [Hn1 Hn2].
  apply Forall_cons in Hf' as [Hf1 Hf2]. apply NoDup_cons in Hnd as [Hd1 Hd2].
  destruct Hm as [e' -> -> _|e' _ _ -> ->|e' -> _ _ ->].
  - split; [done|by constructor].
  - split; [by constructor; [lia|]|by constructor].
  - rewrite map_app. cbn. split.
    + constructor; [lia|]. apply Forall_app. split; [done|]. by constructor.
    + constructor.
      * rewrite elem_of_app, list_elem_of_singleton. intros [?|?]; congruence.
      * apply NoDup_app. split; [done|]. split; [|apply NoDup_singleton].
        intros x Hx ->%list_elem_of_singleton. done.
Qed.

Lemma slice_end (l1 l2 : bytes) : slice (l1 ++ l2) (slen l1) (slen l1 + slen l2) = Some l2.
Proof. apply (slice_at _ _ _ l1 l2 []); [by rewrite app_nil_r|done|done]. Qed.

Lemma slice_app_l (l1 l2 r : bytes) a b : slice l1 a b = Some r -> slice (l1 ++ l2) a b = Some r.
Proof.
  unfold slice. rewrite slen_app. pose proof (slen_nonneg l2). bool_cases; cbn; try done; try lia.
  intros [= <-]. f_equal. rewrite drop_app_le by (unfold slen in *; lia).
  apply take_app_le. unfold slen in *. rewrite length_drop. lia.
Qed.

Lemma inv_write `{!AllocatorDoc allocator} e n ls st d written e' appended n' :
  0 <= written <= slen d -> write_entry e d written n = (e', appended, n') ->
  inv (mkState e n ls st) ->
  inv (mkState e' n'
        (mkLent (alloc (buf e')) appended.1 (take (Z.to_nat written) d)
           (slen st + written) :: ls)
        (st ++ take (Z.to_nat written) d)).
Proof.
  intros Hw Hwr Hinv. pose proof (sent_length _ Hinv) as Hlen.
  destruct Hinv as [Hwf Hf Hnd [Hos Hu] Hl]. cbn in *.
  destruct (write_entry_shape _ _ _ _ _ _ _ Hwf Hw Hwr)
    as (base & Hm & He & -> & Ho & Hun & Hlw & Hwf').
  set (w := take (Z.to_nat written) d) in *. cbn [fst].
  pose proof (slen_unacked _ Hwf') as Hun'. rewrite He, Hun, !slen_app in Hun'.
  destruct (move_allocs _ _ _ _ _ Hf Hnd Hm) as [Hf' Hnd'].
  constructor; cbn; [done|done|done| |].
  - rewrite Ho, Hun, slen_app, Hu. split; [lia|].
    rewrite drop_app_le; [done|]. pose proof (wf_offset _ Hwf). unfold slen in *. lia.
  - constructor.
    + cbn. split.
      * rewrite Hlw. replace (slen st + written - written) with (slen st) by lia.
        rewrite <- Hlw. apply slice_end.
      * right. left. split; [|cbn; lia]. split; [done|]. cbn. rewrite He. apply slice_end.
    + eapply Forall_impl; [exact Hl|]. cbn. intros l [Hs Ht].
      split; [by apply slice_app_l|].
      destruct Ht as [Hle|Ht]; [left; lia|].
      destruct (Z.le_gt_cases (l_end l) (offset e)); [left; lia|].
      apply (write_tracked e n e' base n' w); auto.
Qed.

Lemma reachable_inv `{!AllocatorDoc allocator} s : reachable s -> inv s.
Proof.
  induction 1 as [|s1 s2 _ IH Hs]; [apply initial_inv|].
  destruct Hs as [e n ls st d written e' app n' Hw Hwr|e n ls st off Hoff].
  - by eapply inv_write.
  - by apply inv_ack.
Qed.
(** ** Properties *)

(** C7: a pointer handed to ngtcp2 stays valid until its data is acknowledged:
    whatever writes and acknowledgements follow, every range that ngtcp2 accepted
    and that is not fully acknowledged still lies in a live buffer, at the same
    address, and reads the bytes of the stream at its offset. *)
Theorem in_flight_pointers_stable `{!AllocatorDoc allocator} (s : state)
    (Hr : reachable s) (l : lent) (Hl : l ∈ lents s) (Ha : offset (entry s) < l_end l) :
  readable (entry s) l /\
  slice (sent s) (l_end l - slen (l_bytes l)) (l_end l) = Some (l_bytes l).
Proof.
  destruct (reachable_inv _ Hr) as [_ _ _ _ Hls].
  rewrite Forall_forall in Hls. destruct (Hls _ Hl) as [Hs [?|Ht]]; [lia|].
  split; [|done]. destruct Ht as [[? _]|(r & ? & ? & _)]; [by left|right; by exists r].
Qed.

(** C8: an entry implements the queue of the bytes not yet acknowledged: in every
    reachable state it holds the bytes accepted so far less those acknowledged; a
    write appends what ngtcp2 accepted and no more, and an acknowledgement up to
    [off] removes the bytes before [off], never more than there are. Two live
    buffers never share an allocation. *)
Theorem in_flight_refines_queue `{!AllocatorDoc allocator} (s : state) (Hr : reachable s) :
  let e := entry s in
  unacked e = drop (Z.to_nat (offset e)) (sent s) /\
  NoDup (allocs e) /\
  (forall d written n, 0 <= written <= slen d ->
     exists e' range n', write_entry e d written n = (e', range, n') /\
       offset e' = offset e /\ unacked e' = unacked e ++ take (Z.to_nat written) d /\
       slice (elems (buf e')) range.1 (range.1 + written)
         = Some (take (Z.to_nat written) d)) /\
  (forall off, off <= u64_max ->
     let k := Z.max 0 (Z.min (off - offset e) (slen (unacked e))) in
     offset (ack_until e off) = offset e + k /\
     unacked (ack_until e off) = drop (Z.to_nat k) (unacked e)).
Proof.
  destruct (reachable_inv _ Hr) as [Hwf _ Hnd [_ Hu] _].
  split; [done|]. split; [done|]. split.
  - intros d written n Hw.
    destruct (write_entry (entry s) d written n) as [[e' range] n'] eqn:Hwr.
    destruct (write_entry_shape _ _ _ _ _ _ _ Hwf Hw Hwr)
      as (base & _ & He & -> & Ho & Hun & Hlw & _).
    exists e', (slen base, slen base + slen d), n'. split; [done|].
    split; [done|]. split; [done|]. cbn. rewrite He.
    pose proof (slice_end base (take (Z.to_nat written) d)) as Hse.
    by rewrite Hlw in Hse.
  - intros off Hoff. by destruct (ack_until_shape _ off Hwf Hoff) as (? & ? & _).
Qed.

(** Nothing is kept for ever: once everything sent is acknowledged, the entry
    holds no data and every retired buffer is released. *)
Theorem in_flight_released `{!AllocatorDoc allocator} (s : state) (Hr : reachable s)
    (off : Z) (Hoff : slen (sent s) <= off <= u64_max) :
  let e' := ack_until (entry s) off in
  slen (sent s) <= offset (entry s) \/
  (elems (buf e') = [] /\ retired e' = [] /\ offset e' = slen (sent s)).
Proof.
  pose proof (reachable_inv _ Hr) as Hinv. pose proof (sent_length _ Hinv) as Hlen.
  destruct Hinv as [Hwf _ _ _ _]. cbv zeta.
  destruct (Z.le_gt_cases (slen (sent s)) (offset (entry s))) as [|Hgt]; [by left|right].
  destruct (ack_until_shape _ off Hwf ltac:(lia)) as (Ho & Hun & _ & Hre & _ & Hwf').
  assert (acked_by (entry s) off = slen (unacked (entry s))) as Hk.
  { unfold acked_by. lia. }
  rewrite Hk in *.
  assert (unacked (ack_until (entry s) off) = []) as Hnil.
  { rewrite Hun. apply drop_ge. unfold slen. lia. }
  assert (elems (buf (ack_until (entry s) off)) = []) as He.
  { destruct (decide (elems (buf (ack_until (entry s) off)) = [])) as [|Hne]; [done|].
    pose proof (wf_acked _ Hwf' Hne). pose proof (slen_unacked _ Hwf') as Hs.
    rewrite Hnil, (@slen_nil Z) in Hs. lia. }
  split; [done|]. split; [|lia].
  rewrite Hre. destruct (Z.leb_spec off (offset (entry s))); [lia|].
  apply elem_of_nil_inv. intros r [Hgt' Hin]%list_elem_of_filter.
  pose proof (wf_retired _ Hwf) as Hrt. rewrite Forall_forall in Hrt.
  specialize (Hrt r Hin). lia.
Qed.
End steps.

(** ** Witnesses *)

#[local] Instance exact_allocator : Allocator := fun n => n.
#[local] Instance exact_allocator_doc : AllocatorDoc exact_allocator.
Proof. intros n. reflexivity. Qed.

(** The steps as functions. *)
Definition write_state (s : state) (d : bytes) (written : Z) : state :=
  let '(e', r, n') := write_entry (entry s) d written (fresh s) in
  mkState e' n'
    (mkLent (alloc (buf e')) r.1 (take (Z.to_nat written) d) (slen (sent s) + written)
       :: lents s)
    (sent s ++ take (Z.to_nat written) d).
Definition ack_state (s : state) (off : Z) : state :=
  mkState (ack_until (entry s) off) (fresh s) (lents s) (sent s).

Lemma reachable_write s d written :
  reachable s -> 0 <= written <= slen d -> reachable (write_state s d written).
Proof.
  intros Hs Hw. eapply reachable_step; [exact Hs|]. destruct s as [e n ls st].
  unfold write_state. cbn. destruct (write_entry e d written n) as [[e' r] n'] eqn:He.
  by eapply step_write.
Qed.

Lemma reachable_ack s off : reachable s -> 0 <= off <= u64_max -> reachable (ack_state s off).
Proof. intros Hs Ho. eapply reachable_step; [exact Hs|]. destruct s. by apply step_ack. Qed.

(** Ten bytes of which eight are accepted, an acknowledgement of three, then a
    write that does not fit and moves the rest to a new allocation. *)
Definition example_run : state :=
  write_state (ack_state (write_state initial [0;1;2;3;4;5;6;7;8;9] 8) 3)
    (replicate 20 9) 20.

Lemma example_run_reachable : reachable example_run.
Proof.
  apply reachable_write; [apply reachable_ack; [apply reachable_write;
    [apply reachable_initial|]|]|]; vm_compute; split; discriminate.
Qed.

Lemma in_flight_pointers_stable_witness :
  let l := mkLent 1 0 [0;1;2;3;4;5;6;7] 8 in
  alloc (buf (entry example_run)) = 2%nat /\ readable (entry example_run) l.
Proof.
  intros l. split; [reflexivity|].
  apply (in_flight_pointers_stable example_run example_run_reachable l).
  - right. left.
  - reflexivity.
Defined.

Lemma in_flight_refines_queue_witness :
  unacked (entry example_run) = [3;4;5;6;7] ++ replicate 20 9 /\
  unacked (entry example_run) = drop 3 (sent example_run).
Proof.
  split; [reflexivity|].
  exact (proj1 (in_flight_refines_queue example_run example_run_reachable)).
Defined.

Lemma in_flight_released_witness :
  length (retired (entry example_run)) = 1%nat /\
  retired (ack_until (entry example_run) 28) = [].
Proof.
  split; [reflexivity|].
  destruct (in_flight_released example_run example_run_reachable 28) as [H|(_ & H & _)].
  - vm_compute; split; discriminate.
  - exfalso. vm_compute in H. apply H. reflexivity.
  - exact H.
Defined.
End InFlight.
