(* ===== verification/Callbacks.v ===== *)
(** * Callbacks (src/ngtcp2/src/conn.rs, lines 124-304 and 2033-2658; event.rs)

    ngtcp2 calls back into the crate while one of its functions runs. A run of a C
    function is a tree: it returns, or it invokes a callback and goes on with the
    reply. [exec] runs such a tree against the state the callbacks change. *)
From S2P Require Import Prelude Types Errors Tokens Params InFlight.
Import Types Errors Tokens.

Module Callbacks.
Local Open Scope rust_scope.

(** ** Events *)

Inductive ConnectionEvent :=
| HandshakeCompleted
| HandshakeConfirmed
| EarlyDataRejected
| StreamOpened (stream_id : StreamId)
| StreamData (stream_id : StreamId) (d : bytes) (fin : bool)
| StreamClosed (stream_id : StreamId) (rx_app_error_code tx_app_error_code : option Z)
| StreamReset (stream_id : StreamId) (final_size app_error_code : Z)
| StreamStopSending (stream_id : StreamId) (app_error_code : Z)
| StreamMaxData (stream_id : StreamId) (max_data : Z)
| MaxStreamsBidi (max_streams : Z)
| MaxStreamsUni (max_streams : Z)
| Datagram (d : bytes)
| StatelessResetReceived
| PathValidated (path : PathInfo) (success : bool).

(** ** The state the callbacks change *)

Record ConnectionUserData := mkUserData {
  events : list ConnectionEvent;
  issued_cids : list ConnectionId;
  retired_cids : list ConnectionId;
  stateless_reset_secret : option StatelessResetSecret;
  early_data_attempted : bool;
  qlog_data : bytes;
  new_tokens : list bytes;
  in_flight_stream_data : gmap StreamId InFlight.InFlightStreamData }.

#[export] Instance ConnectionUserData_eta : Eta ConnectionUserData := fun u =>
  mkUserData (events u) (issued_cids u) (retired_cids u) (stateless_reset_secret u)
    (early_data_attempted u) (qlog_data u) (new_tokens u) (in_flight_stream_data u).

Definition user_data_new : ConnectionUserData := mkUserData [] [] [] None false [] [] ∅.

Definition push_event (e : ConnectionEvent) (u : ConnectionUserData) : ConnectionUserData :=
  u <| events := events u ++ [e] |>.

(** ** What ngtcp2 calls *)

(** The callbacks the crate installs, with the arguments it reads. A pointer that
    may be null is an [option]. The bytes the random generator gives are part of
    the call: [None] when it fails. [CbHandshakeCompleted accepted nested] carries
    what [SSL_early_data_accepted] says, and whether
    [ngtcp2_conn_tls_early_data_rejected], called from inside, invokes the
    callback for rejected early data (it does so once). *)
Inductive callback :=
| CbSelectPreferredAddr (path : option raw_path) (paddr : option Params.ngtcp2_preferred_addr)
| CbPathValidation (path : option raw_path) (res : Z)
| CbRemoveConnectionId (cid : option raw_cid)
| CbRand (buflen : Z) (random : option bytes)
| CbGetNewConnectionId (cidlen : Z) (random_cid random_token : option bytes)
| CbHandshakeCompleted (accepted nested : bool)
| CbTlsEarlyDataRejected
| CbHandshakeConfirmed
| CbStreamOpen (stream_id : Z)
| CbStreamClose (flags stream_id rx_app_error_code tx_app_error_code : Z)
| CbQlogWrite (d : option bytes)
| CbRecvNewToken (token : option bytes) (tokenlen : Z)
| CbAckedStreamDataOffset (stream_id offset datalen : Z)
| CbStreamReset (stream_id final_size app_error_code : Z)
| CbRecvStopSending (stream_id app_error_code : Z)
| CbRecvStreamData (flags stream_id offset : Z) (d : option bytes) (datalen : Z)
| CbExtendMaxStreamData (stream_id max_data : Z)
| CbExtendMaxLocalStreamsBidi (max_streams : Z)
| CbExtendMaxLocalStreamsUni (max_streams : Z)
| CbRecvDatagram (d : option bytes) (datalen : Z)
| CbRecvStatelessReset.

(** What a callback hands back: its return code, and what it wrote. *)
Inductive reply :=
| RCode (rv : Z)
| RAddr (rv : Z) (addr : option (bytes * Z))
| RRandom (buf : bytes)
| RNewCid (rv : Z) (cid : bytes) (token : bytes).

Definition NGTCP2_STREAM_CLOSE2_FLAG_RX : Z := 1.
Definition NGTCP2_STREAM_CLOSE2_FLAG_TX : Z := 2.
Definition NGTCP2_STREAM_DATA_FLAG_FIN : Z := 1.
Definition NGTCP2_PATH_VALIDATION_RESULT_SUCCESS : Z := 0.

Section callbacks.
Context {api : TokenApi}.

Definition select_preferred_addr_callback (path : option raw_path)
    (paddr : option Params.ngtcp2_preferred_addr) : reply :=
  match paddr, path with
  | Some pa, Some p =>
      match raw_local p with
      | None => RAddr 0 None
      | Some mem =>
          let family := le_value (take 2 mem) in
          if (family =? AF_INET) && negb (Params.pa_ipv4_present pa =? 0)
          then RAddr 0 (Some (Params.pa_ipv4 pa, sizeof_sockaddr_in))
          else if (family =? AF_INET6) && negb (Params.pa_ipv6_present pa =? 0)
          then RAddr 0 (Some (Params.pa_ipv6 pa, sizeof_sockaddr_in6))
          else RAddr 0 None
      end
  | _, _ => RAddr 0 None
  end.

Definition path_validation_callback (path : option raw_path) (res : Z)
    (u : ConnectionUserData) : reply * ConnectionUserData :=
  match path_info_from_raw path with
  | None => (RCode 0, u)
  | Some p =>
      let success := res =? NGTCP2_PATH_VALIDATION_RESULT_SUCCESS in
      (RCode 0, push_event (PathValidated p success) u)
  end.

Definition remove_connection_id_callback (cid : option raw_cid) (u : ConnectionUserData)
    : reply * ConnectionUserData :=
  match cid with
  | None => (RCode 0, u)
  | Some raw =>
      match Types.new (raw_cid_bytes raw) with
      | Some cid => (RCode 0, u <| retired_cids := retired_cids u ++ [cid] |>)
      | None => (RCode 0, u)
      end
  end.

(** A failure of the generator leaves zeros in a zeroed buffer. *)
Definition rand_callback (buflen : Z) (random : option bytes) : reply :=
  RRandom (match random with Some b => b | None => replicate (Z.to_nat buflen) 0 end).

Definition get_new_connection_id_callback (cidlen : Z) (random_cid random_token : option bytes)
    (u : ConnectionUserData) : reply * ConnectionUserData :=
  match random_cid with
  | None => (RCode NGTCP2_ERR_CALLBACK_FAILURE, u)
  | Some generated =>
      match Types.new generated with
      | None =>
          match random_token with
          | None => (RCode NGTCP2_ERR_CALLBACK_FAILURE, u)
          | Some t => (RNewCid 0 generated t, u)
          end
      | Some issued_cid =>
          let derived :=
            match stateless_reset_secret u with
            | None => None
            | Some secret =>
                match reset_token secret issued_cid with Ret t => t | Panic => None end
            end in
          let token := match derived with Some t => Some t | None => random_token end in
          match token with
          | None => (RCode NGTCP2_ERR_CALLBACK_FAILURE, u)
          | Some t =>
              (RNewCid 0 generated t, u <| issued_cids := issued_cids u ++ [issued_cid] |>)
          end
      end
  end.

Definition handshake_completed_callback (accepted nested : bool) (u : ConnectionUserData)
    : reply * ConnectionUserData :=
  let u :=
    if early_data_attempted u then
      if negb accepted then (if nested then push_event EarlyDataRejected u else u) else u
    else u in
  (RCode 0, push_event HandshakeCompleted u).

Definition stream_close_callback (flags stream_id rx_app_error_code tx_app_error_code : Z)
    (u : ConnectionUserData) : reply * ConnectionUserData :=
  let u := u <| in_flight_stream_data :=
                  InFlight.closed_stream (in_flight_stream_data u) stream_id |> in
  let rx := if negb (Z.land flags NGTCP2_STREAM_CLOSE2_FLAG_RX =? 0)
            then Some rx_app_error_code else None in
  let tx := if negb (Z.land flags NGTCP2_STREAM_CLOSE2_FLAG_TX =? 0)
            then Some tx_app_error_code else None in
  (RCode 0, push_event (StreamClosed stream_id rx tx) u).

Definition qlog_write_callback (d : option bytes) (u : ConnectionUserData) : ConnectionUserData :=
  match d with
  | None | Some [] => u
  | Some b => u <| qlog_data := qlog_data u ++ b |>
  end.

(** [data.is_null() && datalen > 0] is the only case that is dropped; without data
    the copy is empty. *)
Definition copied (d : option bytes) (datalen : Z) : option bytes :=
  match d with
  | None => if 0 <? datalen then None else Some []
  | Some b => if 0 <? datalen then Some (take (Z.to_nat datalen) b) else Some []
  end.

Definition recv_new_token_callback (token : option bytes) (tokenlen : Z)
    (u : ConnectionUserData) : reply * ConnectionUserData :=
  match copied token tokenlen with
  | None => (RCode 0, u)
  | Some t => (RCode 0, u <| new_tokens := new_tokens u ++ [t] |>)
  end.

Definition acked_stream_data_offset_callback (stream_id off datalen : Z)
    (u : ConnectionUserData) : reply * ConnectionUserData :=
  (RCode 0, u <| in_flight_stream_data :=
    InFlight.acked_stream_data (in_flight_stream_data u) stream_id off datalen |>).

Definition recv_stream_data_callback (flags stream_id : Z) (d : option bytes) (datalen : Z)
    (u : ConnectionUserData) : reply * ConnectionUserData :=
  match copied d datalen with
  | None => (RCode 0, u)
  | Some b =>
      (RCode 0, push_event (StreamData stream_id b
        (negb (Z.land flags NGTCP2_STREAM_DATA_FLAG_FIN =? 0))) u)
  end.

Definition recv_datagram_callback (d : option bytes) (datalen : Z)
    (u : ConnectionUserData) : reply * ConnectionUserData :=
  match copied d datalen with
  | None => (RCode 0, u)
  | Some b => (RCode 0, push_event (Datagram b) u)
  end.

(** The callbacks that only queue an event. *)
Definition tls_early_data_rejected_callback (u : ConnectionUserData)
    : reply * ConnectionUserData :=
  (RCode 0, push_event EarlyDataRejected u).
Definition handshake_confirmed_callback (u : ConnectionUserData)
    : reply * ConnectionUserData :=
  (RCode 0, push_event HandshakeConfirmed u).
Definition stream_open_callback (stream_id : Z) (u : ConnectionUserData)
    : reply * ConnectionUserData :=
  (RCode 0, push_event (StreamOpened stream_id) u).
Definition stream_reset_callback (stream_id final_size app_error_code : Z) (u : ConnectionUserData)
    : reply * ConnectionUserData :=
  (RCode 0, push_event (StreamReset stream_id final_size app_error_code) u).
Definition recv_stop_sending_callback (stream_id app_error_code : Z) (u : ConnectionUserData)
    : reply * ConnectionUserData :=
  (RCode 0, push_event (StreamStopSending stream_id app_error_code) u).
Definition extend_max_stream_data_callback (stream_id max_data : Z) (u : ConnectionUserData)
    : reply * ConnectionUserData :=
  (RCode 0, push_event (StreamMaxData stream_id max_data) u).
Definition extend_max_local_streams_bidi_callback (max_streams : Z) (u : ConnectionUserData)
    : reply * ConnectionUserData :=
  (RCode 0, push_event (MaxStreamsBidi max_streams) u).
Definition extend_max_local_streams_uni_callback (max_streams : Z) (u : ConnectionUserData)
    : reply * ConnectionUserData :=
  (RCode 0, push_event (MaxStreamsUni max_streams) u).
Definition recv_stateless_reset_callback (u : ConnectionUserData)
    : reply * ConnectionUserData :=
  (RCode 0, push_event StatelessResetReceived u).

(** The table [create_client_callbacks], [create_server_callbacks] and
    [set_application_callbacks] fill in. *)
Definition on_callback (cb : callback) (u : ConnectionUserData) : reply * ConnectionUserData :=
  match cb with
  | CbSelectPreferredAddr path paddr => (select_preferred_addr_callback path paddr, u)
  | CbPathValidation path res => path_validation_callback path res u
  | CbRemoveConnectionId cid => remove_connection_id_callback cid u
  | CbRand buflen random => (rand_callback buflen random, u)
  | CbGetNewConnectionId cidlen rc rt => get_new_connection_id_callback cidlen rc rt u
  | CbHandshakeCompleted accepted nested => handshake_completed_callback accepted nested u
  | CbTlsEarlyDataRejected => tls_early_data_rejected_callback u
  | CbHandshakeConfirmed => handshake_confirmed_callback u
  | CbStreamOpen id => stream_open_callback id u
  | CbStreamClose flags id rx tx => stream_close_callback flags id rx tx u
  | CbQlogWrite d => (RCode 0, qlog_write_callback d u)
  | CbRecvNewToken token tokenlen => recv_new_token_callback token tokenlen u
  | CbAckedStreamDataOffset id off n => acked_stream_data_offset_callback id off n u
  | CbStreamReset id size code => stream_reset_callback id size code u
  | CbRecvStopSending id code => recv_stop_sending_callback id code u
  | CbRecvStreamData flags id _ d n => recv_stream_data_callback flags id d n u
  | CbExtendMaxStreamData id n => extend_max_stream_data_callback id n u
  | CbExtendMaxLocalStreamsBidi n => extend_max_local_streams_bidi_callback n u
  | CbExtendMaxLocalStreamsUni n => extend_max_local_streams_uni_callback n u
  | CbRecvDatagram d n => recv_datagram_callback d n u
  | CbRecvStatelessReset => recv_stateless_reset_callback u
  end.
End callbacks.

(** ** Runs of C functions *)

Inductive run (A : Type) : Type :=
| Return (a : A)
| Invoke (cb : callback) (k : reply -> run A).
Arguments Return {A} a.
Arguments Invoke {A} cb k.

Section exec.
Context {api : TokenApi} {A : Type}.

Fixpoint exec (p : run A) (u : ConnectionUserData) : A * ConnectionUserData :=
  match p with
  | Return a => (a, u)
  | Invoke cb k =>
      let '(r, u') := on_callback cb u in
      exec (k r) u'
  end.

(** The callbacks a run invokes from state [u], in order. *)
Fixpoint trace (p : run A) (u : ConnectionUserData) : list callback :=
  match p with
  | Return _ => []
  | Invoke cb k =>
      let '(r, u') := on_callback cb u in
      cb :: trace (k r) u'
  end.
End exec.

(** ** What each callback adds to the queues *)

Section queues.
Context {api : TokenApi}.

(** The events a callback stands for; [tried] says whether early data was sent. *)
Definition events_of (tried : bool) (cb : callback) : list ConnectionEvent :=
  match cb with
  | CbPathValidation path res =>
      match path_info_from_raw path with
      | Some p => [PathValidated p (res =? NGTCP2_PATH_VALIDATION_RESULT_SUCCESS)]
      | None => []
      end
  | CbHandshakeCompleted accepted nested =>
      (if tried && negb accepted && nested then [EarlyDataRejected] else []) ++
      [HandshakeCompleted]
  | CbTlsEarlyDataRejected => [EarlyDataRejected]
  | CbHandshakeConfirmed => [HandshakeConfirmed]
  | CbStreamOpen id => [StreamOpened id]
  | CbStreamClose flags id rx tx =>
      [StreamClosed id (if Z.testbit flags 0 then Some rx else None)
                       (if Z.testbit flags 1 then Some tx else None)]
  | CbStreamReset id size code => [StreamReset id size code]
  | CbRecvStopSending id code => [StreamStopSending id code]
  | CbRecvStreamData flags id _ d n =>
      match copied d n with
      | Some b => [StreamData id b (Z.testbit flags 0)]
      | None => []
      end
  | CbExtendMaxStreamData id n => [StreamMaxData id n]
  | CbExtendMaxLocalStreamsBidi n => [MaxStreamsBidi n]
  | CbExtendMaxLocalStreamsUni n => [MaxStreamsUni n]
  | CbRecvDatagram d n => match copied d n with Some b => [Datagram b] | None => [] end
  | CbRecvStatelessReset => [StatelessResetReceived]
  | _ => []
  end.

Definition retired_of (cb : callback) : list ConnectionId :=
  match cb with
  | CbRemoveConnectionId (Some raw) =>
      match Types.new (raw_cid_bytes raw) with Some c => [c] | None => [] end
  | _ => []
  end.

Definition new_tokens_of (cb : callback) : list bytes :=
  match cb with
  | CbRecvNewToken t n => match copied t n with Some b => [b] | None => [] end
  | _ => []
  end.

Definition qlog_of (cb : callback) : bytes :=
  match cb with CbQlogWrite (Some b) => b | _ => [] end.

Lemma flag_set_0 flags : negb (Z.land flags 1 =? 0) = Z.testbit flags 0.
Proof.
  rewrite land_1, Z.bit0_odd. rewrite (Zmod_odd flags). by destruct (Z.odd flags).
Qed.

Lemma flag_set_1 flags : negb (Z.land flags 2 =? 0) = Z.testbit flags 1.
Proof.
  rewrite land_2, Z.testbit_odd, Z.shiftr_div_pow2 by lia. change (2 ^ 1) with 2.
  rewrite (Zmod_odd (flags / 2)). by destruct (Z.odd (flags / 2)).
Qed.

Lemma on_callback_queues cb u :
  let u' := (on_callback cb u).2 in
  events u' = events u ++ events_of (early_data_attempted u) cb /\
  retired_cids u' = retired_cids u ++ retired_of cb /\
  new_tokens u' = new_tokens u ++ new_tokens_of cb /\
  qlog_data u' = qlog_data u ++ qlog_of cb /\
  early_data_attempted u' = early_data_attempted u /\
  stateless_reset_secret u' = stateless_reset_secret u.
Proof.
  destruct cb; cbn -[Z.land Z.testbit Z.eqb];
    unfold path_validation_callback, remove_connection_id_callback,
      get_new_connection_id_callback, handshake_completed_callback, stream_close_callback,
      qlog_write_callback, recv_new_token_callback, acked_stream_data_offset_callback,
      recv_stream_data_callback, recv_datagram_callback,
      NGTCP2_STREAM_CLOSE2_FLAG_RX, NGTCP2_STREAM_CLOSE2_FLAG_TX, NGTCP2_STREAM_DATA_FLAG_FIN;
    rewrite ?flag_set_0, ?flag_set_1;
    repeat (case_match; cbn -[Z.land Z.testbit Z.eqb]); simplify_eq/=;
    rewrite ?app_nil_r, <- ?app_assoc; done || (destruct nested; done).
Qed.

(** The callback that issues connection ids. *)
Lemma get_new_connection_id_issued cidlen rc rt u :
  let '(r, u') := get_new_connection_id_callback cidlen rc rt u in
  match r with
  | RNewCid rv cid token =>
      rv = 0 /\ rc = Some cid /\
      (slen cid <= NGTCP2_MAX_CIDLEN -> issued_cids u' = issued_cids u ++ [mkCid cid]) /\
      (forall secret t, stateless_reset_secret u = Some secret ->
         reset_token secret (mkCid cid) = Ret (Some t) ->
         slen cid <= NGTCP2_MAX_CIDLEN -> token = t)
  | _ => r = RCode NGTCP2_ERR_CALLBACK_FAILURE /\ u' = u
  end.
Proof.
  unfold get_new_connection_id_callback. destruct rc as [g|]; [|done].
  destruct (Types.new g) as [c|] eqn:Hc.
  - apply new_cid_ok in Hc as [_ Hb]. destruct c as [b]. cbn in Hb. subst b.
    destruct (stateless_reset_secret u) as [secret|] eqn:Hs.
    + destruct (reset_token secret (mkCid g)) as [[t|]|] eqn:Ht;
        [|destruct rt as [t|]; [|done]..];
        (split_and!; [done..|]); intros ? ? [= <-]; rewrite Ht; naive_solver.
    + destruct rt; [|done]. split_and!; try done.
  - unfold Types.new in Hc. destruct (Z.ltb_spec NGTCP2_MAX_CIDLEN (slen g)); [|done].
    destruct rt; [|done]. split_and!; try done; lia.
Qed.

Lemma exec_queues {A} (p : run A) u :
  let u' := (exec p u).2 in
  let cbs := trace p u in
  events u' = events u ++ concat (map (events_of (early_data_attempted u)) cbs) /\
  retired_cids u' = retired_cids u ++ concat (map retired_of cbs) /\
  new_tokens u' = new_tokens u ++ concat (map new_tokens_of cbs) /\
  qlog_data u' = qlog_data u ++ concat (map qlog_of cbs) /\
  early_data_attempted u' = early_data_attempted u /\
  stateless_reset_secret u' = stateless_reset_secret u.
Proof.
  revert u. induction p as [a|cb k IH]; intros u; cbn.
  - by rewrite !app_nil_r.
  - pose proof (on_callback_queues cb u) as Hq.
    destruct (on_callback cb u) as [r u1]. cbn in *.
    destruct Hq as (E1 & E2 & E3 & E4 & E5 & E6).
    specialize (IH r u1). cbv zeta in IH. rewrite E1, E2, E3, E4, E5, E6 in IH.
    rewrite <- !app_assoc in IH. done.
Qed.

(** ** Properties *)

(** Whatever ngtcp2 does while one of its functions runs, the crate's queues
    record it completely and in order: the events, the retired connection ids, the
    NEW_TOKEN tokens and the qlog bytes that were there, followed by those of each
    callback in the order of the calls; nothing is dropped, duplicated or
    reordered. *)
Theorem callbacks_in_order {A} (p : run A) (u : ConnectionUserData) :
  let u' := (exec p u).2 in
  let cbs := trace p u in
  events u' = events u ++ concat (map (events_of (early_data_attempted u)) cbs) /\
  retired_cids u' = retired_cids u ++ concat (map retired_of cbs) /\
  new_tokens u' = new_tokens u ++ concat (map new_tokens_of cbs) /\
  qlog_data u' = qlog_data u ++ concat (map qlog_of cbs).
Proof. pose proof (exec_queues p u) as H. cbv zeta in *. naive_solver. Qed.

(** Every connection id the crate gives to ngtcp2 is recorded as issued, so the
    server can route it, and nothing is recorded when the callback fails; with a
    secret set, the Stateless Reset token announced for the id is the one
    [StatelessResetSecret::token] derives again later from the id alone. *)
Theorem issued_ids_recorded (cidlen : Z) (rc rt : option bytes) (u : ConnectionUserData) :
  let '(r, u') := on_callback (CbGetNewConnectionId cidlen rc rt) u in
  match r with
  | RNewCid rv cid token =>
      rv = 0 /\ rc = Some cid /\
      (slen cid <= NGTCP2_MAX_CIDLEN -> issued_cids u' = issued_cids u ++ [mkCid cid]) /\
      (forall secret t, stateless_reset_secret u = Some secret ->
         reset_token secret (mkCid cid) = Ret (Some t) ->
         slen cid <= NGTCP2_MAX_CIDLEN -> token = t)
  | _ => r = RCode NGTCP2_ERR_CALLBACK_FAILURE /\ u' = u
  end.
Proof. apply get_new_connection_id_issued. Qed.
End queues.
End Callbacks.
