(* ===== verification/Conn.v ===== *)
(** * A connection (src/ngtcp2/src/conn.rs)

    [Connection] owns an [ngtcp2_conn], the state its callbacks change and a TLS
    session. ngtcp2 is the class [Ngtcp2Api]: each C function takes the connection to
    its next state while it runs callbacks. The operations are state-passing
    functions on [Connection]. *)
From stdpp Require Import pretty.
From S2P Require Import Prelude Utf8 Types Errors Tokens Params InFlight Callbacks.
Import Types Errors Tokens Callbacks.

Module Conn.
Local Open Scope rust_scope.

(** ** The C library *)

(** What a function that writes a packet returns: its return value, the path and
    the ECN mark it wrote back, and the new contents of the buffer. *)
Record write_out := mkWriteOut {
  wo_rv : Z; wo_path : raw_path; wo_ecn : Z; wo_buf : bytes }.

Record ngtcp2_ccerr := {
  cc_type : Z; cc_error_code : Z; cc_reason : option bytes }.

Definition NGTCP2_CCERR_TYPE_APPLICATION : Z := 1.
Definition NGTCP2_CCERR_TYPE_IDLE_CLOSE : Z := 3.
Definition NGTCP2_WRITE_STREAM_FLAG_MORE : Z := 1.
Definition NGTCP2_WRITE_STREAM_FLAG_FIN : Z := 2.
Definition NGTCP2_SHUT_STREAM_FLAG_FLUSH : Z := 1.

Class Ngtcp2Api := {
  ngtcp2_conn : Type;
  ngtcp2_conn_client_new : raw_cid -> raw_cid -> raw_path -> Z -> Params.ngtcp2_settings ->
    Params.TransportParams -> run (Z * option ngtcp2_conn);
  ngtcp2_conn_server_new : raw_cid -> raw_cid -> raw_path -> Z -> Params.ngtcp2_settings ->
    Params.TransportParams -> run (Z * option ngtcp2_conn);
  ngtcp2_conn_encode_local_transport_params : ngtcp2_conn -> Z -> Z * bytes;
  ngtcp2_conn_encode_0rtt_transport_params2 : ngtcp2_conn -> Z -> Z * bytes;
  ngtcp2_conn_decode_and_set_0rtt_transport_params : ngtcp2_conn -> bytes -> ngtcp2_conn * Z;
  ngtcp2_conn_set_keep_alive_timeout : ngtcp2_conn -> Z -> ngtcp2_conn;
  ngtcp2_conn_read_pkt :
    ngtcp2_conn -> raw_path -> Z -> bytes -> Z -> run (ngtcp2_conn * Z);
  ngtcp2_conn_write_pkt : ngtcp2_conn -> bytes -> Z -> run (ngtcp2_conn * write_out);
  (** the flags, the stream, the data offered, and the time; the second component
      is [*pdatalen] *)
  ngtcp2_conn_writev_stream : ngtcp2_conn -> bytes -> Z -> Z -> bytes -> Z ->
    run (ngtcp2_conn * Z * write_out);
  ngtcp2_conn_writev_datagram :
    ngtcp2_conn -> bytes -> bytes -> Z -> run (ngtcp2_conn * Z * write_out);
  ngtcp2_conn_write_connection_close :
    ngtcp2_conn -> bytes -> ngtcp2_ccerr -> Z -> run (ngtcp2_conn * Z * bytes);
  ngtcp2_conn_initiate_migration : ngtcp2_conn -> raw_path -> Z -> run (ngtcp2_conn * Z);
  ngtcp2_conn_initiate_immediate_migration :
    ngtcp2_conn -> raw_path -> Z -> run (ngtcp2_conn * Z);
  ngtcp2_conn_get_path2 : ngtcp2_conn -> option raw_path;
  ngtcp2_conn_submit_new_token : ngtcp2_conn -> bytes -> ngtcp2_conn * Z;
  ngtcp2_conn_open_bidi_stream : ngtcp2_conn -> ngtcp2_conn * Z * Z;
  ngtcp2_conn_open_uni_stream : ngtcp2_conn -> ngtcp2_conn * Z * Z;
  ngtcp2_conn_shutdown_stream : ngtcp2_conn -> Z -> Z -> Z -> run (ngtcp2_conn * Z);
  ngtcp2_conn_shutdown_stream_write : ngtcp2_conn -> Z -> Z -> Z -> run (ngtcp2_conn * Z);
  ngtcp2_conn_shutdown_stream_read : ngtcp2_conn -> Z -> Z -> Z -> run (ngtcp2_conn * Z);
  ngtcp2_conn_extend_max_stream_offset : ngtcp2_conn -> Z -> Z -> ngtcp2_conn * Z;
  ngtcp2_conn_extend_max_offset : ngtcp2_conn -> Z -> ngtcp2_conn;
  ngtcp2_conn_extend_max_streams_bidi : ngtcp2_conn -> Z -> ngtcp2_conn;
  ngtcp2_conn_extend_max_streams_uni : ngtcp2_conn -> Z -> ngtcp2_conn;
  ngtcp2_conn_get_expiry : ngtcp2_conn -> Z;
  ngtcp2_conn_handle_expiry : ngtcp2_conn -> Z -> run (ngtcp2_conn * Z);
  ngtcp2_conn_initiate_key_update : ngtcp2_conn -> Z -> run (ngtcp2_conn * Z);
  ngtcp2_conn_in_closing_period : ngtcp2_conn -> Z;
  ngtcp2_conn_in_draining_period : ngtcp2_conn -> Z;
  ngtcp2_conn_get_negotiated_version : ngtcp2_conn -> Z;
  ngtcp2_conn_get_handshake_completed : ngtcp2_conn -> Z;
  ngtcp2_conn_get_tls_early_data_rejected2 : ngtcp2_conn -> Z;
  ngtcp2_conn_get_ccerr : ngtcp2_conn -> option ngtcp2_ccerr;
  ngtcp2_conn_get_max_data_left2 : ngtcp2_conn -> Z;
  ngtcp2_conn_get_max_stream_data_left2 : ngtcp2_conn -> Z -> Z;
  ngtcp2_conn_get_streams_bidi_left2 : ngtcp2_conn -> Z;
  ngtcp2_conn_get_streams_uni_left2 : ngtcp2_conn -> Z;
  ngtcp2_conn_get_cwnd_left2 : ngtcp2_conn -> Z;
  ngtcp2_conn_get_conn_info2 : ngtcp2_conn -> Params.ngtcp2_conn_info;
  ngtcp2_conn_get_remote_transport_params : ngtcp2_conn -> option Params.TransportParams;
  (** [ngtcp2_ccerr_default] then [ngtcp2_ccerr_set_transport_error] or
      [ngtcp2_ccerr_set_application_error] *)
  ngtcp2_ccerr_transport_error : Z -> bytes -> ngtcp2_ccerr;
  ngtcp2_ccerr_application_error : Z -> bytes -> ngtcp2_ccerr;
  ngtcp2_settings_default : Params.ngtcp2_settings }.

(** What a connection uses of a TLS session (crypto.rs). *)
Class Tls := {
  TlsSession : Type;
  set_server_name : TlsSession -> string -> result Error TlsSession;
  configure_peer_ip_verification : TlsSession -> result Error TlsSession;
  set_session : TlsSession -> bytes -> result Error (TlsSession * bool);
  set_quic_transport_params : TlsSession -> bytes -> result Error TlsSession;
  accepts_early_data : TlsSession -> bool;
  set_quic_early_data_context : TlsSession -> bytes -> result Error TlsSession;
  tls_selected_alpn_protocol : TlsSession -> option bytes;
  tls_is_in_early_data : TlsSession -> bool;
  tls_is_early_data_accepted : TlsSession -> bool;
  tls_take_session_ticket : TlsSession -> TlsSession * option bytes }.

Section conn.
Context {str : Strerror} {api : TokenApi} {ng : Ngtcp2Api} {tls : Tls}.
Context {allocator : InFlight.Allocator}.

(** ** Data *)

Record ConnectionError := {
  error_code : Z; reason : bytes; is_application : bool; has_error : bool }.

Record SessionTicket := { session : bytes; transport_params : bytes }.
(** [Debug] does not show the secret. *)
Definition fmt_Debug (t : SessionTicket) : string :=
  "SessionTicket { session_len: " +:+ pretty (slen (session t)) +:+ ", transport_params_len: " +:+
  pretty (slen (transport_params t)) +:+ " }".

(** [heap] identifies the next allocation of a stream buffer (see [InFlight]). *)
Record Connection := mkConnection {
  inner : ngtcp2_conn;
  user_data : ConnectionUserData;
  tls_session : option TlsSession;
  heap : nat }.

#[export] Instance Connection_eta : Eta Connection := fun c =>
  mkConnection (inner c) (user_data c) (tls_session c) (heap c).

(** A C function that only returns a code. *)
Definition exec_rv (p : run (ngtcp2_conn * Z)) (c : Connection) : Connection * result Error unit :=
  let '((i, rv), u) := exec p (user_data c) in
  (c <| inner := i |> <| user_data := u |>, check_ngtcp2 rv).

Definition call_rv (r : ngtcp2_conn * Z) (c : Connection) : Connection * result Error unit :=
  (c <| inner := r.1 |>, check_ngtcp2 r.2).

(** ** Construction

    Only the constructors and [Drop] create and delete an [ngtcp2_conn]; an unwinding panic
    leaves it. *)
Definition ngtcp2_conn_del (conn : ngtcp2_conn) : tracked unit := deletes Ngtcp2Conn.
Definition drop (c : Connection) : tracked unit := ngtcp2_conn_del (inner c).

(** [ngtcp2_conn_del(conn); return Err(e)] *)
Definition del_and_fail (conn : ngtcp2_conn) (e : Error)
    : outcome (tracked (result Error Connection)) :=
  Ret (ngtcp2_conn_del conn ;; mret (Err e)).

(** The buffers are arrays of 512 bytes; a slice of the bytes written panics past them. *)
Definition finish_new (conn : ngtcp2_conn) (u : ConnectionUserData) (s : TlsSession)
    (settings : Params.Settings) : outcome (tracked (result Error Connection)) :=
  let conn :=
    match Params.keep_alive_timeout settings with
    | Some timeout =>
        ngtcp2_conn_set_keep_alive_timeout conn (as_u64 (Params.as_nanos timeout))
    | None => conn
    end in
  let '(tp_len, tp_buf) := ngtcp2_conn_encode_local_transport_params conn 512 in
  if tp_len <? 0 then del_and_fail conn (from_ngtcp2 tp_len)
  else
    match slice tp_buf 0 tp_len with
    | None => Panic
    | Some tp =>
        match set_quic_transport_params s tp with
        | Err e => del_and_fail conn e
        | Ok s =>
            if accepts_early_data s then
              let '(ctx_len, ctx_buf) := ngtcp2_conn_encode_0rtt_transport_params2 conn 512 in
              if ctx_len <? 0 then del_and_fail conn (from_ngtcp2 ctx_len)
              else
                match slice ctx_buf 0 ctx_len with
                | None => Panic
                | Some ctx =>
                    match set_quic_early_data_context s ctx with
                    | Err e => del_and_fail conn e
                    | Ok s => Ret (mret (Ok (mkConnection conn u (Some s) 1)))
                    end
                end
            else Ret (mret (Ok (mkConnection conn u (Some s) 1)))
        end
    end.

(** [m] after what was tracked before it *)
Definition after {A B} (t : tracked A) (m : A -> outcome (tracked B)) : outcome (tracked B) :=
  match m t.1 with Ret (b, l) => Ret (b, t.2 ++ l) | Panic => Panic end.

(** What [client_new] and [server_new] do once the guards have passed: the connection that
    ngtcp2 gives out is deleted only if [finish_new] does it. *)
Definition create (new_conn : raw_cid -> raw_cid -> raw_path -> Z -> Params.ngtcp2_settings ->
      Params.TransportParams -> run (Z * option ngtcp2_conn))
    (dcid scid : ConnectionId) (local_addr remote_addr : SocketAddr) (version : QuicVersion)
    (s : TlsSession) (params : Params.TransportParams) (settings : Params.Settings)
    : outcome (tracked (result Error Connection)) :=
  let raw_settings := Params.to_raw ngtcp2_settings_default settings in
  let u := user_data_new
    <| stateless_reset_secret := Params.stateless_reset_secret settings |> in
  match cid_to_raw dcid, cid_to_raw scid with
  | Ret dcid_raw, Ret scid_raw =>
      let path := path_to_raw {| local := local_addr; remote := remote_addr |} in
      let '((rv, conn), u) :=
        exec (new_conn dcid_raw scid_raw path (as_u32 version) raw_settings params) u in
      after (creates Ngtcp2Conn conn) (fun conn =>
        match check_ngtcp2 rv, conn with
        | Err e, _ => Ret (mret (Err e))
        | Ok _, Some conn => finish_new conn u s settings
        | Ok _, None => Panic
        end)
  | _, _ => Panic
  end.

Definition client_new (dcid scid : ConnectionId) (local_addr remote_addr : SocketAddr)
    (version : QuicVersion) (server_name : string) (s : TlsSession)
    (params : Params.TransportParams) (settings : Params.Settings)
    : outcome (tracked (result Error Connection)) :=
  if Params.has_original_dcid params then
    Ret (mret (Err (InvalidArgument "original_dcid must not be set for a client connection")))
  else
    match set_server_name s server_name with
    | Err e => Ret (mret (Err e))
    | Ok s =>
        match configure_peer_ip_verification s with
        | Err e => Ret (mret (Err e))
        | Ok s =>
            create ngtcp2_conn_client_new dcid scid local_addr remote_addr version s
              params settings
        end
    end.

(** The connection is dropped when the function returns an error after making it. *)
Definition client_new_with_0rtt (dcid scid : ConnectionId) (local_addr remote_addr : SocketAddr)
    (version : QuicVersion) (server_name : string) (s : TlsSession)
    (params : Params.TransportParams) (settings : Params.Settings) (ticket : SessionTicket)
    : outcome (tracked (result Error Connection)) :=
  match set_session s (session ticket) with
  | Err e => Ret (mret (Err e))
  | Ok (s, early_data) =>
      match client_new dcid scid local_addr remote_addr version server_name s params settings with
      | Panic => Panic
      | Ret made => after made (fun r =>
          match r with
          | Err e => Ret (mret (Err e))
          | Ok conn =>
              let '(i, rv) := ngtcp2_conn_decode_and_set_0rtt_transport_params (inner conn)
                (transport_params ticket) in
              let conn := conn <| inner := i |> in
              if negb (rv =? 0)
              then Ret (drop conn ;;
                        mret (Err (InvalidArgument ("invalid 0-RTT transport params: "
                          +:+ fmt_Display (from_ngtcp2 rv)))))
              else Ret (mret (Ok (conn
                     <| user_data := (user_data conn) <| early_data_attempted := early_data |> |>)))
          end)
      end
  end.

Definition server_new (dcid scid : ConnectionId) (local_addr remote_addr : SocketAddr)
    (version : QuicVersion) (s : TlsSession) (params : Params.TransportParams)
    (settings : Params.Settings) : outcome (tracked (result Error Connection)) :=
  if negb (Params.has_original_dcid params) then
    Ret (mret (Err (InvalidArgument "original_dcid is required for a server connection")))
  else
    create ngtcp2_conn_server_new dcid scid local_addr remote_addr version s params settings.

(** ** Packets *)

Definition read_pkt (c : Connection) (path : PathInfo) (pkt_info : PacketInfo) (dgram : bytes)
    (ts : Z) : Connection * result Error unit :=
  exec_rv (ngtcp2_conn_read_pkt (inner c) (path_to_raw path) (ecn pkt_info) dgram ts) c.

(** A packet was written: where to send it. *)
Definition packet_path (o : write_out) : option PathInfo :=
  if 0 <? wo_rv o then path_info_from_raw (Some (wo_path o)) else None.

Definition write_pkt (c : Connection) (buf : bytes) (ts : Z)
    : Connection * result Error (Z * PacketInfo * option PathInfo * bytes) :=
  let '((i, o), u) := exec (ngtcp2_conn_write_pkt (inner c) buf ts) (user_data c) in
  let c := c <| inner := i |> <| user_data := u |> in
  if wo_rv o <? 0 then (c, Err (from_ngtcp2 (wo_rv o)))
  else (c, Ok (wo_rv o, {| ecn := wo_ecn o |}, packet_path o, wo_buf o)).

Definition write_ccerr (c : Connection) (buf : bytes) (ccerr : ngtcp2_ccerr) (ts : Z)
    : Connection * result Error (Z * bytes) :=
  let '((i, rv, buf'), u) :=
    exec (ngtcp2_conn_write_connection_close (inner c) buf ccerr ts) (user_data c) in
  let c := c <| inner := i |> <| user_data := u |> in
  if rv <? 0 then (c, Err (from_ngtcp2 rv)) else (c, Ok (rv, buf')).

Definition write_connection_close (c : Connection) (buf : bytes) (code : Z) (why : bytes)
    (ts : Z) : Connection * result Error (Z * bytes) :=
  write_ccerr c buf (ngtcp2_ccerr_transport_error code why) ts.

Definition write_connection_close_app (c : Connection) (buf : bytes) (code : Z) (why : bytes)
    (ts : Z) : Connection * result Error (Z * bytes) :=
  write_ccerr c buf (ngtcp2_ccerr_application_error code why) ts.

(** ** Streams and datagrams *)

(** [None] of the data written: no STREAM frame; [Some 0]: an empty one. *)
Definition write_stream_with_flags (c : Connection) (buf : bytes) (stream_id : StreamId)
    (d : bytes) (fin : bool) (ts flags : Z)
    : Connection * result Error (Z * option Z * option PathInfo * PacketInfo * bytes) :=
  let m := in_flight_stream_data (user_data c) in
  let entry := default InFlight.new_entry (m !! stream_id) in
  let '(entry, appended, heap') := InFlight.append entry d (heap c) in
  let u := (user_data c) <| in_flight_stream_data := <[stream_id := entry]> m |> in
  let flags := if fin then Z.lor flags NGTCP2_WRITE_STREAM_FLAG_FIN else flags in
  let '((i, datalen, o), u) :=
    exec (ngtcp2_conn_writev_stream (inner c) buf flags stream_id d ts) u in
  let data_written := if 0 <=? datalen then Some datalen else None in
  let m := in_flight_stream_data u in
  let m :=
    match m !! stream_id with
    | Some entry =>
        let written := default 0 data_written in
        <[stream_id := InFlight.truncate_unwritten entry
            (sat_sub appended.1 (InFlight.start entry) + written)]> m
    | None => m
    end in
  let c := c <| inner := i |> <| user_data := u <| in_flight_stream_data := m |> |>
             <| heap := heap' |> in
  let pi := {| ecn := wo_ecn o |} in
  if wo_rv o =? NGTCP2_ERR_WRITE_MORE then (c, Ok (0, data_written, None, pi, wo_buf o))
  else if wo_rv o =? NGTCP2_ERR_STREAM_DATA_BLOCKED then (c, Err (StreamDataBlocked stream_id))
  else if wo_rv o =? NGTCP2_ERR_STREAM_SHUT_WR then (c, Err (StreamShutWr stream_id))
  else if wo_rv o <? 0 then (c, Err (from_ngtcp2 (wo_rv o)))
  else (c, Ok (wo_rv o, data_written, packet_path o, pi, wo_buf o)).

Definition write_stream (c : Connection) (buf : bytes) (stream_id : StreamId) (d : bytes)
    (fin : bool) (ts : Z)
    : Connection * result Error (Z * option Z * option PathInfo * PacketInfo * bytes) :=
  write_stream_with_flags c buf stream_id d fin ts 0.

Definition remote_transport_params (c : Connection)
    : outcome (option Params.RemoteTransportParams) :=
  match ngtcp2_conn_get_remote_transport_params (inner c) with
  | None => Ret None
  | Some p =>
      match Params.remote_from_raw p with Panic => Panic | Ret r => Ret (Some r) end
  end.

Definition supports_reset_stream_at (c : Connection) : outcome bool :=
  match remote_transport_params c with
  | Panic => Panic
  | Ret None => Ret false
  | Ret (Some p) => Ret (Params.r_reset_stream_at p)
  end.

Definition can_send_datagram (c : Connection) : outcome bool :=
  match remote_transport_params c with
  | Panic => Panic
  | Ret None => Ret false
  | Ret (Some p) => Ret (0 <? Params.r_max_datagram_frame_size p)
  end.

Definition write_datagram (c : Connection) (buf d : bytes) (ts : Z)
    : outcome (Connection * result Error (Z * bool * option PathInfo * PacketInfo * bytes)) :=
  match can_send_datagram c with
  | Panic => Panic
  | Ret false =>
      Ret (c, Err (Ngtcp2 "ERR_INVALID_STATE: remote peer does not support DATAGRAM"
                    NGTCP2_ERR_INVALID_STATE))
  | Ret true =>
      let '((i, accepted, o), u) :=
        exec (ngtcp2_conn_writev_datagram (inner c) buf d ts) (user_data c) in
      let c := c <| inner := i |> <| user_data := u |> in
      Ret (if wo_rv o <? 0 then (c, Err (from_ngtcp2 (wo_rv o)))
           else (c, Ok (wo_rv o, negb (accepted =? 0), packet_path o,
                        {| ecn := wo_ecn o |}, wo_buf o)))
  end.

Definition open_bidi_stream (c : Connection) : Connection * result Error StreamId :=
  let '(i, rv, stream_id) := ngtcp2_conn_open_bidi_stream (inner c) in
  (c <| inner := i |>, match check_ngtcp2 rv with Err e => Err e | Ok _ => Ok stream_id end).
Definition open_uni_stream (c : Connection) : Connection * result Error StreamId :=
  let '(i, rv, stream_id) := ngtcp2_conn_open_uni_stream (inner c) in
  (c <| inner := i |>, match check_ngtcp2 rv with Err e => Err e | Ok _ => Ok stream_id end).

Definition shutdown_stream (c : Connection) (id : StreamId) (code : Z)
    : Connection * result Error unit :=
  exec_rv (ngtcp2_conn_shutdown_stream (inner c) 0 id code) c.
Definition shutdown_stream_write (c : Connection) (id : StreamId) (code : Z)
    : Connection * result Error unit :=
  exec_rv (ngtcp2_conn_shutdown_stream_write (inner c) 0 id code) c.
Definition shutdown_stream_write_reliable (c : Connection) (id : StreamId) (code : Z)
    : Connection * result Error unit :=
  exec_rv (ngtcp2_conn_shutdown_stream_write (inner c) NGTCP2_SHUT_STREAM_FLAG_FLUSH id code) c.
Definition shutdown_stream_read (c : Connection) (id : StreamId) (code : Z)
    : Connection * result Error unit :=
  exec_rv (ngtcp2_conn_shutdown_stream_read (inner c) 0 id code) c.
Definition extend_max_stream_offset (c : Connection) (id : StreamId) (n : Z)
    : Connection * result Error unit :=
  call_rv (ngtcp2_conn_extend_max_stream_offset (inner c) id n) c.
Definition extend_max_offset (c : Connection) (n : Z) : Connection :=
  c <| inner := ngtcp2_conn_extend_max_offset (inner c) n |>.
Definition extend_max_streams_bidi (c : Connection) (n : Z) : Connection :=
  c <| inner := ngtcp2_conn_extend_max_streams_bidi (inner c) n |>.
Definition extend_max_streams_uni (c : Connection) (n : Z) : Connection :=
  c <| inner := ngtcp2_conn_extend_max_streams_uni (inner c) n |>.

(** ** Migration, timers, keys and state *)

Definition initiate_migration (c : Connection) (path : PathInfo) (ts : Z)
    : Connection * result Error unit :=
  exec_rv (ngtcp2_conn_initiate_migration (inner c) (path_to_raw path) ts) c.
Definition initiate_immediate_migration (c : Connection) (path : PathInfo) (ts : Z)
    : Connection * result Error unit :=
  exec_rv (ngtcp2_conn_initiate_immediate_migration (inner c) (path_to_raw path) ts) c.
Definition get_path (c : Connection) : option PathInfo :=
  path_info_from_raw (ngtcp2_conn_get_path2 (inner c)).
Definition get_expiry (c : Connection) : Z := ngtcp2_conn_get_expiry (inner c).
Definition handle_expiry (c : Connection) (ts : Z) : Connection * result Error unit :=
  exec_rv (ngtcp2_conn_handle_expiry (inner c) ts) c.
Definition is_in_closing_period (c : Connection) : bool :=
  negb (ngtcp2_conn_in_closing_period (inner c) =? 0).
Definition is_in_draining_period (c : Connection) : bool :=
  negb (ngtcp2_conn_in_draining_period (inner c) =? 0).
Definition is_handshake_completed (c : Connection) : bool :=
  negb (ngtcp2_conn_get_handshake_completed (inner c) =? 0).
Definition negotiated_version (c : Connection) : option QuicVersion :=
  from_u32 (ngtcp2_conn_get_negotiated_version (inner c)).
Definition is_early_data_rejected (c : Connection) : bool :=
  negb (ngtcp2_conn_get_tls_early_data_rejected2 (inner c) =? 0).
Definition selected_alpn_protocol (c : Connection) : option bytes :=
  let? s := tls_session c in tls_selected_alpn_protocol s.
Definition is_in_early_data (c : Connection) : bool :=
  match tls_session c with None => false | Some s => tls_is_in_early_data s end.
Definition is_early_data_accepted (c : Connection) : bool :=
  match tls_session c with None => false | Some s => tls_is_early_data_accepted s end.

Definition initiate_key_update (c : Connection) (ts : Z) : Connection * result Error unit :=
  if negb (is_handshake_completed c) || is_in_closing_period c || is_in_draining_period c
  then (c, Err (InvalidArgument
             "key update requires a connection in the post-handshake state"))
  else exec_rv (ngtcp2_conn_initiate_key_update (inner c) ts) c.

Definition set_keep_alive_timeout (c : Connection) (timeout : Z) : Connection :=
  c <| inner := ngtcp2_conn_set_keep_alive_timeout (inner c) timeout |>.

Definition get_connection_error (c : Connection) : ConnectionError :=
  match ngtcp2_conn_get_ccerr (inner c) with
  | None => {| error_code := 0; reason := []; is_application := false; has_error := false |}
  | Some e =>
      {| error_code := cc_error_code e;
         reason := Utf8.from_utf8_lossy (default [] (cc_reason e));
         is_application := cc_type e =? NGTCP2_CCERR_TYPE_APPLICATION;
         has_error := negb (cc_type e =? NGTCP2_CCERR_TYPE_IDLE_CLOSE) |}
  end.

Definition get_max_data_left (c : Connection) : Z := ngtcp2_conn_get_max_data_left2 (inner c).
Definition get_max_stream_data_left (c : Connection) (id : StreamId) : Z :=
  ngtcp2_conn_get_max_stream_data_left2 (inner c) id.
Definition get_streams_bidi_left (c : Connection) : Z :=
  ngtcp2_conn_get_streams_bidi_left2 (inner c).
Definition get_streams_uni_left (c : Connection) : Z :=
  ngtcp2_conn_get_streams_uni_left2 (inner c).
Definition get_cwnd_left (c : Connection) : Z := ngtcp2_conn_get_cwnd_left2 (inner c).
Definition stats (c : Connection) : Params.ConnStats :=
  Params.stats_from_raw (ngtcp2_conn_get_conn_info2 (inner c)).

(** ** Sessions and tokens *)

Definition encode_0rtt_transport_params (c : Connection) : outcome (result Error bytes) :=
  let '(n, buf) := ngtcp2_conn_encode_0rtt_transport_params2 (inner c) 512 in
  if n <? 0 then Ret (Err (from_ngtcp2 n))
  else match slice buf 0 n with None => Panic | Some d => Ret (Ok d) end.

Definition take_session_ticket (c : Connection)
    : outcome (Connection * result Error (option SessionTicket)) :=
  if negb (is_handshake_completed c) then Ret (c, Ok None)
  else
    match tls_session c with
    | None => Ret (c, Ok None)
    | Some s =>
        let '(s, ticket) := tls_take_session_ticket s in
        let c := c <| tls_session := Some s |> in
        match ticket with
        | None => Ret (c, Ok None)
        | Some t =>
            match encode_0rtt_transport_params c with
            | Panic => Panic
            | Ret (Err e) => Ret (c, Err e)
            | Ret (Ok p) => Ret (c, Ok (Some {| session := t; transport_params := p |}))
            end
        end
    end.

Definition submit_new_token (c : Connection) (token : bytes) : Connection * result Error unit :=
  call_rv (ngtcp2_conn_submit_new_token (inner c) token) c.

(** ** Queues *)

Definition poll_event (c : Connection) : Connection * option ConnectionEvent :=
  match events (user_data c) with
  | [] => (c, None)
  | e :: es => (c <| user_data := (user_data c) <| events := es |> |>, Some e)
  end.
Definition has_event (c : Connection) : bool :=
  match events (user_data c) with [] => false | _ => true end.
Definition poll_issued_cids (c : Connection) : Connection * list ConnectionId :=
  (c <| user_data := (user_data c) <| issued_cids := [] |> |>, issued_cids (user_data c)).
Definition poll_retired_cids (c : Connection) : Connection * list ConnectionId :=
  (c <| user_data := (user_data c) <| retired_cids := [] |> |>, retired_cids (user_data c)).
Definition poll_qlog_data (c : Connection) : Connection * option bytes :=
  match qlog_data (user_data c) with
  | [] => (c, None)
  | d => (c <| user_data := (user_data c) <| qlog_data := [] |> |>, Some d)
  end.
Definition take_new_token (c : Connection) : Connection * option bytes :=
  match new_tokens (user_data c) with
  | [] => (c, None)
  | t :: ts => (c <| user_data := (user_data c) <| new_tokens := ts |> |>, Some t)
  end.

(** ** Lemmas *)

(** What a callback does to the unacknowledged data of a stream. *)
Definition entry_step (id : StreamId) (o : option InFlight.InFlightStreamData) (cb : callback)
    : option InFlight.InFlightStreamData :=
  match cb with
  | CbAckedStreamDataOffset id' off n =>
      if id' =? id then (fun e => InFlight.ack_until e (sat_add off n)) <$> o else o
  | CbStreamClose _ id' _ _ => if id' =? id then None else o
  | _ => o
  end.

Lemma on_callback_entry cb u id :
  in_flight_stream_data (on_callback cb u).2 !! id =
    entry_step id (in_flight_stream_data u !! id) cb.
Proof.
  destruct cb; cbn -[Z.land]; unfold path_validation_callback, remove_connection_id_callback,
      get_new_connection_id_callback, handshake_completed_callback,
      qlog_write_callback, recv_new_token_callback,
      recv_stream_data_callback, recv_datagram_callback;
    try solve [repeat (case_match; cbn); simplify_eq/=; done].
  - unfold InFlight.closed_stream. destruct (Z.eqb_spec stream_id id) as [->|Hne].
    + apply lookup_delete_eq.
    + by rewrite lookup_delete_ne.
  - unfold InFlight.acked_stream_data. destruct (Z.eqb_spec stream_id id) as [->|Hne].
    + destruct (in_flight_stream_data u !! id) eqn:He; cbn; [by rewrite lookup_insert_eq|done].
    + case_match; [by rewrite lookup_insert_ne|done].
Qed.

Lemma exec_entry {A} (p : run A) u id :
  in_flight_stream_data (exec p u).2 !! id =
    foldl (entry_step id) (in_flight_stream_data u !! id) (trace p u).
Proof.
  revert u. induction p as [a|cb k IH]; intros u; [done|]. cbn.
  pose proof (on_callback_entry cb u id) as He.
  destruct (on_callback cb u) as [r u']. cbn in *. by rewrite IH, He.
Qed.

(** A callback that leaves the stream's data alone. *)
Definition untouched (id : StreamId) (cb : callback) : Prop :=
  match cb with
  | CbAckedStreamDataOffset id' _ _ | CbStreamClose _ id' _ _ => id' <> id
  | _ => True
  end.

Lemma entry_untouched id cbs o : Forall (untouched id) cbs -> foldl (entry_step id) o cbs = o.
Proof.
  intros H. revert o. induction H as [|cb cbs Hu _ IH]; intros o; [done|]. cbn. rewrite IH.
  destruct cb; cbn in *; try done; bool_cases; done.
Qed.

(** ** What the documentation of ngtcp2 states *)

Class Ngtcp2Doc : Prop := {
  (** [*pdatalen] is -1 or the number of bytes taken from the data offered *)
  writev_datalen i buf flags id d ts u :
    (exec (ngtcp2_conn_writev_stream i buf flags id d ts) u).1.1.2 <= slen d;
  (** a stream is closed, and its data acknowledged, when packets are read or timers
      run, not while it is written *)
  writev_untouched i buf flags id d ts u :
    Forall (untouched id) (trace (ngtcp2_conn_writev_stream i buf flags id d ts) u);
  (** the number of bytes written to the buffer *)
  encode_local_fits i n :
    let '(rv, buf) := ngtcp2_conn_encode_local_transport_params i n in rv <= slen buf;
  encode_0rtt_fits i n :
    let '(rv, buf) := ngtcp2_conn_encode_0rtt_transport_params2 i n in rv <= slen buf;
  (** the constructors return 0 and a connection, or a negative code and none *)
  client_new_result dcid scid path v settings params u :
    let '(rv, c) := (exec (ngtcp2_conn_client_new dcid scid path v settings params) u).1 in
    (rv < 0 /\ c = None) \/ (rv = 0 /\ exists i, c = Some i);
  server_new_result dcid scid path v settings params u :
    let '(rv, c) := (exec (ngtcp2_conn_server_new dcid scid path v settings params) u).1 in
    (rv < 0 /\ c = None) \/ (rv = 0 /\ exists i, c = Some i) }.

(** ** Properties *)

(** Writing to a stream keeps exactly what ngtcp2 accepted: the stream's buffer
    makes one [InFlight] write step with the number of bytes that is reported, the
    other streams' buffers are changed only by callbacks, and the number reported
    never exceeds the data offered. *)
Theorem write_stream_in_flight {ng_doc : Ngtcp2Doc} (c c' : Connection) (buf : bytes)
    (id : StreamId) (d : bytes) (fin : bool) (ts flags : Z)
    (r : result Error (Z * option Z * option PathInfo * PacketInfo * bytes))
    (Hw : write_stream_with_flags c buf id d fin ts flags = (c', r)) :
  let e := default InFlight.new_entry (in_flight_stream_data (user_data c) !! id) in
  exists written,
    in_flight_stream_data (user_data c') !! id
      = Some (InFlight.write_entry e d written (heap c)).1.1 /\
    heap c' = (InFlight.write_entry e d written (heap c)).2 /\
    0 <= written <= slen d /\
    (forall n dw path pi b, r = Ok (n, dw, path, pi, b) -> default 0 dw = written).
Proof.
  cbv zeta. revert Hw. unfold write_stream_with_flags, InFlight.write_entry.
  set (e := default _ _).
  destruct (InFlight.append e d (heap c)) as [[e1 app] h] eqn:Happ.
  set (u1 := (user_data c) <| in_flight_stream_data := _ |>).
  set (fl := if fin then _ else _).
  pose proof (writev_datalen (inner c) buf fl id d ts u1) as Hn.
  pose proof (writev_untouched (inner c) buf fl id d ts u1) as Hu.
  pose proof (exec_entry (ngtcp2_conn_writev_stream (inner c) buf fl id d ts) u1 id) as He.
  rewrite entry_untouched in He by done. clear Hu.
  destruct (exec _ u1) as [[[i datalen] o] u2]. cbn in Hn, He.
  rewrite lookup_insert_eq in He. rewrite He.
  set (dw := if 0 <=? datalen then _ else _).
  assert (0 <= default 0 dw <= slen d) as Hdw.
  { unfold dw. pose proof (slen_nonneg d). destruct (Z.leb_spec 0 datalen); cbn; lia. }
  intros Hw. exists (default 0 dw).
  split; [|split; [|split; [done|]]].
  - repeat case_match; simplify_eq; cbn; apply lookup_insert_eq.
  - repeat case_match; simplify_eq; done.
  - intros n dw' path pi b ->. repeat case_match; simplify_eq; done.
Qed.

(** The buffers of stream data follow the callbacks: after any run of a C
    function, the buffer of a stream is the one before with the acknowledgements
    applied in their order, and it is gone once the stream closes. *)
Theorem in_flight_follows_callbacks {A} (p : run A) (u : ConnectionUserData) (id : StreamId) :
  in_flight_stream_data (exec p u).2 !! id =
    foldl (entry_step id) (in_flight_stream_data u !! id) (trace p u) /\
  (forall flags rx tx cbs1 cbs2,
     trace p u = cbs1 ++ CbStreamClose flags id rx tx :: cbs2 ->
     in_flight_stream_data (exec p u).2 !! id = None).
Proof.
  rewrite exec_entry. split; [done|]. intros flags rx tx cbs1 cbs2 ->.
  rewrite foldl_app. cbn. rewrite Z.eqb_refl.
  induction cbs2 as [|cb cbs IH]; [done|]. cbn.
  replace (entry_step id None cb) with (@None InFlight.InFlightStreamData); [done|].
  destruct cb; cbn; try done; by destruct (_ =? _).
Qed.

(** Taking events until there are none, with [fuel] calls at most. *)
Fixpoint drain_events (fuel : nat) (c : Connection) : Connection * list ConnectionEvent :=
  match fuel with
  | O => (c, [])
  | S fuel =>
      match poll_event c with
      | (c, None) => (c, [])
      | (c, Some e) => let '(c, es) := drain_events fuel c in (c, e :: es)
      end
  end.

Lemma drain_events_all fuel c :
  (length (events (user_data c)) <= fuel)%nat ->
  (drain_events fuel c).2 = events (user_data c) /\
  has_event (drain_events fuel c).1 = false.
Proof.
  revert c. induction fuel as [|fuel IH]; intros [i u s h]; unfold has_event; cbn.
  - destruct (events u) eqn:He; cbn; [done|lia].
  - unfold poll_event. cbn. destruct (events u) as [|e es] eqn:He; cbn.
    + by rewrite ?He.
    + intros Hf. specialize (IH (mkConnection i (u <| events := es |>) s h)). cbn in IH.
      destruct (drain_events fuel _) as [c' es']. cbn in *.
      destruct IH as [-> Hh]; [lia|]. done.
Qed.

(** C10: events are delivered first in, first out: polling after a packet was read
    returns the events that were pending, then those of the callbacks in the order
    ngtcp2 made them, each once, and then [None]. *)
Theorem read_pkt_events_fifo (c : Connection) (path : PathInfo) (pi : PacketInfo)
    (dgram : bytes) (ts : Z) (fuel : nat) :
  let p := ngtcp2_conn_read_pkt (inner c) (path_to_raw path) (ecn pi) dgram ts in
  let c' := (read_pkt c path pi dgram ts).1 in
  let all := events (user_data c) ++
    concat (map (events_of (early_data_attempted (user_data c))) (trace p (user_data c))) in
  (length all <= fuel)%nat ->
  (drain_events fuel c').2 = all /\ has_event (drain_events fuel c').1 = false.
Proof.
  intros p c' all Hf. pose proof (exec_queues p (user_data c)) as [He _].
  assert (events (user_data c') = all) as Hall.
  { subst c' all. rewrite <- He. unfold read_pkt, exec_rv. fold p.
    by destruct (exec p (user_data c)) as [[i rv] u']. }
  rewrite <- Hall in *. by apply drain_events_all.
Qed.

(** The reason of a CONNECTION_CLOSE is a [String] whatever bytes the peer sent, and what
    the peer wrote if that was UTF-8. *)
Theorem close_reason_is_text (c : Connection)
    (Hbytes : forall e why, ngtcp2_conn_get_ccerr (inner c) = Some e ->
      cc_reason e = Some why -> are_bytes why) :
  Utf8.is_utf8 (reason (get_connection_error c)) /\
  forall e why, ngtcp2_conn_get_ccerr (inner c) = Some e -> cc_reason e = Some why ->
    Utf8.is_utf8 why -> reason (get_connection_error c) = why.
Proof.
  unfold get_connection_error. destruct (ngtcp2_conn_get_ccerr (inner c)) as [e|]; cbn.
  - specialize (Hbytes e). split.
    + apply Utf8.from_utf8_lossy_utf8. destruct (cc_reason e) as [why|]; [|constructor].
      by apply (Hbytes why).
    + intros e' why [= <-] ->. apply Utf8.from_utf8_lossy_id.
  - split; [by exists []|done].
Qed.

(** The return value of a function that writes to a buffer is a slice of it. *)
Lemma slice_written (buf : bytes) rv : 0 <= rv <= slen buf -> exists d, slice buf 0 rv = Some d.
Proof. intros H. unfold slice. bool_cases; try lia. by eexists. Qed.

Lemma encode_0rtt_ret {ng_doc : Ngtcp2Doc} c : exists r, encode_0rtt_transport_params c = Ret r.
Proof.
  unfold encode_0rtt_transport_params. pose proof (encode_0rtt_fits (inner c) 512) as H.
  destruct (ngtcp2_conn_encode_0rtt_transport_params2 _ _) as [n buf].
  destruct (Z.ltb_spec n 0); [by eexists|]. destruct (slice_written buf n) as [d ->]; [lia|by eexists].
Qed.

Lemma take_session_ticket_ret {ng_doc : Ngtcp2Doc} c : exists r, take_session_ticket c = Ret r.
Proof.
  unfold take_session_ticket. destruct (negb _); [by eexists|].
  destruct (tls_session c) as [s|]; [|by eexists].
  destruct (tls_take_session_ticket s) as [s' [t|]]; [|by eexists].
  match goal with |- context [encode_0rtt_transport_params ?c'] =>
    destruct (encode_0rtt_ret c') as [[p|e] ->] end; by eexists.
Qed.

(** A constructor returns; it has created one connection if it succeeds, which [Drop]
    deletes, and otherwise none, or one that it deleted. *)
Definition settled (o : outcome (tracked (result Error Connection))) : Prop :=
  exists r l, o = Ret (r, l) /\
    match r with
    | Ok c => l = [Created Ngtcp2Conn] /\ (drop c).2 = [Deleted Ngtcp2Conn]
    | Err _ => l = [] \/ l = [Created Ngtcp2Conn; Deleted Ngtcp2Conn]
    end.

Lemma settled_err e : settled (Ret (mret (Err e))).
Proof. eexists _, _. split; [done|]. by left. Qed.
#[local] Hint Resolve settled_err : core.

Lemma finish_new_tracked {ng_doc : Ngtcp2Doc} i u s settings : exists r l,
  finish_new i u s settings = Ret (r, l) /\
  l = match r with Ok _ => [] | Err _ => [Deleted Ngtcp2Conn] end.
Proof.
  unfold finish_new, del_and_fail.
  match goal with |- context [ngtcp2_conn_encode_local_transport_params ?x 512] =>
    generalize x; intros i' end.
  pose proof (encode_local_fits i' 512) as H1.
  destruct (ngtcp2_conn_encode_local_transport_params i' 512) as [n buf].
  destruct (Z.ltb_spec n 0); [by do 2 eexists|]. destruct (slice_written buf n) as [d ->]; [lia|].
  destruct (set_quic_transport_params s d) as [s1|e]; [|by do 2 eexists].
  destruct (accepts_early_data s1); [|by do 2 eexists].
  pose proof (encode_0rtt_fits i' 512) as H2.
  destruct (ngtcp2_conn_encode_0rtt_transport_params2 i' 512) as [n2 buf2].
  destruct (Z.ltb_spec n2 0); [by do 2 eexists|]. destruct (slice_written buf2 n2) as [d2 ->]; [lia|].
  destruct (set_quic_early_data_context s1 d2) as [s2|e]; by do 2 eexists.
Qed.

(** [new_conn] returns 0 and a connection, or a negative code and none. *)
Definition new_result (new_conn : raw_cid -> raw_cid -> raw_path -> Z -> Params.ngtcp2_settings ->
    Params.TransportParams -> run (Z * option ngtcp2_conn)) : Prop :=
  forall dcid scid path v settings params u,
    let '(rv, c) := (exec (new_conn dcid scid path v settings params) u).1 in
    (rv < 0 /\ c = None) \/ (rv = 0 /\ exists i, c = Some i).

Lemma create_settled {ng_doc : Ngtcp2Doc} new_conn dcid scid la ra v s params settings :
  new_result new_conn -> cid_ok dcid -> cid_ok scid ->
  settled (create new_conn dcid scid la ra v s params settings).
Proof.
  intros Hnew (d & Hd & _)%cid_to_raw_ok (sc & Hs & _)%cid_to_raw_ok.
  unfold create. rewrite Hd, Hs.
  match goal with |- context [exec ?p ?u] =>
    specialize (Hnew _ _ _ _ _ _ u : let '(rv, c) := (exec p u).1 in _);
    destruct (exec p u) as [[rv i] u'] end.
  cbn in Hnew. unfold check_ngtcp2. destruct Hnew as [[Hneg ->]|[-> [ii ->]]].
  - destruct (Z.ltb_spec rv 0); [|lia]. apply settled_err.
  - destruct (finish_new_tracked ii u' s settings) as (r & l & Hf & ->).
    unfold after. cbn. rewrite Hf. exists r. eexists. split; [done|]. destruct r; [done|by right].
Qed.

Lemma client_new_settled {ng_doc : Ngtcp2Doc} dcid scid la ra v name s params settings :
  cid_ok dcid -> cid_ok scid -> settled (client_new dcid scid la ra v name s params settings).
Proof.
  intros Hd Hs. unfold client_new. repeat (case_match; try by apply settled_err).
  apply create_settled; [|done..]. intros ? ? ? ? ? ? ?. apply client_new_result.
Qed.

Lemma client_new_with_0rtt_settled {ng_doc : Ngtcp2Doc} dcid scid la ra v name s params settings ticket :
  cid_ok dcid -> cid_ok scid ->
  settled (client_new_with_0rtt dcid scid la ra v name s params settings ticket).
Proof.
  intros Hd Hs. unfold client_new_with_0rtt.
  destruct (set_session s (session ticket)) as [[s' early]|e]; [|done].
  destruct (client_new_settled dcid scid la ra v name s' params settings Hd Hs) as (r & l & -> & H).
  unfold after. destruct r as [c|e]; cbn.
  - destruct H as [-> _]. destruct (ngtcp2_conn_decode_and_set_0rtt_transport_params _ _) as [i rv].
    destruct (negb (rv =? 0)); do 2 eexists; (split; [done|]); [by right|done].
  - rewrite app_nil_r. by exists (Err e), l.
Qed.

Lemma server_new_settled {ng_doc : Ngtcp2Doc} dcid scid la ra v s params settings :
  cid_ok dcid -> cid_ok scid -> settled (server_new dcid scid la ra v s params settings).
Proof.
  intros Hd Hs. unfold server_new. case_match; [done|].
  apply create_settled; [|done..]. intros ? ? ? ? ? ? ?. apply server_new_result.
Qed.

(** C19: creating a connection never leaks the [ngtcp2_conn] and never frees it twice: on
    success exactly one was created and none deleted, and [Drop] of the result deletes it;
    on an error none was created, or the one that was has been deleted, whichever step
    failed. A client whose parameters carry an original connection id, and a server
    whose parameters lack it, are refused before ngtcp2 is called. Nothing panics
    with connection ids of at most 20 bytes. *)
Theorem constructors_own_conn {ng_doc : Ngtcp2Doc} (dcid scid : ConnectionId)
    (local_addr remote_addr : SocketAddr) (version : QuicVersion) (name : string)
    (s : TlsSession) (params : Params.TransportParams) (settings : Params.Settings)
    (ticket : SessionTicket) (Hd : cid_ok dcid) (Hs : cid_ok scid) :
  let client := client_new dcid scid local_addr remote_addr version name s params settings in
  let zero_rtt :=
    client_new_with_0rtt dcid scid local_addr remote_addr version name s params settings ticket in
  let server := server_new dcid scid local_addr remote_addr version s params settings in
  Forall (fun res => exists r l, res = Ret (r, l) /\
    match r with
    | Ok c => l = [Created Ngtcp2Conn] /\ (drop c).2 = [Deleted Ngtcp2Conn]
    | Err _ => l = [] \/ l = [Created Ngtcp2Conn; Deleted Ngtcp2Conn]
    end) [client; zero_rtt; server] /\
  (Params.has_original_dcid params = true ->
     exists e, client = Ret (Err (InvalidArgument e), [])) /\
  (Params.has_original_dcid params = false ->
     exists e, server = Ret (Err (InvalidArgument e), [])).
Proof.
  cbv zeta. split; [|split].
  - repeat (apply Forall_cons; split); [by apply client_new_settled|
      by apply client_new_with_0rtt_settled|by apply server_new_settled|constructor].
  - intros Hp. unfold client_new. rewrite Hp. by eexists.
  - intros Hp. unfold server_new. rewrite Hp. by eexists.
Qed.
End conn.

(** ** A concrete library

    Its connections count the packets with stream data, four at most, of three bytes at
    most, and log what they sent and what they read. A packet that begins with the type of
    a DATAGRAM frame carries one; with any other [read_pkt] opens stream 4, delivers the
    packet on it and acknowledges two bytes of stream 0. *)
Record toy_quic := mkToyQuic {
  tq_sent : Z; tq_log : list (Z * bytes * bool); tq_datagrams : list bytes; tq_read : list bytes }.
Definition toy_quic_new : toy_quic := mkToyQuic 0 [] [] [].
Definition toy_frames (d : bytes) : list callback :=
  match d with
  | 49 :: d => [CbRecvDatagram (Some d) (slen d)]
  | _ => [CbStreamOpen 4; CbRecvStreamData 1 4 0 (Some d) (slen d); CbAckedStreamDataOffset 0 0 2]
  end.
Fixpoint invoke_all {A} (cbs : list callback) (p : run A) : run A :=
  match cbs with [] => p | cb :: cbs => Invoke cb (fun _ => invoke_all cbs p) end.
Definition toy_shut (c : toy_quic) (id : Z) : bool :=
  existsb (fun e => (id =? e.1.1) && e.2) (tq_log c).

Definition no_path : raw_path := path_to_raw
  {| local := SockV4 [127; 0; 0; 1] 1; remote := SockV4 [127; 0; 0; 1] 2 |}.

Definition toy_ngtcp2 : Ngtcp2Api := {|
  ngtcp2_conn := toy_quic;
  ngtcp2_conn_client_new _ _ _ _ _ _ := Return (0, Some toy_quic_new);
  ngtcp2_conn_server_new _ _ _ _ _ _ := Return (0, Some toy_quic_new);
  ngtcp2_conn_encode_local_transport_params _ _ := (1, [7]);
  ngtcp2_conn_encode_0rtt_transport_params2 _ _ := (-1, []);
  ngtcp2_conn_decode_and_set_0rtt_transport_params c _ := (c, 0);
  ngtcp2_conn_set_keep_alive_timeout c _ := c;
  ngtcp2_conn_read_pkt c _ _ d _ :=
    invoke_all (toy_frames d)
      (Return (mkToyQuic (tq_sent c) (tq_log c) (tq_datagrams c) (tq_read c ++ [d]), 0));
  ngtcp2_conn_write_pkt c b _ := Return (c, mkWriteOut 0 no_path 0 b);
  ngtcp2_conn_writev_stream c b flags id d _ :=
    let n := Z.min (slen d) 3 in
    Return (if toy_shut c id then (c, -1, mkWriteOut NGTCP2_ERR_STREAM_SHUT_WR no_path 0 b)
            else if tq_sent c <? 4 then
              (mkToyQuic (tq_sent c + 1)
                 (tq_log c ++ [(id, take (Z.to_nat n) d, Z.testbit flags 1 && (n =? slen d))])
                 (tq_datagrams c) (tq_read c),
               n, mkWriteOut (Z.min (40 + n) (slen b)) no_path 0 b)
            else (c, -1, mkWriteOut 0 no_path 0 b));
  ngtcp2_conn_writev_datagram c b d _ :=
    Return (mkToyQuic (tq_sent c) (tq_log c) (tq_datagrams c ++ [d]) (tq_read c),
            1, mkWriteOut (Z.min (slen d) (slen b)) no_path 0 b);
  ngtcp2_conn_write_connection_close c b _ _ :=
    Return (c, Z.min 20 (slen b), replicate (length b) 0);
  ngtcp2_conn_initiate_migration c _ _ := Return (c, 0);
  ngtcp2_conn_initiate_immediate_migration c _ _ := Return (c, 0);
  ngtcp2_conn_get_path2 _ := Some no_path;
  ngtcp2_conn_submit_new_token c _ := (c, 0);
  ngtcp2_conn_open_bidi_stream c := (c, 0, 4);
  ngtcp2_conn_open_uni_stream c := (c, 0, 2);
  ngtcp2_conn_shutdown_stream c _ _ _ := Return (c, 0);
  ngtcp2_conn_shutdown_stream_write c _ _ _ := Return (c, 0);
  ngtcp2_conn_shutdown_stream_read c _ _ _ := Return (c, 0);
  ngtcp2_conn_extend_max_stream_offset c _ _ := (c, 0);
  ngtcp2_conn_extend_max_offset c _ := c;
  ngtcp2_conn_extend_max_streams_bidi c _ := c;
  ngtcp2_conn_extend_max_streams_uni c _ := c;
  ngtcp2_conn_get_expiry _ := u64_max;
  ngtcp2_conn_handle_expiry c _ := Return (c, 0);
  ngtcp2_conn_initiate_key_update c _ := Return (c, 0);
  ngtcp2_conn_in_closing_period _ := 0;
  ngtcp2_conn_in_draining_period _ := 0;
  ngtcp2_conn_get_negotiated_version _ := 1;
  ngtcp2_conn_get_handshake_completed _ := 1;
  ngtcp2_conn_get_tls_early_data_rejected2 _ := 0;
  ngtcp2_conn_get_ccerr _ := None;
  ngtcp2_conn_get_max_data_left2 _ := 0;
  ngtcp2_conn_get_max_stream_data_left2 _ _ := 0;
  ngtcp2_conn_get_streams_bidi_left2 _ := 0;
  ngtcp2_conn_get_streams_uni_left2 _ := 0;
  ngtcp2_conn_get_cwnd_left2 _ := 0;
  ngtcp2_conn_get_conn_info2 _ := Params.Build_ngtcp2_conn_info 0 0 0 0 0 0 0 0 0 0 0 0 0 0 0;
  ngtcp2_conn_get_remote_transport_params _ :=
    Some (Params.with_datagram Params.toy_params 100);
  ngtcp2_ccerr_transport_error code why :=
    {| cc_type := 0; cc_error_code := code; cc_reason := Some why |};
  ngtcp2_ccerr_application_error code why :=
    {| cc_type := 1; cc_error_code := code; cc_reason := Some why |};
  ngtcp2_settings_default := Params.toy_default |}.

Definition toy_tls : Tls := {|
  TlsSession := unit;
  set_server_name s _ := Ok s;
  configure_peer_ip_verification s := Ok s;
  set_session s _ := Ok (s, true);
  set_quic_transport_params s _ := Ok s;
  accepts_early_data _ := false;
  set_quic_early_data_context s _ := Ok s;
  tls_selected_alpn_protocol _ := None;
  tls_is_in_early_data _ := false;
  tls_is_early_data_accepted _ := false;
  tls_take_session_ticket s := (s, None) |}.

Section witnesses.
#[local] Existing Instances toy_strerror toy_api toy_ngtcp2 toy_tls InFlight.exact_allocator.

Lemma toy_ngtcp2_doc {any : TokenApi} : Ngtcp2Doc (api := any).
Proof.
  constructor.
  - intros. cbn. pose proof (slen_nonneg d). destruct (toy_shut i id), (tq_sent i <? 4); cbn; lia.
  - intros. constructor.
  - intros. by vm_compute.
  - intros. by vm_compute.
  - intros. right. split; [done|by eexists].
  - intros. right. split; [done|by eexists].
Qed.

Definition toy_conn : Connection := mkConnection (toy_quic_new : ngtcp2_conn) user_data_new (Some tt) 1.

Lemma write_stream_in_flight_witness :
  exists c' r written,
    write_stream_with_flags toy_conn [] 0 [1; 2; 3; 4] true 9 0 = (c', r) /\
    in_flight_stream_data (user_data c') !! (0 : Z) =
      Some (InFlight.write_entry InFlight.new_entry [1; 2; 3; 4] written 1).1.1 /\
    0 <= written <= 4.
Proof.
  destruct (write_stream_with_flags toy_conn [] 0 [1; 2; 3; 4] true 9 0) as [c' r] eqn:Hw.
  exists c', r.
  destruct (write_stream_in_flight (ng_doc := toy_ngtcp2_doc) toy_conn c' [] 0 [1; 2; 3; 4]
    true 9 0 r Hw) as (w & H1 & _ & H2 & _).
  exists w. split; [reflexivity|]. split; [exact H1|exact H2].
Defined.

Lemma in_flight_follows_callbacks_witness :
  let p := ngtcp2_conn_read_pkt (toy_quic_new : ngtcp2_conn) no_path 0 [5; 6] 9 in
  in_flight_stream_data (exec p user_data_new).2 !! (0 : Z) = None.
Proof.
  intros p.
  rewrite (proj1 (in_flight_follows_callbacks p user_data_new 0)). reflexivity.
Defined.

Lemma read_pkt_events_fifo_witness :
  (drain_events 2 (read_pkt toy_conn
     {| local := SockV4 [1; 1; 1; 1] 1; remote := SockV4 [1; 1; 1; 2] 2 |}
     PacketInfo_default [5; 6] 9).1).2 = [StreamOpened 4; StreamData 4 [5; 6] true].
Proof.
  refine (proj1 (read_pkt_events_fifo toy_conn _ _ _ _ 2 _)). vm_compute. repeat constructor.
Defined.

(** A session of [Tls] that refuses the transport parameters: the connection that was
    created is deleted. *)
Definition refusing_tls : Tls := {|
  TlsSession := unit;
  set_server_name s _ := Ok s;
  configure_peer_ip_verification s := Ok s;
  set_session s _ := Ok (s, true);
  set_quic_transport_params s _ := Err (Internal "SSL_set_quic_transport_params failed");
  accepts_early_data _ := false;
  set_quic_early_data_context s _ := Ok s;
  tls_selected_alpn_protocol _ := None;
  tls_is_in_early_data _ := false;
  tls_is_early_data_accepted _ := false;
  tls_take_session_ticket s := (s, None) |}.

Lemma constructors_own_conn_witness :
  let c := mkCid [1; 2; 3; 4; 5; 6; 7; 8] in
  let a := SockV4 [127; 0; 0; 1] 4433 in
  exists r, client_new (tls := refusing_tls) c c a a V1 "localhost" tt Params.toy_params
      (Params.Settings_new Params.toy_default 0)
    = Ret (r, [Created Ngtcp2Conn; Deleted Ngtcp2Conn]) /\
  exists e, server_new c c a a V1 tt Params.toy_params (Params.Settings_new Params.toy_default 0)
    = Ret (Err (InvalidArgument e), []).
Proof.
  intros c a.
  assert (cid_ok c) as Hc by (vm_compute; discriminate).
  destruct (constructors_own_conn (tls := refusing_tls) (ng_doc := toy_ngtcp2_doc) c c a a V1 "localhost" tt
    Params.toy_params (Params.Settings_new Params.toy_default 0)
    {| session := []; transport_params := [] |} Hc Hc) as (H & _).
  apply Forall_cons in H as [(r & l & Hr & Hl) _]. exists r. split.
  - rewrite Hr. vm_compute in Hr. injection Hr as <- <-. reflexivity.
  - apply (constructors_own_conn (tls := toy_tls) (ng_doc := toy_ngtcp2_doc) c c a a V1 "localhost" tt
      Params.toy_params (Params.Settings_new Params.toy_default 0)
      {| session := []; transport_params := [] |} Hc Hc). reflexivity.
Defined.
End witnesses.
End Conn.
