(* ===== verification/CrateRoot.v ===== *)
(** * The root of the crate ngtcp2 (src/ngtcp2/src/lib.rs)

    What lib.rs adds to the modules it exports: the version of the C library, and the
    constants that users of the crate check datagrams against. *)
From S2P Require Import Prelude Utf8 Tokens Conn.

Module CrateRoot.

Definition NGTCP2_VERSION : bytes := [49; 46; 50; 53; 46; 57; 48].
Definition MIN_INITIAL_DATAGRAM_SIZE : Z := 1200.
Definition MIN_INITIAL_DCIDLEN : Z := 8.
Definition WRITE_STREAM_FLAG_MORE : Z := Conn.NGTCP2_WRITE_STREAM_FLAG_MORE.

(** ["unknown"] *)
Definition unknown : bytes := [117; 110; 107; 110; 111; 119; 110].

(** The linked library: [ngtcp2_version] gives a null pointer or a struct, whose
    [version_str] is a null pointer or the bytes before a NUL; a transport error code for
    an error code. *)
Class Linked := {
  ngtcp2_info : option (option bytes);
  ngtcp2_err_infer_quic_transport_error_code : Z -> Z }.

Section root.
Context {lib : Linked}.

Definition version_string : bytes :=
  match ngtcp2_info with
  | None => unknown
  | Some None => unknown
  | Some (Some s) => if Utf8.from_utf8 s then s else unknown
  end.
Definition ngtcp2_version : bytes := version_string.

Definition infer_quic_transport_error_code (code : Z) : Z :=
  ngtcp2_err_infer_quic_transport_error_code code.

(** The version is a [&str] whatever library is linked. *)
Theorem version_is_text : (forall s, ngtcp2_info = Some (Some s) -> are_bytes s) ->
  Utf8.is_utf8 ngtcp2_version /\
  forall s, ngtcp2_info = Some (Some s) -> Utf8.is_utf8 s -> ngtcp2_version = s.
Proof.
  intros Hb. unfold ngtcp2_version, version_string.
  assert (Utf8.is_utf8 unknown) as Hu by (apply Utf8.from_utf8_iff; [solve_bytes|done]).
  destruct ngtcp2_info as [[s|]|]; [|done..]. specialize (Hb s eq_refl).
  pose proof (Utf8.from_utf8_iff s Hb) as H. destruct (Utf8.from_utf8 s).
  - split; [by apply H|]. by intros ? [= <-].
  - split; [done|]. intros ? [= <-] Hs. by apply H in Hs.
Qed.
End root.

#[export] Instance of_this_build : Linked := {
  ngtcp2_info := Some (Some NGTCP2_VERSION);
  ngtcp2_err_infer_quic_transport_error_code _ := 1 }.

(** The unit test of the crate, with the library of this build *)
Lemma test_ngtcp2_version : ngtcp2_version <> unknown /\ ngtcp2_version = NGTCP2_VERSION.
Proof. by vm_compute. Qed.
End CrateRoot.
