(* ===== verification/Bindings.v ===== *)
(** * The C structures of ngtcp2 (src/ngtcp2-sys/src/bindings.rs)

    The structures that the crates share with the C library, laid out in memory as
    [repr(C)] does on a 64-bit machine. bindings.rs was made on macOS, and the library
    that is linked on Linux lays out its [sockaddr] as Linux does; conn.rs and config.rs
    write these as bytes. The theorems say that the assertions of bindings.rs hold, that
    the other fields of each structure are where the C library has them on either
    system, and that an address is written where the C library reads it. *)
From S2P Require Import Prelude Types Errors Tokens Params Callbacks Conn CrateRoot.
Import Types Tokens.

Module Bindings.

(** ** Types and their layout *)

Inductive ctype :=
| Int (size : Z)
| Ptr
| Arr (t : ctype) (n : Z)
| Struct (fields : list (string * ctype))
| Union (fields : list (string * ctype))
| Aligned (a : Z) (t : ctype).

Definition round_up (n a : Z) : Z := (n + a - 1) / a * a.

Fixpoint align_of (t : ctype) : Z :=
  match t with
  | Int n => n
  | Ptr => 8
  | Arr t _ => align_of t
  | Struct fs | Union fs => fold_right (fun f a => Z.max (align_of f.2) a) 1 fs
  | Aligned a t => Z.max a (align_of t)
  end.

Fixpoint size_of (t : ctype) : Z :=
  match t with
  | Int n => n
  | Ptr => 8
  | Arr t n => n * size_of t
  | Struct fs =>
      round_up (fold_left (fun o f => round_up o (align_of f.2) + size_of f.2) fs 0)
        (fold_right (fun f a => Z.max (align_of f.2) a) 1 fs)
  | Union fs =>
      round_up (fold_right (fun f s => Z.max (size_of f.2) s) 0 fs)
        (fold_right (fun f a => Z.max (align_of f.2) a) 1 fs)
  | Aligned a t => round_up (size_of t) (Z.max a (align_of t))
  end.

(** [Aligned]: [repr(align(a))].
    Each field of a struct begins at the next multiple of its alignment. *)
Fixpoint place (o : Z) (fs : list (string * ctype)) : list (string * Z) :=
  match fs with
  | [] => []
  | (name, t) :: fs =>
      let o := round_up o (align_of t) in (name, o) :: place (o + size_of t) fs
  end.
Fixpoint offsets (t : ctype) : list (string * Z) :=
  match t with
  | Struct fs => place 0 fs
  | Union fs => map (fun f => (f.1, 0)) fs
  | Aligned _ t => offsets t
  | _ => []
  end.
Fixpoint fields (t : ctype) : list (string * ctype) :=
  match t with Struct fs | Union fs => fs | Aligned _ t => fields t | _ => [] end.

Definition find_field {A} (name : string) (l : list (string * A)) : option A :=
  snd <$> List.find (fun f => String.eqb f.1 name) l.
Definition offset_of (t : ctype) (name : string) : option Z := find_field name (offsets t).

(** The bytes of a field of the structure at the start of [mem]. *)
Definition field (t : ctype) (name : string) (mem : bytes) : option bytes :=
  o ← offset_of t name;
  f ← find_field name (fields t);
  slice mem o (o + size_of f).

(** What bindings.rs asserts of a type: its size, its alignment, and the offsets. *)
Record checks := mkChecks { c_size : Z; c_align : Z; c_offsets : list (string * Z) }.
Definition passes (t : ctype) (c : checks) : bool :=
  bool_decide (size_of t = c_size c) && bool_decide (align_of t = c_align c) &&
  bool_decide (offsets t = c_offsets c).

(** ** Addresses, as on macOS *)

Definition sockaddr : ctype := Struct [
  ("sa_len", Int 1); ("sa_family", Int 1); ("sa_data", Arr (Int 1) 14)].
Definition sockaddr_checks : checks := mkChecks 16 1 [
  ("sa_len", 0); ("sa_family", 1); ("sa_data", 2)].
Definition in_addr : ctype := Struct [("s_addr", Int 4)].
Definition in_addr_checks : checks := mkChecks 4 4 [("s_addr", 0)].
Definition sockaddr_in : ctype := Struct [
  ("sin_len", Int 1); ("sin_family", Int 1); ("sin_port", Int 2); ("sin_addr", in_addr);
  ("sin_zero", Arr (Int 1) 8)].
Definition sockaddr_in_checks : checks := mkChecks 16 4 [
  ("sin_len", 0); ("sin_family", 1); ("sin_port", 2); ("sin_addr", 4); ("sin_zero", 8)].
Definition in6_addr__bindgen_ty_1 : ctype := Union [
  ("__u6_addr8", Arr (Int 1) 16); ("__u6_addr16", Arr (Int 2) 8); ("__u6_addr32", Arr (Int 4) 4)].
Definition in6_addr__bindgen_ty_1_checks : checks := mkChecks 16 4 [
  ("__u6_addr8", 0); ("__u6_addr16", 0); ("__u6_addr32", 0)].
Definition in6_addr : ctype := Struct [("__u6_addr", in6_addr__bindgen_ty_1)].
Definition in6_addr_checks : checks := mkChecks 16 4 [("__u6_addr", 0)].
Definition sockaddr_in6 : ctype := Struct [
  ("sin6_len", Int 1); ("sin6_family", Int 1); ("sin6_port", Int 2); ("sin6_flowinfo", Int 4);
  ("sin6_addr", in6_addr); ("sin6_scope_id", Int 4)].
Definition sockaddr_in6_checks : checks := mkChecks 28 4 [
  ("sin6_len", 0); ("sin6_family", 1); ("sin6_port", 2); ("sin6_flowinfo", 4); ("sin6_addr", 8);
  ("sin6_scope_id", 24)].

(** *** A platform: its [sockaddr] and the two that follow it *)
Class Platform := { p_sockaddr : ctype; p_sockaddr_in : ctype; p_sockaddr_in6 : ctype }.
Definition macos : Platform :=
  {| p_sockaddr := sockaddr; p_sockaddr_in := sockaddr_in; p_sockaddr_in6 := sockaddr_in6 |}.

(** The same structs of Linux (the crate libc) *)
Definition linux : Platform := {|
  p_sockaddr := Struct [("sa_family", Int 2); ("sa_data", Arr (Int 1) 14)];
  p_sockaddr_in := Struct [("sin_family", Int 2); ("sin_port", Int 2); ("sin_addr", in_addr);
    ("sin_zero", Arr (Int 1) 8)];
  p_sockaddr_in6 := Struct [("sin6_family", Int 2); ("sin6_port", Int 2); ("sin6_flowinfo", Int 4);
    ("sin6_addr", Struct [("s6_addr", Arr (Int 4) 4)]); ("sin6_scope_id", Int 4)] |}.

(** ** The structures of ngtcp2 *)

Section structures.
Context {platform : Platform}.

Definition ngtcp2_mem : ctype := Struct [
  ("user_data", Ptr); ("malloc", Ptr); ("free", Ptr); ("calloc", Ptr); ("realloc", Ptr)].
Definition ngtcp2_mem_checks : checks := mkChecks 40 8 [
  ("user_data", 0); ("malloc", 8); ("free", 16); ("calloc", 24); ("realloc", 32)].
Definition ngtcp2_pkt_info : ctype := Aligned 8 (Struct [("ecn", Int 1)]).
Definition ngtcp2_pkt_info_checks : checks := mkChecks 8 8 [("ecn", 0)].
Definition ngtcp2_cid : ctype := Struct [("datalen", Int 8); ("data", Arr (Int 1) 20)].
Definition ngtcp2_cid_checks : checks := mkChecks 32 8 [("datalen", 0); ("data", 8)].
Definition ngtcp2_vec : ctype := Struct [("base", Ptr); ("len", Int 8)].
Definition ngtcp2_vec_checks : checks := mkChecks 16 8 [("base", 0); ("len", 8)].
Definition ngtcp2_pkt_hd : ctype := Struct [
  ("dcid", ngtcp2_cid); ("scid", ngtcp2_cid); ("pkt_num", Int 8); ("token", Ptr);
  ("tokenlen", Int 8); ("pkt_numlen", Int 8); ("len", Int 8); ("version", Int 4);
  ("type_", Int 1); ("flags", Int 1)].
Definition ngtcp2_pkt_hd_checks : checks := mkChecks 112 8 [
  ("dcid", 0); ("scid", 32); ("pkt_num", 64); ("token", 72); ("tokenlen", 80); ("pkt_numlen", 88);
  ("len", 96); ("version", 104); ("type_", 108); ("flags", 109)].
Definition ngtcp2_pkt_stateless_reset : ctype := Struct [
  ("stateless_reset_token", Arr (Int 1) 16); ("rand", Ptr); ("randlen", Int 8)].
Definition ngtcp2_pkt_stateless_reset_checks : checks := mkChecks 32 8 [
  ("stateless_reset_token", 0); ("rand", 16); ("randlen", 24)].
Definition ngtcp2_stateless_reset_token : ctype := Struct [("data", Arr (Int 1) 16)].
Definition ngtcp2_stateless_reset_token_checks : checks := mkChecks 16 1 [("data", 0)].
Definition ngtcp2_pkt_stateless_reset2 : ctype := Struct [
  ("token", ngtcp2_stateless_reset_token); ("rand", Ptr); ("randlen", Int 8)].
Definition ngtcp2_pkt_stateless_reset2_checks : checks := mkChecks 32 8 [
  ("token", 0); ("rand", 16); ("randlen", 24)].
Definition ngtcp2_sockaddr_union : ctype := Union [
  ("sa", p_sockaddr); ("in_", p_sockaddr_in); ("in6", p_sockaddr_in6)].
Definition ngtcp2_sockaddr_union_checks : checks := mkChecks 28 4 [
  ("sa", 0); ("in_", 0); ("in6", 0)].
Definition ngtcp2_preferred_addr : ctype := Struct [
  ("cid", ngtcp2_cid); ("ipv4", p_sockaddr_in); ("ipv6", p_sockaddr_in6); ("ipv4_present", Int 1);
  ("ipv6_present", Int 1); ("stateless_reset_token", Arr (Int 1) 16)].
Definition ngtcp2_preferred_addr_checks : checks := mkChecks 96 8 [
  ("cid", 0); ("ipv4", 32); ("ipv6", 48); ("ipv4_present", 76); ("ipv6_present", 77);
  ("stateless_reset_token", 78)].
Definition ngtcp2_version_info : ctype := Struct [
  ("chosen_version", Int 4); ("available_versions", Ptr); ("available_versionslen", Int 8)].
Definition ngtcp2_version_info_checks : checks := mkChecks 24 8 [
  ("chosen_version", 0); ("available_versions", 8); ("available_versionslen", 16)].
Definition ngtcp2_transport_params : ctype := Struct [
  ("preferred_addr", ngtcp2_preferred_addr); ("original_dcid", ngtcp2_cid);
  ("initial_scid", ngtcp2_cid); ("retry_scid", ngtcp2_cid);
  ("initial_max_stream_data_bidi_local", Int 8); ("initial_max_stream_data_bidi_remote", Int 8);
  ("initial_max_stream_data_uni", Int 8); ("initial_max_data", Int 8);
  ("initial_max_streams_bidi", Int 8); ("initial_max_streams_uni", Int 8);
  ("max_idle_timeout", Int 8); ("max_udp_payload_size", Int 8);
  ("active_connection_id_limit", Int 8); ("ack_delay_exponent", Int 8); ("max_ack_delay", Int 8);
  ("max_datagram_frame_size", Int 8); ("stateless_reset_token_present", Int 1);
  ("disable_active_migration", Int 1); ("original_dcid_present", Int 1);
  ("initial_scid_present", Int 1); ("retry_scid_present", Int 1);
  ("preferred_addr_present", Int 1); ("stateless_reset_token", Arr (Int 1) 16);
  ("grease_quic_bit", Int 1); ("version_info", ngtcp2_version_info);
  ("version_info_present", Int 1); ("reset_stream_at", Int 1)].
Definition ngtcp2_transport_params_checks : checks := mkChecks 344 8 [
  ("preferred_addr", 0); ("original_dcid", 96); ("initial_scid", 128); ("retry_scid", 160);
  ("initial_max_stream_data_bidi_local", 192); ("initial_max_stream_data_bidi_remote", 200);
  ("initial_max_stream_data_uni", 208); ("initial_max_data", 216);
  ("initial_max_streams_bidi", 224); ("initial_max_streams_uni", 232); ("max_idle_timeout", 240);
  ("max_udp_payload_size", 248); ("active_connection_id_limit", 256); ("ack_delay_exponent", 264);
  ("max_ack_delay", 272); ("max_datagram_frame_size", 280);
  ("stateless_reset_token_present", 288); ("disable_active_migration", 289);
  ("original_dcid_present", 290); ("initial_scid_present", 291); ("retry_scid_present", 292);
  ("preferred_addr_present", 293); ("stateless_reset_token", 294); ("grease_quic_bit", 310);
  ("version_info", 312); ("version_info_present", 336); ("reset_stream_at", 337)].
Definition ngtcp2_conn_info : ctype := Struct [
  ("latest_rtt", Int 8); ("min_rtt", Int 8); ("smoothed_rtt", Int 8); ("rttvar", Int 8);
  ("cwnd", Int 8); ("ssthresh", Int 8); ("bytes_in_flight", Int 8); ("pkt_sent", Int 8);
  ("bytes_sent", Int 8); ("pkt_recv", Int 8); ("bytes_recv", Int 8); ("pkt_lost", Int 8);
  ("bytes_lost", Int 8); ("ping_recv", Int 8); ("pkt_discarded", Int 8)].
Definition ngtcp2_conn_info_checks : checks := mkChecks 120 8 [
  ("latest_rtt", 0); ("min_rtt", 8); ("smoothed_rtt", 16); ("rttvar", 24); ("cwnd", 32);
  ("ssthresh", 40); ("bytes_in_flight", 48); ("pkt_sent", 56); ("bytes_sent", 64);
  ("pkt_recv", 72); ("bytes_recv", 80); ("pkt_lost", 88); ("bytes_lost", 96); ("ping_recv", 104);
  ("pkt_discarded", 112)].
Definition ngtcp2_rand_ctx : ctype := Struct [("native_handle", Ptr)].
Definition ngtcp2_rand_ctx_checks : checks := mkChecks 8 8 [("native_handle", 0)].
Definition ngtcp2_settings : ctype := Struct [
  ("qlog_write", Ptr); ("cc_algo", Int 4); ("initial_ts", Int 8); ("initial_rtt", Int 8);
  ("log_printf", Ptr); ("max_tx_udp_payload_size", Int 8); ("token", Ptr); ("tokenlen", Int 8);
  ("token_type", Int 4); ("rand_ctx", ngtcp2_rand_ctx); ("max_window", Int 8);
  ("max_stream_window", Int 8); ("ack_thresh", Int 8); ("no_tx_udp_payload_size_shaping", Int 1);
  ("handshake_timeout", Int 8); ("preferred_versions", Ptr); ("preferred_versionslen", Int 8);
  ("available_versions", Ptr); ("available_versionslen", Int 8); ("original_version", Int 4);
  ("no_pmtud", Int 1); ("initial_pkt_num", Int 4); ("pmtud_probes", Ptr);
  ("pmtud_probeslen", Int 8); ("glitch_ratelim_burst", Int 8); ("glitch_ratelim_rate", Int 8);
  ("log_write", Ptr)].
Definition ngtcp2_settings_checks : checks := mkChecks 208 8 [
  ("qlog_write", 0); ("cc_algo", 8); ("initial_ts", 16); ("initial_rtt", 24); ("log_printf", 32);
  ("max_tx_udp_payload_size", 40); ("token", 48); ("tokenlen", 56); ("token_type", 64);
  ("rand_ctx", 72); ("max_window", 80); ("max_stream_window", 88); ("ack_thresh", 96);
  ("no_tx_udp_payload_size_shaping", 104); ("handshake_timeout", 112);
  ("preferred_versions", 120); ("preferred_versionslen", 128); ("available_versions", 136);
  ("available_versionslen", 144); ("original_version", 152); ("no_pmtud", 156);
  ("initial_pkt_num", 160); ("pmtud_probes", 168); ("pmtud_probeslen", 176);
  ("glitch_ratelim_burst", 184); ("glitch_ratelim_rate", 192); ("log_write", 200)].
Definition ngtcp2_addr : ctype := Struct [("addr", Ptr); ("addrlen", Int 4)].
Definition ngtcp2_addr_checks : checks := mkChecks 16 8 [("addr", 0); ("addrlen", 8)].
Definition ngtcp2_path : ctype := Struct [
  ("local", ngtcp2_addr); ("remote", ngtcp2_addr); ("user_data", Ptr)].
Definition ngtcp2_path_checks : checks := mkChecks 40 8 [
  ("local", 0); ("remote", 16); ("user_data", 32)].
Definition ngtcp2_path_storage : ctype := Struct [
  ("path", ngtcp2_path); ("local_addrbuf", ngtcp2_sockaddr_union);
  ("remote_addrbuf", ngtcp2_sockaddr_union)].
Definition ngtcp2_path_storage_checks : checks := mkChecks 96 8 [
  ("path", 0); ("local_addrbuf", 40); ("remote_addrbuf", 68)].
Definition ngtcp2_crypto_md : ctype := Struct [("native_handle", Ptr)].
Definition ngtcp2_crypto_md_checks : checks := mkChecks 8 8 [("native_handle", 0)].
Definition ngtcp2_crypto_aead : ctype := Struct [
  ("native_handle", Ptr); ("max_overhead", Int 8)].
Definition ngtcp2_crypto_aead_checks : checks := mkChecks 16 8 [
  ("native_handle", 0); ("max_overhead", 8)].
Definition ngtcp2_crypto_cipher : ctype := Struct [("native_handle", Ptr)].
Definition ngtcp2_crypto_cipher_checks : checks := mkChecks 8 8 [("native_handle", 0)].
Definition ngtcp2_crypto_aead_ctx : ctype := Struct [("native_handle", Ptr)].
Definition ngtcp2_crypto_aead_ctx_checks : checks := mkChecks 8 8 [("native_handle", 0)].
Definition ngtcp2_crypto_cipher_ctx : ctype := Struct [("native_handle", Ptr)].
Definition ngtcp2_crypto_cipher_ctx_checks : checks := mkChecks 8 8 [("native_handle", 0)].
Definition ngtcp2_crypto_ctx : ctype := Struct [
  ("aead", ngtcp2_crypto_aead); ("md", ngtcp2_crypto_md); ("hp", ngtcp2_crypto_cipher);
  ("max_encryption", Int 8); ("max_decryption_failure", Int 8)].
Definition ngtcp2_crypto_ctx_checks : checks := mkChecks 48 8 [
  ("aead", 0); ("md", 16); ("hp", 24); ("max_encryption", 32); ("max_decryption_failure", 40)].
Definition ngtcp2_version_cid : ctype := Struct [
  ("version", Int 4); ("dcid", Ptr); ("dcidlen", Int 8); ("scid", Ptr); ("scidlen", Int 8)].
Definition ngtcp2_version_cid_checks : checks := mkChecks 40 8 [
  ("version", 0); ("dcid", 8); ("dcidlen", 16); ("scid", 24); ("scidlen", 32)].
Definition ngtcp2_conn : ctype := Struct [("_unused", Arr (Int 1) 0)].
Definition ngtcp2_path_challenge_data : ctype := Struct [("data", Arr (Int 1) 8)].
Definition ngtcp2_path_challenge_data_checks : checks := mkChecks 8 1 [("data", 0)].
Definition ngtcp2_callbacks : ctype := Struct [
  ("client_initial", Ptr); ("recv_client_initial", Ptr); ("recv_crypto_data", Ptr);
  ("handshake_completed", Ptr); ("recv_version_negotiation", Ptr); ("encrypt", Ptr);
  ("decrypt", Ptr); ("hp_mask", Ptr); ("recv_stream_data", Ptr);
  ("acked_stream_data_offset", Ptr); ("stream_open", Ptr); ("stream_close", Ptr);
  ("recv_stateless_reset", Ptr); ("recv_retry", Ptr); ("extend_max_local_streams_bidi", Ptr);
  ("extend_max_local_streams_uni", Ptr); ("rand", Ptr); ("get_new_connection_id", Ptr);
  ("remove_connection_id", Ptr); ("update_key", Ptr); ("path_validation", Ptr);
  ("select_preferred_addr", Ptr); ("stream_reset", Ptr); ("extend_max_remote_streams_bidi", Ptr);
  ("extend_max_remote_streams_uni", Ptr); ("extend_max_stream_data", Ptr); ("dcid_status", Ptr);
  ("handshake_confirmed", Ptr); ("recv_new_token", Ptr); ("delete_crypto_aead_ctx", Ptr);
  ("delete_crypto_cipher_ctx", Ptr); ("recv_datagram", Ptr); ("ack_datagram", Ptr);
  ("lost_datagram", Ptr); ("get_path_challenge_data", Ptr); ("stream_stop_sending", Ptr);
  ("version_negotiation", Ptr); ("recv_rx_key", Ptr); ("recv_tx_key", Ptr);
  ("tls_early_data_rejected", Ptr); ("begin_path_validation", Ptr);
  ("recv_stateless_reset2", Ptr); ("get_new_connection_id2", Ptr); ("dcid_status2", Ptr);
  ("get_path_challenge_data2", Ptr); ("recv_stop_sending", Ptr); ("stream_close2", Ptr);
  ("extend_max_data", Ptr)].
Definition ngtcp2_callbacks_checks : checks := mkChecks 384 8 [
  ("client_initial", 0); ("recv_client_initial", 8); ("recv_crypto_data", 16);
  ("handshake_completed", 24); ("recv_version_negotiation", 32); ("encrypt", 40); ("decrypt", 48);
  ("hp_mask", 56); ("recv_stream_data", 64); ("acked_stream_data_offset", 72);
  ("stream_open", 80); ("stream_close", 88); ("recv_stateless_reset", 96); ("recv_retry", 104);
  ("extend_max_local_streams_bidi", 112); ("extend_max_local_streams_uni", 120); ("rand", 128);
  ("get_new_connection_id", 136); ("remove_connection_id", 144); ("update_key", 152);
  ("path_validation", 160); ("select_preferred_addr", 168); ("stream_reset", 176);
  ("extend_max_remote_streams_bidi", 184); ("extend_max_remote_streams_uni", 192);
  ("extend_max_stream_data", 200); ("dcid_status", 208); ("handshake_confirmed", 216);
  ("recv_new_token", 224); ("delete_crypto_aead_ctx", 232); ("delete_crypto_cipher_ctx", 240);
  ("recv_datagram", 248); ("ack_datagram", 256); ("lost_datagram", 264);
  ("get_path_challenge_data", 272); ("stream_stop_sending", 280); ("version_negotiation", 288);
  ("recv_rx_key", 296); ("recv_tx_key", 304); ("tls_early_data_rejected", 312);
  ("begin_path_validation", 320); ("recv_stateless_reset2", 328); ("get_new_connection_id2", 336);
  ("dcid_status2", 344); ("get_path_challenge_data2", 352); ("recv_stop_sending", 360);
  ("stream_close2", 368); ("extend_max_data", 376)].
Definition ngtcp2_cid_token : ctype := Struct [
  ("seq", Int 8); ("cid", ngtcp2_cid); ("ps", ngtcp2_path_storage); ("token", Arr (Int 1) 16);
  ("token_present", Int 1)].
Definition ngtcp2_cid_token_checks : checks := mkChecks 160 8 [
  ("seq", 0); ("cid", 8); ("ps", 40); ("token", 136); ("token_present", 152)].
Definition ngtcp2_cid_token2 : ctype := Struct [
  ("seq", Int 8); ("cid", ngtcp2_cid); ("ps", ngtcp2_path_storage);
  ("token", ngtcp2_stateless_reset_token); ("token_present", Int 1)].
Definition ngtcp2_cid_token2_checks : checks := mkChecks 160 8 [
  ("seq", 0); ("cid", 8); ("ps", 40); ("token", 136); ("token_present", 152)].
Definition ngtcp2_ccerr : ctype := Struct [
  ("type_", Int 4); ("error_code", Int 8); ("frame_type", Int 8); ("reason", Ptr);
  ("reasonlen", Int 8)].
Definition ngtcp2_ccerr_checks : checks := mkChecks 40 8 [
  ("type_", 0); ("error_code", 8); ("frame_type", 16); ("reason", 24); ("reasonlen", 32)].
Definition ngtcp2_info : ctype := Struct [
  ("age", Int 4); ("version_num", Int 4); ("version_str", Ptr)].
Definition ngtcp2_info_checks : checks := mkChecks 16 8 [
  ("age", 0); ("version_num", 4); ("version_str", 8)].
Definition ngtcp2_crypto_conn_ref : ctype := Struct [("get_conn", Ptr); ("user_data", Ptr)].
Definition ngtcp2_crypto_conn_ref_checks : checks := mkChecks 16 8 [
  ("get_conn", 0); ("user_data", 8)].
Definition ssl_ctx_st : ctype := Struct [("_unused", Arr (Int 1) 0)].

(** The structures of ngtcp2 with their assertions *)
Definition checked : list (ctype * checks) := [
  (ngtcp2_mem, ngtcp2_mem_checks); (ngtcp2_pkt_info, ngtcp2_pkt_info_checks);
  (ngtcp2_cid, ngtcp2_cid_checks); (ngtcp2_vec, ngtcp2_vec_checks);
  (ngtcp2_pkt_hd, ngtcp2_pkt_hd_checks);
  (ngtcp2_pkt_stateless_reset, ngtcp2_pkt_stateless_reset_checks);
  (ngtcp2_stateless_reset_token, ngtcp2_stateless_reset_token_checks);
  (ngtcp2_pkt_stateless_reset2, ngtcp2_pkt_stateless_reset2_checks);
  (ngtcp2_sockaddr_union, ngtcp2_sockaddr_union_checks);
  (ngtcp2_preferred_addr, ngtcp2_preferred_addr_checks);
  (ngtcp2_version_info, ngtcp2_version_info_checks);
  (ngtcp2_transport_params, ngtcp2_transport_params_checks);
  (ngtcp2_conn_info, ngtcp2_conn_info_checks); (ngtcp2_rand_ctx, ngtcp2_rand_ctx_checks);
  (ngtcp2_settings, ngtcp2_settings_checks); (ngtcp2_addr, ngtcp2_addr_checks);
  (ngtcp2_path, ngtcp2_path_checks); (ngtcp2_path_storage, ngtcp2_path_storage_checks);
  (ngtcp2_crypto_md, ngtcp2_crypto_md_checks); (ngtcp2_crypto_aead, ngtcp2_crypto_aead_checks);
  (ngtcp2_crypto_cipher, ngtcp2_crypto_cipher_checks);
  (ngtcp2_crypto_aead_ctx, ngtcp2_crypto_aead_ctx_checks);
  (ngtcp2_crypto_cipher_ctx, ngtcp2_crypto_cipher_ctx_checks);
  (ngtcp2_crypto_ctx, ngtcp2_crypto_ctx_checks); (ngtcp2_version_cid, ngtcp2_version_cid_checks);
  (ngtcp2_path_challenge_data, ngtcp2_path_challenge_data_checks);
  (ngtcp2_callbacks, ngtcp2_callbacks_checks); (ngtcp2_cid_token, ngtcp2_cid_token_checks);
  (ngtcp2_cid_token2, ngtcp2_cid_token2_checks); (ngtcp2_ccerr, ngtcp2_ccerr_checks);
  (ngtcp2_info, ngtcp2_info_checks); (ngtcp2_crypto_conn_ref, ngtcp2_crypto_conn_ref_checks)].
End structures.

(** The structures of the addresses with their assertions *)
Definition checked_addresses : list (ctype * checks) := [
  (sockaddr, sockaddr_checks); (in_addr, in_addr_checks); (sockaddr_in, sockaddr_in_checks);
  (in6_addr__bindgen_ty_1, in6_addr__bindgen_ty_1_checks); (in6_addr, in6_addr_checks);
  (sockaddr_in6, sockaddr_in6_checks)].

(** ** Constants *)

Definition version_constants : list (string * Z) := [
  ("NGTCP2_VERSION_NUM", 72026); ("NGTCP2_RESERVED_VERSION_MASK", 168430090);
  ("NGTCP2_MAX_UDP_PAYLOAD_SIZE", 1200); ("NGTCP2_MAX_TX_UDP_PAYLOAD_SIZE", 65527);
  ("NGTCP2_MAX_PMTUD_UDP_PAYLOAD_SIZE", 1452); ("NGTCP2_MAX_VARINT", 4611686018427387903);
  ("NGTCP2_STATELESS_RESET_TOKENLEN", 16); ("NGTCP2_MIN_STATELESS_RESET_RANDLEN", 5);
  ("NGTCP2_PATH_CHALLENGE_DATALEN", 8); ("NGTCP2_HP_MASKLEN", 5); ("NGTCP2_HP_SAMPLELEN", 16);
  ("NGTCP2_MAX_CIDLEN", 20); ("NGTCP2_MIN_CIDLEN", 1); ("NGTCP2_MIN_INITIAL_DCIDLEN", 8);
  ("NGTCP2_ECN_NOT_ECT", 0); ("NGTCP2_ECN_ECT_1", 1); ("NGTCP2_ECN_ECT_0", 2);
  ("NGTCP2_ECN_CE", 3); ("NGTCP2_ECN_MASK", 3); ("NGTCP2_PKT_INFO_V1", 1);
  ("NGTCP2_PKT_INFO_VERSION", 1)].
Definition error_constants : list (string * Z) := [
  ("NGTCP2_ERR_INVALID_ARGUMENT", -201); ("NGTCP2_ERR_NOBUF", -202); ("NGTCP2_ERR_PROTO", -203);
  ("NGTCP2_ERR_INVALID_STATE", -204); ("NGTCP2_ERR_ACK_FRAME", -205);
  ("NGTCP2_ERR_STREAM_ID_BLOCKED", -206); ("NGTCP2_ERR_STREAM_IN_USE", -207);
  ("NGTCP2_ERR_STREAM_DATA_BLOCKED", -208); ("NGTCP2_ERR_FLOW_CONTROL", -209);
  ("NGTCP2_ERR_CONNECTION_ID_LIMIT", -210); ("NGTCP2_ERR_STREAM_LIMIT", -211);
  ("NGTCP2_ERR_FINAL_SIZE", -212); ("NGTCP2_ERR_CRYPTO", -213);
  ("NGTCP2_ERR_PKT_NUM_EXHAUSTED", -214); ("NGTCP2_ERR_REQUIRED_TRANSPORT_PARAM", -215);
  ("NGTCP2_ERR_MALFORMED_TRANSPORT_PARAM", -216); ("NGTCP2_ERR_FRAME_ENCODING", -217);
  ("NGTCP2_ERR_DECRYPT", -218); ("NGTCP2_ERR_STREAM_SHUT_WR", -219);
  ("NGTCP2_ERR_STREAM_NOT_FOUND", -220); ("NGTCP2_ERR_STREAM_STATE", -221);
  ("NGTCP2_ERR_RECV_VERSION_NEGOTIATION", -222); ("NGTCP2_ERR_CLOSING", -223);
  ("NGTCP2_ERR_DRAINING", -224); ("NGTCP2_ERR_TRANSPORT_PARAM", -225);
  ("NGTCP2_ERR_DISCARD_PKT", -226); ("NGTCP2_ERR_CONN_ID_BLOCKED", -227);
  ("NGTCP2_ERR_INTERNAL", -228); ("NGTCP2_ERR_CRYPTO_BUFFER_EXCEEDED", -229);
  ("NGTCP2_ERR_WRITE_MORE", -230); ("NGTCP2_ERR_RETRY", -231); ("NGTCP2_ERR_DROP_CONN", -232);
  ("NGTCP2_ERR_AEAD_LIMIT_REACHED", -233); ("NGTCP2_ERR_NO_VIABLE_PATH", -234);
  ("NGTCP2_ERR_VERSION_NEGOTIATION", -235); ("NGTCP2_ERR_HANDSHAKE_TIMEOUT", -236);
  ("NGTCP2_ERR_VERSION_NEGOTIATION_FAILURE", -237); ("NGTCP2_ERR_IDLE_CLOSE", -238);
  ("NGTCP2_ERR_FATAL", -500); ("NGTCP2_ERR_NOMEM", -501); ("NGTCP2_ERR_CALLBACK_FAILURE", -502)].
Definition protocol_constants : list (string * Z) := [
  ("NGTCP2_PKT_FLAG_NONE", 0); ("NGTCP2_PKT_FLAG_LONG_FORM", 1);
  ("NGTCP2_PKT_FLAG_FIXED_BIT_CLEAR", 2); ("NGTCP2_PKT_FLAG_KEY_PHASE", 4);
  ("NGTCP2_NO_ERROR", 0); ("NGTCP2_INTERNAL_ERROR", 1); ("NGTCP2_CONNECTION_REFUSED", 2);
  ("NGTCP2_FLOW_CONTROL_ERROR", 3); ("NGTCP2_STREAM_LIMIT_ERROR", 4);
  ("NGTCP2_STREAM_STATE_ERROR", 5); ("NGTCP2_FINAL_SIZE_ERROR", 6);
  ("NGTCP2_FRAME_ENCODING_ERROR", 7); ("NGTCP2_TRANSPORT_PARAMETER_ERROR", 8);
  ("NGTCP2_CONNECTION_ID_LIMIT_ERROR", 9); ("NGTCP2_PROTOCOL_VIOLATION", 10);
  ("NGTCP2_INVALID_TOKEN", 11); ("NGTCP2_APPLICATION_ERROR", 12);
  ("NGTCP2_CRYPTO_BUFFER_EXCEEDED", 13); ("NGTCP2_KEY_UPDATE_ERROR", 14);
  ("NGTCP2_AEAD_LIMIT_REACHED", 15); ("NGTCP2_NO_VIABLE_PATH", 16); ("NGTCP2_CRYPTO_ERROR", 256);
  ("NGTCP2_VERSION_NEGOTIATION_ERROR", 17); ("NGTCP2_DEFAULT_MAX_RECV_UDP_PAYLOAD_SIZE", 65527);
  ("NGTCP2_DEFAULT_ACK_DELAY_EXPONENT", 3); ("NGTCP2_DEFAULT_ACTIVE_CONNECTION_ID_LIMIT", 2);
  ("NGTCP2_TLSEXT_QUIC_TRANSPORT_PARAMETERS_V1", 57); ("NGTCP2_AF_INET", 2);
  ("NGTCP2_AF_INET6", 30)].
Definition flag_constants : list (string * Z) := [
  ("NGTCP2_TRANSPORT_PARAMS_V1", 1); ("NGTCP2_TRANSPORT_PARAMS_V2", 2);
  ("NGTCP2_TRANSPORT_PARAMS_VERSION", 2); ("NGTCP2_CONN_INFO_V1", 1); ("NGTCP2_CONN_INFO_V2", 2);
  ("NGTCP2_CONN_INFO_VERSION", 2); ("NGTCP2_QLOG_WRITE_FLAG_NONE", 0);
  ("NGTCP2_QLOG_WRITE_FLAG_FIN", 1); ("NGTCP2_SETTINGS_V1", 1); ("NGTCP2_SETTINGS_V2", 2);
  ("NGTCP2_SETTINGS_V3", 3); ("NGTCP2_SETTINGS_V4", 4); ("NGTCP2_SETTINGS_VERSION", 4);
  ("NGTCP2_STREAM_DATA_FLAG_NONE", 0); ("NGTCP2_STREAM_DATA_FLAG_FIN", 1);
  ("NGTCP2_STREAM_DATA_FLAG_0RTT", 2); ("NGTCP2_STREAM_CLOSE_FLAG_NONE", 0);
  ("NGTCP2_STREAM_CLOSE_FLAG_APP_ERROR_CODE_SET", 1); ("NGTCP2_PATH_VALIDATION_FLAG_NONE", 0);
  ("NGTCP2_PATH_VALIDATION_FLAG_PREFERRED_ADDR", 1); ("NGTCP2_PATH_VALIDATION_FLAG_NEW_TOKEN", 2);
  ("NGTCP2_DATAGRAM_FLAG_NONE", 0); ("NGTCP2_DATAGRAM_FLAG_0RTT", 1);
  ("NGTCP2_STREAM_CLOSE2_FLAG_NONE", 0); ("NGTCP2_STREAM_CLOSE2_FLAG_RX_APP_ERROR_CODE_SET", 1);
  ("NGTCP2_STREAM_CLOSE2_FLAG_TX_APP_ERROR_CODE_SET", 2); ("NGTCP2_CALLBACKS_V1", 1);
  ("NGTCP2_CALLBACKS_V2", 2); ("NGTCP2_CALLBACKS_V3", 3); ("NGTCP2_CALLBACKS_V4", 4);
  ("NGTCP2_CALLBACKS_V5", 5); ("NGTCP2_CALLBACKS_V6", 6); ("NGTCP2_CALLBACKS_VERSION", 6);
  ("NGTCP2_SHUT_STREAM_FLAG_NONE", 0); ("NGTCP2_SHUT_STREAM_FLAG_FLUSH", 1);
  ("NGTCP2_WRITE_STREAM_FLAG_NONE", 0); ("NGTCP2_WRITE_STREAM_FLAG_MORE", 1);
  ("NGTCP2_WRITE_STREAM_FLAG_FIN", 2); ("NGTCP2_WRITE_STREAM_FLAG_PADDING", 4);
  ("NGTCP2_WRITE_DATAGRAM_FLAG_NONE", 0); ("NGTCP2_WRITE_DATAGRAM_FLAG_MORE", 1);
  ("NGTCP2_WRITE_DATAGRAM_FLAG_PADDING", 2); ("NGTCP2_VERSION_AGE", 1);
  ("NGTCP2_CRYPTO_ERR_INTERNAL", -201); ("NGTCP2_CRYPTO_ERR_UNREADABLE_TOKEN", -202);
  ("NGTCP2_CRYPTO_ERR_VERIFY_TOKEN", -203); ("NGTCP2_CRYPTO_ERR_NOMEM", -501);
  ("NGTCP2_CRYPTO_TOKEN_RAND_DATALEN", 16); ("NGTCP2_CRYPTO_TOKEN_MAGIC_RETRY", 182);
  ("NGTCP2_CRYPTO_TOKEN_MAGIC_RETRY2", 183); ("NGTCP2_CRYPTO_TOKEN_MAGIC_REGULAR", 54)].
Definition packet_type_constants : list (string * Z) := [
  ("NGTCP2_PKT_VERSION_NEGOTIATION", 128); ("NGTCP2_PKT_STATELESS_RESET", 129);
  ("NGTCP2_PKT_INITIAL", 16); ("NGTCP2_PKT_0RTT", 17); ("NGTCP2_PKT_HANDSHAKE", 18);
  ("NGTCP2_PKT_RETRY", 19); ("NGTCP2_PKT_1RTT", 64); ("NGTCP2_PATH_VALIDATION_RESULT_SUCCESS", 0);
  ("NGTCP2_PATH_VALIDATION_RESULT_FAILURE", 1); ("NGTCP2_PATH_VALIDATION_RESULT_ABORTED", 2)].
Definition cc_algo_constants : list (string * Z) := [
  ("NGTCP2_CC_ALGO_RENO", 0); ("NGTCP2_CC_ALGO_CUBIC", 1); ("NGTCP2_CC_ALGO_BBR", 2)].
Definition token_type_constants : list (string * Z) := [
  ("NGTCP2_TOKEN_TYPE_UNKNOWN", 0); ("NGTCP2_TOKEN_TYPE_RETRY", 1);
  ("NGTCP2_TOKEN_TYPE_NEW_TOKEN", 2)].
Definition encryption_level_constants : list (string * Z) := [
  ("NGTCP2_ENCRYPTION_LEVEL_INITIAL", 0); ("NGTCP2_ENCRYPTION_LEVEL_HANDSHAKE", 1);
  ("NGTCP2_ENCRYPTION_LEVEL_1RTT", 2); ("NGTCP2_ENCRYPTION_LEVEL_0RTT", 3)].
Definition ccerr_type_constants : list (string * Z) := [
  ("NGTCP2_CCERR_TYPE_TRANSPORT", 0); ("NGTCP2_CCERR_TYPE_APPLICATION", 1);
  ("NGTCP2_CCERR_TYPE_VERSION_NEGOTIATION", 2); ("NGTCP2_CCERR_TYPE_IDLE_CLOSE", 3);
  ("NGTCP2_CCERR_TYPE_DROP_CONN", 4); ("NGTCP2_CCERR_TYPE_RETRY", 5)].

(** ** The layout is sound *)

(** C types: integers of 1, 2, 4 or 8 bytes, and what is made of them. *)
Fixpoint valid (t : ctype) : Prop :=
  match t with
  | Int n => n = 1 \/ n = 2 \/ n = 4 \/ n = 8
  | Ptr => True
  | Arr t n => 0 <= n /\ valid t
  | Struct fs | Union fs => fold_right (fun f P => valid f.2 /\ P) True fs
  | Aligned a t => (exists k, 0 <= k /\ a = 2 ^ k) /\ valid t
  end.

(** Induction with a hypothesis for each field *)
Lemma ctype_fields_ind (P : ctype -> Prop) :
  (forall n, P (Int n)) -> P Ptr -> (forall t n, P t -> P (Arr t n)) ->
  (forall fs, Forall (fun f => P f.2) fs -> P (Struct fs)) ->
  (forall fs, Forall (fun f => P f.2) fs -> P (Union fs)) ->
  (forall a t, P t -> P (Aligned a t)) -> forall t, P t.
Proof.
  intros HI HP HA HS HU HL. fix IH 1. intros [n| |t n|fs|fs|a t].
  - apply HI.
  - apply HP.
  - apply HA, IH.
  - apply HS. induction fs as [|[name t] fs IHfs]; constructor; [apply IH|exact IHfs].
  - apply HU. induction fs as [|[name t] fs IHfs]; constructor; [apply IH|exact IHfs].
  - apply HL, IH.
Qed.

Lemma round_up_spec n a : 0 < a -> n <= round_up n a < n + a /\ (a | round_up n a).
Proof.
  intros Ha. unfold round_up. split; [|apply Z.divide_factor_r].
  pose proof (Z.div_mod (n + a - 1) a ltac:(lia)). pose proof (Z.mod_pos_bound (n + a - 1) a Ha). nia.
Qed.

(** An alignment is a power of two, so that the larger of two is a multiple of both. *)
Definition pow2 (a : Z) : Prop := exists k, 0 <= k /\ a = 2 ^ k.
Lemma pow2_pos a : pow2 a -> 0 < a.
Proof. intros (k & Hk & ->). by apply Z.pow_pos_nonneg. Qed.
Lemma pow2_max a b : pow2 a -> pow2 b -> pow2 (Z.max a b) /\ (a | Z.max a b) /\ (b | Z.max a b).
Proof.
  intros (k & Hk & ->) (m & Hm & ->).
  assert (forall k m, 0 <= k <= m -> (2 ^ k | 2 ^ m)) as Hd.
  { intros k' m' H. exists (2 ^ (m' - k')). rewrite <- Z.pow_add_r by lia. f_equal. lia. }
  destruct (Z.le_ge_cases k m) as [H|H].
  - rewrite Z.max_r by (apply Z.pow_le_mono_r; lia). split; [by exists m|]. split; [apply Hd; lia|done].
  - rewrite Z.max_l by (apply Z.pow_le_mono_r; lia). split; [by exists k|]. split; [done|apply Hd; lia].
Qed.

Notation max_align fs := (fold_right (fun f a => Z.max (align_of f.2) a) 1 fs).

Lemma max_align_spec (fs : list (string * ctype)) :
  Forall (fun f => pow2 (align_of f.2)) fs ->
  pow2 (max_align fs) /\ Forall (fun f => (align_of f.2 | max_align fs)) fs.
Proof.
  induction 1 as [|f fs Hf _ [IH1 IH2]]; cbn [fold_right]; [split; [by exists 0|constructor]|].
  destruct (pow2_max _ _ Hf IH1) as (H1 & H2 & H3). split; [done|]. constructor; [done|].
  eapply Forall_impl; [exact IH2|]. intros g Hg. exact (Z.divide_trans _ _ _ Hg H3).
Qed.

Lemma valid_fields fs :
  fold_right (fun f P => valid f.2 /\ P) True fs <-> Forall (fun f : string * ctype => valid f.2) fs.
Proof. induction fs as [|f fs IH]; cbn; [by split|]. rewrite IH, Forall_cons. done. Qed.

Lemma align_pow2 t : valid t -> pow2 (align_of t).
Proof.
  assert (forall fs, Forall (fun f : string * ctype => valid f.2 -> pow2 (align_of f.2)) fs ->
    Forall (fun f => valid f.2) fs -> Forall (fun f => pow2 (align_of f.2)) fs) as Hfs.
  { intros fs. induction 1; intros Hv; [done|]. apply Forall_cons in Hv as [? ?]. constructor; auto. }
  induction t as [n| |t n IH|fs IH|fs IH|a t IH] using ctype_fields_ind; cbn [valid align_of].
  - intros [-> |[-> |[-> | ->]]]; [exists 0|exists 1|exists 2|exists 3]; lia.
  - exists 3. lia.
  - intros [_ H]. by apply IH.
  - intros Hv%valid_fields. apply max_align_spec. auto.
  - intros Hv%valid_fields. apply max_align_spec. auto.
  - intros [Ha Ht]. apply pow2_max; auto.
Qed.

Lemma align_pos t : valid t -> 0 < align_of t.
Proof. intros. by apply pow2_pos, align_pow2. Qed.

(** Where a struct ends before it is padded *)
Definition end_of (o : Z) (fs : list (string * ctype)) : Z :=
  fold_left (fun o f => round_up o (align_of f.2) + size_of f.2) fs o.

(** What [place] gives a field: its name, an offset that its alignment divides, and room
    up to where the next field begins. *)
Inductive placed : Z -> list (string * ctype) -> list (string * Z) -> Z -> Prop :=
| placed_nil o : placed o [] [] o
| placed_cons o o' t name fs l e :
    o <= o' -> (align_of t | o') -> placed (o' + size_of t) fs l e ->
    placed o ((name, t) :: fs) ((name, o') :: l) e.

Lemma place_placed fs o : Forall (fun f => valid f.2) fs -> placed o fs (place o fs) (end_of o fs).
Proof.
  intros Hv. revert o. induction Hv as [|[name t] fs Ht _ IH]; intros o; [constructor|].
  destruct (round_up_spec o (align_of t) (align_pos t Ht)) as [Hr Hd].
  cbn [place end_of fold_left snd]. econstructor; [lia|done|apply IH].
Qed.

Lemma placed_end o fs l e :
  placed o fs l e -> Forall (fun f => 0 <= size_of f.2) fs -> o <= e.
Proof. induction 1; [done|]. intros [Hs Hf]%Forall_cons. cbn in Hs. specialize (IHplaced Hf). lia. Qed.

Lemma max_size_nonneg (fs : list (string * ctype)) :
  0 <= fold_right (fun f s => Z.max (size_of f.2) s) 0 fs.
Proof. induction fs; cbn; lia. Qed.

(** A size is a multiple of the alignment, so that arrays need no padding. *)
Lemma size_spec t : valid t -> 0 <= size_of t /\ (align_of t | size_of t).
Proof.
  induction t as [n| |t n IH|fs IH|fs IH|a t IH] using ctype_fields_ind;
    intros Hv; pose proof (align_pos _ Hv) as Ha; cbn [valid align_of size_of] in *.
  - split; [lia|done].
  - split; [lia|done].
  - destruct Hv as [Hn Ht]. destruct (IH Ht). split; [nia|by apply Z.divide_mul_r].
  - apply valid_fields in Hv. fold (end_of 0 fs). pose proof (placed_end _ _ _ _ (place_placed fs 0 Hv)) as He.
    destruct (round_up_spec (end_of 0 fs) _ Ha) as [Hr Hd]. split; [|done].
    assert (0 <= end_of 0 fs); [|lia]. apply He. clear -IH Hv.
    induction IH; [done|]. apply Forall_cons in Hv as [Hx Hv]. constructor; [by apply H|auto].
  - destruct (round_up_spec (fold_right (fun f s => Z.max (size_of f.2) s) 0 fs) _ Ha) as [Hr Hd].
    pose proof (max_size_nonneg fs). split; [lia|done].
  - destruct Hv as [_ Ht]. destruct (IH Ht). destruct (round_up_spec (size_of t) _ Ha). split; [lia|done].
Qed.

(** The fields of a struct lie one behind the other inside of it, each at a multiple of its
    alignment, which divides the alignment of the struct: wherever a struct is put at a
    multiple of its own alignment, its fields are aligned and do not overlap. *)
Theorem layout_sound fs (Hv : valid (Struct fs)) :
  placed 0 fs (offsets (Struct fs)) (end_of 0 fs) /\ 0 <= end_of 0 fs <= size_of (Struct fs) /\
  (align_of (Struct fs) | size_of (Struct fs)) /\
  Forall (fun f => 0 <= size_of f.2 /\ (align_of f.2 | align_of (Struct fs))) fs.
Proof.
  pose proof (size_spec _ Hv) as [_ Hd]. pose proof (align_pos _ Hv) as Ha.
  cbn [valid] in Hv. apply valid_fields in Hv. pose proof (place_placed fs 0 Hv) as Hp.
  assert (Forall (fun f => 0 <= size_of f.2) fs) as Hs.
  { apply (Forall_impl _ _ _ Hv). intros f Hf. by apply size_spec. }
  split_and!; [done|by eapply placed_end|cbn; apply round_up_spec; exact Ha|done|].
  apply Forall_and. split; [done|]. apply max_align_spec.
  apply (Forall_impl _ _ _ Hv). intros f. apply align_pow2.
Qed.

(** *** What the layout depends on: the sizes and alignments of the fields *)
Definition same_shape (t u : ctype) : Prop := size_of t = size_of u /\ align_of t = align_of u.
#[export] Instance same_shape_equiv : Equivalence same_shape.
Proof. split; [by split| |]; unfold same_shape; [intros ???|intros ?????]; intuition congruence. Qed.

Definition same_field (f g : string * ctype) : Prop := f.1 = g.1 /\ same_shape f.2 g.2.

Lemma place_shape fs gs o : Forall2 same_field fs gs ->
  place o fs = place o gs /\ end_of o fs = end_of o gs.
Proof.
  intros H. revert o. induction H as [|[n t] [m u] fs gs [Hn [Hs Ha]] _ IH]; intros o; [done|].
  cbn in *. subst m. rewrite Hs, Ha. destruct (IH (round_up o (align_of u) + size_of u)) as [-> E].
  split; [done|]. exact E.
Qed.

Lemma max_align_shape fs gs : Forall2 same_field fs gs -> max_align fs = max_align gs.
Proof. induction 1 as [|f g fs gs [_ [_ Ha]] _ IH]; [done|]. cbn. by rewrite Ha, IH. Qed.

Lemma struct_shape fs gs : Forall2 same_field fs gs ->
  same_shape (Struct fs) (Struct gs) /\ offsets (Struct fs) = offsets (Struct gs).
Proof.
  intros H. destruct (place_shape fs gs 0 H) as [Hp He]. pose proof (max_align_shape fs gs H) as Ha.
  split; [|done]. split; cbn [size_of align_of]; [|done]. fold (end_of 0 fs) (end_of 0 gs). by rewrite He, Ha.
Qed.

(** ** The structures of ngtcp2 on each platform *)

Lemma passes_shape t u c :
  same_shape t u -> offsets t = offsets u -> passes t c = passes u c.
Proof. unfold passes. by intros [-> ->] ->. Qed.

Definition all_pass (l : list (ctype * checks)) : bool := forallb (fun c => passes c.1 c.2) l.

(** A platform whose addresses are as large and aligned as those that bindings.rs has. *)
Definition like_macos (p : Platform) : Prop :=
  same_shape (@p_sockaddr_in p) sockaddr_in /\ same_shape (@p_sockaddr_in6 p) sockaddr_in6 /\
  size_of (@p_sockaddr p) <= 28 /\ align_of (@p_sockaddr p) <= 4.

Lemma linux_like_macos : like_macos linux.
Proof. by vm_compute. Qed.

Section portable.
Context (p : Platform) (Hp : like_macos p).

Lemma union_shape : same_shape (@ngtcp2_sockaddr_union p) (@ngtcp2_sockaddr_union macos).
Proof.
  destruct Hp as ([Hs Ha] & [Hs6 Ha6] & Hsz & Hal). unfold same_shape, ngtcp2_sockaddr_union.
  cbn [size_of align_of fold_right snd]. rewrite Hs, Ha, Hs6, Ha6.
  assert (Z.max (size_of sockaddr_in) (Z.max (size_of sockaddr_in6) 0) = 28) as -> by done.
  assert (Z.max (align_of sockaddr_in) (Z.max (align_of sockaddr_in6) 1) = 4) as -> by done.
  by rewrite !Z.max_r by (done || lia).
Qed.

Lemma preferred_addr_shape :
  same_shape (@ngtcp2_preferred_addr p) (@ngtcp2_preferred_addr macos) /\
  offsets (@ngtcp2_preferred_addr p) = offsets (@ngtcp2_preferred_addr macos).
Proof. destruct Hp as (H4 & H6 & _). apply struct_shape. repeat constructor; cbn; done || apply H4 || apply H6. Qed.

(** A structure whose fields have the same shapes *)
Ltac same_fields :=
  apply struct_shape; repeat constructor; cbn [fst snd];
  first [reflexivity | apply preferred_addr_shape | apply union_shape].

Lemma transport_params_shape :
  same_shape (@ngtcp2_transport_params p) (@ngtcp2_transport_params macos) /\
  offsets (@ngtcp2_transport_params p) = offsets (@ngtcp2_transport_params macos).
Proof. same_fields. Qed.

Lemma path_storage_shape :
  same_shape (@ngtcp2_path_storage p) (@ngtcp2_path_storage macos) /\
  offsets (@ngtcp2_path_storage p) = offsets (@ngtcp2_path_storage macos).
Proof. same_fields. Qed.

Lemma cid_token_shape :
  (same_shape (@ngtcp2_cid_token p) (@ngtcp2_cid_token macos) /\
   offsets (@ngtcp2_cid_token p) = offsets (@ngtcp2_cid_token macos)) /\
  same_shape (@ngtcp2_cid_token2 p) (@ngtcp2_cid_token2 macos) /\
  offsets (@ngtcp2_cid_token2 p) = offsets (@ngtcp2_cid_token2 macos).
Proof.
  split; (apply struct_shape; repeat constructor; cbn [fst snd];
    first [reflexivity | apply path_storage_shape]).
Qed.
End portable.

(** C37: the assertions of bindings.rs about sizes, alignments and offsets hold of its
    structures, also where its [sockaddr] structs are replaced by those of another platform,
    such as Linux, that are as large and aligned: every other field of a structure of ngtcp2
    is where the C library has it, although bindings.rs was made on macOS. *)
Theorem layouts_portable (p : Platform) (Hp : like_macos p) :
  all_pass checked_addresses = true /\ all_pass (@checked p) = true.
Proof.
  split; [by vm_compute|].
  destruct (preferred_addr_shape p Hp) as [S1 O1], (transport_params_shape p Hp) as [S2 O2],
    (path_storage_shape p Hp) as [S3 O3], (cid_token_shape p Hp) as [[S4 O4] [S5 O5]].
  pose proof (union_shape p Hp) as S6. unfold all_pass, checked. cbn [forallb fst snd].
  rewrite (passes_shape _ _ _ S1 O1), (passes_shape _ _ _ S2 O2), (passes_shape _ _ _ S3 O3),
    (passes_shape _ _ _ S4 O4), (passes_shape _ _ _ S5 O5), (passes_shape _ _ _ S6 eq_refl).
  by vm_compute.
Qed.

Lemma layouts_portable_witness : like_macos linux /\ all_pass (@checked linux) = true.
Proof.
  split; [apply linux_like_macos|]. exact (proj2 (layouts_portable linux linux_like_macos)).
Defined.

(** ** Addresses in memory *)

(** The parts of an address are in the fields of the [sockaddr] of Linux; [flow] and
    [scope] as far as the address has them. *)
Definition holds_v4 (mem ip : bytes) (port : Z) : Prop :=
  let f name := field (@p_sockaddr_in linux) name mem in
  f "sin_family"%string = Some (le_bytes 2 AF_INET) /\ f "sin_port"%string = Some (be_bytes 2 port) /\
  f "sin_addr"%string = Some ip.
Definition holds_v6 (mem ip : bytes) (port flow scope : Z) : Prop :=
  let f name := field (@p_sockaddr_in6 linux) name mem in
  f "sin6_family"%string = Some (le_bytes 2 AF_INET6) /\ f "sin6_port"%string = Some (be_bytes 2 port) /\
  f "sin6_flowinfo"%string = Some (le_bytes 4 flow) /\ f "sin6_addr"%string = Some ip /\
  f "sin6_scope_id"%string = Some (le_bytes 4 scope).
Definition address_in (mem : bytes) (addr : SocketAddr) : Prop :=
  match addr with
  | SockV4 ip port => holds_v4 mem ip port
  | SockV6 ip port flow scope => holds_v6 mem ip port flow scope
  end.

Lemma holds_v4_intro ip port rest : slen ip = 4 ->
  holds_v4 (le_bytes 2 AF_INET ++ be_bytes 2 port ++ ip ++ rest) ip port.
Proof.
  intros Hip. unfold holds_v4, field. cbn -[slice le_bytes be_bytes]. split_and!.
  - apply (slice_at _ 0 2 [] _ (be_bytes 2 port ++ ip ++ rest)); done || app_eq.
  - apply (slice_at _ 2 4 (le_bytes 2 AF_INET) _ (ip ++ rest)); done || app_eq.
  - apply (slice_at _ 4 8 (le_bytes 2 AF_INET ++ be_bytes 2 port) _ rest);
      rewrite ?Hip; done || app_eq.
Qed.

Lemma holds_v6_intro ip port flow scope rest : slen ip = 16 ->
  holds_v6 (le_bytes 2 AF_INET6 ++ be_bytes 2 port ++ le_bytes 4 flow ++ ip ++ le_bytes 4 scope ++ rest)
    ip port flow scope.
Proof.
  intros Hip. unfold holds_v6, field. cbn -[slice le_bytes be_bytes].
  set (a := le_bytes 2 AF_INET6). set (b := be_bytes 2 port). set (c := le_bytes 4 flow).
  set (d := le_bytes 4 scope). split_and!.
  - apply (slice_at _ 0 2 [] _ (b ++ c ++ ip ++ d ++ rest)); done || app_eq.
  - apply (slice_at _ 2 4 a _ (c ++ ip ++ d ++ rest)); done || app_eq.
  - apply (slice_at _ 4 8 (a ++ b) _ (ip ++ d ++ rest)); done || app_eq.
  - apply (slice_at _ 8 24 (a ++ b ++ c) _ (d ++ rest)); rewrite ?Hip; done || app_eq.
  - apply (slice_at _ 24 28 (a ++ b ++ c ++ ip) _ rest); [app_eq| |]; rewrite !slen_app, Hip; done.
Qed.

Lemma slen_zero_extended n l : slen l <= n -> slen (zero_extended n l) = n.
Proof.
  intros H. unfold zero_extended. rewrite slen_app. pose proof (slen_nonneg l).
  unfold slen at 2. rewrite length_replicate. lia.
Qed.

(** Addresses are written where the C library reads them: the parts of an address that is
    handed over in a path, or announced as the preferred address, are in the fields of the
    [sockaddr] of Linux. The flow and the scope of a preferred address are 0. *)
Theorem address_in_place (addr : SocketAddr) (Haddr : addr_ok addr) :
  address_in (sockaddr_to_raw addr).1 addr /\
  forall p cid token p', Params.with_preferred_address p cid addr token = Ret p' ->
    let pa := Params.preferred_addr p' in
    match addr with
    | SockV4 ip port =>
        address_in (Params.pa_ipv4 pa) addr /\
        slen (Params.pa_ipv4 pa) = size_of (@p_sockaddr_in linux)
    | SockV6 ip port _ _ =>
        address_in (Params.pa_ipv6 pa) (SockV6 ip port 0 0) /\
        slen (Params.pa_ipv6 pa) = size_of (@p_sockaddr_in6 linux)
    end.
Proof.
  destruct addr as [ip port|ip port flow scope]; cbn [addr_ok sockaddr_to_raw fst] in *;
    destruct Haddr as (_ & Hip & _).
  - split; [by apply holds_v4_intro|]. intros p cid token p'. unfold Params.with_preferred_address.
    destruct (Params.write_cid _ _); [|discriminate].
    remember (zero_extended sizeof_sockaddr_in _) as mem eqn:E. intros [= <-].
    cbn -[address_in slen]. subst mem. split; [by apply holds_v4_intro|].
    etrans; [apply slen_zero_extended|done].
    by rewrite slen_app, slen_app, slen_le_bytes, slen_be_bytes, Hip.
  - split.
    { cbn [address_in]. unfold zero_extended. rewrite <- !app_assoc. by apply holds_v6_intro. }
    intros p cid token p'. unfold Params.with_preferred_address.
    destruct (Params.write_cid _ _); [|discriminate].
    remember (zero_extended sizeof_sockaddr_in6 _) as mem eqn:E. intros [= <-].
    cbn -[address_in slen]. subst mem. split.
    + cbn [address_in]. unfold zero_extended.
      rewrite slen_app, slen_app, slen_app, slen_le_bytes, slen_be_bytes, slen_le_bytes, Hip, <- !app_assoc.
      exact (holds_v6_intro ip port 0 0 [] Hip).
    + etrans; [apply slen_zero_extended|done].
      by rewrite slen_app, slen_app, slen_app, slen_le_bytes, slen_be_bytes, slen_le_bytes, Hip.
Qed.

Lemma address_in_place_witness :
  let addr := SockV4 [192; 0; 2; 1] 4433 in
  field (@p_sockaddr_in linux) "sin_port" (sockaddr_to_raw addr).1 = Some [17; 81].
Proof.
  intros addr. assert (addr_ok addr) as H by (cbn; split; [solve_bytes|split; [done|lia]]).
  exact (proj1 (proj2 (proj1 (address_in_place addr H)))).
Defined.

(** Read through the structs of bindings.rs the family would be the wrong byte. *)
Example family_of_macos :
  field sockaddr_in "sin_family" (sockaddr_to_raw (SockV4 [192; 0; 2; 1] 4433)).1 = Some [0].
Proof. by vm_compute. Qed.

(** ** Constants *)

Definition constants : list (string * Z) :=
  version_constants ++ error_constants ++ protocol_constants ++ flag_constants ++
  packet_type_constants ++ cc_algo_constants ++ token_type_constants ++
  encryption_level_constants ++ ccerr_type_constants.

(** What the rest of the development writes for a constant of ngtcp2 *)
Definition used : list (string * Z) :=
  [("NGTCP2_ERR_INVALID_STATE", Errors.NGTCP2_ERR_INVALID_STATE);
   ("NGTCP2_ERR_STREAM_DATA_BLOCKED", Errors.NGTCP2_ERR_STREAM_DATA_BLOCKED);
   ("NGTCP2_ERR_STREAM_SHUT_WR", Errors.NGTCP2_ERR_STREAM_SHUT_WR);
   ("NGTCP2_ERR_CLOSING", Errors.NGTCP2_ERR_CLOSING);
   ("NGTCP2_ERR_DRAINING", Errors.NGTCP2_ERR_DRAINING);
   ("NGTCP2_ERR_DISCARD_PKT", Errors.NGTCP2_ERR_DISCARD_PKT);
   ("NGTCP2_ERR_WRITE_MORE", Errors.NGTCP2_ERR_WRITE_MORE);
   ("NGTCP2_ERR_RETRY", Errors.NGTCP2_ERR_RETRY);
   ("NGTCP2_ERR_DROP_CONN", Errors.NGTCP2_ERR_DROP_CONN);
   ("NGTCP2_ERR_VERSION_NEGOTIATION", Errors.NGTCP2_ERR_VERSION_NEGOTIATION);
   ("NGTCP2_ERR_HANDSHAKE_TIMEOUT", Errors.NGTCP2_ERR_HANDSHAKE_TIMEOUT);
   ("NGTCP2_ERR_IDLE_CLOSE", Errors.NGTCP2_ERR_IDLE_CLOSE);
   ("NGTCP2_ERR_CALLBACK_FAILURE", Errors.NGTCP2_ERR_CALLBACK_FAILURE);
   ("NGTCP2_STREAM_CLOSE2_FLAG_RX_APP_ERROR_CODE_SET", Callbacks.NGTCP2_STREAM_CLOSE2_FLAG_RX);
   ("NGTCP2_STREAM_CLOSE2_FLAG_TX_APP_ERROR_CODE_SET", Callbacks.NGTCP2_STREAM_CLOSE2_FLAG_TX);
   ("NGTCP2_STREAM_DATA_FLAG_FIN", Callbacks.NGTCP2_STREAM_DATA_FLAG_FIN);
   ("NGTCP2_PATH_VALIDATION_RESULT_SUCCESS", Callbacks.NGTCP2_PATH_VALIDATION_RESULT_SUCCESS);
   ("NGTCP2_CCERR_TYPE_APPLICATION", Conn.NGTCP2_CCERR_TYPE_APPLICATION);
   ("NGTCP2_CCERR_TYPE_IDLE_CLOSE", Conn.NGTCP2_CCERR_TYPE_IDLE_CLOSE);
   ("NGTCP2_WRITE_STREAM_FLAG_MORE", Conn.NGTCP2_WRITE_STREAM_FLAG_MORE);
   ("NGTCP2_WRITE_STREAM_FLAG_FIN", Conn.NGTCP2_WRITE_STREAM_FLAG_FIN);
   ("NGTCP2_SHUT_STREAM_FLAG_FLUSH", Conn.NGTCP2_SHUT_STREAM_FLAG_FLUSH);
   ("NGTCP2_CC_ALGO_RENO", Params.NGTCP2_CC_ALGO_RENO);
   ("NGTCP2_CC_ALGO_CUBIC", Params.NGTCP2_CC_ALGO_CUBIC);
   ("NGTCP2_CC_ALGO_BBR", Params.NGTCP2_CC_ALGO_BBR);
   ("NGTCP2_MAX_UDP_PAYLOAD_SIZE", CrateRoot.MIN_INITIAL_DATAGRAM_SIZE);
   ("NGTCP2_MIN_INITIAL_DCIDLEN", CrateRoot.MIN_INITIAL_DCIDLEN);
   ("NGTCP2_STATELESS_RESET_TOKENLEN", Tokens.STATELESS_RESET_TOKEN_LEN);
   ("NGTCP2_MIN_STATELESS_RESET_RANDLEN", Tokens.MIN_RANDOM_LEN);
   ("NGTCP2_CRYPTO_TOKEN_MAGIC_RETRY2", Tokens.NGTCP2_CRYPTO_TOKEN_MAGIC_RETRY2);
   ("NGTCP2_CRYPTO_TOKEN_MAGIC_REGULAR", Tokens.NGTCP2_CRYPTO_TOKEN_MAGIC_REGULAR);
   ("NGTCP2_CRYPTO_ERR_UNREADABLE_TOKEN", Tokens.NGTCP2_CRYPTO_ERR_UNREADABLE_TOKEN);
   ("NGTCP2_CRYPTO_ERR_VERIFY_TOKEN", Tokens.NGTCP2_CRYPTO_ERR_VERIFY_TOKEN);
   ("NGTCP2_MAX_CIDLEN", Types.NGTCP2_MAX_CIDLEN);
   ("NGTCP2_MIN_CIDLEN", Types.NGTCP2_MIN_CIDLEN);
   ("NGTCP2_AF_INET", Types.AF_INET)]%string.

(** Every constant of the development is the one of bindings.rs, where it is declared once;
    [AF_INET6], which the crates take from libc, is not: bindings.rs has that of macOS. *)
Theorem constants_agree :
  Forall (fun c => filter (fun d => d.1 = c.1) constants = [c]) used /\
  find_field "NGTCP2_AF_INET6" constants = Some 30 /\ Types.AF_INET6 <> 30.
Proof. split; [|done]. by apply (bool_decide_unpack (Forall _ used)); vm_compute. Qed.
End Bindings.
