(* ===== verification/CallbackTables.v ===== *)
(** * The tables of callbacks (conn.rs)

    Which function of the crate, or of ngtcp2_crypto, is in which field of
    [ngtcp2_callbacks]. [Callbacks.on_callback] says what the functions of the crate do; here
    is that ngtcp2 reaches them, on clients and on servers. *)
From S2P Require Import Prelude Callbacks Bindings.
Import Callbacks.

Module CallbackTables.
Local Open Scope string_scope.

Inductive handler :=
| Crypto (name : string)
| Ours (name : string).
Notation table := (gmap string handler).

(** Assignments to fields, one after the other *)
Definition assign (l : list (string * handler)) (callbacks : table) : table :=
  foldl (fun callbacks a => <[a.1 := a.2]> callbacks) callbacks l.

Definition set_application_callbacks : table -> table := assign [
  ("handshake_completed", Ours "handshake_completed_callback");
  ("handshake_confirmed", Ours "handshake_confirmed_callback");
  ("tls_early_data_rejected", Ours "tls_early_data_rejected_callback");
  ("stream_open", Ours "stream_open_callback");
  ("stream_close2", Ours "stream_close_callback");
  ("stream_reset", Ours "stream_reset_callback");
  ("recv_stop_sending", Ours "recv_stop_sending_callback");
  ("extend_max_stream_data", Ours "extend_max_stream_data_callback");
  ("extend_max_local_streams_bidi", Ours "extend_max_local_streams_bidi_callback");
  ("extend_max_local_streams_uni", Ours "extend_max_local_streams_uni_callback");
  ("recv_stream_data", Ours "recv_stream_data_callback");
  ("recv_new_token", Ours "recv_new_token_callback");
  ("acked_stream_data_offset", Ours "acked_stream_data_offset_callback");
  ("recv_datagram", Ours "recv_datagram_callback");
  ("recv_stateless_reset2", Ours "recv_stateless_reset_callback");
  ("remove_connection_id", Ours "remove_connection_id_callback");
  ("path_validation", Ours "path_validation_callback");
  ("select_preferred_addr", Ours "select_preferred_addr_callback")].

Definition create_client_callbacks : table :=
  let callbacks := assign [
    ("client_initial", Crypto "ngtcp2_crypto_client_initial_cb");
    ("recv_crypto_data", Crypto "ngtcp2_crypto_recv_crypto_data_cb");
    ("encrypt", Crypto "ngtcp2_crypto_encrypt_cb");
    ("decrypt", Crypto "ngtcp2_crypto_decrypt_cb");
    ("hp_mask", Crypto "ngtcp2_crypto_hp_mask_cb");
    ("recv_retry", Crypto "ngtcp2_crypto_recv_retry_cb");
    ("update_key", Crypto "ngtcp2_crypto_update_key_cb");
    ("delete_crypto_aead_ctx", Crypto "ngtcp2_crypto_delete_crypto_aead_ctx_cb");
    ("delete_crypto_cipher_ctx", Crypto "ngtcp2_crypto_delete_crypto_cipher_ctx_cb");
    ("get_path_challenge_data", Crypto "ngtcp2_crypto_get_path_challenge_data_cb");
    ("version_negotiation", Crypto "ngtcp2_crypto_version_negotiation_cb")] ∅ in
  let callbacks := set_application_callbacks callbacks in
  assign [
    ("rand", Ours "rand_callback");
    ("get_new_connection_id", Ours "get_new_connection_id_callback")] callbacks.

Definition create_server_callbacks : table :=
  let callbacks := assign [
    ("recv_client_initial", Crypto "ngtcp2_crypto_recv_client_initial_cb");
    ("recv_crypto_data", Crypto "ngtcp2_crypto_recv_crypto_data_cb");
    ("encrypt", Crypto "ngtcp2_crypto_encrypt_cb");
    ("decrypt", Crypto "ngtcp2_crypto_decrypt_cb");
    ("hp_mask", Crypto "ngtcp2_crypto_hp_mask_cb");
    ("update_key", Crypto "ngtcp2_crypto_update_key_cb");
    ("delete_crypto_aead_ctx", Crypto "ngtcp2_crypto_delete_crypto_aead_ctx_cb");
    ("delete_crypto_cipher_ctx", Crypto "ngtcp2_crypto_delete_crypto_cipher_ctx_cb");
    ("get_path_challenge_data", Crypto "ngtcp2_crypto_get_path_challenge_data_cb");
    ("version_negotiation", Crypto "ngtcp2_crypto_version_negotiation_cb")] ∅ in
  let callbacks := set_application_callbacks callbacks in
  assign [
    ("rand", Ours "rand_callback");
    ("get_new_connection_id", Ours "get_new_connection_id_callback")] callbacks.

(** ** What ngtcp2 calls

    The field through which ngtcp2 makes a call, and the function of the crate whose effect
    [on_callback] gives it. The qlog callback is in the settings. *)
Definition slot_of (cb : callback) : option (string * string) :=
  match cb with
  | CbSelectPreferredAddr _ _ => Some ("select_preferred_addr", "select_preferred_addr_callback")
  | CbPathValidation _ _ => Some ("path_validation", "path_validation_callback")
  | CbRemoveConnectionId _ => Some ("remove_connection_id", "remove_connection_id_callback")
  | CbRand _ _ => Some ("rand", "rand_callback")
  | CbGetNewConnectionId _ _ _ => Some ("get_new_connection_id", "get_new_connection_id_callback")
  | CbHandshakeCompleted _ _ => Some ("handshake_completed", "handshake_completed_callback")
  | CbTlsEarlyDataRejected => Some ("tls_early_data_rejected", "tls_early_data_rejected_callback")
  | CbHandshakeConfirmed => Some ("handshake_confirmed", "handshake_confirmed_callback")
  | CbStreamOpen _ => Some ("stream_open", "stream_open_callback")
  | CbStreamClose _ _ _ _ => Some ("stream_close2", "stream_close_callback")
  | CbQlogWrite _ => None
  | CbRecvNewToken _ _ => Some ("recv_new_token", "recv_new_token_callback")
  | CbAckedStreamDataOffset _ _ _ =>
      Some ("acked_stream_data_offset", "acked_stream_data_offset_callback")
  | CbStreamReset _ _ _ => Some ("stream_reset", "stream_reset_callback")
  | CbRecvStopSending _ _ => Some ("recv_stop_sending", "recv_stop_sending_callback")
  | CbRecvStreamData _ _ _ _ _ => Some ("recv_stream_data", "recv_stream_data_callback")
  | CbExtendMaxStreamData _ _ => Some ("extend_max_stream_data", "extend_max_stream_data_callback")
  | CbExtendMaxLocalStreamsBidi _ =>
      Some ("extend_max_local_streams_bidi", "extend_max_local_streams_bidi_callback")
  | CbExtendMaxLocalStreamsUni _ =>
      Some ("extend_max_local_streams_uni", "extend_max_local_streams_uni_callback")
  | CbRecvDatagram _ _ => Some ("recv_datagram", "recv_datagram_callback")
  | CbRecvStatelessReset => Some ("recv_stateless_reset2", "recv_stateless_reset_callback")
  end.

(** The fields that the documentation of ngtcp2 wants set, on both sides, on one of them,
    and in one of two versions. *)
Definition required : list string :=
  ["recv_crypto_data"; "encrypt"; "decrypt"; "hp_mask"; "rand"; "update_key";
   "delete_crypto_aead_ctx"; "delete_crypto_cipher_ctx"; "version_negotiation"].
Definition required_client : list string := ["client_initial"; "recv_retry"].
Definition required_server : list string := ["recv_client_initial"].
Definition required_either : list (string * string) :=
  [("get_new_connection_id", "get_new_connection_id2");
   ("get_path_challenge_data", "get_path_challenge_data2")].

Definition is_set (t : table) (slot : string) : bool := bool_decide (is_Some (t !! slot)).

(** Both tables are complete: each callback of the crate is reached through its field, every
    field is one of [ngtcp2_callbacks], those that ngtcp2 needs are set, and a side has no
    callback that only the other side needs. *)
Theorem callback_tables_complete :
  (forall cb slot f, slot_of cb = Some (slot, f) ->
     create_client_callbacks !! slot = Some (Ours f) /\
     create_server_callbacks !! slot = Some (Ours f)) /\
  (forall slot, is_set create_client_callbacks slot || is_set create_server_callbacks slot = true ->
     exists t, In (slot, t) (Bindings.fields Bindings.ngtcp2_callbacks)) /\
  forallb (is_set create_client_callbacks) (required ++ required_client) &&
  forallb (is_set create_server_callbacks) (required ++ required_server) &&
  forallb (fun r => is_set create_client_callbacks r.1 || is_set create_client_callbacks r.2) required_either &&
  forallb (fun r => is_set create_server_callbacks r.1 || is_set create_server_callbacks r.2) required_either &&
  negb (existsb (is_set create_client_callbacks) required_server) &&
  negb (existsb (is_set create_server_callbacks) required_client) = true.
Proof.
  split; [|split].
  - intros [] slot f; cbn; intros [=]; subst; by vm_compute.
  - assert (forall t : table, map_Forall (fun slot _ =>
      existsb (fun f => String.eqb f.1 slot) (Bindings.fields Bindings.ngtcp2_callbacks) = true) t ->
      forall slot, is_set t slot = true ->
      exists ty, In (slot, ty) (Bindings.fields Bindings.ngtcp2_callbacks)) as Hin.
    { intros t Ht slot [h Hs]%bool_decide_eq_true. apply Ht, existsb_exists in Hs.
      destruct Hs as ([n ty] & Hi & <-%String.eqb_eq). by exists ty. }
    intros slot [H|H]%orb_true_iff; revert H; apply Hin;
      apply (bool_decide_unpack (map_Forall _ _)); by vm_compute.
  - by vm_compute.
Qed.
End CallbackTables.
