(* ===== verification/Crypto.v ===== *)
(** * TLS (src/ngtcp2/src/crypto.rs)

    ALPN encoding and selection, the slot for session tickets, and the contexts and
    sessions. The functions of aws-lc are operations on its two structures; a result
    of 1 means success. At the end the sessions implement the interface [Conn.Tls] that
    the constructors of a connection use. *)
From S2P Require Import Prelude Types Errors Tokens InFlight Callbacks Conn.
Import Types Errors.

Module Crypto.

(** ** ALPN *)

(** The length of a protocol is cut to a byte. *)
Fixpoint encode_alpn (alpn : list bytes) : bytes :=
  match alpn with
  | [] => []
  | proto :: alpn => as_u8 (slen proto) :: proto ++ encode_alpn alpn
  end.

Definition SSL_TLSEXT_ERR_OK : Z := 0.
Definition SSL_TLSEXT_ERR_NOACK : Z := 3.

(** One turn of the two [while] loops: the protocol at [pos] and the position after it;
    [None] ends the loop. *)
Definition next_proto (l : bytes) (pos : Z) : option (bytes * Z) :=
  if pos <? slen l then
    let len := default 0 (get l pos) in
    let pos := pos + 1 in
    if slen l <? pos + len then None
    else
      match slice l pos (pos + len) with
      | Some proto => Some (proto, pos + len)
      | None => None
      end
  else None.

(** The inner loop: where [server_proto] is in the client's list. *)
Fixpoint find_client (fuel : nat) (server_proto client_alpn : bytes) (pos : Z)
    : option (Z * Z) :=
  match fuel with
  | O => None
  | S fuel =>
      match next_proto client_alpn pos with
      | None => None
      | Some (client_proto, pos) =>
          if bool_decide (server_proto = client_proto)
          then Some (pos - slen client_proto, slen client_proto)
          else find_client fuel server_proto client_alpn pos
      end
  end.

(** The outer loop. *)
Fixpoint select_loop (fuel : nat) (server_alpn client_alpn : bytes) (pos : Z) : option (Z * Z) :=
  match fuel with
  | O => None
  | S fuel =>
      match next_proto server_alpn pos with
      | None => None
      | Some (server_proto, pos) =>
          match find_client (S (length client_alpn)) server_proto client_alpn 0 with
          | Some found => Some found
          | None => select_loop fuel server_alpn client_alpn pos
          end
      end
  end.

(** [alpn_select_callback]: the return value, and the position and length written to
    [out] and [outlen]. Without an argument nothing is selected. *)
Definition alpn_select_callback (arg : option bytes) (client_alpn : bytes) : Z * option (Z * Z) :=
  match arg with
  | None => (SSL_TLSEXT_ERR_NOACK, None)
  | Some server_alpn =>
      match select_loop (S (length server_alpn)) server_alpn client_alpn 0 with
      | Some (pos, len) => (SSL_TLSEXT_ERR_OK, Some (pos, as_u8 len))
      | None => (SSL_TLSEXT_ERR_NOACK, None)
      end
  end.

(** ** Lemmas on ALPN *)

Definition proto_ok (p : bytes) : Prop := slen p < 256.

Lemma get_app_cons (l r : bytes) x : get (l ++ x :: r) (slen l) = Some x.
Proof.
  unfold get. pose proof (slen_nonneg l). destruct (Z.ltb_spec (slen l) 0); [lia|].
  unfold slen. by rewrite Nat2Z.id, lookup_app_r, Nat.sub_diag by lia.
Qed.

Lemma slice_app (l m r : bytes) : slice (l ++ m ++ r) (slen l) (slen l + slen m) = Some m.
Proof.
  unfold slice. rewrite !slen_app. pose proof (slen_nonneg l). pose proof (slen_nonneg m).
  pose proof (slen_nonneg r).
  destruct (Z.leb_spec 0 (slen l)), (Z.leb_spec (slen l) (slen l + slen m)),
    (Z.leb_spec (slen l + slen m) (slen l + (slen m + slen r))); try lia. cbn.
  f_equal. replace (slen l + slen m - slen l) with (slen m) by lia. unfold slen.
  by rewrite !Nat2Z.id, drop_app_length, take_app_length.
Qed.

(** At the start of an encoded protocol the loops read it and stop behind it. *)
Lemma next_proto_cons pre p ps :
  proto_ok p ->
  next_proto (pre ++ encode_alpn (p :: ps)) (slen pre) = Some (p, slen pre + 1 + slen p).
Proof.
  intros Hp. unfold next_proto. cbn [encode_alpn]. pose proof (slen_nonneg pre).
  pose proof (slen_nonneg p). pose proof (slen_nonneg (encode_alpn ps)).
  assert (as_u8 (slen p) = slen p) as Hlen by (unfold proto_ok, as_u8 in *; rewrite Z.mod_small; lia).
  rewrite slen_app, slen_cons, slen_app, get_app_cons, Hlen.
  destruct (Z.ltb_spec (slen pre) (slen pre + (1 + (slen p + slen (encode_alpn ps))))); [|lia].
  cbn [default]. unfold id.
  destruct (Z.ltb_spec (slen pre + (1 + (slen p + slen (encode_alpn ps)))) (slen pre + 1 + slen p));
    [lia|].
  replace (pre ++ slen p :: p ++ encode_alpn ps) with ((pre ++ [slen p]) ++ p ++ encode_alpn ps)
    by by rewrite <- app_assoc.
  replace (slen pre + 1) with (slen (pre ++ [slen p])) by by rewrite slen_app.
  by rewrite slice_app.
Qed.

Lemma next_proto_end l : next_proto l (slen l) = None.
Proof. unfold next_proto. by rewrite Z.ltb_irrefl. Qed.

Lemma encode_alpn_app ps qs : encode_alpn (ps ++ qs) = encode_alpn ps ++ encode_alpn qs.
Proof. induction ps as [|p ps IH]; [done|]. cbn. by rewrite IH, <- app_assoc. Qed.

Lemma encode_alpn_step pre p :
  encode_alpn (pre ++ [p]) = encode_alpn pre ++ as_u8 (slen p) :: p.
Proof. rewrite encode_alpn_app. cbn. by rewrite app_nil_r. Qed.

Lemma slen_encode_step pre p :
  slen (encode_alpn pre) + 1 + slen p = slen (encode_alpn (pre ++ [p])).
Proof. rewrite encode_alpn_step, slen_app, slen_cons. lia. Qed.

Lemma length_encode ps : (length ps <= length (encode_alpn ps))%nat.
Proof. induction ps as [|p ps IH]; cbn; [lia|]. rewrite length_app. lia. Qed.

(** The inner loop from the protocols [pre] on: the first occurrence, or none. *)
Lemma find_client_spec fuel p pre cs :
  Forall proto_ok cs -> (length cs < fuel)%nat ->
  match find_client fuel p (encode_alpn (pre ++ cs)) (slen (encode_alpn pre)) with
  | Some (pos, len) => len = slen p /\ exists cs1 cs2, cs = cs1 ++ p :: cs2 /\ p ∉ cs1 /\
      pos = slen (encode_alpn (pre ++ cs1)) + 1
  | None => p ∉ cs
  end.
Proof.
  revert fuel pre. induction cs as [|c cs IH]; intros fuel pre Hok Hf;
    (destruct fuel as [|fuel]; [cbn in Hf; lia|]); cbn [find_client].
  - rewrite app_nil_r, next_proto_end. apply not_elem_of_nil.
  - inversion Hok as [|? ? Hc Hcs]; subst.
    rewrite encode_alpn_app, (next_proto_cons _ _ _ Hc), <- encode_alpn_app, slen_encode_step.
    destruct (bool_decide_reflect (p = c)) as [<-|Hne].
    + split; [done|]. exists [], cs. rewrite app_nil_r. split; [done|]. split; [apply not_elem_of_nil|].
      rewrite <- slen_encode_step. lia.
    + specialize (IH fuel (pre ++ [c]) Hcs). rewrite <- app_assoc in IH. cbn [app] in IH.
      specialize (IH ltac:(cbn in Hf; lia)).
      destruct (find_client _ _ _ _) as [[pos len]|].
      * destruct IH as (Hlen & cs1 & cs2 & -> & Hnot & Hpos). split; [done|].
        exists (c :: cs1), cs2. split; [done|]. split; [by apply not_elem_of_cons|].
        by rewrite Hpos, <- app_assoc.
      * by apply not_elem_of_cons.
Qed.

(** The outer loop from the protocols [pre] on. *)
Lemma select_loop_spec fuel pre ss cs :
  Forall proto_ok ss -> Forall proto_ok cs -> (length ss < fuel)%nat ->
  match select_loop fuel (encode_alpn (pre ++ ss)) (encode_alpn cs) (slen (encode_alpn pre)) with
  | Some (pos, len) => exists p ss1 ss2 cs1 cs2, ss = ss1 ++ p :: ss2 /\
      (forall q, q ∈ ss1 -> q ∉ cs) /\ cs = cs1 ++ p :: cs2 /\ p ∉ cs1 /\
      pos = slen (encode_alpn cs1) + 1 /\ len = slen p
  | None => forall p, p ∈ ss -> p ∉ cs
  end.
Proof.
  intros Hss Hcs. revert fuel pre. induction Hss as [|s ss Hs _ IH]; intros fuel pre Hf;
    (destruct fuel as [|fuel]; [cbn in Hf; lia|]); cbn [select_loop].
  - rewrite app_nil_r, next_proto_end. by intros p ?%elem_of_nil.
  - rewrite encode_alpn_app, (next_proto_cons _ _ _ Hs), <- encode_alpn_app, slen_encode_step.
    pose proof (find_client_spec (S (length (encode_alpn cs))) s [] cs Hcs) as Hfind.
    cbn [app] in Hfind. change (slen (encode_alpn [])) with 0 in Hfind.
    specialize (Hfind ltac:(pose proof (length_encode cs); lia)).
    destruct (find_client _ _ _ _) as [[pos len]|].
    + destruct Hfind as (-> & cs1 & cs2 & -> & Hnot & ->).
      exists s, [], ss, cs1, cs2. split; [done|]. split; [by intros q ?%elem_of_nil|]. done.
    + specialize (IH fuel (pre ++ [s]) ltac:(cbn in Hf; lia)). rewrite <- app_assoc in IH.
      cbn [app] in IH. destruct (select_loop _ _ _ _) as [[pos len]|].
      * destruct IH as (p & ss1 & ss2 & cs1 & cs2 & -> & Hq & Hrest).
        exists p, (s :: ss1), ss2, cs1, cs2. split; [done|]. split; [|done].
        intros q [->|]%elem_of_cons; [done|by apply Hq].
      * intros p [->|]%elem_of_cons; [done|by apply IH].
Qed.

(** ** Properties of ALPN *)

(** C23: the server selects the protocol it prefers: with protocols of less than 256
    bytes the callback picks the first protocol of the server's list that the client
    offers and points at its first occurrence in the client's list; it selects none
    exactly when the two lists share none. *)
Theorem alpn_select_correct (ss cs : list bytes)
    (Hss : Forall proto_ok ss) (Hcs : Forall proto_ok cs) :
  match alpn_select_callback (Some (encode_alpn ss)) (encode_alpn cs) with
  | (rv, Some (pos, len)) => rv = SSL_TLSEXT_ERR_OK /\ exists p ss1 ss2 cs1,
      ss = ss1 ++ p :: ss2 /\ (forall q, q ∈ ss1 -> q ∉ cs) /\ p ∈ cs /\ p ∉ cs1 /\
      encode_alpn cs1 `prefix_of` encode_alpn cs /\ pos = slen (encode_alpn cs1) + 1 /\
      slice (encode_alpn cs) pos (pos + len) = Some p
  | (rv, None) => rv = SSL_TLSEXT_ERR_NOACK /\ forall p, p ∈ ss -> p ∉ cs
  end.
Proof.
  unfold alpn_select_callback.
  pose proof (select_loop_spec (S (length (encode_alpn ss))) [] ss cs Hss Hcs) as H.
  cbn [app] in H. change (slen (encode_alpn [])) with 0 in H.
  specialize (H ltac:(pose proof (length_encode ss); lia)).
  destruct (select_loop _ _ _ _) as [[pos len]|]; [|done].
  destruct H as (p & ss1 & ss2 & cs1 & cs2 & -> & Hq & -> & Hnot & -> & ->).
  split; [done|]. exists p, ss1, ss2, cs1. split; [done|]. split; [done|].
  split; [set_solver|]. split; [done|]. split; [rewrite encode_alpn_app; by eexists|].
  split; [done|]. assert (proto_ok p) as Hp by (apply Forall_app in Hss as [_ Hss]; by inversion Hss).
  pose proof (slen_nonneg p). unfold proto_ok in Hp.
  unfold as_u8. rewrite Z.mod_small by lia.
  replace (encode_alpn (cs1 ++ p :: cs2)) with
    ((encode_alpn cs1 ++ [as_u8 (slen p)]) ++ p ++ encode_alpn cs2).
  - replace (slen (encode_alpn cs1) + 1) with (slen (encode_alpn cs1 ++ [as_u8 (slen p)]))
      by by rewrite slen_app.
    apply slice_app.
  - rewrite encode_alpn_app. cbn. by rewrite <- app_assoc.
Qed.

Lemma alpn_select_correct_witness :
  exists pos len, alpn_select_callback (Some (encode_alpn [[104; 51]; [104; 113]]))
      (encode_alpn [[1]; [104; 113]]) = (0, Some (pos, len)) /\
    slice (encode_alpn [[1]; [104; 113]]) pos (pos + len) = Some [104; 113].
Proof.
  exists 3, 2. split; [reflexivity|].
  assert (Forall proto_ok [[104; 51]; [104; 113]]) as H1 by (repeat constructor).
  assert (Forall proto_ok [[1]; [104; 113]]) as H2 by (repeat constructor).
  destruct (alpn_select_correct _ _ H1 H2) as (_ & p & ss1 & ss2 & cs1 & _ & _ & Hp & _ & _ & _ & H).
  change (slice (encode_alpn [[1]; [104; 113]]) 3 (3 + 2) = Some p) in H. rewrite H.
  vm_compute in H. by injection H as <-.
Defined.

(** The length of a longer protocol is cut: the list no longer holds it. *)
Lemma encode_alpn_truncates p :
  slen p = 256 -> next_proto (encode_alpn [p]) 0 = Some ([], 1).
Proof.
  intros Hp. cbn [encode_alpn]. unfold next_proto. rewrite slen_cons, app_nil_r, Hp.
  assert (slice (0 :: p) 1 1 = Some []) as Hs by (unfold slice; rewrite slen_cons, Hp; reflexivity).
  change (as_u8 256) with 0. change (get (0 :: p) 0) with (Some 0).
  transitivity (match slice (0 :: p) 1 1 with Some proto => Some (proto, 1) | None => None end);
    [reflexivity|by rewrite Hs].
Qed.

(** ** Contexts and sessions *)

(** The functions of aws-lc (and two of ngtcp2_crypto) that the contexts and sessions
    call; [Z] is their return value, [option] a pointer that may be null. *)
Class SslApi := {
  SSL_CTX : Type;
  SSL : Type;
  X509 : Type;
  SSL_SESSION : Type;
  TLS_method_ok : bool;
  SSL_CTX_new : option SSL_CTX;
  configure_client_context : SSL_CTX -> SSL_CTX * Z;
  configure_server_context : SSL_CTX -> SSL_CTX * Z;
  SSL_CTX_set_verify : bool -> SSL_CTX -> SSL_CTX;
  SSL_CTX_set_default_verify_paths : SSL_CTX -> SSL_CTX;
  SSL_CTX_set_alpn_protos : bytes -> SSL_CTX -> SSL_CTX * Z;
  SSL_CTX_set_session_cb : SSL_CTX -> SSL_CTX;
  SSL_CTX_use_certificate_chain_file : string -> SSL_CTX -> SSL_CTX * Z;
  SSL_CTX_use_PrivateKey_file : string -> SSL_CTX -> SSL_CTX * Z;
  SSL_CTX_set_alpn_select_cb : bytes -> SSL_CTX -> SSL_CTX;
  SSL_CTX_set_early_data_enabled : bool -> SSL_CTX -> SSL_CTX;
  BIO_new_mem_buf_ok : string -> bool;
  PEM_read_bio_X509 : string -> option X509;
  SSL_CTX_has_cert_store : SSL_CTX -> bool;
  X509_STORE_add_cert : X509 -> SSL_CTX -> SSL_CTX * Z;
  SSL_new : SSL_CTX -> option SSL;
  SSL_set_accept_state : SSL -> SSL;
  SSL_set_connect_state : SSL -> SSL;
  SSL_set_ex_data : SSL -> SSL * Z;
  SSL_has_param : SSL -> bool;
  SSL_set_tlsext_host_name : option string -> SSL -> SSL * Z;
  X509_VERIFY_PARAM_clear_host : SSL -> SSL * Z;
  SSL_set1_host : string -> SSL -> SSL * Z;
  X509_VERIFY_PARAM_set1_ip : bytes -> SSL -> SSL * Z;
  SSL_set_quic_transport_params : bytes -> SSL -> SSL * Z;
  SSL_get0_alpn_selected : SSL -> option bytes;
  SSL_SESSION_from_bytes : bytes -> SSL -> option SSL_SESSION;
  SSL_SESSION_to_bytes : SSL_SESSION -> Z * option bytes;
  SSL_SESSION_early_data_capable : SSL_SESSION -> Z;
  SSL_set_session : SSL_SESSION -> SSL -> SSL * Z;
  SSL_set_early_data_enabled : SSL -> SSL;
  SSL_in_early_data : SSL -> Z;
  SSL_early_data_accepted : SSL -> Z;
  SSL_set_quic_early_data_context : bytes -> SSL -> SSL * Z }.

(** A string that holds the character with this code. *)
Definition contains (code : nat) (s : string) : bool :=
  existsb (fun c => bool_decide (Ascii.nat_of_ascii c = code)) (String.list_ascii_of_string s).

(** [CString::new] fails on a NUL byte. *)
Definition cstring (s : string) : option string := if contains 0 s then None else Some s.

(** *** Parsing an IP address

    [str::parse::<IpAddr>] of the standard library: a parser takes the characters left
    and returns what it read and what is left then. *)
Section ip.
Notation chars := (list Ascii.ascii).

Definition digit (radix : Z) (c : Ascii.ascii) : option Z :=
  let n := Z.of_nat (Ascii.nat_of_ascii c) in
  let v :=
    if (48 <=? n) && (n <=? 57) then n - 48
    else if (97 <=? n) && (n <=? 122) then n - 87
    else if (65 <=? n) && (n <=? 90) then n - 55 else radix in
  if v <? radix then Some v else None.

Fixpoint read_digits (radix max_digits max : Z) (l : chars) (acc count : Z)
    : option (Z * Z * chars) :=
  match l with
  | c :: l' =>
      match digit radix c with
      | Some v =>
          let acc := acc * radix + v in
          if max <? acc then None
          else if max_digits <? count + 1 then None
          else read_digits radix max_digits max l' acc (count + 1)
      | None => Some (acc, count, l)
      end
  | [] => Some (acc, count, l)
  end.

(** [read_number]; [max] is the largest value of the integer type. *)
Definition read_number (radix max_digits max : Z) (allow_zero_prefix : bool) (l : chars)
    : option (Z * chars) :=
  let leading_zero := match l with c :: _ => bool_decide (Ascii.nat_of_ascii c = 48%nat) | [] => false end in
  match read_digits radix max_digits max l 0 0 with
  | None => None
  | Some (v, count, l) =>
      if count =? 0 then None
      else if negb allow_zero_prefix && leading_zero && (1 <? count) then None
      else Some (v, l)
  end.

Definition read_given_char (code : nat) (l : chars) : option chars :=
  match l with
  | c :: l => if bool_decide (Ascii.nat_of_ascii c = code) then Some l else None
  | [] => None
  end.

(** [read_separator]: the separator comes before every item but the first. *)
Definition read_separator {A} (sep : nat) (index : Z) (inner : chars -> option (A * chars))
    (l : chars) : option (A * chars) :=
  if 0 <? index then
    match read_given_char sep l with Some l => inner l | None => None end
  else inner l.

Fixpoint read_octets (n : nat) (index : Z) (l : chars) : option (bytes * chars) :=
  match n with
  | O => Some ([], l)
  | S n =>
      match read_separator 46 index (read_number 10 3 255 false) l with
      | None => None
      | Some (v, l) =>
          match read_octets n (index + 1) l with
          | None => None
          | Some (vs, l) => Some (v :: vs, l)
          end
      end
  end.
Definition read_ipv4_addr : chars -> option (bytes * chars) := read_octets 4 0.

(** [read_groups] into [n] slots of which the next is number [index]: the bytes of the
    groups, whether they end with an IPv4 address, and what is left. *)
Fixpoint read_groups (n : nat) (index : Z) (l : chars) : bytes * bool * chars :=
  match n with
  | O => ([], false, l)
  | S n =>
      match (if (0 <? n)%nat then read_separator 58 index read_ipv4_addr l else None) with
      | Some (octets, l) => (octets, true, l)
      | None =>
          match read_separator 58 index (read_number 16 4 65535 true) l with
          | None => ([], false, l)
          | Some (g, l) =>
              let '(gs, ipv4, l) := read_groups n (index + 1) l in
              (be_bytes 2 g ++ gs, ipv4, l)
          end
      end
  end.

Definition read_ipv6_addr (l : chars) : option (bytes * chars) :=
  let '(head, head_ipv4, l) := read_groups 8 0 l in
  if slen head =? 16 then Some (head, l)
  else if head_ipv4 then None
  else
    match read_given_char 58 l with
    | None => None
    | Some l =>
        match read_given_char 58 l with
        | None => None
        | Some l =>
            let limit := Z.to_nat (8 - (slen head / 2 + 1)) in
            let '(tail, _, l) := read_groups limit 0 l in
            Some (head ++ repeat 0 (Z.to_nat (16 - slen head - slen tail)) ++ tail, l)
        end
    end.

(** The octets of the address, when the whole string is one. *)
Definition parse_ip (s : string) : option bytes :=
  let l := String.list_ascii_of_string s in
  match (match read_ipv4_addr l with Some r => Some r | None => read_ipv6_addr l end) with
  | Some (octets, []) => Some octets
  | _ => None
  end.

Example parse_ip_v4 : parse_ip "127.0.0.1" = Some [127; 0; 0; 1].
Proof. reflexivity. Qed.
Example parse_ip_v6 : parse_ip "fe80::1:ffff:1.2.3.4" =
  Some [0xfe; 0x80; 0; 0; 0; 0; 0; 0; 0; 1; 0xff; 0xff; 1; 2; 3; 4].
Proof. reflexivity. Qed.
Example parse_ip_none : map parse_ip ["localhost"; "1.2.3"; "01.2.3.4"; "256.1.1.1"; "::1x"; "1::2::3"]%string
  = [None; None; None; None; None; None].
Proof. reflexivity. Qed.
End ip.

Section tls.
Context {ssl_api : SslApi}.

Record TlsContext := mkTlsContext {
  ctx : SSL_CTX; ctx_is_server : bool; ctx_verify_peer : bool;
  alpn_data : option bytes; ctx_accept_early_data : bool }.
#[export] Instance TlsContext_eta : Eta TlsContext := fun c =>
  mkTlsContext (ctx c) (ctx_is_server c) (ctx_verify_peer c) (alpn_data c) (ctx_accept_early_data c).

(** [SessionTicketSlot]: the ticket that came last, until it is taken. *)
Definition SessionTicketSlot : Type := option bytes.
Definition slot_new : SessionTicketSlot := None.
Definition store (ticket : bytes) (slot : SessionTicketSlot) : SessionTicketSlot := Some ticket.
Definition slot_take (slot : SessionTicketSlot) : SessionTicketSlot * option bytes := (None, slot).

Record TlsSession := mkTlsSession {
  ssl : SSL; is_server : bool; peer_ip : option bytes; accept_early_data : bool;
  ticket_slot : option SessionTicketSlot }.
#[export] Instance TlsSession_eta : Eta TlsSession := fun s =>
  mkTlsSession (ssl s) (is_server s) (peer_ip s) (accept_early_data s) (ticket_slot s).

Definition session_to_bytes (session : SSL_SESSION) : option bytes :=
  let '(rv, data) := SSL_SESSION_to_bytes session in
  if negb (rv =? 1) then None else data.

(** [new_session_callback] on the slot of its session *)
Definition new_session_callback (session : SSL_SESSION) (s : TlsSession) : TlsSession :=
  match ticket_slot s with
  | None => s
  | Some slot =>
      match session_to_bytes session with
      | Some b => s <| ticket_slot := Some (store b slot) |>
      | None => s
      end
  end.

(** The calls of [SSL_CTX_free] and of [Box::into_raw] and [Box::from_raw] on the
    protocol list of the callback, as events of [tracked]. *)
Definition SSL_CTX_free : tracked unit := deletes SslCtx.
Definition into_raw (data : bytes) : tracked bytes := (data, [Created AlpnData]).
Definition from_raw (data : bytes) : tracked unit := deletes AlpnData.

(** [Drop] for [TlsContext] *)
Definition TlsContext_drop (c : TlsContext) : tracked unit :=
  match alpn_data c with Some alpn_ptr => from_raw alpn_ptr | None => mret tt end ;;
  SSL_CTX_free.

(** The first half of both constructors. *)
Definition new_ctx (configure : SSL_CTX -> SSL_CTX * Z) (failed : string)
    (k : SSL_CTX -> tracked (result Error TlsContext)) : tracked (result Error TlsContext) :=
  if negb TLS_method_ok then mret (Err (Internal "TLS_method failed"))
  else
    ctx ← creates SslCtx SSL_CTX_new;
    match ctx with
    | None => mret (Err (Internal "SSL_CTX_new failed"))
    | Some ctx =>
        let '(ctx, rv) := configure ctx in
        if negb (rv =? 0) then SSL_CTX_free ;; mret (Err (Internal failed)) else k ctx
    end.

Definition new_client_with_options (alpn : list bytes) (verify_peer : bool)
    : tracked (result Error TlsContext) :=
  new_ctx configure_client_context "ngtcp2_crypto_boringssl_configure_client_context failed"
    (fun ctx =>
      let ctx :=
        if negb verify_peer then SSL_CTX_set_verify false ctx
        else SSL_CTX_set_default_verify_paths (SSL_CTX_set_verify true ctx) in
      let '(ctx, rv) := SSL_CTX_set_alpn_protos (encode_alpn alpn) ctx in
      if negb (rv =? 0) then
        SSL_CTX_free ;; mret (Err (Internal "SSL_CTX_set_alpn_protos failed"))
      else
        let ctx := SSL_CTX_set_session_cb ctx in
        mret (Ok {| ctx := ctx; ctx_is_server := false; ctx_verify_peer := verify_peer;
                    alpn_data := None; ctx_accept_early_data := false |})).
Definition new_client (alpn : list bytes) : tracked (result Error TlsContext) :=
  new_client_with_options alpn true.

(** A path that is no C string ends the function at a [?], without [SSL_CTX_free]. *)
Definition new_server (cert_path key_path : string) (alpn : list bytes)
    : tracked (result Error TlsContext) :=
  new_ctx configure_server_context "ngtcp2_crypto_boringssl_configure_server_context failed"
    (fun ctx =>
      match cstring cert_path with
      | None => mret (Err (InvalidArgument "invalid cert path"))
      | Some cert =>
          let '(ctx, rv) := SSL_CTX_use_certificate_chain_file cert ctx in
          if negb (rv =? 1) then
            SSL_CTX_free ;;
            mret (Err (Internal ("SSL_CTX_use_certificate_chain_file failed: " +:+ cert_path)))
          else
            match cstring key_path with
            | None => mret (Err (InvalidArgument "invalid key path"))
            | Some key =>
                let '(ctx, rv) := SSL_CTX_use_PrivateKey_file key ctx in
                if negb (rv =? 1) then
                  SSL_CTX_free ;;
                  mret (Err (Internal ("SSL_CTX_use_PrivateKey_file failed: " +:+ key_path)))
                else
                  let alpn_wire := encode_alpn alpn in
                  alpn_ptr ← into_raw alpn_wire;
                  let ctx := SSL_CTX_set_alpn_select_cb alpn_ptr ctx in
                  mret (Ok {| ctx := ctx; ctx_is_server := true; ctx_verify_peer := false;
                              alpn_data := Some alpn_ptr; ctx_accept_early_data := false |})
            end
      end).

Definition set_accept_early_data (accept : bool) (c : TlsContext) : TlsContext * result Error unit :=
  if negb (ctx_is_server c) then
    (c, Err (InvalidArgument "cannot accept early data on client context"))
  else
    (c <| ctx := SSL_CTX_set_early_data_enabled accept (ctx c) |>
       <| ctx_accept_early_data := accept |>, Ok tt).

Definition add_ca_cert_pem (pem : string) (c : TlsContext) : TlsContext * result Error unit :=
  if ctx_is_server c then (c, Err (InvalidArgument "cannot add CA cert on server context"))
  else if negb (ctx_verify_peer c) then
    (c, Err (InvalidArgument "cannot add CA cert when verify_peer is false"))
  else if negb (BIO_new_mem_buf_ok pem) then (c, Err (Internal "BIO_new_mem_buf failed"))
  else
    match PEM_read_bio_X509 pem with
    | None => (c, Err (InvalidArgument "invalid CA certificate PEM"))
    | Some x509 =>
        if negb (SSL_CTX_has_cert_store (ctx c)) then
          (c, Err (Internal "SSL_CTX_get_cert_store failed"))
        else
          let '(ctx', rv) := X509_STORE_add_cert x509 (ctx c) in
          let c := c <| ctx := ctx' |> in
          if negb (rv =? 1) then (c, Err (Internal "X509_STORE_add_cert failed")) else (c, Ok tt)
    end.

Definition create_session (c : TlsContext) : result Error TlsSession :=
  match SSL_new (ctx c) with
  | None => Err (Internal "SSL_new failed")
  | Some ssl =>
      if ctx_is_server c then
        Ok {| ssl := SSL_set_accept_state ssl; is_server := true; peer_ip := None;
              accept_early_data := ctx_accept_early_data c; ticket_slot := None |}
      else
        let '(ssl, rv) := SSL_set_ex_data (SSL_set_connect_state ssl) in
        if negb (rv =? 1) then Err (Internal "SSL_set_ex_data failed")
        else
          Ok {| ssl := ssl; is_server := false; peer_ip := None;
                accept_early_data := ctx_accept_early_data c; ticket_slot := Some slot_new |}
  end.

Definition set_server_name (s : TlsSession) (server_name : string) : TlsSession * result Error unit :=
  if is_server s then (s, Err (InvalidArgument "cannot set server name on server session"))
  else if bool_decide (String.length server_name = 0%nat) then
    (s, Err (InvalidArgument "server_name must not be empty"))
  else if contains 42 server_name then
    (s, Err (InvalidArgument "server_name must be a DNS name, not a wildcard"))
  else if 255 <? Z.of_nat (String.length server_name) then
    (s, Err (InvalidArgument "server_name exceeds 255 bytes"))
  else
    match cstring server_name with
    | None => (s, Err (InvalidArgument "invalid server name"))
    | Some name =>
        let ip := parse_ip server_name in
        if negb (SSL_has_param (ssl s)) then (s, Err (Internal "SSL_get0_param failed"))
        else
          let '(x, rv) := SSL_set_tlsext_host_name
            (match ip with Some _ => None | None => Some name end) (ssl s) in
          let s := s <| ssl := x |> in
          if negb (rv =? 1) then (s, Err (Internal "SSL_set_tlsext_host_name failed"))
          else
            let '(x, rv, failed) :=
              match ip with
              | Some _ => (X509_VERIFY_PARAM_clear_host (ssl s), "failed to clear DNS identity"%string)
              | None => (SSL_set1_host name (ssl s), "SSL_set1_host failed"%string)
              end in
            let s := s <| ssl := x |> in
            if negb (rv =? 1) then (s, Err (Internal failed))
            else (s <| peer_ip := ip |>, Ok tt)
    end.

Definition configure_peer_ip_verification (s : TlsSession) : TlsSession * result Error unit :=
  match peer_ip s with
  | None => (s, Ok tt)
  | Some octets =>
      if negb (SSL_has_param (ssl s)) then (s, Err (Internal "SSL_get0_param failed"))
      else
        let '(x, rv) := X509_VERIFY_PARAM_set1_ip octets (ssl s) in
        let s := s <| ssl := x |> in
        if negb (rv =? 1) then (s, Err (Internal "X509_VERIFY_PARAM_set1_ip failed")) else (s, Ok tt)
  end.

Definition set_quic_transport_params (s : TlsSession) (params : bytes)
    : TlsSession * result Error unit :=
  let '(x, rv) := SSL_set_quic_transport_params params (ssl s) in
  let s := s <| ssl := x |> in
  if negb (rv =? 1) then (s, Err (Internal "SSL_set_quic_transport_params failed")) else (s, Ok tt).

Definition selected_alpn_protocol (s : TlsSession) : option bytes :=
  match SSL_get0_alpn_selected (ssl s) with
  | None | Some [] => None
  | Some d => Some d
  end.

Definition set_session (s : TlsSession) (session : bytes) : TlsSession * result Error bool :=
  if is_server s then (s, Err (InvalidArgument "cannot set session on server session"))
  else
    match session with
    | [] => (s, Err (InvalidArgument "session is empty"))
    | _ =>
        match SSL_SESSION_from_bytes session (ssl s) with
        | None => (s, Err (InvalidArgument "invalid TLS session"))
        | Some parsed =>
            let early_data_capable := negb (SSL_SESSION_early_data_capable parsed =? 0) in
            let '(x, rv) := SSL_set_session parsed (ssl s) in
            let s := s <| ssl := x |> in
            if negb (rv =? 1) then (s, Err (InvalidArgument "TLS session cannot be set"))
            else if early_data_capable then
              (s <| ssl := SSL_set_early_data_enabled (ssl s) |>, Ok true)
            else (s, Ok false)
        end
    end.

Definition take_session_ticket (s : TlsSession) : TlsSession * option bytes :=
  match ticket_slot s with
  | None => (s, None)
  | Some slot => let '(slot, t) := slot_take slot in (s <| ticket_slot := Some slot |>, t)
  end.

Definition is_in_early_data (s : TlsSession) : bool := negb (SSL_in_early_data (ssl s) =? 0).
Definition is_early_data_accepted (s : TlsSession) : bool :=
  negb (SSL_early_data_accepted (ssl s) =? 0).

Definition set_quic_early_data_context (s : TlsSession) (context : bytes)
    : TlsSession * result Error unit :=
  if negb (is_server s) then
    (s, Err (InvalidArgument "cannot set early data context on client session"))
  else
    let '(x, rv) := SSL_set_quic_early_data_context context (ssl s) in
    let s := s <| ssl := x |> in
    if negb (rv =? 1) then (s, Err (Internal "SSL_set_quic_early_data_context failed"))
    else (s, Ok tt).

(** ** Properties of contexts and sessions *)

(** What a failed constructor did with its context: there was none, or it was freed. *)
Definition cleaned_up (l : list c_event) : Prop :=
  l = [] /\ (TLS_method_ok = false \/ SSL_CTX_new = None) \/
  l = [Created SslCtx; Deleted SslCtx].

(** C40: a TLS context owns its [SSL_CTX], and a server's context its protocol list, and
    nothing else is left behind: on success the constructor created exactly these and
    deleted none, the context has the role and the options asked for, and [drop] deletes
    each of them once; on an error either no [SSL_CTX] was ever created or the one that
    was has been freed. For a server context the two paths hold no NUL byte. *)
Theorem contexts_own_ctx (alpn : list bytes) (verify : bool) (cert key : string)
    (Hcert : contains 0 cert = false) (Hkey : contains 0 key = false) :
  match new_client_with_options alpn verify with
  | (Ok c, l) => l = [Created SslCtx] /\ (TlsContext_drop c).2 = [Deleted SslCtx] /\
      ctx_is_server c = false /\ ctx_verify_peer c = verify
  | (Err _, l) => cleaned_up l
  end /\
  match new_server cert key alpn with
  | (Ok c, l) => l = [Created SslCtx; Created AlpnData] /\
      (TlsContext_drop c).2 = [Deleted AlpnData; Deleted SslCtx] /\
      ctx_is_server c = true /\ alpn_data c = Some (encode_alpn alpn)
  | (Err _, l) => cleaned_up l
  end.
Proof.
  unfold new_client_with_options, new_server, new_ctx, cstring, cleaned_up.
  rewrite Hcert, Hkey. destruct TLS_method_ok; cbn; [|by auto].
  destruct SSL_CTX_new as [c|]; cbn; [|by auto]. split.
  - destruct (configure_client_context c) as [c1 r1]. destruct (r1 =? 0); cbn; [|by auto].
    destruct (SSL_CTX_set_alpn_protos _ _) as [c3 r3]. destruct (r3 =? 0); cbn; by auto.
  - destruct (configure_server_context c) as [c2 r2]. destruct (r2 =? 0); cbn; [|by auto].
    destruct (SSL_CTX_use_certificate_chain_file cert c2) as [c3 r3].
    destruct (r3 =? 1); cbn; [|by auto].
    destruct (SSL_CTX_use_PrivateKey_file key c3) as [c4 r4]. destruct (r4 =? 1); cbn; by auto.
Qed.

(** A path with a NUL byte leaks the context that was created. *)
Lemma new_server_leaks cert key alpn c :
  TLS_method_ok = true -> SSL_CTX_new = Some c -> (configure_server_context c).2 = 0 ->
  contains 0 cert = true ->
  new_server cert key alpn = (Err (InvalidArgument "invalid cert path"), [Created SslCtx]).
Proof.
  unfold new_server, new_ctx, cstring. intros -> -> Hc ->. cbn.
  destruct (configure_server_context c) as [c2 r2]. cbn in Hc. by subst r2.
Qed.

(** Only names that are safe to verify are set: the session changes only for a client
    and a non-empty name without wildcard or NUL of at most 255 bytes, and an IP
    address is verified as an address. *)
Theorem server_name_checked (s : TlsSession) (name : string) :
  match set_server_name s name with
  | (s', Ok _) =>
      is_server s = false /\ (0 < String.length name <= 255)%nat /\
      contains 42 name = false /\ contains 0 name = false /\ peer_ip s' = parse_ip name
  | (s', Err (InvalidArgument _)) => s' = s
  | (s', Err _) => peer_ip s' = peer_ip s
  end.
Proof.
  unfold set_server_name. destruct (is_server s) eqn:Hs; [done|].
  destruct (bool_decide_reflect (String.length name = 0%nat)); [done|].
  destruct (contains 42 name) eqn:Hw; [done|].
  destruct (255 <? _) eqn:Hlen; [done|]. apply Z.ltb_ge in Hlen.
  unfold cstring. destruct (contains 0 name) eqn:H0; [done|].
  destruct (SSL_has_param (ssl s)); [|done]. cbn [negb].
  destruct (SSL_set_tlsext_host_name _ _) as [x rv]. destruct (rv =? 1); [|done]. cbn [negb].
  destruct (parse_ip name) as [octets|]; cbn [ssl];
    [destruct (X509_VERIFY_PARAM_clear_host _) as [x' rv']|destruct (SSL_set1_host _ _) as [x' rv']];
    (destruct (rv' =? 1); [|done]); cbn; (split_and!; try done; lia).
Qed.

(** ** The interface of the connection

    The constructors of a connection drop the session when one of its functions fails. *)
Definition keep {A} (r : TlsSession * result Error A) : result Error (TlsSession * A) :=
  match r with (s, Ok a) => Ok (s, a) | (_, Err e) => Err e end.
Definition keep_unit (r : TlsSession * result Error unit) : result Error TlsSession :=
  match r with (s, Ok _) => Ok s | (_, Err e) => Err e end.

#[export] Instance crypto_tls : Conn.Tls := {|
  Conn.TlsSession := TlsSession;
  Conn.set_server_name s name := keep_unit (set_server_name s name);
  Conn.configure_peer_ip_verification s := keep_unit (configure_peer_ip_verification s);
  Conn.set_session s d := keep (set_session s d);
  Conn.set_quic_transport_params s d := keep_unit (set_quic_transport_params s d);
  Conn.accepts_early_data := accept_early_data;
  Conn.set_quic_early_data_context s d := keep_unit (set_quic_early_data_context s d);
  Conn.tls_selected_alpn_protocol := selected_alpn_protocol;
  Conn.tls_is_in_early_data := is_in_early_data;
  Conn.tls_is_early_data_accepted := is_early_data_accepted;
  Conn.tls_take_session_ticket := take_session_ticket |}.
End tls.

(** ** A concrete library

    Its contexts and sessions hold nothing, and every function succeeds, but for a key file
    whose name has an exclamation mark. *)
#[local] Instance willing_ssl : SslApi := {|
  SSL_CTX := unit; SSL := unit; X509 := unit; SSL_SESSION := unit;
  TLS_method_ok := true; SSL_CTX_new := Some tt;
  configure_client_context _ := (tt, 0); configure_server_context _ := (tt, 0);
  SSL_CTX_set_verify _ _ := tt; SSL_CTX_set_default_verify_paths _ := tt;
  SSL_CTX_set_alpn_protos _ _ := (tt, 0); SSL_CTX_set_session_cb _ := tt;
  SSL_CTX_use_certificate_chain_file _ _ := (tt, 1);
  SSL_CTX_use_PrivateKey_file path _ := (tt, if contains 33 path then 0 else 1);
  SSL_CTX_set_alpn_select_cb _ _ := tt; SSL_CTX_set_early_data_enabled _ _ := tt;
  BIO_new_mem_buf_ok _ := true; PEM_read_bio_X509 _ := None; SSL_CTX_has_cert_store _ := true;
  X509_STORE_add_cert _ _ := (tt, 1); SSL_new _ := Some tt; SSL_set_accept_state _ := tt;
  SSL_set_connect_state _ := tt; SSL_set_ex_data _ := (tt, 1); SSL_has_param _ := true;
  SSL_set_tlsext_host_name _ _ := (tt, 1); X509_VERIFY_PARAM_clear_host _ := (tt, 1);
  SSL_set1_host _ _ := (tt, 1); X509_VERIFY_PARAM_set1_ip _ _ := (tt, 1);
  SSL_set_quic_transport_params _ _ := (tt, 1); SSL_get0_alpn_selected _ := None;
  SSL_SESSION_from_bytes _ _ := Some tt; SSL_SESSION_to_bytes _ := (1, Some []);
  SSL_SESSION_early_data_capable _ := 0; SSL_set_session _ _ := (tt, 1);
  SSL_set_early_data_enabled _ := tt; SSL_in_early_data _ := 0; SSL_early_data_accepted _ := 0;
  SSL_set_quic_early_data_context _ _ := (tt, 1) |}.

Lemma contexts_own_ctx_witness :
  match new_client_with_options [[104; 51]] true with
  | (Ok c, l) => l = [Created SslCtx] /\ (TlsContext_drop c).2 = [Deleted SslCtx]
  | _ => False
  end /\
  match new_server "cert.pem" "key.pem" [[104; 51]] with
  | (Ok c, l) => l = [Created SslCtx; Created AlpnData] /\
      (TlsContext_drop c).2 = [Deleted AlpnData; Deleted SslCtx]
  | _ => False
  end /\
  match new_server "cert.pem" "!" [[104; 51]] with (Err _, l) => cleaned_up l | _ => False end.
Proof.
  pose proof (contexts_own_ctx [[104; 51]] true "cert.pem" "key.pem" eq_refl eq_refl) as [Hc Hs].
  pose proof (contexts_own_ctx [[104; 51]] true "cert.pem" "!" eq_refl eq_refl) as [_ Hf].
  cbn in Hc, Hs, Hf |- *. destruct Hc as (Hc1 & Hc2 & _), Hs as (Hs1 & Hs2 & _).
  exact (conj (conj Hc1 Hc2) (conj (conj Hs1 Hs2) Hf)).
Defined.

(** The same library, and a path that holds a NUL byte: the context stays behind. *)
Example new_server_leaks_example :
  new_server (String.String (Ascii.ascii_of_nat 0) "cert.pem") "key.pem" [[104; 51]] =
    (Err (InvalidArgument "invalid cert path"), [Created SslCtx]).
Proof. by eapply new_server_leaks. Qed.
End Crypto.
