(* ===== verification/Effects.v ===== *)
(** * Effectful code: a state, an error and a panic

    The functions of tokio-ngtcp2 change the structs they are given and return a
    [Result]. [M S A] is such a function on the state [S]: it returns a value or an
    error, each with the state it leaves behind, or panics. A loop whose body runs on
    the connection is given fuel; [Diverges] says that the fuel ran out, and every
    theorem about a loop proves that it does not. *)
From S2P Require Import Prelude Errors.
Import Errors.

Module Effects.

Inductive exit (S A : Type) : Type :=
| Done (a : A) (s : S)
| Fail (e : Error) (s : S)
| Panics
| Diverges.
Arguments Done {S A} a s.
Arguments Fail {S A} e s.
Arguments Panics {S A}.
Arguments Diverges {S A}.

Definition M (S A : Type) : Type := S -> exit S A.

#[export] Instance M_ret S : MRet (M S) := fun A a s => Done a s.
#[export] Instance M_bind S : MBind (M S) := fun A B f m s =>
  match m s with
  | Done a s => f a s
  | Fail e s => Fail e s
  | Panics => Panics
  | Diverges => Diverges
  end.

Definition throw {S A} (e : Error) : M S A := fun s => Fail e s.
Definition panic {S A} : M S A := fun _ => Panics.
Definition diverge {S A} : M S A := fun _ => Diverges.
Definition gets {S A} (f : S -> A) : M S A := fun s => Done (f s) s.
Definition modify {S} (f : S -> S) : M S unit := fun s => Done tt (f s).

(** [expect] on an [Option] *)
Definition expect {S A} (o : option A) : M S A :=
  match o with Some a => mret a | None => panic end.

(** [?] on a [Result] *)
Definition try {S A} (r : result Error A) : M S A :=
  match r with Ok a => mret a | Err e => throw e end.

(** The [Result] as a value, to match on. *)
Definition attempt {S A} (m : M S A) : M S (result Error A) := fun s =>
  match m s with
  | Done a s => Done (Ok a) s
  | Fail e s => Done (Err e) s
  | Panics => Panics
  | Diverges => Diverges
  end.

(** Run on a part of the state: a call that borrows a field. *)
Definition zoom {S T A} (get : S -> T) (set : T -> S -> S) (m : M T A) : M S A := fun s =>
  match m (get s) with
  | Done a t => Done a (set t s)
  | Fail e t => Fail e (set t s)
  | Panics => Panics
  | Diverges => Diverges
  end.

(** Functions of the other style, as a computation *)
Definition call {S A} (f : S -> S * A) : M S A := fun s => let '(s, a) := f s in Done a s.
Definition call_result {S A} (f : S -> S * result Error A) : M S A := fun s =>
  match f s with
  | (s, Ok a) => Done a s
  | (s, Err e) => Fail e s
  end.

(** [for x in l { f(x)?; }] *)
Fixpoint for_each {S A} (l : list A) (f : A -> M S unit) : M S unit :=
  match l with
  | [] => mret tt
  | x :: l => f x ;; for_each l f
  end.

(** ** Weakest preconditions

    [wp m s Q]: [m] from [s] returns, without a panic, and its result and the state
    it leaves satisfy [Q]. *)
Definition wp {S A} (m : M S A) (s : S) (Q : result Error A -> S -> Prop) : Prop :=
  match m s with
  | Done a s => Q (Ok a) s
  | Fail e s => Q (Err e) s
  | Panics | Diverges => False
  end.

(** For a computation that does not fail. *)
Definition wpd {S A} (m : M S A) (s : S) (Q : A -> S -> Prop) : Prop :=
  wp m s (fun r s => match r with Ok a => Q a s | Err _ => False end).

Section wp.
Context {S : Type}.
Implicit Types s : S.

Lemma wp_mono {A} (m : M S A) s (P Q : result Error A -> S -> Prop) :
  wp m s P -> (forall r s, P r s -> Q r s) -> wp m s Q.
Proof. unfold wp. destruct (m s); naive_solver. Qed.

Lemma wp_and {A} (m : M S A) s (P Q : result Error A -> S -> Prop) :
  wp m s P -> wp m s Q -> wp m s (fun r s => P r s /\ Q r s).
Proof. unfold wp. destruct (m s); naive_solver. Qed.

Lemma wp_forall {A B} (m : M S A) s (P : result Error A -> S -> Prop)
    (Q : B -> result Error A -> S -> Prop) :
  wp m s P -> (forall x, wp m s (Q x)) -> wp m s (fun r s => P r s /\ forall x, Q x r s).
Proof. unfold wp. destruct (m s); naive_solver. Qed.

(** A hypothesis of the postcondition, for a computation that returns. *)
Lemma wp_intro_hyp {A} (m : M S A) s (P : result Error A -> S -> Prop) (H : Prop)
    (Q : result Error A -> S -> Prop) :
  wp m s P -> (H -> wp m s Q) -> wp m s (fun r s => H -> Q r s).
Proof. unfold wp. destruct (m s); naive_solver. Qed.

Lemma wp_ret {A} (a : A) s Q : Q (Ok a) s -> wp (mret a : M S A) s Q.
Proof. done. Qed.

Lemma wp_throw {A} e s (Q : result Error A -> S -> Prop) : Q (Err e) s -> wp (throw e) s Q.
Proof. done. Qed.

Lemma wp_bind {A B} (m : M S A) (f : A -> M S B) s Q :
  wp m s (fun r s => match r with Ok a => wp (f a) s Q | Err e => Q (Err e) s end) ->
  wp (m ≫= f) s Q.
Proof. unfold wp, mbind, M_bind. destruct (m s); done. Qed.

(** The first part of a computation whose rest only returns. *)
Lemma wp_before {A B} (m : M S A) (f : A -> B) s (P : S -> Prop) :
  wp (a ← m; mret (f a)) s (fun _ s => P s) -> wp m s (fun _ s => P s).
Proof. unfold wp, mbind, M_bind. by destruct (m s). Qed.

Lemma wp_gets {A} (f : S -> A) s Q : Q (Ok (f s)) s -> wp (gets f) s Q.
Proof. done. Qed.

Lemma wp_modify (f : S -> S) s Q : Q (Ok tt) (f s) -> wp (modify f) s Q.
Proof. done. Qed.

Lemma wp_expect {A} (o : option A) (a : A) s Q : o = Some a -> Q (Ok a) s -> wp (expect o) s Q.
Proof. intros ->. done. Qed.

Lemma wp_try {A} (r : result Error A) s Q : Q r s -> wp (try r) s Q.
Proof. by destruct r. Qed.

Lemma wp_attempt {A} (m : M S A) s Q :
  wp m s (fun r s => Q (Ok r) s) -> wp (attempt m) s Q.
Proof. unfold wp, attempt. destruct (m s); done. Qed.

Lemma wp_zoom {T A} (get : S -> T) (set : T -> S -> S) (m : M T A) s Q :
  wp m (get s) (fun r t => Q r (set t s)) -> wp (zoom get set m) s Q.
Proof. unfold wp, zoom. destruct (m (get s)); done. Qed.

Lemma wp_call {A} (f : S -> S * A) s Q : Q (Ok (f s).2) (f s).1 -> wp (call f) s Q.
Proof. unfold wp, call. by destruct (f s). Qed.

Lemma wp_call_result {A} (f : S -> S * result Error A) s Q :
  Q (f s).2 (f s).1 -> wp (call_result f) s Q.
Proof. unfold wp, call_result. by destruct (f s) as [? []]. Qed.

(** A loop over a list keeps what its body keeps. *)
Lemma wp_for_each {A} (I : S -> Prop) (l : list A) (f : A -> M S unit) s :
  I s ->
  (forall x s, x ∈ l -> I s -> wp (f x) s (fun r s => r = Ok tt /\ I s)) ->
  wp (for_each l f) s (fun r s => r = Ok tt /\ I s).
Proof.
  revert s. induction l as [|x l IH]; intros s Hs Hf; [done|].
  cbn. apply wp_bind. eapply wp_mono; [apply Hf; [left|done]|].
  intros r s' [-> Hs']. apply IH; [done|]. intros y s'' Hy. apply Hf. by right.
Qed.
(** A loop on a part of the state. *)
Lemma wp_for_each_zoom {T A} (get : S -> T) (set : T -> S -> S) (l : list A)
    (f : A -> M T unit) s Q :
  (forall s t, get (set t s) = t) -> (forall s t t', set t' (set t s) = set t' s) ->
  (forall s, set (get s) s = s) ->
  wp (for_each l f) (get s) (fun r t => Q r (set t s)) ->
  wp (for_each l (fun x => zoom get set (f x))) s Q.
Proof.
  intros Hgs Hss Hsg. revert s. induction l as [|x l IH]; intros s.
  { unfold wp. cbn. by rewrite Hsg. }
  cbn [for_each]. unfold wp, mbind, M_bind. unfold zoom at 1.
  destruct (f x (get s)) as [u t|e t| |]; try done. intros H.
  change (wp (for_each l f) t (fun r t' => Q r (set t' s))) in H. apply IH.
  rewrite Hgs. unfold wp in *. destruct (for_each l f t); by rewrite ?Hss.
Qed.
End wp.

(** ** Partial correctness

    [wlp m s Q]: if [m] returns from [s], its result and state satisfy [Q]. It is used
    next to a proof that [m] returns. *)
Definition wlp {S A} (m : M S A) (s : S) (Q : result Error A -> S -> Prop) : Prop :=
  match m s with
  | Done a s => Q (Ok a) s
  | Fail e s => Q (Err e) s
  | Panics | Diverges => True
  end.

(** ** Panics under a condition

    [wpp P m s Q]: [m] returns from [s] with [Q], or panics, and then [P] holds. *)
Definition wpp {S A} (P : Prop) (m : M S A) (s : S) (Q : result Error A -> S -> Prop) : Prop :=
  match m s with
  | Done a s => Q (Ok a) s
  | Fail e s => Q (Err e) s
  | Panics => P
  | Diverges => False
  end.

Lemma wpp_mono {S A} P (m : M S A) s (Q Q' : result Error A -> S -> Prop) :
  wpp P m s Q -> (forall r s, Q r s -> Q' r s) -> wpp P m s Q'.
Proof. unfold wpp. destruct (m s); naive_solver. Qed.

Lemma wpp_wp {S A} P (m : M S A) s (Q : result Error A -> S -> Prop) : wp m s Q -> wpp P m s Q.
Proof. unfold wpp, wp. by destruct (m s). Qed.

Lemma wpp_not {S A} (P : Prop) (m : M S A) s (Q : result Error A -> S -> Prop) :
  ~ P -> wpp P m s Q -> wp m s Q.
Proof. unfold wpp, wp. by destruct (m s). Qed.

Lemma wpp_bind {S A B} P (m : M S A) (f : A -> M S B) s (Q : result Error B -> S -> Prop) :
  wpp P m s (fun r s => match r with Ok a => wpp P (f a) s Q | Err e => Q (Err e) s end) ->
  wpp P (m ≫= f) s Q.
Proof. unfold wpp, mbind, M_bind. destruct (m s); done. Qed.

Lemma wp_wlp {S A} (m : M S A) s (P Q : result Error A -> S -> Prop) :
  wp m s P -> wlp m s Q -> wp m s (fun r s => P r s /\ Q r s).
Proof. unfold wp, wlp. destruct (m s); naive_solver. Qed.

Lemma wlp_wp {S A} (m : M S A) s (Q : result Error A -> S -> Prop) : wp m s Q -> wlp m s Q.
Proof. unfold wp, wlp. by destruct (m s). Qed.

Section wlp.
Context {S : Type}.
Implicit Types s : S.

Lemma wlp_mono {A} (m : M S A) s (P Q : result Error A -> S -> Prop) :
  wlp m s P -> (forall r s, P r s -> Q r s) -> wlp m s Q.
Proof. unfold wlp. destruct (m s); naive_solver. Qed.

Lemma wlp_forall {A B} (m : M S A) s (Q : B -> result Error A -> S -> Prop) :
  (forall x, wlp m s (Q x)) -> wlp m s (fun r s => forall x, Q x r s).
Proof. unfold wlp. destruct (m s); naive_solver. Qed.

Lemma wlp_bind {A B} (m : M S A) (f : A -> M S B) s Q :
  wlp m s (fun r s => match r with Ok a => wlp (f a) s Q | Err e => Q (Err e) s end) ->
  wlp (m ≫= f) s Q.
Proof. unfold wlp, mbind, M_bind. destruct (m s); done. Qed.

Lemma wlp_attempt {A} (m : M S A) s Q :
  wlp m s (fun r s => Q (Ok r) s) -> wlp (attempt m) s Q.
Proof. unfold wlp, attempt. by destruct (m s). Qed.

Lemma wlp_zoom {T A} (get : S -> T) (set : T -> S -> S) (m : M T A) s Q :
  wlp m (get s) (fun r t => Q r (set t s)) -> wlp (zoom get set m) s Q.
Proof. unfold wlp, zoom. by destruct (m (get s)). Qed.
End wlp.

(** [m] relates the state it starts from to the state it leaves. *)
Definition keeps {S A} (R : S -> S -> Prop) (m : M S A) : Prop :=
  forall s, wlp m s (fun _ s' => R s s').

Section keeps.
Context {S : Type} (R : S -> S -> Prop) `{!PreOrder R}.

Lemma keeps_ret {A} (a : A) : keeps R (mret a).
Proof. intros s. unfold wlp. cbn. reflexivity. Qed.
Lemma keeps_throw {A} e : keeps R (throw e : M S A).
Proof. intros s. unfold wlp. cbn. reflexivity. Qed.
Lemma keeps_panic {A} : keeps R (panic : M S A).
Proof. done. Qed.
Lemma keeps_diverge {A} : keeps R (diverge : M S A).
Proof. done. Qed.
Lemma keeps_gets {A} (f : S -> A) : keeps R (gets f).
Proof. intros s. unfold wlp. cbn. reflexivity. Qed.
Lemma keeps_expect {A} (o : option A) : keeps R (expect o).
Proof. intros s. unfold wlp. by destruct o; cbn. Qed.
Lemma keeps_try {A} (r : result Error A) : keeps R (try r).
Proof. intros s. unfold wlp. by destruct r; cbn. Qed.

Lemma keeps_modify (f : S -> S) : (forall s, R s (f s)) -> keeps R (modify f).
Proof. intros Hf s. apply Hf. Qed.

Lemma keeps_call {A} (f : S -> S * A) : (forall s, R s (f s).1) -> keeps R (call f).
Proof. intros Hf s. unfold wlp, call. specialize (Hf s). by destruct (f s). Qed.

Lemma keeps_attempt {A} (m : M S A) : keeps R m -> keeps R (attempt m).
Proof. intros Hm s. apply wlp_attempt, Hm. Qed.

Lemma keeps_bind {A B} (m : M S A) (f : A -> M S B) :
  keeps R m -> (forall a, keeps R (f a)) -> keeps R (m ≫= f).
Proof.
  intros Hm Hf s. apply wlp_bind. eapply wlp_mono; [apply Hm|]. intros [a|e] s1 H1; [|done].
  eapply wlp_mono; [apply Hf|]. intros r s2 H2. by etrans.
Qed.

Lemma keeps_zoom {T A} (Q : T -> T -> Prop) (get : S -> T) (set : T -> S -> S) (m : M T A) :
  keeps Q m -> (forall s t, Q (get s) t -> R s (set t s)) -> keeps R (zoom get set m).
Proof.
  intros Hm HR s. apply wlp_zoom. eapply wlp_mono; [apply Hm|]. intros r t. apply HR.
Qed.
End keeps.

(** One step of the calculus, for the commands whose rule has no choice. *)
Ltac wp_step :=
  match goal with
  | |- wp (mbind _ _) _ _ => apply wp_bind
  | |- wp (mret _) _ _ => apply wp_ret
  | |- wp (throw _) _ _ => apply wp_throw
  | |- wp (gets _) _ _ => apply wp_gets
  | |- wp (modify _) _ _ => apply wp_modify
  | |- wp (try _) _ _ => apply wp_try
  | |- wp (attempt _) _ _ => apply wp_attempt
  | |- wp (zoom _ _ _) _ _ => apply wp_zoom
  | |- wp (call _) _ _ => apply wp_call
  | |- wp (call_result _) _ _ => apply wp_call_result
  end; cbv beta.
Ltac wp_steps := repeat wp_step.
End Effects.
