(* ===== verification/Transport.v ===== *)
(** * The connection as tokio-ngtcp2 uses it

    [Transport] is the interface between the two crates: the operations of
    [Connection] (src/ngtcp2/src/conn.rs) that tokio-ngtcp2 calls, and in
    [TransportDoc] what it relies on. The last section implements the interface with
    the model of [Connection], from what the documentation of ngtcp2 says. *)
From S2P Require Import Prelude Types Errors Tokens Params InFlight Callbacks Conn Effects.
Import Types Errors Effects Callbacks.

Module Transport.

Class Transport := {
  conn : Type;
  t_poll_event : conn -> conn * option ConnectionEvent;
  t_poll_issued_cids : conn -> conn * list ConnectionId;
  t_poll_retired_cids : conn -> conn * list ConnectionId;
  t_poll_qlog_data : conn -> conn * option bytes;
  t_take_new_token : conn -> conn * option bytes;
  t_read_pkt : PathInfo -> PacketInfo -> bytes -> Z -> M conn unit;
  t_write_pkt : bytes -> Z -> M conn (Z * PacketInfo * option PathInfo * bytes);
  (** the buffer, the stream, the data, whether it ends the stream, the time and the
      flags; the second component is the number of bytes taken, [None] when no STREAM
      frame was written *)
  t_write_stream_with_flags : bytes -> StreamId -> bytes -> bool -> Z -> Z ->
    M conn (Z * option Z * option PathInfo * PacketInfo * bytes);
  t_write_datagram : bytes -> bytes -> Z -> M conn (Z * bool * option PathInfo * PacketInfo * bytes);
  t_write_connection_close : bytes -> Z -> bytes -> Z -> M conn (Z * bytes);
  t_write_connection_close_app : bytes -> Z -> bytes -> Z -> M conn (Z * bytes);
  t_handle_expiry : Z -> M conn unit;
  t_submit_new_token : bytes -> M conn unit;
  t_open_bidi_stream : M conn StreamId;
  t_open_uni_stream : M conn StreamId;
  t_shutdown_stream : StreamId -> Z -> M conn unit;
  t_shutdown_stream_write : StreamId -> Z -> M conn unit;
  t_shutdown_stream_write_reliable : StreamId -> Z -> M conn unit;
  t_shutdown_stream_read : StreamId -> Z -> M conn unit;
  t_extend_max_stream_offset : StreamId -> Z -> M conn unit;
  t_extend_max_offset : Z -> conn -> conn;
  t_extend_max_streams_bidi : Z -> conn -> conn;
  t_extend_max_streams_uni : Z -> conn -> conn;
  t_initiate_migration : PathInfo -> Z -> M conn unit;
  t_initiate_key_update : Z -> M conn unit;
  t_take_session_ticket : M conn (option Conn.SessionTicket);
  t_get_path : conn -> option PathInfo;
  t_get_expiry : conn -> Z;
  t_is_in_closing_period : conn -> bool;
  t_is_in_draining_period : conn -> bool;
  t_is_handshake_completed : conn -> bool;
  t_is_in_early_data : conn -> bool;
  t_is_early_data_rejected : conn -> bool;
  t_get_connection_error : conn -> Conn.ConnectionError;
  t_is_early_data_accepted : conn -> bool;
  t_selected_alpn_protocol : conn -> option bytes;
  t_negotiated_version : conn -> option QuicVersion;
  t_stats : conn -> Params.ConnStats;
  t_get_cwnd_left : conn -> Z;
  t_get_max_data_left : conn -> Z;
  t_get_max_stream_data_left : conn -> StreamId -> Z;
  t_get_streams_bidi_left : conn -> Z;
  t_get_streams_uni_left : conn -> Z;
  (** the readers of the peer's transport parameters, which slice its Retry id *)
  t_remote_transport_params : conn -> outcome (option Params.RemoteTransportParams);
  t_supports_reset_stream_at : conn -> outcome bool;
  t_can_send_datagram : conn -> outcome bool;
  (** the events not polled yet: what [t_poll_event] takes from *)
  t_events : conn -> list ConnectionEvent }.

(** ** What tokio-ngtcp2 relies on *)

(** What was written lies in the buffer, and a packet comes with its path. *)
Definition written_ok (buf : bytes) (n : Z) (path : option PathInfo) (buf' : bytes) : Prop :=
  0 <= n <= slen buf /\ slen buf' = slen buf /\ (0 < n -> exists p, path = Some p).

Definition close_ok (buf : bytes) (r : result Error (Z * bytes)) : Prop :=
  match r with
  | Ok (n, buf') =>
      0 <= n <= slen buf /\ slen buf' = slen buf /\ are_bytes (take (Z.to_nat n) buf')
  | Err _ => True
  end.

Class TransportDoc `{!Transport} : Prop := {
  poll_event_spec c :
    t_poll_event c =
      match t_events c with
      | [] => (c, None)
      | e :: _ => ((t_poll_event c).1, Some e)
      end;
  poll_event_rest c e es : t_events c = e :: es -> t_events (t_poll_event c).1 = es;
  poll_event_early c : t_is_in_early_data (t_poll_event c).1 = t_is_in_early_data c;
  (** one poll takes all the qlog data there is *)
  poll_qlog_drained c d :
    (t_poll_qlog_data c).2 = Some d -> (t_poll_qlog_data (t_poll_qlog_data c).1).2 = None;
  poll_qlog_events c : t_events (t_poll_qlog_data c).1 = t_events c;
  read_pkt_total path pi d ts c : wp (t_read_pkt path pi d ts) c (fun _ _ => True);
  handle_expiry_total ts c : wp (t_handle_expiry ts) c (fun _ _ => True);
  submit_new_token_spec tok c :
    wp (t_submit_new_token tok) c (fun _ c' =>
      t_events c' = t_events c /\ t_is_in_early_data c' = t_is_in_early_data c);
  write_pkt_spec buf ts c : wp (t_write_pkt buf ts) c (fun r _ =>
    match r with
    | Ok (n, _, path, buf') => written_ok buf n path buf'
    | Err _ => True
    end);
  write_stream_spec buf id d fin ts flags c :
    wp (t_write_stream_with_flags buf id d fin ts flags) c (fun r _ =>
      match r with
      | Ok (n, dw, path, _, buf') => written_ok buf n path buf' /\ 0 <= default 0 dw <= slen d
      | Err _ => True
      end);
  write_close_spec buf code why ts c :
    wp (t_write_connection_close buf code why ts) c (fun r _ => close_ok buf r);
  write_close_app_spec buf code why ts c :
    wp (t_write_connection_close_app buf code why ts) c (fun r _ => close_ok buf r);
  write_datagram_spec buf d ts c : wp (t_write_datagram buf d ts) c (fun r _ =>
    match r with
    | Ok (n, _, path, _, buf') => written_ok buf n path buf'
    | Err _ => True
    end);
  open_bidi_total c : wp t_open_bidi_stream c (fun _ _ => True);
  open_uni_total c : wp t_open_uni_stream c (fun _ _ => True);
  shutdown_total id code c : wp (t_shutdown_stream id code) c (fun _ _ => True);
  shutdown_write_total id code c : wp (t_shutdown_stream_write id code) c (fun _ _ => True);
  shutdown_reliable_total id code c :
    wp (t_shutdown_stream_write_reliable id code) c (fun _ _ => True);
  shutdown_read_total id code c : wp (t_shutdown_stream_read id code) c (fun _ _ => True);
  extend_offset_total id n c : wp (t_extend_max_stream_offset id n) c (fun _ _ => True);
  migration_total path ts c : wp (t_initiate_migration path ts) c (fun _ _ => True);
  key_update_total ts c : wp (t_initiate_key_update ts) c (fun _ _ => True);
  take_ticket_total c : wp t_take_session_ticket c (fun _ _ => True);
  remote_params_total c : t_remote_transport_params c <> Panic;
  can_send_total c : t_can_send_datagram c <> Panic;
  supports_total c : t_supports_reset_stream_at c <> Panic }.

#[export] Hint Resolve read_pkt_total handle_expiry_total open_bidi_total open_uni_total
  shutdown_total shutdown_write_total shutdown_reliable_total shutdown_read_total
  extend_offset_total migration_total key_update_total take_ticket_total : rust.

(** At a given time a connection writes finitely many packets: congestion control,
    flow control and amplification limits stop it. [budget] bounds how many. *)
Class TransportBudget `{!Transport} := {
  budget : Z -> conn -> nat;
  budget_write_pkt buf ts c : wp (t_write_pkt buf ts) c (fun r c' =>
    match r with
    | Ok (n, _, _, _) => (budget ts c' + (if (0 <? n)%Z then 1 else 0) <= budget ts c)%nat
    | Err _ => True
    end);
  budget_write_stream buf id d fin ts flags c :
    wp (t_write_stream_with_flags buf id d fin ts flags) c (fun r c' =>
      match r with
      | Ok (n, _, _, _, _) => (budget ts c' + (if (0 <? n)%Z then 1 else 0) <= budget ts c)%nat
      | Err _ => (budget ts c' <= budget ts c)%nat
      end) }.

(** ** [Connection] implements the interface *)

Section connection.
Context {str : Strerror} {api : Tokens.TokenApi} {ng : Conn.Ngtcp2Api} {tls : Conn.Tls}.
Context {allocator : InFlight.Allocator}.

(** A function that may panic. *)
Definition call_outcome {A} (f : Conn.Connection -> outcome (Conn.Connection * result Error A))
    : M Conn.Connection A := fun c =>
  match f c with
  | Ret (c, Ok a) => Done a c
  | Ret (c, Err e) => Fail e c
  | Panic => Panics
  end.

#[export] Instance connection_transport : Transport := {|
  conn := Conn.Connection;
  t_poll_event := Conn.poll_event;
  t_poll_issued_cids := Conn.poll_issued_cids;
  t_poll_retired_cids := Conn.poll_retired_cids;
  t_poll_qlog_data := Conn.poll_qlog_data;
  t_take_new_token := Conn.take_new_token;
  t_read_pkt path pi d ts := call_result (fun c => Conn.read_pkt c path pi d ts);
  t_write_pkt buf ts := call_result (fun c => Conn.write_pkt c buf ts);
  t_write_stream_with_flags buf id d fin ts flags :=
    call_result (fun c => Conn.write_stream_with_flags c buf id d fin ts flags);
  t_write_datagram buf d ts := call_outcome (fun c => Conn.write_datagram c buf d ts);
  t_write_connection_close buf code why ts :=
    call_result (fun c => Conn.write_connection_close c buf code why ts);
  t_write_connection_close_app buf code why ts :=
    call_result (fun c => Conn.write_connection_close_app c buf code why ts);
  t_handle_expiry ts := call_result (fun c => Conn.handle_expiry c ts);
  t_submit_new_token tok := call_result (fun c => Conn.submit_new_token c tok);
  t_open_bidi_stream := call_result Conn.open_bidi_stream;
  t_open_uni_stream := call_result Conn.open_uni_stream;
  t_shutdown_stream id code := call_result (fun c => Conn.shutdown_stream c id code);
  t_shutdown_stream_write id code := call_result (fun c => Conn.shutdown_stream_write c id code);
  t_shutdown_stream_write_reliable id code :=
    call_result (fun c => Conn.shutdown_stream_write_reliable c id code);
  t_shutdown_stream_read id code := call_result (fun c => Conn.shutdown_stream_read c id code);
  t_extend_max_stream_offset id n := call_result (fun c => Conn.extend_max_stream_offset c id n);
  t_extend_max_offset n c := Conn.extend_max_offset c n;
  t_extend_max_streams_bidi n c := Conn.extend_max_streams_bidi c n;
  t_extend_max_streams_uni n c := Conn.extend_max_streams_uni c n;
  t_initiate_migration path ts := call_result (fun c => Conn.initiate_migration c path ts);
  t_initiate_key_update ts := call_result (fun c => Conn.initiate_key_update c ts);
  t_take_session_ticket := call_outcome Conn.take_session_ticket;
  t_get_path := Conn.get_path;
  t_get_expiry := Conn.get_expiry;
  t_is_in_closing_period := Conn.is_in_closing_period;
  t_is_in_draining_period := Conn.is_in_draining_period;
  t_is_handshake_completed := Conn.is_handshake_completed;
  t_is_in_early_data := Conn.is_in_early_data;
  t_is_early_data_rejected := Conn.is_early_data_rejected;
  t_get_connection_error := Conn.get_connection_error;
  t_is_early_data_accepted := Conn.is_early_data_accepted;
  t_selected_alpn_protocol := Conn.selected_alpn_protocol;
  t_negotiated_version := Conn.negotiated_version;
  t_stats := Conn.stats;
  t_get_cwnd_left := Conn.get_cwnd_left;
  t_get_max_data_left := Conn.get_max_data_left;
  t_get_max_stream_data_left := Conn.get_max_stream_data_left;
  t_get_streams_bidi_left := Conn.get_streams_bidi_left;
  t_get_streams_uni_left := Conn.get_streams_uni_left;
  t_remote_transport_params := Conn.remote_transport_params;
  t_supports_reset_stream_at := Conn.supports_reset_stream_at;
  t_can_send_datagram := Conn.can_send_datagram;
  t_events c := events (Conn.user_data c) |}.

(** What the documentation says of the functions that write: they return an error or
    the number of bytes written to the buffer, and with a packet they give its path,
    whose addresses are of the families the crate handles. *)
Definition write_out_ok (buf : bytes) (o : Conn.write_out) : Prop :=
  Conn.wo_rv o < 0 \/
  (0 <= Conn.wo_rv o <= slen buf /\ slen (Conn.wo_buf o) = slen buf /\
   (0 < Conn.wo_rv o -> exists p, path_info_from_raw (Some (Conn.wo_path o)) = Some p)).

Class Ngtcp2WriteDoc : Prop := {
  write_pkt_out i buf ts u :
    write_out_ok buf (exec (Conn.ngtcp2_conn_write_pkt i buf ts) u).1.2;
  writev_stream_out i buf flags id d ts u :
    let o := (exec (Conn.ngtcp2_conn_writev_stream i buf flags id d ts) u).1.2 in
    write_out_ok buf o /\ slen (Conn.wo_buf o) = slen buf;
  write_close_out i buf e ts u :
    let r := (exec (Conn.ngtcp2_conn_write_connection_close i buf e ts) u).1 in
    r.1.2 < 0 \/ (0 <= r.1.2 <= slen buf /\ slen r.2 = slen buf /\
                  are_bytes (take (Z.to_nat r.1.2) r.2));
  writev_datagram_out i buf d ts u :
    write_out_ok buf (exec (Conn.ngtcp2_conn_writev_datagram i buf d ts) u).1.2;
  (** a connection id of the peer's parameters has at most 20 bytes *)
  remote_params_ok i p :
    Conn.ngtcp2_conn_get_remote_transport_params i = Some p ->
    0 <= Tokens.datalen (Params.retry_scid p) <= NGTCP2_MAX_CIDLEN /\
    slen (Tokens.cid_data (Params.retry_scid p)) = NGTCP2_MAX_CIDLEN }.

Lemma written_ok_path buf o :
  write_out_ok buf o -> 0 <= Conn.wo_rv o ->
  written_ok buf (Conn.wo_rv o) (Conn.packet_path o) (Conn.wo_buf o).
Proof.
  intros [?|(H & Hl & Hp)] ?; [lia|]. unfold written_ok. split; [done|]. split; [done|].
  intros Hn. unfold Conn.packet_path. destruct (Z.ltb_spec 0 (Conn.wo_rv o)); [|lia]. auto.
Qed.

Lemma write_ccerr_ok {doc : Ngtcp2WriteDoc} c buf e ts :
  close_ok buf (Conn.write_ccerr c buf e ts).2.
Proof.
  unfold Conn.write_ccerr.
  pose proof (write_close_out (Conn.inner c) buf e ts (Conn.user_data c)) as H. cbv zeta in H.
  destruct (exec _ _) as [[[i rv] b] u]. cbn in H.
  destruct (Z.ltb_spec rv 0); cbn; [done|]. destruct H; [lia|done].
Qed.

(** Reading the peer's parameters does not panic. *)
Lemma remote_params_ret {doc : Ngtcp2WriteDoc} c :
  exists o, Conn.remote_transport_params c = Ret o.
Proof.
  unfold Conn.remote_transport_params.
  destruct (Conn.ngtcp2_conn_get_remote_transport_params _) as [p|] eqn:Hp; [|by eexists].
  apply remote_params_ok in Hp as [Hd Hl]. unfold Params.remote_from_raw, slice. cbn zeta.
  destruct (negb (Params.retry_scid_present p =? 0)); [|by eexists].
  destruct (Z.leb_spec 0 0), (Z.leb_spec 0 (Tokens.datalen (Params.retry_scid p))),
    (Z.leb_spec (Tokens.datalen (Params.retry_scid p)) (slen (Tokens.cid_data (Params.retry_scid p)))); try lia.
  by eexists.
Qed.

Lemma can_send_datagram_ret {doc : Ngtcp2WriteDoc} c : exists b, Conn.can_send_datagram c = Ret b.
Proof.
  unfold Conn.can_send_datagram. destruct (remote_params_ret c) as [[p|] ->]; by eexists.
Qed.

#[export] Instance connection_transport_doc {doc : Conn.Ngtcp2Doc} {wdoc : Ngtcp2WriteDoc}
  : TransportDoc.
Proof.
  constructor.
  - intros c. cbn. unfold Conn.poll_event. by destruct (events (Conn.user_data c)).
  - intros c e es H. cbn in *. unfold Conn.poll_event. by rewrite H.
  - intros c. cbn. unfold Conn.poll_event. by destruct (events (Conn.user_data c)).
  - intros c d. cbn. unfold Conn.poll_qlog_data. by destruct (qlog_data (Conn.user_data c)).
  - intros c. cbn. unfold Conn.poll_qlog_data. by destruct (qlog_data (Conn.user_data c)).
  - intros. by apply wp_call_result.
  - intros. by apply wp_call_result.
  - intros. by apply wp_call_result.
  - intros buf ts c. apply wp_call_result. unfold Conn.write_pkt.
    pose proof (write_pkt_out (Conn.inner c) buf ts (Conn.user_data c)) as H.
    destruct (exec _ _) as [[i o] u]. cbn in H.
    destruct (Z.ltb_spec (Conn.wo_rv o) 0); cbn; [done|]. by apply written_ok_path.
  - intros buf id d fin ts flags c. apply wp_call_result.
    unfold Conn.write_stream_with_flags.
    destruct (InFlight.append _ d _) as [[e1 app] h].
    set (u1 := (Conn.user_data c) <| in_flight_stream_data := _ |>).
    set (fl := if fin then _ else _).
    pose proof (Conn.writev_datalen (Conn.inner c) buf fl id d ts u1) as Hn.
    pose proof (writev_stream_out (Conn.inner c) buf fl id d ts u1) as Ho. cbv zeta in Ho.
    destruct (exec _ u1) as [[[i datalen] o] u2]. cbn in Hn, Ho. destruct Ho as [Ho Hl].
    pose proof (slen_nonneg d). pose proof (slen_nonneg buf).
    assert (0 <= default 0 (if 0 <=? datalen then Some datalen else None) <= slen d)
      by (destruct (Z.leb_spec 0 datalen); cbn; lia).
    destruct (Z.eqb_spec (Conn.wo_rv o) NGTCP2_ERR_WRITE_MORE); cbn.
    { split; [|done]. split; [lia|]. split; [done|intros ?; lia]. }
    destruct (Z.eqb_spec (Conn.wo_rv o) NGTCP2_ERR_STREAM_DATA_BLOCKED); cbn; [done|].
    destruct (Z.eqb_spec (Conn.wo_rv o) NGTCP2_ERR_STREAM_SHUT_WR); cbn; [done|].
    destruct (Z.ltb_spec (Conn.wo_rv o) 0); cbn; [done|]. split; [|done].
    by apply written_ok_path.
  - intros. apply wp_call_result. apply write_ccerr_ok.
  - intros. apply wp_call_result. apply write_ccerr_ok.
  - intros buf d ts c. cbn. unfold wp, call_outcome, Conn.write_datagram.
    destruct (can_send_datagram_ret c) as [[] ->]; [|done].
    pose proof (writev_datagram_out (Conn.inner c) buf d ts (Conn.user_data c)) as H.
    destruct (exec _ _) as [[[i acc] o] u]. cbn in H.
    destruct (Z.ltb_spec (Conn.wo_rv o) 0); cbn; [done|]. by apply written_ok_path.
  - intros. by apply wp_call_result.
  - intros. by apply wp_call_result.
  - intros. by apply wp_call_result.
  - intros. by apply wp_call_result.
  - intros. by apply wp_call_result.
  - intros. by apply wp_call_result.
  - intros. by apply wp_call_result.
  - intros. by apply wp_call_result.
  - intros. by apply wp_call_result.
  - intros c. cbn. unfold wp, call_outcome.
    by destruct (Conn.take_session_ticket_ret c) as [[c' []] ->].
  - intros c. cbn. by destruct (remote_params_ret c) as [? ->].
  - intros c. cbn. by destruct (can_send_datagram_ret c) as [? ->].
  - intros c. cbn. unfold Conn.supports_reset_stream_at.
    by destruct (remote_params_ret c) as [[] ->].
Qed.
End connection.

(** ** A concrete transport

    A connection that can still write [ty_left] packets, each of one byte and with up
    to three bytes of stream data, logs what it accepted, refuses the streams of
    [ty_blocked], has issued and retired some ids, may have timed out, completes its
    handshake with the first packet it reads, and takes every packet for data of
    stream 4. *)
Record toy := mkToy {
  ty_left : nat; ty_log : list (StreamId * bytes * bool); ty_events : list ConnectionEvent;
  ty_blocked : list StreamId; ty_issued : list ConnectionId; ty_retired : list ConnectionId;
  ty_done : bool; ty_closing : bool; ty_idle : bool }.
#[export] Instance toy_eta : Eta toy := fun c =>
  mkToy (ty_left c) (ty_log c) (ty_events c) (ty_blocked c) (ty_issued c)
    (ty_retired c) (ty_done c) (ty_closing c) (ty_idle c).

Definition toy_new : toy := mkToy 4 [] [] [] [] [] false false false.

Definition toy_path : PathInfo :=
  {| local := SockV4 [127; 0; 0; 1] 4433; remote := SockV4 [127; 0; 0; 1] 5000 |}.

Definition toy_accepted (c : toy) (id : StreamId) : bytes :=
  concat (map (fun e => if bool_decide (id = e.1.1) then e.1.2 else []) (ty_log c)).
Definition toy_ended (c : toy) (id : StreamId) : bool :=
  existsb (fun e => bool_decide (id = e.1.1) && e.2) (ty_log c).

Definition toy_write_stream (buf : bytes) (id : StreamId) (d : bytes) (fin : bool) (ts flags : Z)
    : M toy (Z * option Z * option PathInfo * PacketInfo * bytes) := fun c =>
  if bool_decide (id ∈ ty_blocked c) then Fail (StreamDataBlocked id) c
  else if toy_ended c id then Fail (StreamShutWr id) c
  else
    match ty_left c, buf with
    | O, _ | _, [] => Done (0, None, None, PacketInfo_default, buf) c
    | S n, _ =>
        let k := Z.min (slen d) 3 in
        Done (1, Some k, Some toy_path, PacketInfo_default, buf)
          (c <| ty_left := n |>
             <| ty_log := ty_log c ++
                  [(id, take (Z.to_nat k) d, fin && bool_decide (Some k = Some (slen d)))] |>)
    end.

Definition toy_close (buf : bytes) (c : toy) : exit toy (Z * bytes) :=
  let n := Nat.min 20 (length buf) in
  Done (Z.of_nat n, repeat 0x40 n ++ drop n buf) (c <| ty_closing := true |>).

Lemma toy_close_ok buf c : wp (toy_close buf) c (fun r _ => close_ok buf r).
Proof.
  unfold toy_close. cbn -[Nat.min]. unfold slen.
  rewrite length_app, repeat_length, length_drop, Nat2Z.id.
  split; [lia|]. split; [lia|].
  rewrite take_app_length' by (by rewrite repeat_length).
  apply Forall_forall. intros x Hx%list_elem_of_In%repeat_spec. subst. done.
Qed.

#[local] Instance toy_transport : Transport := {|
  conn := toy;
  t_poll_event c :=
    match ty_events c with [] => (c, None) | e :: es => (c <| ty_events := es |>, Some e) end;
  t_poll_issued_cids c := (c <| ty_issued := [] |>, ty_issued c);
  t_poll_retired_cids c := (c <| ty_retired := [] |>, ty_retired c);
  t_poll_qlog_data c := (c, None);
  t_take_new_token c := (c, None);
  t_read_pkt _ _ d _ c :=
    Done tt (c <| ty_done := true |>
               <| ty_events := ty_events c ++ [StreamData 4 d true] |>);
  t_write_pkt buf _ c := Done (0, PacketInfo_default, None, buf) c;
  t_write_stream_with_flags := toy_write_stream;
  t_write_datagram buf _ _ c := Done (0, false, None, PacketInfo_default, buf) c;
  t_write_connection_close buf _ _ _ := toy_close buf;
  t_write_connection_close_app buf _ _ _ := toy_close buf;
  t_handle_expiry _ c :=
    if ty_idle c then Fail (Ngtcp2 "ERR_IDLE_CLOSE" NGTCP2_ERR_IDLE_CLOSE) c else Done tt c;
  t_submit_new_token _ c := Done tt c;
  t_open_bidi_stream c := Done 0 c;
  t_open_uni_stream c := Done 2 c;
  t_shutdown_stream _ _ c := Done tt c;
  t_shutdown_stream_write _ _ c := Done tt c;
  t_shutdown_stream_write_reliable _ _ c := Done tt c;
  t_shutdown_stream_read _ _ c := Done tt c;
  t_extend_max_stream_offset _ _ c := Done tt c;
  t_extend_max_offset _ c := c;
  t_extend_max_streams_bidi _ c := c;
  t_extend_max_streams_uni _ c := c;
  t_initiate_migration _ _ c := Done tt c;
  t_initiate_key_update _ c := Done tt c;
  t_get_path _ := Some toy_path;
  t_get_expiry _ := u64_max;
  t_is_in_closing_period := ty_closing;
  t_is_in_draining_period _ := false;
  t_is_handshake_completed := ty_done;
  t_is_in_early_data _ := false;
  t_is_early_data_rejected _ := false;
  t_get_connection_error _ :=
    {| Conn.error_code := 0; Conn.reason := []; Conn.is_application := false;
       Conn.has_error := false |};
  t_take_session_ticket c := Done None c;
  t_is_early_data_accepted _ := false;
  t_selected_alpn_protocol _ := None;
  t_negotiated_version _ := Some V1;
  t_stats _ := Params.stats_from_raw
    (Params.Build_ngtcp2_conn_info 0 0 0 0 0 0 0 0 0 0 0 0 0 0 0);
  t_get_cwnd_left _ := 0;
  t_get_max_data_left _ := 0;
  t_get_max_stream_data_left _ _ := 0;
  t_get_streams_bidi_left _ := 0;
  t_get_streams_uni_left _ := 0;
  t_remote_transport_params _ := Ret None;
  t_supports_reset_stream_at _ := Ret false;
  t_can_send_datagram _ := Ret false;
  t_events := ty_events |}.

Lemma toy_write_stream_cases (P : result Error (Z * option Z * option PathInfo * PacketInfo * bytes)
    -> toy -> Prop) buf id d fin ts flags (c : toy) :
  P (Err (StreamDataBlocked id)) c ->
  (toy_ended c id = true -> P (Err (StreamShutWr id)) c) ->
  P (Ok (0, None, None, PacketInfo_default, buf)) c ->
  (forall n k, ty_left c = S n -> buf <> [] -> k = Z.min (slen d) 3 ->
     P (Ok (1, Some k, Some toy_path, PacketInfo_default, buf))
       (c <| ty_left := n |> <| ty_log := ty_log c ++
          [(id, take (Z.to_nat k) d, fin && bool_decide (Some k = Some (slen d)))] |>)) ->
  wp (toy_write_stream buf id d fin ts flags) c P.
Proof.
  intros H1 H2 H3 H4. unfold toy_write_stream, wp.
  destruct (bool_decide (id ∈ ty_blocked c)); [done|].
  destruct (toy_ended c id); [auto|].
  destruct (ty_left c) eqn:Hl; [done|]. destruct buf; [done|]. by apply H4.
Qed.

#[local] Instance toy_transport_doc : TransportDoc.
Proof.
  constructor; try done.
  - intros c. cbn. by destruct (ty_events c).
  - intros c e es H. cbn in *. by rewrite H.
  - intros ts c. unfold wp. cbn. by destruct (ty_idle c).
  - intros buf ts c. cbn. unfold written_ok. pose proof (slen_nonneg buf).
    split; [lia|]. split; [done|intros Hlt; discriminate Hlt].
  - intros. pose proof (slen_nonneg buf). pose proof (slen_nonneg d).
    apply toy_write_stream_cases; try done.
    intros n k _ Hb ->. destruct buf as [|b buf]; [done|].
      unfold written_ok. rewrite slen_cons in *. pose proof (slen_nonneg buf). cbn.
      split; [|lia]. split; [lia|]. split; [done|]. by eexists.
  - intros. apply toy_close_ok.
  - intros. apply toy_close_ok.
  - intros buf d ts c. cbn. unfold written_ok. pose proof (slen_nonneg buf).
    split; [lia|]. split; [done|intros Hlt; discriminate Hlt].
Qed.

#[local] Instance toy_transport_budget : TransportBudget.
Proof.
  refine {| budget _ (c : conn) := ty_left c |}.
  - intros. cbn. lia.
  - intros. apply toy_write_stream_cases; cbn; lia.
Defined.

(** ** The concrete library of Conn.v writes as documented *)

#[local] Existing Instances Tokens.toy_strerror Tokens.toy_api Conn.toy_ngtcp2 Conn.toy_tls
  InFlight.exact_allocator.

Lemma toy_ngtcp2_write_doc {any : Tokens.TokenApi} : Ngtcp2WriteDoc (api := any).
Proof.
  constructor.
  - intros i buf ts u. right. cbn. pose proof (slen_nonneg buf). split; [lia|]. by split.
  - intros i buf flags id d ts u. pose proof (slen_nonneg buf). pose proof (slen_nonneg d).
    cbn. unfold write_out_ok. destruct (Conn.toy_shut i id); cbn; [split; [by left|done]|].
    destruct (Conn.tq_sent i <? 4); cbn; (split; [right|done]);
      (split; [lia|]); (split; [done|]); [intros _; by eexists|lia].
  - intros i buf e ts u. right. cbn. pose proof (slen_nonneg buf). split; [lia|].
    split; [unfold slen; by rewrite length_replicate|].
    apply Forall_take, Forall_replicate. done.
  - intros i buf d ts u. right. cbn. pose proof (slen_nonneg buf). pose proof (slen_nonneg d).
    split; [lia|]. split; [done|]. intros _. by eexists.
  - intros i p Hp. injection Hp as <-. by vm_compute.
Qed.
End Transport.
