(* ===== verification/Streams.v ===== *)
(** * Stream data waiting to be sent (src/tokio-ngtcp2/src/streams.rs)

    [PendingStreams] holds what the application wrote and the connection has not
    accepted yet; [write_packets] writes it, with the control frames, into packets. *)
From stdpp Require Import sorting fin_maps.
From S2P Require Import Prelude Types Errors Packet Conn Effects Transport.
Import Types Errors Effects Transport.

Module Streams.

(** ** Packets to send *)

Record OutgoingPacket := mkPacket {
  op_data : bytes; op_local : SocketAddr; op_remote : SocketAddr; op_ecn : Z }.

Definition from_written (d : bytes) (path : option PathInfo) (ecn : Z)
    : result Error OutgoingPacket :=
  match path with
  | None => Err (Internal "ngtcp2 did not report the path of the written packet")
  | Some path => Ok (mkPacket d (local path) (remote path) ecn)
  end.

Definition close_packets {S} (d : bytes) (local_addr remote_addr : SocketAddr) (ecn : Z)
    : M S (list OutgoingPacket) :=
  match Packet.split_packets d with
  | None => diverge
  | Some Panic => panic
  | Some (Ret packets) =>
      mret (map (fun packet => mkPacket packet local_addr remote_addr ecn) packets)
  end.

(** [&buf[..n]], which panics out of range *)
Definition prefix {S} (buf : bytes) (n : Z) : M S bytes := expect (slice buf 0 n).

(** ** The queue *)

(** A stream's data not sent yet, and whether the stream ends after it. *)
Record PendingStreams := mkPending {
  entries : gmap StreamId (bytes * bool); order : gset StreamId }.

#[export] Instance PendingStreams_eta : Eta PendingStreams := fun p =>
  mkPending (entries p) (order p).

Definition pending_new : PendingStreams := mkPending ∅ ∅.

Definition push (p : PendingStreams) (stream_id : StreamId) (d : bytes) (fin : bool)
    : PendingStreams :=
  let e := default ([], false) (entries p !! stream_id) in
  mkPending (<[stream_id := (e.1 ++ d, e.2 || fin)]> (entries p)) ({[stream_id]} ∪ order p).

Definition remove (stream_id : StreamId) (p : PendingStreams) : PendingStreams :=
  mkPending (delete stream_id (entries p)) (order p ∖ {[stream_id]}).

Definition is_empty (p : PendingStreams) : bool := bool_decide (order p = ∅).

(** A [BTreeSet] iterates in ascending order. *)
Definition ordered_ids (p : PendingStreams) : list StreamId := merge_sort Z.le (elements (order p)).

Definition is_nil {A} (l : list A) : bool := match l with [] => true | _ => false end.

Definition prune (stream_id : StreamId) (p : PendingStreams) : PendingStreams :=
  match entries p !! stream_id with
  | Some (d, fin) => if is_nil d && negb fin then remove stream_id p else p
  | None => p
  end.

(** What becomes of the entry when [consumed] bytes were accepted, with the FIN or
    not. *)
Definition accept (stream_id : StreamId) (consumed : Z) (fin_sent : bool) (p : PendingStreams)
    : PendingStreams :=
  match entries p !! stream_id with
  | Some (d, fin) =>
      let n := Z.min consumed (slen d) in
      p <| entries := <[stream_id := (drop (Z.to_nat n) d, if fin_sent then false else fin)]>
                        (entries p) |>
  | None => p
  end.

(** A written CONNECTION_CLOSE is split into packets that together are what was
    written. *)
Lemma wp_close_packets {S} (d : bytes) l r ecn (s : S) Q :
  are_bytes d ->
  (forall ps, concat (map op_data ps) = d ->
     Forall (fun p => op_data p <> [] /\ op_local p = l /\ op_remote p = r) ps ->
     Q (Ok ps) s) ->
  wp (close_packets d l r ecn) s Q.
Proof.
  intros Hd HQ. unfold close_packets, Packet.split_packets.
  destruct (Packet.split_loop_splits (length d) [] d Hd (le_n _)) as (ps & -> & Hps).
  apply wp_ret. cbn [app]. apply HQ.
  - rewrite map_map. cbn. rewrite map_id. by apply Packet.splits_concat.
  - apply Packet.splits_nonempty in Hps. induction Hps; constructor; done.
Qed.

Lemma concat_sane (ps : list OutgoingPacket) (d : bytes) :
  concat (map op_data ps) = d -> Forall (fun p => op_data p <> []) ps ->
  Forall (fun p => 0 < slen (op_data p) <= slen d) ps.
Proof.
  revert d. induction ps as [|p ps IH]; intros d Hd Hne; [done|]. inversion_clear Hne as [|? ? Hp Hps].
  rewrite <- Hd. cbn. rewrite slen_app. pose proof (slen_nonneg (op_data p)).
  pose proof (slen_nonneg (concat (map op_data ps))). constructor.
  - assert (slen (op_data p) <> 0) by (intros ?%slen_zero_inv; done). lia.
  - eapply Forall_impl; [by apply IH|]. cbn. intros q Hq. lia.
Qed.

Section streams.
Context {tr : Transport}.

(** ** Writing packets *)

(** What [write_packets] borrows mutably. *)
Record io := mkIo { io_conn : conn; io_pending : PendingStreams; io_buf : bytes }.
#[export] Instance io_eta : Eta io := fun s => mkIo (io_conn s) (io_pending s) (io_buf s).

Definition on_conn {A} (m : M conn A) : M io A :=
  zoom io_conn (fun c s => s <| io_conn := c |>) m.
Definition on_pending (f : PendingStreams -> PendingStreams) : M io unit :=
  modify (fun s => s <| io_pending := f (io_pending s) |>).
Definition set_buf (b : bytes) : M io unit := modify (fun s => s <| io_buf := b |>).

Fixpoint write_control_loop (fuel : nat) (ts : Z) (packets : list OutgoingPacket)
    : M io (list OutgoingPacket) :=
  match fuel with
  | O => diverge
  | S fuel =>
      buf ← gets io_buf;
      '(written, info, path, buf) ← on_conn (t_write_pkt buf ts);
      set_buf buf ;;
      if written =? 0 then mret packets
      else
        d ← prefix buf written;
        p ← try (from_written d path (ecn info));
        write_control_loop fuel ts (packets ++ [p])
  end.

Definition write_control_packets (fuel : nat) (ts : Z) : M io (list OutgoingPacket) :=
  write_control_loop fuel ts [].

(** The local variables of a turn of the outer loop. *)
Record turn := mkTurn {
  packets : list OutgoingPacket; wrote_any : bool; wrote_packet : bool; blocked : bool }.
#[export] Instance turn_eta : Eta turn := fun t =>
  mkTurn (packets t) (wrote_any t) (wrote_packet t) (blocked t).

(** The arm of the inner loop for a successful write. *)
Definition written_arm (stream_id : StreamId) (data_len : Z) (fin : bool) (t : turn)
    (r : Z * option Z * option PathInfo * PacketInfo * bytes) : M io turn :=
  let '(written, data_written, path, info, buf) := r in
  set_buf buf ;;
  let consumed := default 0 data_written in
  let fin_accepted := bool_decide (data_written = Some data_len) in
  on_pending (accept stream_id consumed (fin && fin_accepted)) ;;
  on_pending (prune stream_id) ;;
  let t := if (0 <? consumed) || (fin && fin_accepted) then t <| wrote_any := true |> else t in
  if 0 <? written then
    d ← prefix buf written;
    p ← try (from_written d path (ecn info));
    mret (t <| packets := packets t ++ [p] |> <| wrote_packet := true |>)
  else mret t.

(** The inner loop over the streams. *)
Fixpoint write_ids (ids : list StreamId) (ts : Z) (t : turn) : M io turn :=
  match ids with
  | [] => mret t
  | stream_id :: ids =>
      let flags := if is_nil ids then 0 else Conn.NGTCP2_WRITE_STREAM_FLAG_MORE in
      pending ← gets io_pending;
      match entries pending !! stream_id with
      | None => write_ids ids ts t
      | Some (d, fin) =>
          if is_nil d && negb fin then
            on_pending (remove stream_id) ;; write_ids ids ts t
          else
            buf ← gets io_buf;
            r ← attempt (on_conn (t_write_stream_with_flags buf stream_id d fin ts flags));
            match r with
            | Ok r =>
                t ← written_arm stream_id (slen d) fin t r;
                write_ids ids ts t
            | Err (StreamDataBlocked _) => mret (t <| blocked := true |>)
            | Err (StreamShutWr _) => on_pending (remove stream_id) ;; write_ids ids ts t
            | Err e => throw e
            end
      end
  end.

Fixpoint write_loop (fuel : nat) (ts : Z) (ps : list OutgoingPacket) : M io (list OutgoingPacket) :=
  match fuel with
  | O => diverge
  | S fuel' =>
      pending ← gets io_pending;
      t ← write_ids (ordered_ids pending) ts (mkTurn ps false false false);
      control ← write_control_packets fuel ts;
      pending ← gets io_pending;
      let ps := packets t ++ control in
      if (negb (wrote_any t) && negb (wrote_packet t)) || blocked t || is_empty pending
      then mret ps
      else write_loop fuel' ts ps
  end.

Definition write_packets (fuel : nat) (ts : Z) : M io (list OutgoingPacket) :=
  write_loop fuel ts [].

(** ** The size of the queue *)

Definition entry_size (e : bytes * bool) : nat := length e.1 + (if e.2 then 1 else 0).
Definition entries_size (m : gmap StreamId (bytes * bool)) : nat :=
  map_fold (fun _ e n => (entry_size e + n)%nat) 0%nat m.
Definition pending_size (p : PendingStreams) : nat := entries_size (entries p).

Lemma entries_size_insert_None m i e :
  m !! i = None -> entries_size (<[i := e]> m) = (entry_size e + entries_size m)%nat.
Proof. intros H. unfold entries_size. 
  rewrite (map_fold_insert_L (fun _ e n => (entry_size e + n)%nat)); [done| |done].
  intros. lia.
Qed.

Lemma entries_size_lookup m i e :
  m !! i = Some e -> entries_size m = (entry_size e + entries_size (delete i m))%nat.
Proof.
  intros H. rewrite <- (entries_size_insert_None (delete i m) i e) by apply lookup_delete_eq.
  by rewrite insert_delete_id.
Qed.

Lemma entries_size_insert m i e e' :
  m !! i = Some e ->
  (entries_size (<[i := e']> m) + entry_size e = entries_size m + entry_size e')%nat.
Proof.
  intros H. rewrite (entries_size_lookup m i e H).
  rewrite <- (insert_delete_eq m i e'),
    (entries_size_insert_None (delete i m) i e') by apply lookup_delete_eq. lia.
Qed.

Lemma pending_size_remove id p : (pending_size (remove id p) <= pending_size p)%nat.
Proof.
  unfold pending_size, remove. cbn. destruct (entries p !! id) as [e|] eqn:He.
  - rewrite (entries_size_lookup _ _ _ He). lia.
  - by rewrite delete_id.
Qed.

Lemma pending_size_prune id p : (pending_size (prune id p) <= pending_size p)%nat.
Proof.
  unfold prune. destruct (entries p !! id) as [[d fin]|]; [|done].
  destruct (_ && _); [apply pending_size_remove|done].
Qed.

(** Accepting [n] bytes, and the FIN when [sent], removes that much. *)
Lemma pending_size_accept id p d fin n sent :
  entries p !! id = Some (d, fin) -> 0 <= n <= slen d -> (sent = true -> fin = true) ->
  (pending_size (accept id n sent p) + Z.to_nat n + (if sent then 1 else 0) =
   pending_size p)%nat.
Proof.
  intros He Hn Hs. unfold accept. rewrite He. unfold pending_size. cbn.
  pose proof (entries_size_insert (entries p) id (d, fin)
    (drop (Z.to_nat (Z.min n (slen d))) d, if sent then false else fin) He) as H.
  unfold entry_size in H at 1 2. cbn in H. rewrite length_drop in H. unfold slen in *.
  destruct sent; [rewrite Hs in * by done|]; destruct fin; lia.
Qed.

(** ** Well-formed queues *)

Definition pending_wf (p : PendingStreams) : Prop := order p = dom (entries p).

Lemma pending_new_wf : pending_wf pending_new.
Proof. unfold pending_wf. cbn. by rewrite dom_empty_L. Qed.
Lemma push_wf p id d fin : pending_wf p -> pending_wf (push p id d fin).
Proof. unfold pending_wf, push. cbn. intros ->. by rewrite dom_insert_L. Qed.
Lemma remove_wf id p : pending_wf p -> pending_wf (remove id p).
Proof. unfold pending_wf, remove. cbn. intros ->. by rewrite dom_delete_L. Qed.
Lemma prune_wf id p : pending_wf p -> pending_wf (prune id p).
Proof.
  unfold prune. intros Hp. destruct (entries p !! id) as [[d fin]|]; [|done].
  destruct (_ && _); [by apply remove_wf|done].
Qed.
Lemma accept_wf id n sent p : pending_wf p -> pending_wf (accept id n sent p).
Proof.
  unfold accept, pending_wf. intros Hp. destruct (entries p !! id) as [[d fin]|] eqn:He; [|done].
  cbn. rewrite dom_insert_lookup_L; [done|by eexists].
Qed.

Lemma ordered_ids_spec p id : pending_wf p -> id ∈ ordered_ids p <-> is_Some (entries p !! id).
Proof.
  intros Hp. unfold ordered_ids. rewrite (merge_sort_Permutation Z.le), elem_of_elements, Hp.
  apply elem_of_dom.
Qed.

Lemma is_nil_true {A} (l : list A) : is_nil l = true <-> l = [].
Proof. by destruct l. Qed.

(** The queue after a write that took [dw] bytes of stream [id]. *)
Definition after_write (id : StreamId) (d : bytes) (fin : bool) (dw : option Z)
    (p : PendingStreams) : PendingStreams :=
  prune id (accept id (default 0 dw) (fin && bool_decide (dw = Some (slen d))) p).

(** ** One invariant for the whole of [write_packets] *)

Definition sane (n : Z) (p : OutgoingPacket) : Prop := 0 < slen (op_data p) <= n.

Lemma wp_prefix {S} (buf : bytes) n (s : S) Q :
  0 <= n <= slen buf -> Q (Ok (take (Z.to_nat n) buf)) s -> wp (prefix buf n) s Q.
Proof.
  intros Hn HQ. eapply wp_expect; [|exact HQ]. unfold slice.
  destruct (Z.leb_spec 0 0), (Z.leb_spec 0 n), (Z.leb_spec n (slen buf)); try lia. cbn.
  by rewrite drop_0, Z.sub_0_r.
Qed.

(** A packet cut from the buffer. *)
Lemma wp_packet {A} buf n path pi (s : io) (k : OutgoingPacket -> M io A) Q :
  0 < n <= slen buf -> (exists p, path = Some p) ->
  (forall p, sane (slen buf) p -> wp (k p) s Q) ->
  wp (d ← prefix buf n; p ← try (from_written d path (ecn pi)); k p) s Q.
Proof.
  intros Hn [p ->] Hk. apply wp_bind, wp_prefix; [lia|].
  apply wp_bind, wp_try. cbn. apply Hk. unfold sane. cbn. rewrite slen_take; lia.
Qed.

Section invariant.
Context {doc : TransportDoc} {bud : TransportBudget}.
Context (ts : Z) (I : conn -> PendingStreams -> Prop).
Context (I_write : forall buf id d fin flags c p,
  Z.testbit flags 1 = false -> entries p !! id = Some (d, fin) -> I c p ->
  wp (t_write_stream_with_flags buf id d fin ts flags) c (fun r c' =>
    match r with
    | Ok (_, dw, _, _, _) => I c' (after_write id d fin dw p)
    | Err (StreamShutWr _) => I c' (remove id p)
    | Err _ => I c' p
    end)).
Context (I_remove : forall id c p, entries p !! id = Some ([], false) -> I c p ->
  I c (remove id p)).
Context (I_pkt : forall buf c p, I c p -> wp (t_write_pkt buf ts) c (fun _ c' => I c' p)).

Definition measure (s : io) : nat := (budget ts (io_conn s) + pending_size (io_pending s))%nat.

(** What a step of the loops from [s] to [s'] keeps, [m] more than the measure being
    allowed. *)
Record kept (s s' : io) : Prop := {
  kept_inv : I (io_conn s') (io_pending s');
  kept_buf : slen (io_buf s') = slen (io_buf s) }.

Lemma kept_trans s1 s2 s3 : kept s1 s2 -> kept s2 s3 -> kept s1 s3.
Proof. intros [H1 H2] [H3 H4]. constructor; [done|congruence]. Qed.

Lemma write_control_loop_spec fuel ps s :
  (budget ts (io_conn s) < fuel)%nat -> I (io_conn s) (io_pending s) ->
  wp (write_control_loop fuel ts ps) s (fun r s' =>
    kept s s' /\
    match r with
    | Ok ps' => (measure s' <= measure s)%nat /\
        exists new, ps' = ps ++ new /\ Forall (sane (slen (io_buf s))) new
    | Err _ => True
    end).
Proof.
  revert ps s. induction fuel as [|fuel IH]; intros ps s Hf HI; [lia|]. cbn [write_control_loop].
  apply wp_bind, wp_gets, wp_bind, wp_zoom.
  eapply wp_mono; [exact (wp_and _ _ _ _ (write_pkt_spec (io_buf s) ts (io_conn s))
    (wp_and _ _ _ _ (budget_write_pkt (io_buf s) ts (io_conn s)) (I_pkt _ _ _ HI)))|].
  intros [[[[n pi] path] buf]|e] c (Hw & Hb & HI'); [|split; [by constructor|done]].
  destruct Hw as (Hn & Hl & Hp). apply wp_bind, wp_modify.
  destruct (Z.eqb_spec n 0) as [->|Hne].
  - apply wp_ret. split; [by constructor|]. split.
    + unfold measure. cbn in *. lia.
    + exists []. by rewrite app_nil_r.
  - destruct (Z.ltb_spec 0 n); [|lia]. apply wp_packet; [lia|auto|]. intros p Hsane.
    eapply wp_mono; [apply IH; cbn; [lia|done]|].
    intros r s' [[Hi Hlen] Hr]. cbn in *. split; [constructor; [done|congruence]|].
    destruct r as [ps'|]; [|done]. destruct Hr as (Hm & new & -> & Hnew). split.
    + unfold measure in *. cbn in *. lia.
    + exists (p :: new). rewrite <- app_assoc. split; [done|]. rewrite <- Hl. by constructor.
Qed.

(** A turn that made progress paid for it. *)
Definition score (t : turn) : nat := if wrote_any t || wrote_packet t then 1 else 0.

Definition turn_ok (s : io) (t : turn) (r : result Error turn) (s' : io) : Prop :=
  kept s s' /\
  match r with
  | Ok t' => (measure s' + score t' <= measure s + score t)%nat /\
      exists new, packets t' = packets t ++ new /\ Forall (sane (slen (io_buf s))) new
  | Err _ => True
  end.

Lemma turn_ok_refl s t : I (io_conn s) (io_pending s) -> turn_ok s t (Ok t) s.
Proof.
  intros HI. split; [by constructor|]. split; [lia|]. exists []. by rewrite app_nil_r.
Qed.

Lemma turn_ok_trans s t s1 t1 r s2 :
  turn_ok s t (Ok t1) s1 -> turn_ok s1 t1 r s2 -> turn_ok s t r s2.
Proof.
  intros [Hk1 (Hm1 & n1 & Hp1 & Hs1)] [Hk2 Hr]. split; [by eapply kept_trans|].
  destruct r as [t'|]; [|done]. destruct Hr as (Hm2 & n2 & Hp2 & Hs2). split; [lia|].
  exists (n1 ++ n2). rewrite Hp2, Hp1, app_assoc. split; [done|].
  apply Forall_app. split; [done|]. by rewrite <- (kept_buf _ _ Hk1).
Qed.

(** Dropping an entry *)
Lemma turn_ok_remove s t id :
  I (io_conn s) (remove id (io_pending s)) ->
  turn_ok s t (Ok t) (s <| io_pending := remove id (io_pending s) |>).
Proof.
  intros HI. split; [by constructor|]. split.
  - unfold measure. cbn. pose proof (pending_size_remove id (io_pending s)). lia.
  - exists []. by rewrite app_nil_r.
Qed.

Lemma written_arm_spec s t id d fin r c :
  entries (io_pending s) !! id = Some (d, fin) ->
  (let '(n, dw, path, pi, buf) := r in
   written_ok (io_buf s) n path buf /\ 0 <= default 0 dw <= slen d /\
   (budget ts c + (if (0 <? n)%Z then 1 else 0) <= budget ts (io_conn s))%nat /\
   I c (after_write id d fin dw (io_pending s))) ->
  wp (written_arm id (slen d) fin t r) (s <| io_conn := c |>) (turn_ok s t).
Proof.
  destruct r as [[[[n dw] path] pi] buf]. intros He ((Hn & Hl & Hp) & Hdw & Hb & HI).
  unfold written_arm. apply wp_bind, wp_modify, wp_bind, wp_modify, wp_bind, wp_modify.
  cbn [io_conn io_pending io_buf update].
  set (sent := fin && bool_decide (dw = Some (slen d))).
  set (p' := after_write id d fin dw (io_pending s)).
  set (t1 := if _ || _ then _ else t).
  assert (pending_size p' + Z.to_nat (default 0%Z dw) + (if sent then 1 else 0)
    <= pending_size (io_pending s))%nat as Hsize.
  { unfold p', after_write. pose proof (pending_size_prune id
      (accept id (default 0 dw) sent (io_pending s))).
    pose proof (pending_size_accept id (io_pending s) d fin (default 0 dw) sent He Hdw) as Ha.
    fold sent. rewrite <- Ha; [lia|]. unfold sent. by destruct fin. }
  assert (score t1 <= score t + Z.to_nat (default 0%Z dw) + (if sent then 1 else 0))%nat as Hscore.
  { unfold t1, score. destruct (Z.ltb_spec 0 (default 0 dw)), sent; cbn;
      repeat (destruct (_ || _)); lia. }
  assert (packets t1 = packets t) as Hpk by (unfold t1; by destruct (_ || _)).
  set (s' := mkIo c p' buf).
  assert (kept s s') as Hk by (constructor; done).
  change (wp (if 0 <? n then
      d ← prefix buf n; p ← try (from_written d path (ecn pi));
      mret (t1 <| packets := packets t1 ++ [p] |> <| wrote_packet := true |>)
    else mret t1) s' (turn_ok s t)).
  destruct (Z.ltb_spec 0 n) as [Hpos|_].
  - apply wp_packet; [lia|auto|]. intros p Hs. apply wp_ret. split; [done|]. split.
    + unfold measure, score. cbn. rewrite orb_true_r. lia.
    + exists [p]. cbn. rewrite Hpk, <- Hl. split; [done|]. by constructor.
  - apply wp_ret. split; [done|]. split.
    + unfold measure. cbn. lia.
    + exists []. by rewrite app_nil_r.
Qed.

Lemma write_ids_spec ids s t :
  I (io_conn s) (io_pending s) -> wp (write_ids ids ts t) s (turn_ok s t).
Proof.
  revert s t. induction ids as [|id ids IH]; intros s t HI.
  { apply wp_ret. by apply turn_ok_refl. }
  assert (forall s1 t1, turn_ok s t (Ok t1) s1 -> wp (write_ids ids ts t1) s1 (turn_ok s t))
    as Hnext.
  { intros s1 t1 H1. eapply wp_mono; [apply IH; apply H1|].
    intros r s2. by apply turn_ok_trans. }
  cbn [write_ids]. apply wp_bind, wp_gets.
  destruct (entries (io_pending s) !! id) as [[d fin]|] eqn:He; [|by apply IH].
  destruct (is_nil d && negb fin) eqn:Hempty.
  { apply wp_bind, wp_modify, Hnext, turn_ok_remove.
    apply andb_prop in Hempty as [->%is_nil_true Hf%negb_true_iff]. subst fin. auto. }
  apply wp_bind, wp_gets, wp_bind, wp_attempt, wp_zoom.
  set (fl := if is_nil ids then _ else _).
  eapply wp_mono; [exact (wp_and _ _ _ _ (write_stream_spec (io_buf s) id d fin ts fl (io_conn s))
    (wp_and _ _ _ _ (budget_write_stream (io_buf s) id d fin ts fl (io_conn s))
      (I_write (io_buf s) id d fin fl _ _ ltac:(unfold fl; by destruct (is_nil ids)) He HI)))|].
  intros [r|e] c (Hw & Hb & HI').
  - apply wp_bind. eapply wp_mono.
    { apply written_arm_spec with (s := s); [done|]. destruct r as [[[[n dw] path] pi] buf].
      destruct Hw. auto. }
    intros [t1|e] s1 H1; [by apply Hnext|]. by destruct H1.
  - assert (turn_ok s t (Err e) (s <| io_conn := c |>) \/ exists i, e = StreamShutWr i) as Hcase.
    { destruct e; [..|right; by eexists|]; left; by repeat constructor. }
    destruct e; try (by destruct Hcase as [?|[? ?]]).
    + apply wp_ret. split; [by constructor|]. split.
      * unfold measure, score. cbn. cbn in Hb. lia.
      * exists []. by rewrite app_nil_r.
    + apply wp_bind, wp_modify, Hnext. split; [by constructor|]. split.
      * unfold measure. cbn. pose proof (pending_size_remove id (io_pending s)). lia.
      * exists []. by rewrite app_nil_r.
Qed.

(** [write_packets] returns, with packets that fit the buffer, and keeps the
    invariant whether it fails or not. *)
Lemma write_loop_spec fuel ps s :
  (measure s < fuel)%nat -> I (io_conn s) (io_pending s) ->
  wp (write_loop fuel ts ps) s (fun r s' =>
    kept s s' /\
    match r with
    | Ok ps' => exists new, ps' = ps ++ new /\ Forall (sane (slen (io_buf s))) new
    | Err _ => True
    end).
Proof.
  revert ps s. induction fuel as [|fuel IH]; intros ps s Hf HI; [lia|]. cbn [write_loop].
  apply wp_bind, wp_gets, wp_bind. eapply wp_mono; [by apply write_ids_spec|].
  intros [t|e] s1 [Hk1 H1]; [|done]. destruct H1 as (Hm1 & n1 & Hp1 & Hs1).
  apply wp_bind. eapply wp_mono.
  { apply write_control_loop_spec; [|apply Hk1]. unfold measure, score in *. cbn in Hm1. lia. }
  intros [control|e] s2 [Hk2 H2]; [|split; [by eapply kept_trans|done]].
  destruct H2 as (Hm2 & n2 & Hp2 & Hs2). cbn in Hp1, Hp2. apply wp_bind, wp_gets.
  assert (kept s s2) as Hk by by eapply kept_trans.
  assert (Forall (sane (slen (io_buf s))) (n1 ++ n2)) as Hs.
  { apply Forall_app. split; [done|]. by rewrite <- (kept_buf _ _ Hk1). }
  rewrite Hp1, Hp2, <- app_assoc.
  destruct (_ || is_empty (io_pending s2)) eqn:Hstop.
  - apply wp_ret. split; [done|]. by exists (n1 ++ n2).
  - eapply wp_mono; [apply IH; [|apply Hk]|].
    + unfold score in Hm1. cbn in Hm1. destruct (wrote_any t), (wrote_packet t); cbn in *;
        try lia; done.
    + intros r s3 [Hk3 H3]. split; [by eapply kept_trans|]. destruct r as [ps'|]; [|done].
      destruct H3 as (n3 & -> & Hs3). exists ((n1 ++ n2) ++ n3).
      rewrite <- !app_assoc. split; [done|]. rewrite app_assoc. apply Forall_app.
      split; [done|]. by rewrite <- (kept_buf _ _ Hk).
Qed.
End invariant.

(** ** What the connection accepted *)

(** The bytes and the end of each stream that the connection has accepted, and what
    the documentation of [ngtcp2_conn_writev_stream] says of them: it takes a prefix
    of the data, the FIN only with all of the data, nothing on an error, and it
    reports [NGTCP2_ERR_STREAM_SHUT_WR] only when the sending side has ended. The caller
    asks for the FIN with [fin] and not with bit 1 of the flags. *)
Class TransportAccept := {
  accepted : conn -> StreamId -> bytes;
  ended : conn -> StreamId -> bool;
  accept_write_stream buf id d fin ts flags c : Z.testbit flags 1 = false ->
    wp (t_write_stream_with_flags buf id d fin ts flags) c (fun r c' =>
      match r with
      | Ok (_, dw, _, _, _) =>
          forall i,
            accepted c' i = accepted c i ++
              (if bool_decide (i = id) then take (Z.to_nat (default 0 dw)) d else []) /\
            ended c' i = ended c i ||
              (bool_decide (i = id) && (fin && bool_decide (dw = Some (slen d))))
      | Err e =>
          (forall i, accepted c' i = accepted c i /\ ended c' i = ended c i) /\
          (forall i, e = StreamShutWr i -> ended c id = true)
      end);
  accept_write_pkt buf ts c : wp (t_write_pkt buf ts) c (fun _ c' =>
    forall i, accepted c' i = accepted c i /\ ended c' i = ended c i) }.

Definition pending_data (p : PendingStreams) (id : StreamId) : bytes :=
  default [] (fst <$> entries p !! id).
Definition pending_fin (p : PendingStreams) (id : StreamId) : bool :=
  default false (snd <$> entries p !! id).

Lemma after_write_other id i d fin dw p :
  i <> id -> entries (after_write id d fin dw p) !! i = entries p !! i.
Proof.
  intros Hi. unfold after_write, prune, remove, accept.
  repeat case_match; cbn; rewrite ?lookup_delete_ne, ?lookup_insert_ne by congruence; done.
Qed.

Lemma after_write_same id d fin dw p :
  entries p !! id = Some (d, fin) -> 0 <= default 0 dw <= slen d ->
  let e := (drop (Z.to_nat (default 0 dw)) d, fin && negb (bool_decide (dw = Some (slen d)))) in
  entries (after_write id d fin dw p) !! id =
    if is_nil e.1 && negb e.2 then None else Some e.
Proof.
  intros He Hd. cbn. unfold after_write, accept, prune. rewrite He. cbn.
  rewrite lookup_insert_eq, Z.min_l by lia.
  replace (if fin && _ then false else fin)
    with (fin && negb (bool_decide (dw = Some (slen d))))
    by (by destruct fin, (bool_decide _)).
  destruct (is_nil _ && negb _) eqn:Hcase; cbn; [apply lookup_delete_eq|apply lookup_insert_eq].
Qed.

Section accepting.
Context {doc : TransportDoc} {bud : TransportBudget} {acc : TransportAccept}.

(** Stream [id] lost and gained nothing: [total] is everything ever written to it. *)
Definition conserved (id : StreamId) (total : bytes) (fin : bool) (c : conn)
    (p : PendingStreams) : Prop :=
  accepted c id ++ pending_data p id = total /\
  ended c id || pending_fin p id = fin /\
  (ended c id = true -> entries p !! id = None).

Lemma conserved_write id total f buf i d fin flags ts c p :
  Z.testbit flags 1 = false -> entries p !! i = Some (d, fin) -> conserved id total f c p ->
  wp (t_write_stream_with_flags buf i d fin ts flags) c (fun r c' =>
    match r with
    | Ok (_, dw, _, _, _) => conserved id total f c' (after_write i d fin dw p)
    | Err (StreamShutWr _) => conserved id total f c' (remove i p)
    | Err _ => conserved id total f c' p
    end).
Proof.
  intros Hfl He (Ht & Hf & Hend).
  eapply wp_mono; [exact (wp_and _ _ _ _ (accept_write_stream buf i d fin ts flags c Hfl)
    (write_stream_spec buf i d fin ts flags c))|].
  intros [[[[[n dw] path] pi] buf']|e] c' [Ha Hw].
  - destruct (Ha id) as [Hacc Hended]. destruct Hw as [_ Hdw]. unfold conserved.
    unfold pending_data, pending_fin in *. rewrite Hacc, Hended.
    destruct (decide (id = i)) as [<-|Hne].
    + rewrite after_write_same by done. rewrite He in *. cbn in *.
      rewrite bool_decide_true by done. cbn.
      destruct (ended c id); [by specialize (Hend eq_refl)|]. cbn in *. subst.
      destruct (bool_decide (dw = Some (slen d))) eqn:Hall; cbn.
      * apply bool_decide_eq_true in Hall as ->. cbn. unfold slen.
        rewrite Nat2Z.id, drop_all, firstn_all, andb_false_r, andb_true_r. cbn.
        by rewrite andb_true_r, app_nil_r, orb_false_r.
      * rewrite andb_false_r, andb_true_r. cbn. rewrite <- app_assoc.
        destruct (is_nil (drop (Z.to_nat (default 0 dw)) d) && negb f) eqn:Hnil; cbn.
        -- apply andb_prop in Hnil as [Hd%is_nil_true Hn%negb_true_iff]. subst f.
           split; [|done]. f_equal. rewrite <- (take_drop (Z.to_nat (default 0 dw)) d) at 2.
           by rewrite Hd.
        -- split; [|done]. by rewrite take_drop.
    + rewrite after_write_other by done. rewrite bool_decide_false by done. cbn.
      rewrite app_nil_r, orb_false_r. done.
  - destruct Ha as [Ha Hshut]. destruct (Ha id) as [Hacc Hended].
    assert (conserved id total f c' p) as Hsame
      by (unfold conserved; rewrite Hacc, Hended; done).
    destruct e; try done. destruct (decide (id = i)) as [<-|Hne].
    + specialize (Hshut _ eq_refl). by rewrite (Hend Hshut) in He.
    + unfold conserved, pending_data, pending_fin, remove in *. cbn.
      rewrite lookup_delete_ne by done. done.
Qed.

Lemma conserved_pkt id total f buf ts c p :
  conserved id total f c p -> wp (t_write_pkt buf ts) c (fun _ c' => conserved id total f c' p).
Proof.
  intros H. eapply wp_mono; [apply accept_write_pkt|]. intros r c' Ha. unfold conserved in *.
  by destruct (Ha id) as [-> ->].
Qed.

Lemma conserved_remove id total f i c p :
  entries p !! i = Some ([], false) -> conserved id total f c p ->
  conserved id total f c (remove i p).
Proof.
  intros He (Ht & Hf & Hend). unfold conserved, pending_data, pending_fin, remove in *. cbn.
  destruct (decide (id = i)) as [<-|Hne].
  - rewrite lookup_delete_eq. rewrite He in *. cbn in *. done.
  - rewrite lookup_delete_ne by done. done.
Qed.
End accepting.

(** What [write_packets] makes of the queue, the buffer and the packets. *)
Lemma write_packets_wp {doc : TransportDoc} {bud : TransportBudget} fuel ts s :
  (budget ts (io_conn s) + pending_size (io_pending s) < fuel)%nat ->
  pending_wf (io_pending s) ->
  wp (write_packets fuel ts) s (fun r s' =>
    pending_wf (io_pending s') /\ slen (io_buf s') = slen (io_buf s) /\
    match r with
    | Ok packets => Forall (sane (slen (io_buf s))) packets
    | Err _ => True
    end).
Proof.
  intros Hfuel Hwf. eapply wp_mono.
  { apply (write_loop_spec ts (fun _ p => pending_wf p)); [..|exact Hfuel|exact Hwf].
    - intros buf id d fin fl c p _ He Hp. eapply wp_mono; [apply write_stream_spec|].
      intros [[[[[n dw] path] pi] b]|[]] c' _; try done;
        [unfold after_write; by apply prune_wf, accept_wf|by apply remove_wf].
    - intros id c p _ Hp. by apply remove_wf.
    - intros buf c p Hp. eapply wp_mono; [apply write_pkt_spec|done]. }
  intros [ps|e] s' [[Hinv Hbuf] H]; [|done]. by destruct H as (new & -> & H).
Qed.

(** ** Properties *)

(** C11: [write_packets] terminates without a panic, whatever the connection accepts and
    refuses: a number of turns beyond the packets the connection can still write and
    the bytes and FINs that wait is enough. Every packet is non-empty and fits the
    send buffer, and the queue keeps its entries and its order in agreement. *)
Theorem write_packets_terminates {doc : TransportDoc} {bud : TransportBudget}
    (fuel : nat) (ts : Z) (s : io)
    (Hfuel : (budget ts (io_conn s) + pending_size (io_pending s) < fuel)%nat)
    (Hwf : pending_wf (io_pending s)) :
  wp (write_packets fuel ts) s (fun r s' =>
    pending_wf (io_pending s') /\
    match r with
    | Ok packets => Forall (fun p => 0 < slen (op_data p) <= slen (io_buf s)) packets
    | Err _ => True
    end).
Proof. by eapply wp_mono; [apply write_packets_wp|intros r s' (H1 & _ & H2)]. Qed.

(** C6: no byte of a stream is lost, repeated or reordered by [write_packets], even
    when it fails: what the connection accepted followed by what still waits is what
    it was before, the end of the stream is accepted exactly when it no longer waits,
    and it is accepted only after all the data. *)
Theorem write_packets_conserves {doc : TransportDoc} {bud : TransportBudget}
    {acc : TransportAccept} (fuel : nat) (ts : Z) (s : io) (id : StreamId)
    (Hfuel : (budget ts (io_conn s) + pending_size (io_pending s) < fuel)%nat)
    (Hopen : ended (io_conn s) id = false) :
  wp (write_packets fuel ts) s (fun _ s' =>
    accepted (io_conn s') id ++ pending_data (io_pending s') id =
      accepted (io_conn s) id ++ pending_data (io_pending s) id /\
    ended (io_conn s') id || pending_fin (io_pending s') id = pending_fin (io_pending s) id /\
    (ended (io_conn s') id = true -> pending_data (io_pending s') id = [])).
Proof.
  eapply wp_mono.
  { apply (write_loop_spec ts (conserved id (accepted (io_conn s) id ++ pending_data (io_pending s) id)
      (pending_fin (io_pending s) id))); [..|done|].
    - intros. by apply conserved_write.
    - intros. by apply conserved_remove.
    - intros. by apply conserved_pkt.
    - unfold conserved. rewrite Hopen. done. }
  intros r s' [[(Ha & Hf & He) _] _]. split; [done|]. split; [done|].
  intros H. unfold pending_data. by rewrite (He H).
Qed.

(** A stream that flow control blocks ends the turn: when the stream with the
    lowest id is blocked, [write_packets] only writes control packets, and no stream
    with a higher id is offered to the connection, however much window it has. *)
Theorem blocked_stream_starves (fuel : nat) (ts : Z) (s : io) (id i : StreamId)
    (ids : list StreamId) (d : bytes) (fin : bool) (c : conn)
    (Hids : ordered_ids (io_pending s) = id :: ids)
    (He : entries (io_pending s) !! id = Some (d, fin))
    (Hd : is_nil d && negb fin = false)
    (Hblocked : t_write_stream_with_flags (io_buf s) id d fin ts
       (if is_nil ids then 0 else Conn.NGTCP2_WRITE_STREAM_FLAG_MORE) (io_conn s)
       = Fail (StreamDataBlocked i) c) :
  write_packets (S fuel) ts s = write_control_packets (S fuel) ts (s <| io_conn := c |>).
Proof.
  unfold write_packets. cbn [write_loop]. unfold mbind, M_bind, gets. cbn beta iota zeta.
  rewrite Hids. cbn [write_ids]. unfold mbind, M_bind, gets. cbn beta iota zeta.
  rewrite He, Hd. unfold attempt, on_conn, zoom. rewrite Hblocked. cbn beta iota zeta.
  unfold mret, M_ret. destruct (write_control_packets _ _ _); done.
Qed.

End streams.

(** ** Witnesses *)

#[local] Existing Instances toy_transport toy_transport_doc toy_transport_budget.
#[local] Instance toy_transport_accept : TransportAccept (tr := toy_transport).
Proof.
  refine {| accepted := (toy_accepted : conn -> StreamId -> bytes);
            ended := (toy_ended : conn -> StreamId -> bool) |}.
  - intros. apply toy_write_stream_cases.
    + split; [done|]. intros i. discriminate.
    + intros Hend. split; [done|]. intros _ _. exact Hend.
    + intros i. cbn. by destruct (bool_decide _); rewrite app_nil_r, ?andb_false_r, orb_false_r.
    + intros n k _ _ _ i. unfold toy_accepted, toy_ended. cbn.
      rewrite map_app, concat_app, existsb_app. cbn.
      by rewrite app_nil_r, orb_false_r, andb_assoc, <- andb_assoc.
  - done.
Defined.

(** Streams 0 and 4 wait, 0 with five bytes and its end. *)
Definition toy_pending : PendingStreams :=
  push (push pending_new 4 [9] false) 0 [1; 2; 3; 4; 5] true.
Definition toy_io (blocked : list StreamId) : io (tr := toy_transport) :=
  mkIo (tr := toy_transport) (toy_new <| ty_blocked := blocked |>) toy_pending [0; 0].

Lemma write_packets_terminates_witness :
  wp (write_packets (tr := toy_transport) 20 7) (toy_io []) (fun r s' =>
    pending_wf (io_pending s') /\
    match r with
    | Ok packets => Forall (fun p => 0 < slen (op_data p) <= 2) packets
    | Err _ => True
    end).
Proof.
  apply (write_packets_terminates (tr := toy_transport) 20 7 (toy_io [])).
  - vm_compute. lia.
  - apply push_wf, push_wf, pending_new_wf.
Defined.

Lemma write_packets_conserves_witness :
  wp (write_packets (tr := toy_transport) 20 7) (toy_io []) (fun _ s' =>
    accepted (io_conn s') 0 ++ pending_data (io_pending s') 0 = [1; 2; 3; 4; 5] /\
    ended (io_conn s') 0 || pending_fin (io_pending s') 0 = true /\
    (ended (io_conn s') 0 = true -> pending_data (io_pending s') 0 = [])).
Proof.
  refine (write_packets_conserves (tr := toy_transport) 20 7 (toy_io []) 0 _ _).
  - vm_compute. lia.
  - reflexivity.
Defined.

Lemma blocked_stream_starves_witness :
  write_packets (tr := toy_transport) 20 7 (toy_io [0]) =
    write_control_packets (tr := toy_transport) 20 7 (toy_io [0]).
Proof.
  apply (blocked_stream_starves (tr := toy_transport) 19 7 (toy_io [0]) 0 0 [4]
    [1; 2; 3; 4; 5] true); reflexivity.
Defined.
End Streams.
