(* ===== verification/Limiter.v ===== *)
(** * The Stateless Reset rate limiter (src/tokio-ngtcp2/src/server.rs, 462-510)

    A token bucket without a timer, on 64-bit nanoseconds with saturating
    arithmetic. *)
From S2P Require Import Prelude.

Module Limiter.

Definition STATELESS_RESET_BURST : Z := 100.
Definition STATELESS_RESET_RATE : Z := 33.
Definition NANOS_PER_SEC : Z := 1000000000.

Record StatelessResetLimiter := mkLimiter { bucket : Z; last_refill_ts : Z }.
#[export] Instance StatelessResetLimiter_eta : Eta StatelessResetLimiter := fun l =>
  mkLimiter (bucket l) (last_refill_ts l).

Definition new : StatelessResetLimiter := mkLimiter STATELESS_RESET_BURST 0.

Definition refill (ts : Z) (l : StatelessResetLimiter) : StatelessResetLimiter :=
  let elapsed := sat_sub ts (last_refill_ts l) in
  let n := sat_mul elapsed STATELESS_RESET_RATE / NANOS_PER_SEC in
  if n =? 0 then l
  else
    let l := l <| bucket := Z.min (sat_add (bucket l) n) STATELESS_RESET_BURST |> in
    let consumed := sat_mul n NANOS_PER_SEC / STATELESS_RESET_RATE in
    l <| last_refill_ts := sat_add (last_refill_ts l) consumed |>.

Definition try_acquire (ts : Z) (l : StatelessResetLimiter) : StatelessResetLimiter * bool :=
  let l := refill ts l in
  if bucket l =? 0 then (l, false) else (l <| bucket := bucket l - 1 |>, true).

(** Requests at the given times, and how many were granted. *)
Fixpoint grants (tss : list Z) (l : StatelessResetLimiter) : StatelessResetLimiter * Z :=
  match tss with
  | [] => (l, 0)
  | ts :: tss =>
      let '(l, ok) := try_acquire ts l in
      let '(l, n) := grants tss l in
      (l, n + (if ok then 1 else 0))
  end.

(** ** Lemmas *)

Definition wf (t : Z) (l : StatelessResetLimiter) : Prop :=
  0 <= bucket l <= STATELESS_RESET_BURST /\ 0 <= last_refill_ts l <= t.

(** A token takes at least this many nanoseconds, and at most one more. *)
Definition TOKEN_NANOS : Z := 30303030.

Ltac unfold_limiter :=
  unfold wf, refill, sat_sub, sat_mul, sat_add, STATELESS_RESET_BURST, STATELESS_RESET_RATE,
    NANOS_PER_SEC, TOKEN_NANOS, u64_max in *.

(** A refill adds at most a token per [TOKEN_NANOS] by which it advances its time,
    which stays in the past. *)
Lemma refill_spec t ts l :
  wf t l -> 0 <= ts <= t -> t <= u64_max ->
  let l' := refill ts l in
  wf t l' /\ bucket l <= bucket l' /\ last_refill_ts l <= last_refill_ts l' /\
  TOKEN_NANOS * (bucket l' - bucket l) <= last_refill_ts l' - last_refill_ts l.
Proof.
  intros Hwf Hts Ht. cbv zeta. unfold_limiter. eval_pow2.
  change (18446744073709551616 - 1) with 18446744073709551615 in *.
  set (e := Z.max (ts - last_refill_ts l) 0).
  set (n := Z.min (e * 33) 18446744073709551615 / 1000000000).
  assert (0 <= n /\ n * 1000000000 <= e * 33 /\ n <= 18446744073) as (Hn0 & Hn & Hnm)
    by (unfold n; lia).
  destruct (Z.eqb_spec n 0) as [_|Hne]; [lia|]. cbn.
  rewrite (Z.min_l (n * 1000000000)) by lia.
  set (k := n * 1000000000 / 33). assert (30303030 * n <= k <= e) as Hk by (unfold k; lia).
  lia.
Qed.

(** After [TOKEN_NANOS + 1] there is a token. *)
Lemma refill_progress t ts l :
  wf t l -> 0 <= ts <= t -> t <= u64_max -> last_refill_ts l + TOKEN_NANOS + 1 <= ts ->
  0 < bucket (refill ts l).
Proof.
  intros Hwf Hts Ht He. unfold_limiter. eval_pow2.
  change (18446744073709551616 - 1) with 18446744073709551615 in *.
  set (e := Z.max (ts - last_refill_ts l) 0).
  set (n := Z.min (e * 33) 18446744073709551615 / 1000000000).
  assert (1 <= n) by (unfold n; lia).
  destruct (Z.eqb_spec n 0); [lia|]. cbn. lia.
Qed.

(** Tokens granted cost time: the heart of the bound. *)
Lemma grants_spec t tss l l' n :
  t <= u64_max -> Forall (fun ts => 0 <= ts <= t) tss -> wf t l ->
  grants tss l = (l', n) ->
  wf t l' /\ last_refill_ts l <= last_refill_ts l' /\ 0 <= n /\
  TOKEN_NANOS * (n + bucket l' - bucket l) <= last_refill_ts l' - last_refill_ts l.
Proof.
  intros Ht Htss. revert l l' n. induction Htss as [|ts tss Hts _ IH]; intros l l' n Hwf.
  { intros [= <- <-]. unfold wf in *. lia. }
  cbn [grants]. unfold try_acquire.
  pose proof (refill_spec t ts l Hwf Hts Ht) as (Hwf1 & Hb & Hl & Hc). cbv zeta in *.
  set (l1 := refill ts l) in *. clearbody l1.
  destruct (Z.eqb_spec (bucket l1) 0) as [H0|H0].
  - destruct (grants tss _) as [l2 n2] eqn:Hg. intros [= <- <-].
    destruct (IH _ _ _ Hwf1 Hg) as (? & ? & ? & ?). unfold TOKEN_NANOS in *. split; [done|]. lia.
  - assert (wf t (l1 <| bucket := bucket l1 - 1 |>)) as Hwf2
      by (unfold wf in *; cbn; lia).
    destruct (grants tss _) as [l2 n2] eqn:Hg. intros [= <- <-].
    destruct (IH _ _ _ Hwf2 Hg) as (? & ? & ? & ?). cbn in *.
    unfold TOKEN_NANOS in *. split; [done|]. lia.
Qed.

(** Without saturation (17 years), a refill leaves less than a token's time unused. *)
Lemma refill_recent t ts l :
  wf t l -> 0 <= ts <= t -> t * STATELESS_RESET_RATE <= u64_max ->
  ts - (TOKEN_NANOS + 1) <= last_refill_ts (refill ts l).
Proof.
  intros Hwf Hts Ht. unfold_limiter. eval_pow2.
  change (18446744073709551616 - 1) with 18446744073709551615 in *.
  set (e := Z.max (ts - last_refill_ts l) 0).
  rewrite Z.min_l by lia.
  set (n := e * 33 / 1000000000).
  assert (0 <= n /\ e * 33 < n * 1000000000 + 1000000000 /\ n <= 18446744073) as (Hn0 & Hn & Hnm)
    by (unfold n; lia).
  destruct (Z.eqb_spec n 0) as [->|Hne]; [lia|]. cbn.
  rewrite (Z.min_l (n * 1000000000)) by lia.
  set (k := n * 1000000000 / 33). assert (n * 1000000000 - 32 <= 33 * k) by (unfold k; lia).
  lia.
Qed.

(** The bound on a window of time, from any state. *)
Lemma grants_window t t' tss l l' n :
  0 <= t <= t' -> t' * STATELESS_RESET_RATE <= u64_max ->
  Forall (fun ts => t <= ts <= t') tss -> wf t' l -> grants tss l = (l', n) ->
  n <= STATELESS_RESET_BURST + 1 + (t' - t + 1) / TOKEN_NANOS.
Proof.
  intros Ht Hmax Htss Hwf Hg.
  assert (t' <= u64_max) as Hmax' by (unfold STATELESS_RESET_RATE in *; lia).
  destruct tss as [|ts tss]; inversion Htss as [|? ? Hts Htss']; subst; clear Htss.
  { injection Hg as <- <-. unfold STATELESS_RESET_BURST, TOKEN_NANOS. lia. }
  cbn [grants] in Hg. unfold try_acquire in Hg.
  assert (0 <= ts <= t') as Hts0 by lia.
  pose proof (refill_spec t' ts l Hwf Hts0 Hmax') as (Hwf1 & _). cbv zeta in *.
  pose proof (refill_recent t' ts l Hwf Hts0 Hmax) as Hr.
  assert (Forall (fun ts => 0 <= ts <= t') tss) as Htss0
    by (eapply Forall_impl; [exact Htss'|]; cbn; lia).
  set (l1 := refill ts l) in *.
  destruct (Z.eqb_spec (bucket l1) 0) as [H0|H0].
  - destruct (grants tss l1) as [l2 n2] eqn:Hg2. injection Hg as <- <-.
    destruct (grants_spec _ _ _ _ _ Hmax' Htss0 Hwf1 Hg2) as (? & ? & ? & ?).
    unfold wf, TOKEN_NANOS, STATELESS_RESET_BURST in *. lia.
  - assert (wf t' (l1 <| bucket := bucket l1 - 1 |>)) as Hwf2 by (unfold wf in *; cbn; lia).
    destruct (grants tss (l1 <| bucket := bucket l1 - 1 |>)) as [l2 n2] eqn:Hg2.
    injection Hg as <- <-.
    destruct (grants_spec _ _ _ _ _ Hmax' Htss0 Hwf2 Hg2) as (? & ? & ? & ?). cbn in *.
    unfold wf, TOKEN_NANOS, STATELESS_RESET_BURST in *. lia.
Qed.

Lemma new_wf t : 0 <= t -> wf t new.
Proof. unfold wf, new, STATELESS_RESET_BURST. cbn. lia. Qed.

(** ** Properties *)

(** C32: Stateless Resets are rate limited, whatever the times of the requests, in order
    or not: after any requests up to time [t] the bucket holds between 0 and 100 tokens
    and no more than 100 were granted plus one for each 30303030 ns since the start;
    and in any window [[t, t']] that follows, within 17 years, at most 101 are granted
    plus one for each 30303030 ns of the window. *)
Theorem limiter_rate (tss tss' : list Z) (t t' : Z) (l l' : StatelessResetLimiter) (n n' : Z)
    (Ht : 0 <= t <= t') (Hmax : t' * STATELESS_RESET_RATE <= u64_max)
    (Htss : Forall (fun ts => 0 <= ts <= t) tss)
    (Htss' : Forall (fun ts => t <= ts <= t') tss')
    (Hrun : grants tss new = (l, n)) (Hrun' : grants tss' l = (l', n')) :
  0 <= bucket l <= STATELESS_RESET_BURST /\ 0 <= last_refill_ts l <= t /\
  n <= STATELESS_RESET_BURST + t / TOKEN_NANOS /\
  n' <= STATELESS_RESET_BURST + 1 + (t' - t + 1) / TOKEN_NANOS.
Proof.
  assert (t' <= u64_max) as Hmax' by (unfold STATELESS_RESET_RATE in *; lia).
  assert (t <= u64_max) as Hmax'' by lia.
  destruct (grants_spec t tss new l n Hmax'' Htss (new_wf t (proj1 Ht)) Hrun)
    as ([Hb Hl] & _ & _ & Hn).
  split; [done|]. split; [done|]. split.
  - unfold new, TOKEN_NANOS, STATELESS_RESET_BURST in *. cbn in *. lia.
  - apply (grants_window t t' tss' l l' n' Ht Hmax Htss'); [|done]. unfold wf. lia.
Qed.

Lemma limiter_rate_witness :
  let r := grants [5; 5] new in
  0 <= bucket r.1 <= 100 /\ (grants [60000000] r.1).2 <= 101 + (60000000 - 5 + 1) / 30303030.
Proof.
  intros r.
  assert (0 <= 5 <= 60000000) as Ht by lia.
  assert (60000000 * STATELESS_RESET_RATE <= u64_max) as Hmax by (vm_compute; discriminate).
  assert (Forall (fun ts => 0 <= ts <= 5) [5; 5]) as H1 by (repeat constructor; lia).
  assert (Forall (fun ts => 5 <= ts <= 60000000) [60000000]) as H2 by (repeat constructor; lia).
  destruct (limiter_rate [5; 5] [60000000] 5 60000000 r.1 (grants [60000000] r.1).1 r.2
    (grants [60000000] r.1).2 Ht Hmax H1 H2 eq_refl eq_refl) as (Hb & _ & _ & Hn).
  split; [exact Hb|exact Hn].
Defined.

(** The limiter does not starve: a request is granted exactly when a token is left
    after the refill, so whenever the bucket is not empty or 30303031 ns passed since
    the last refill; a refused request leaves the bucket empty. *)
Theorem limiter_progress (tss : list Z) (t ts : Z) (l : StatelessResetLimiter) (n : Z)
    (Ht : 0 <= t <= ts) (Hmax : ts <= u64_max)
    (Htss : Forall (fun ts => 0 <= ts <= t) tss) (Hrun : grants tss new = (l, n)) :
  ((try_acquire ts l).2 = false -> bucket (try_acquire ts l).1 = 0) /\
  (0 < bucket l \/ last_refill_ts l + TOKEN_NANOS + 1 <= ts -> (try_acquire ts l).2 = true).
Proof.
  assert (Forall (fun x => 0 <= x <= ts) tss) as Htss'
    by (eapply Forall_impl; [exact Htss|]; cbn; lia).
  assert (0 <= ts) as Hts0 by lia.
  destruct (grants_spec ts tss new l n Hmax Htss' (new_wf ts Hts0) Hrun) as (Hwf & _).
  pose proof (refill_spec ts ts l Hwf (conj Hts0 (Z.le_refl ts)) Hmax) as (Hwf' & Hb & _).
  unfold try_acquire. split.
  - destruct (Z.eqb_spec (bucket (refill ts l)) 0); done.
  - intros H. assert (0 < bucket (refill ts l)).
    { destruct H as [H|H]; [lia|]. by apply (refill_progress ts ts l Hwf (conj Hts0 (Z.le_refl ts)) Hmax). }
    destruct (Z.eqb_spec (bucket (refill ts l)) 0); [lia|done].
Qed.

Lemma limiter_progress_witness : (try_acquire 7 (grants [5; 5] new).1).2 = true.
Proof.
  assert (0 <= 5 <= 7) as Ht by lia.
  assert (7 <= u64_max) as Hmax by (vm_compute; discriminate).
  assert (Forall (fun ts => 0 <= ts <= 5) [5; 5]) as H1 by (repeat constructor; lia).
  apply (limiter_progress [5; 5] 5 7 (grants [5; 5] new).1 (grants [5; 5] new).2 Ht Hmax H1 eq_refl).
  left. vm_compute. reflexivity.
Defined.
End Limiter.
