(* ===== verification/Routes.v ===== *)
(** * Routing datagrams to connections (src/tokio-ngtcp2/src/server.rs)

    [resolve_dcid] (lines 415-455), the record of the connection ids that were handed
    over, and [SharedRoutes] (1181-1293), the table that the server and the accepted
    connections share behind a mutex. The channels that carry datagrams to accepted
    connections are a store of bounded queues, each with its receiving end open or
    dropped. *)
From stdpp Require Import sorting fin_maps.
From S2P Require Import Prelude Types Errors Effects.
Import Types Errors Effects.

Module Routes.

Notation cid_table := (gmap ConnectionId ConnectionId).
Notation addr_table := (gmap SocketAddr ConnectionId).

(** ** resolve_dcid *)

(** [&data[a..b]], which panics out of range *)
Definition index {S} (d : bytes) (a b : Z) : M S bytes := expect (slice d a b).

Definition is_long (d : bytes) : bool :=
  match head d with Some first => negb (Z.land first 0x80 =? 0) | None => false end.

(** A [BTreeSet] in descending order. *)
Definition at_least (x y : Z) : Prop := y <= x.
#[export] Instance at_least_dec : RelDecision at_least := fun x y => Z.le_dec y x.
Definition descending (lengths : gset Z) : list Z := merge_sort at_least (elements lengths).

Fixpoint resolve_short {S} (cid_map : cid_table) (lens : list Z) (d : bytes)
    : M S (option ConnectionId) :=
  match lens with
  | [] => mret None
  | len :: lens =>
      if slen d <? 1 + len then resolve_short cid_map lens d
      else
        b ← index d 1 (1 + len);
        match Types.new b with
        | Some dcid =>
            match cid_map !! dcid with
            | Some key => mret (Some key)
            | None => resolve_short cid_map lens d
            end
        | None => resolve_short cid_map lens d
        end
  end.

Definition resolve_dcid {S} (cid_map : cid_table) (short_cid_lengths : gset Z) (d : bytes)
    : M S (option ConnectionId) :=
  match d with
  | [] => mret None
  | first :: _ =>
      if negb (Z.land first 0x80 =? 0) then
        if slen d <? 6 then mret None
        else
          dcid_len ← expect (get d 5);
          if slen d <? 6 + dcid_len then mret None
          else
            b ← index d 6 (6 + dcid_len);
            match Types.new b with
            | None => mret None
            | Some dcid => mret (cid_map !! dcid)
            end
      else resolve_short cid_map (descending short_cid_lengths) d
  end.

(** ** Connection ids handed over *)

Definition MAX_TAKEN_CIDS : Z := 8192.

Record taken := mkTaken { taken_cids : gset ConnectionId; taken_cid_order : list ConnectionId }.

Definition taken_new : taken := mkTaken ∅ [].

Fixpoint forget_oldest (order : list ConnectionId) (cids : gset ConnectionId) : outcome taken :=
  if MAX_TAKEN_CIDS <? slen order then
    match order with
    | [] => Panic
    | oldest :: order => forget_oldest order (cids ∖ {[oldest]})
    end
  else Ret (mkTaken cids order).

Definition remember_taken_cid (cid : ConnectionId) : M taken unit := fun t =>
  let t := if bool_decide (cid ∈ taken_cids t) then t
           else mkTaken ({[cid]} ∪ taken_cids t) (taken_cid_order t ++ [cid]) in
  match forget_oldest (taken_cid_order t) (taken_cids t) with
  | Ret t => Done tt t
  | Panic => Panics
  end.

Definition is_taken_cid (cid : ConnectionId) (t : taken) : bool :=
  bool_decide (cid ∈ taken_cids t).

(** ** Channels *)

Record InboundDatagram := mkInbound {
  in_data : bytes; in_from : SocketAddr; in_local_addr : SocketAddr; in_ecn : Z }.

Definition MAX_QUEUED_DATAGRAMS : Z := 512.

(** A bounded [mpsc] channel; [rx_open] until its receiver is dropped. *)
Record channel := mkChannel { queue : list InboundDatagram; rx_open : bool }.
Notation channels := (gmap nat channel).

Inductive send_result := Sent | Full | Closed.

(** [mpsc::Sender::try_send] *)
Definition try_send (id : nat) (dgram : InboundDatagram) (chs : channels)
    : channels * send_result :=
  match chs !! id with
  | Some ch =>
      if negb (rx_open ch) then (chs, Closed)
      else if MAX_QUEUED_DATAGRAMS <=? slen (queue ch) then (chs, Full)
      else (<[id := mkChannel (queue ch ++ [dgram]) true]> chs, Sent)
  | None => (chs, Closed)
  end.

(** ** SharedRoutes *)

Record SharedRoutes := mkRoutes {
  r_cid_map : cid_table; r_addr_map : addr_table; r_short_cid_lengths : gset Z;
  r_senders : gmap ConnectionId nat; r_taken : taken }.
#[export] Instance SharedRoutes_eta : Eta SharedRoutes := fun r =>
  mkRoutes (r_cid_map r) (r_addr_map r) (r_short_cid_lengths r) (r_senders r) (r_taken r).

Definition routes_new : SharedRoutes := mkRoutes ∅ ∅ ∅ ∅ taken_new.

(** [map.retain(|_, key| key != conn_key)] *)
Definition retain_other {K} `{Countable K} (conn_key : ConnectionId) (m : gmap K ConnectionId)
    : gmap K ConnectionId := filter (fun kv => kv.2 <> conn_key) m.

Definition insert_cids (conn_key : ConnectionId) (cids : list ConnectionId) (m : cid_table)
    : cid_table := foldl (fun m cid => <[cid := conn_key]> m) m cids.
Definition insert_lens (cids : list ConnectionId) (lens : gset Z) : gset Z :=
  foldl (fun lens cid => {[Types.len cid]} ∪ lens) lens cids.
Definition insert_addrs (conn_key : ConnectionId) (addrs : list SocketAddr) (m : addr_table)
    : addr_table := foldl (fun m addr => <[addr := conn_key]> m) m addrs.

Definition resolve (d : bytes) (from : SocketAddr) : M SharedRoutes (option ConnectionId) := fun r =>
  (o ← resolve_dcid (r_cid_map r) (r_short_cid_lengths r) d;
   mret (match o with Some key => Some key | None => r_addr_map r !! from end)) r.

Definition register (conn_key : ConnectionId) (sender : nat) (cids : list ConnectionId)
    (addrs : list SocketAddr) (r : SharedRoutes) : SharedRoutes :=
  r <| r_short_cid_lengths := insert_lens cids (r_short_cid_lengths r) |>
    <| r_cid_map := insert_cids conn_key cids (r_cid_map r) |>
    <| r_addr_map := insert_addrs conn_key addrs (r_addr_map r) |>
    <| r_senders := <[conn_key := sender]> (r_senders r) |>.

Definition register_issued_cids (conn_key : ConnectionId) (cids : list ConnectionId)
    (r : SharedRoutes) : SharedRoutes :=
  r <| r_short_cid_lengths := insert_lens cids (r_short_cid_lengths r) |>
    <| r_cid_map := insert_cids conn_key cids (r_cid_map r) |>.

(** Removing a retired id, unless it was given to another connection. *)
Definition unroute (conn_key : ConnectionId) (cid : ConnectionId) (m : cid_table) : cid_table :=
  if bool_decide (m !! cid = Some conn_key) then delete cid m else m.

Definition on_taken {A} (m : M taken A) : M SharedRoutes A :=
  zoom r_taken (fun t r => r <| r_taken := t |>) m.

Definition retire_cids (conn_key : ConnectionId) (cids : list ConnectionId)
    : M SharedRoutes unit :=
  for_each cids (fun cid =>
    modify (fun r => r <| r_cid_map := unroute conn_key cid (r_cid_map r) |>) ;;
    on_taken (remember_taken_cid cid)).

(** The lookup, then the channels that the sender points to. *)
Definition deliver (conn_key : ConnectionId) (dgram : InboundDatagram) (r : SharedRoutes)
    (chs : channels) : channels * bool :=
  match r_senders r !! conn_key with
  | None => (chs, false)
  | Some sender =>
      match try_send sender dgram chs with
      | (chs, Sent) | (chs, Full) => (chs, true)
      | (chs, Closed) => (chs, false)
      end
  end.

Definition remove (conn_key : ConnectionId) (r : SharedRoutes) : SharedRoutes :=
  r <| r_cid_map := retain_other conn_key (r_cid_map r) |>
    <| r_addr_map := retain_other conn_key (r_addr_map r) |>
    <| r_senders := delete conn_key (r_senders r) |>.

(** ** Lemmas *)

Lemma index_Done {S} (d : bytes) a b (s : S) :
  0 <= a <= b -> b <= slen d ->
  index d a b s = Done (take (Z.to_nat (b - a)) (drop (Z.to_nat a) d)) s.
Proof.
  intros Ha Hb. unfold index, slice.
  destruct (Z.leb_spec 0 a), (Z.leb_spec a b), (Z.leb_spec b (slen d)); try lia. done.
Qed.

(** The bytes after the first as a connection id of length [n]. *)
Definition hit (m : cid_table) (d : bytes) (n : Z) (key : ConnectionId) : Prop :=
  0 <= n <= NGTCP2_MAX_CIDLEN /\ 1 + n <= slen d /\
  m !! mkCid (take (Z.to_nat n) (drop 1 d)) = Some key.

Lemma hit_det m d n k k' : hit m d n k -> hit m d n k' -> k = k'.
Proof. unfold hit. intros (_ & _ & H) (_ & _ & H'). congruence. Qed.

Lemma new_Some d : slen d <= NGTCP2_MAX_CIDLEN -> Types.new d = Some (mkCid d).
Proof. unfold Types.new. intros. destruct (Z.ltb_spec NGTCP2_MAX_CIDLEN (slen d)); [lia|done]. Qed.

(** One step of the search, whatever the length. *)
Lemma resolve_short_step {S} m len lens d (s : S) :
  0 <= len ->
  (exists key, hit m d len key /\ resolve_short m (len :: lens) d s = Done (Some key) s) \/
  ((forall key, ~ hit m d len key) /\
   resolve_short m (len :: lens) d s = resolve_short m lens d s).
Proof.
  intros Hlen. cbn [resolve_short]. unfold hit.
  destruct (Z.ltb_spec (slen d) (1 + len)) as [|Hd]; [right; split; [|done]; lia|].
  unfold mbind, M_bind. rewrite index_Done by lia. replace (1 + len - 1) with len by lia.
  change (Z.to_nat 1) with 1%nat.
  assert (slen (take (Z.to_nat len) (drop 1 d)) = len) as Hl
    by (unfold slen in *; rewrite length_take, length_drop; lia).
  unfold Types.new. rewrite Hl.
  destruct (Z.ltb_spec NGTCP2_MAX_CIDLEN len); [right; split; [lia|done]|].
  destruct (m !! _) as [key|] eqn:Hm; [left|right].
  - exists key. split; [|done]. split; [done|]. split; [lia|done].
  - split; [|done]. intros key (_ & _ & ?). congruence.
Qed.

Lemma resolve_short_spec {S} m lens d (s : S) :
  Forall (fun n => 0 <= n) lens -> StronglySorted at_least lens ->
  exists o, resolve_short m lens d s = Done o s /\
    forall key, o = Some key <->
      exists n, n ∈ lens /\ hit m d n key /\
        forall n' key', n' ∈ lens -> n < n' -> ~ hit m d n' key'.
Proof.
  intros Hpos Hsort. induction lens as [|len lens IH].
  { exists None. split; [done|]. intros key. split; [done|]. by intros (n & ?%elem_of_nil & _). }
  inversion Hpos as [|? ? Hlen Hpos']; subst. inversion Hsort as [|? ? Hsort' Hall]; subst.
  rewrite Forall_forall in Hall. unfold at_least in Hall.
  destruct (resolve_short_step m len lens d s Hlen) as [(key & Hhit & ->)|[Hno ->]].
  - exists (Some key). split; [done|]. intros key'. split.
    + intros [= <-]. exists len. split; [left|]. split; [done|].
      intros n' key'' [->|Hn']%elem_of_cons Hlt; [lia|]. specialize (Hall n' Hn'). lia.
    + intros (n & [->|Hn]%elem_of_cons & Hn1 & Hmax); [f_equal; by eapply hit_det|].
      destruct (decide (n = len)) as [->|]; [f_equal; by eapply hit_det|].
      specialize (Hall n Hn). exfalso. apply (Hmax len key); [left|lia|done].
  - destruct (IH Hpos' Hsort') as (o & Ho & Hspec). exists o. split; [done|].
    intros key. rewrite Hspec. split.
    + intros (n & Hn & Hn1 & Hmax). exists n. split; [by right|]. split; [done|].
      intros n' key' [->|Hn']%elem_of_cons; [auto|eauto].
    + intros (n & [->|Hn]%elem_of_cons & Hn1 & Hmax); [by destruct (Hno key)|].
      exists n. split; [done|]. split; [done|]. intros n' key' Hn'. apply Hmax. by right.
Qed.

Lemma descending_spec lengths :
  StronglySorted at_least (descending lengths) /\
  (forall n, n ∈ descending lengths <-> n ∈ lengths).
Proof.
  unfold descending. split.
  - apply StronglySorted_merge_sort.
    + intros x y z. unfold at_least. lia.
    + intros x y. unfold at_least. lia.
  - intros n. by rewrite (merge_sort_Permutation at_least), elem_of_elements.
Qed.

(** The bytes of a packet with a long header, up to its connection id. *)
Definition long_prefix (d : bytes) (cid : ConnectionId) : Prop :=
  exists first version rest,
    d = first :: version ++ [Types.len cid] ++ data cid ++ rest /\
    slen version = 4 /\ Types.len cid <= NGTCP2_MAX_CIDLEN.

Lemma long_prefix_det d cid cid' : long_prefix d cid -> long_prefix d cid' -> cid = cid'.
Proof.
  intros (f & v & r & -> & Hv & _) (f' & v' & r' & H & Hv' & _). injection H as _ H.
  unfold Types.len, slen in *.
  apply app_inj_1 in H as [_ H]; [|lia]. injection H as Hl H.
  apply app_inj_1 in H as [H _]; [|lia]. destruct cid, cid'. cbn in *. congruence.
Qed.

(** Splitting the list at the length byte. *)
Lemma long_prefix_intro d n :
  get d 5 = Some n -> 0 <= n <= NGTCP2_MAX_CIDLEN -> 6 + n <= slen d ->
  long_prefix d (mkCid (take (Z.to_nat n) (drop 6 d))).
Proof.
  intros Hn Hr Hd. unfold get in Hn. cbn in Hn.
  destruct d as [|first d]; [done|]. exists first, (take 4 d), (drop (Z.to_nat n) (drop 5 d)).
  rewrite slen_cons in Hd. unfold long_prefix, Types.len. cbn [data drop].
  assert (slen (take (Z.to_nat n) (drop 5 d)) = n) as ->
    by (unfold slen in *; rewrite length_take, length_drop; lia).
  rewrite take_drop. split; [|split; [|lia]].
  - f_equal. cbn. assert (d !! 4%nat = Some n) as H4 by exact Hn.
    rewrite <- (drop_S d n 4 H4). by rewrite take_drop.
  - unfold slen in *. rewrite length_take. lia.
Qed.

Lemma long_prefix_elim d cid : long_prefix d cid ->
  get d 5 = Some (Types.len cid) /\ 6 + Types.len cid <= slen d /\
  take (Z.to_nat (Types.len cid)) (drop 6 d) = data cid.
Proof.
  intros (first & v & rest & -> & Hv & Hl). split; [|split].
  - apply (get_at _ 5 (first :: v) _ (data cid ++ rest)); [done|]. rewrite slen_cons. lia.
  - autorewrite with rust. unfold Types.len. pose proof (slen_nonneg rest). lia.
  - change (first :: v ++ [Types.len cid] ++ data cid ++ rest)
      with ((first :: v) ++ [Types.len cid] ++ data cid ++ rest).
    rewrite app_assoc, drop_app_length' by (rewrite length_app; unfold slen in *; cbn; lia).
    unfold Types.len, slen. by rewrite Nat2Z.id, take_app_length.
Qed.

Lemma resolve_long {S} m lengths first l (s : S) :
  are_bytes (first :: l) -> Z.land first 0x80 <> 0 ->
  exists o, resolve_dcid m lengths (first :: l) s = Done o s /\
    forall key, o = Some key <->
      exists cid, long_prefix (first :: l) cid /\ m !! cid = Some key.
Proof.
  set (d := first :: l). intros Hb Hlong.
  assert (forall o, o = None -> (forall cid, ~ long_prefix d cid) ->
    forall key : ConnectionId, o = Some key <->
      exists cid, long_prefix d cid /\ m !! cid = Some key) as Hnone.
  { intros o -> Hno key. split; [done|]. intros (cid & Hp & _). by destruct (Hno cid). }
  unfold resolve_dcid, d. cbv beta iota. fold d. rewrite (proj2 (Z.eqb_neq _ _) Hlong). cbn [negb].
  destruct (Z.ltb_spec (slen d) 6) as [Hd|Hd].
  { eexists. split; [done|]. apply Hnone; [done|].
    intros cid (_ & H & _)%long_prefix_elim. unfold Types.len in *.
    pose proof (slen_nonneg (data cid)). lia. }
  destruct (get d 5) as [n|] eqn:Hn.
  2:{ exfalso. unfold get in Hn. cbn in Hn. apply lookup_ge_None in Hn. unfold slen in Hd. cbn in *. lia. }
  assert (0 <= n) as Hn0.
  { unfold get in Hn. cbn in Hn. apply list_elem_of_lookup_2 with (i := 5%nat) in Hn.
    unfold are_bytes in Hb. rewrite Forall_forall in Hb. apply Hb in Hn. unfold is_u8 in Hn. lia. }
  unfold mbind, M_bind, expect, mret, M_ret.
  destruct (Z.ltb_spec (slen d) (6 + n)) as [Hd2|Hd2].
  { eexists. split; [done|]. apply Hnone; [done|].
    intros cid (H5 & H & _)%long_prefix_elim. rewrite Hn in H5. injection H5 as ->. lia. }
  rewrite index_Done by lia. replace (6 + n - 6) with n by lia. change (Z.to_nat 6) with 6%nat.
  assert (slen (take (Z.to_nat n) (drop 6 d)) = n) as Hsl
    by (unfold slen in *; rewrite length_take, length_drop; lia).
  unfold Types.new. rewrite Hsl. destruct (Z.ltb_spec NGTCP2_MAX_CIDLEN n) as [Hbig|Hsmall].
  { eexists. split; [done|]. apply Hnone; [done|].
    intros cid Hp. pose proof Hp as (_ & _ & _ & _ & _ & Hl).
    apply long_prefix_elim in Hp as (H5 & _). rewrite Hn in H5. injection H5 as ->. lia. }
  eexists. split; [done|]. intros key. split.
  - intros Hm. eexists. split; [|exact Hm]. by apply long_prefix_intro.
  - intros (cid & Hp & Hm).
    rewrite (long_prefix_det d _ cid (long_prefix_intro d n Hn (conj Hn0 Hsmall) Hd2) Hp).
    done.
Qed.

(** No panic on bytes. *)
Lemma resolve_dcid_Done {S} m lengths d (s : S) :
  are_bytes d -> (forall n, n ∈ lengths -> 0 <= n) ->
  exists o, resolve_dcid m lengths d s = Done o s.
Proof.
  intros Hb Hl. destruct d as [|first l]; [by eexists|].
  destruct (Z.eqb_spec (Z.land first 0x80) 0) as [Hshort|Hlong].
  - unfold resolve_dcid. rewrite Hshort. cbn [Z.eqb negb].
    destruct (descending_spec lengths) as [Hsort Hin].
    destruct (resolve_short_spec m (descending lengths) (first :: l) s) as (o & Ho & _).
    { apply Forall_forall. intros n Hn. apply Hl. by apply Hin. }
    { done. }
    by exists o.
  - destruct (resolve_long m lengths first l s Hb Hlong) as (o & Ho & _). by exists o.
Qed.

(** *** Handed-over ids *)

(** The set and the queue agree, and respect the limit. *)
Definition taken_wf (t : taken) : Prop :=
  NoDup (taken_cid_order t) /\ taken_cids t = list_to_set (taken_cid_order t) /\
  slen (taken_cid_order t) <= MAX_TAKEN_CIDS.

Lemma taken_new_wf : taken_wf taken_new.
Proof. split; [constructor|]. done. Qed.

Lemma forget_oldest_ok order cids :
  slen order <= MAX_TAKEN_CIDS -> forget_oldest order cids = Ret (mkTaken cids order).
Proof.
  intros H. apply Z.ltb_ge in H. by destruct order; cbn -[slen MAX_TAKEN_CIDS]; rewrite H.
Qed.

(** Remembering never panics, whatever the record. *)
Lemma forget_oldest_total order cids : exists t, forget_oldest order cids = Ret t.
Proof.
  revert cids. induction order as [|oldest order IH]; intros cids; cbn -[slen MAX_TAKEN_CIDS];
    [by eexists|]. destruct (_ <? _); [apply IH|by eexists].
Qed.

Lemma remember_taken_cid_total cid t : wp (remember_taken_cid cid) t (fun r _ => r = Ok tt).
Proof. unfold wp, remember_taken_cid. by edestruct forget_oldest_total as [t' ->]. Qed.

(** Remembering an id: a known one changes nothing, a new one goes to the end and
    pushes out the oldest when the record is full. *)
Lemma remember_taken_cid_spec cid t :
  taken_wf t ->
  let order := taken_cid_order t in
  let order' :=
    if bool_decide (cid ∈ order) then order
    else if slen order <? MAX_TAKEN_CIDS then order ++ [cid] else tail order ++ [cid] in
  remember_taken_cid cid t = Done tt (mkTaken (list_to_set order') order') /\
  taken_wf (mkTaken (list_to_set order') order').
Proof.
  destruct t as [cids order]. intros (Hnd & Hc & Hl). cbn in *. subst cids.
  unfold remember_taken_cid. cbn [taken_cids taken_cid_order].
  rewrite (bool_decide_ext (cid ∈ list_to_set order) (cid ∈ order)) by apply elem_of_list_to_set.
  destruct (bool_decide_reflect (cid ∈ order)) as [Hin|Hin].
  { cbn [taken_cids taken_cid_order]. rewrite forget_oldest_ok by done. by repeat split. }
  cbn [taken_cids taken_cid_order].
  assert (slen (order ++ [cid]) = slen order + 1) as Hlen by (rewrite slen_app; done).
  assert ({[cid]} ∪ list_to_set order =@{gset ConnectionId} list_to_set (order ++ [cid])) as Hset
    by (rewrite list_to_set_app_L; cbn; set_solver).
  assert (NoDup (order ++ [cid])) as Hnd'.
  { apply NoDup_app. split; [done|]. split; [|apply NoDup_singleton].
    intros x Hx ->%list_elem_of_singleton. done. }
  destruct (Z.ltb_spec (slen order) MAX_TAKEN_CIDS).
  - rewrite forget_oldest_ok by lia. rewrite Hset. split; [done|].
    split; [done|]. split; [done|]. cbn. lia.
  - destruct order as [|x order]; [unfold MAX_TAKEN_CIDS, slen in *; cbn in *; lia|].
    cbn [app tail forget_oldest]. change (x :: order ++ [cid]) with ((x :: order) ++ [cid]).
    destruct (Z.ltb_spec MAX_TAKEN_CIDS (slen ((x :: order) ++ [cid]))); [|lia].
    rewrite slen_cons in *. inversion Hnd' as [|? ? Hx Hnd'']; subst.
    assert (({[cid]} ∪ list_to_set (x :: order)) ∖ {[x]} =@{gset ConnectionId}
      list_to_set (order ++ [cid])) as Hset'.
    { rewrite Hset. cbn [app list_to_set]. apply set_eq. intros y.
      rewrite elem_of_difference, elem_of_union, elem_of_singleton, elem_of_list_to_set.
      split; [tauto|]. intros Hy. split; [by right|]. by intros ->. }
    assert (slen (order ++ [cid]) <= MAX_TAKEN_CIDS)
      by (rewrite slen_app; change (slen [cid]) with 1; lia).
    rewrite forget_oldest_ok by done. rewrite Hset'. split; [done|]. by repeat split.
Qed.

Lemma is_taken_spec cid t : taken_wf t -> is_taken_cid cid t = true <-> cid ∈ taken_cid_order t.
Proof.
  intros (_ & Hc & _). unfold is_taken_cid. by rewrite bool_decide_eq_true, Hc, elem_of_list_to_set.
Qed.

(** [cid] is followed by at most [k] more recent ids. *)
Definition recent (k : nat) (cid : ConnectionId) (t : taken) : Prop :=
  exists l1 l2, taken_cid_order t = l1 ++ cid :: l2 /\ (length l2 <= k)%nat.

Lemma remember_recent k cid x t :
  taken_wf t -> recent k cid t -> Z.of_nat k + 1 < MAX_TAKEN_CIDS ->
  wp (remember_taken_cid x) t (fun r t' => r = Ok tt /\ taken_wf t' /\ recent (S k) cid t').
Proof.
  intros Hwf (l1 & l2 & Ho & Hl) Hk. unfold wp.
  destruct (remember_taken_cid_spec x t Hwf) as [-> Hwf']. split; [done|]. split; [done|].
  unfold recent. cbn. destruct (bool_decide _); [exists l1, l2; split; [done|lia]|].
  destruct (Z.ltb_spec (slen (taken_cid_order t)) MAX_TAKEN_CIDS) as [|Hfull]; rewrite Ho.
  - exists l1, (l2 ++ [x]). rewrite length_app. cbn. split; [app_eq|lia].
  - destruct l1 as [|y l1].
    + rewrite Ho in Hfull. unfold slen in Hfull. cbn in Hfull. lia.
    + exists l1, (l2 ++ [x]). rewrite length_app. cbn. split; [app_eq|lia].
Qed.

Lemma remember_all_recent l k cid t :
  taken_wf t -> recent k cid t -> Z.of_nat (k + length l) < MAX_TAKEN_CIDS ->
  wp (for_each l remember_taken_cid) t (fun r t' =>
    r = Ok tt /\ taken_wf t' /\ recent (k + length l) cid t').
Proof.
  revert k t. induction l as [|x l IH]; intros k t Hwf Hr Hk.
  { apply wp_ret. rewrite Nat.add_0_r. done. }
  cbn [for_each length] in *. apply wp_bind.
  eapply wp_mono; [apply (remember_recent k cid x t Hwf Hr); lia|].
  intros r t' (-> & Hwf' & Hr'). eapply wp_mono; [apply (IH (S k) t' Hwf' Hr'); lia|].
  intros r t'' H. by rewrite Nat.add_succ_r.
Qed.

Lemma remember_other cid x t :
  taken_wf t -> cid ∉ taken_cid_order t -> cid <> x ->
  wp (remember_taken_cid x) t (fun r t' =>
    r = Ok tt /\ taken_wf t' /\ cid ∉ taken_cid_order t').
Proof.
  intros Hwf Hnot Hne. unfold wp. destruct (remember_taken_cid_spec x t Hwf) as [-> Hwf'].
  split; [done|]. split; [done|]. cbn. destruct (bool_decide _); [done|].
  destruct (_ <? _); [set_solver|]. destruct (taken_cid_order t); set_solver.
Qed.

(** Remembering a list of at most [MAX_TAKEN_CIDS] ids: each new one is there. *)
Lemma remember_all_taken l cid t :
  taken_wf t -> cid ∈ l -> cid ∉ taken_cid_order t -> slen l <= MAX_TAKEN_CIDS ->
  wp (for_each l remember_taken_cid) t (fun r t' =>
    r = Ok tt /\ taken_wf t' /\ cid ∈ taken_cid_order t').
Proof.
  intros Hwf Hin Hnot Hl. apply list_elem_of_split_l in Hin as (l1 & l2 & -> & Hl1).
  revert t Hwf Hnot. induction l1 as [|x l1 IH]; intros t Hwf Hnot; cbn [app for_each].
  - apply wp_bind. unfold wp at 1. destruct (remember_taken_cid_spec cid t Hwf) as [-> Hwf'].
    rewrite bool_decide_false in * by done. eapply wp_mono.
    + apply (remember_all_recent l2 0 cid); [exact Hwf'| |].
      * destruct (_ <? _); eexists _, []; (split; [reflexivity|done]).
      * cbn [app] in Hl. rewrite slen_cons in Hl. unfold slen in Hl. cbn. lia.
    + intros r t' (-> & Hwf'' & k1 & k2 & Ho & _). split; [done|]. split; [done|].
      rewrite Ho. set_solver.
  - apply not_elem_of_cons in Hl1 as [Hne Hl1]. cbn [app] in Hl. rewrite slen_cons in Hl.
    apply wp_bind. eapply wp_mono; [by apply remember_other|].
    intros r t' (-> & Hwf' & Hnot'). apply IH; try done; lia.
Qed.

Lemma remember_all_wf l t :
  taken_wf t -> wp (for_each l remember_taken_cid) t (fun r t' => r = Ok tt /\ taken_wf t').
Proof.
  intros Hwf. apply wp_for_each; [done|]. intros x t' _ Hwf'. unfold wp.
  by destruct (remember_taken_cid_spec x t' Hwf') as [-> ?].
Qed.

(** All new ids of a list that is not too long are on record afterwards. *)
Lemma remember_all l t :
  taken_wf t ->
  wp (for_each l remember_taken_cid) t (fun r t' => r = Ok tt /\ taken_wf t' /\
    (slen l <= MAX_TAKEN_CIDS ->
     forall cid, cid ∈ l -> is_taken_cid cid t = false -> is_taken_cid cid t' = true)).
Proof.
  intros Hwf. eapply wp_mono.
  - apply (wp_forall _ _ _ (fun cid _ t' => taken_wf t' -> slen l <= MAX_TAKEN_CIDS -> cid ∈ l ->
      is_taken_cid cid t = false -> is_taken_cid cid t' = true) (remember_all_wf l t Hwf)).
    intros cid. destruct (decide (cid ∈ l /\ cid ∉ taken_cid_order t /\ slen l <= MAX_TAKEN_CIDS))
      as [(Hin & Hnot & Hl)|Hno].
    + eapply wp_mono; [by apply remember_all_taken|]. intros r t' (_ & _ & Hc) Hwf' _ _ _.
      by apply is_taken_spec.
    + eapply wp_mono; [by apply remember_all_wf|]. intros r t' _ _ Hl Hin Hnew. destruct Hno.
      split; [done|]. split; [|done]. intros Hc%is_taken_spec; [congruence|done].
  - intros r t' [[-> Hwf'] H]. split; [done|]. split; [done|]. intros Hl cid. by apply H.
Qed.

(** *** Tables *)

Lemma resolve_short_value {S} m lens d (s s' : S) key :
  resolve_short m lens d s = Done (Some key) s' -> exists cid, m !! cid = Some key.
Proof.
  induction lens as [|len lens IH]; [done|]. cbn [resolve_short].
  destruct (_ <? _); [done|]. unfold mbind, M_bind.
  destruct (index d 1 (1 + len) s) eqn:Hi; [|done..].
  assert (s0 = s) as -> by (revert Hi; unfold index, expect; destruct (slice _ _ _); by intros [= _ ->]).
  destruct (Types.new a) as [dcid|]; [|done].
  destruct (m !! dcid) as [k|] eqn:Hm; [|done]. intros [= -> _]. by exists dcid.
Qed.

Lemma resolve_dcid_value {S} m lengths d (s s' : S) key :
  resolve_dcid m lengths d s = Done (Some key) s' -> exists cid, m !! cid = Some key.
Proof.
  unfold resolve_dcid. destruct d as [|first l]; [done|].
  destruct (negb _); [|apply resolve_short_value].
  destruct (_ <? 6); [done|]. unfold mbind, M_bind, expect, index.
  destruct (get _ 5) as [n|]; [|done]. cbn. destruct (_ <? 6 + n); [done|].
  unfold expect. destruct (slice _ _ _) as [b|]; [|done]. cbn.
  destruct (Types.new b) as [dcid|]; [|done]. intros [= H _]. by exists dcid.
Qed.

Lemma lookup_insert_cids key cids m cid :
  insert_cids key cids m !! cid = if bool_decide (cid ∈ cids) then Some key else m !! cid.
Proof.
  unfold insert_cids. revert m. induction cids as [|c cids IH]; intros m; cbn; [done|].
  rewrite IH. destruct (decide (cid = c)) as [->|Hne].
  - rewrite lookup_insert_eq, (bool_decide_true (c ∈ c :: cids)) by left.
    by destruct (bool_decide _).
  - rewrite lookup_insert_ne by done. rewrite (bool_decide_ext (cid ∈ c :: cids) (cid ∈ cids)); [done|].
    rewrite elem_of_cons. naive_solver.
Qed.

Lemma lookup_insert_addrs key addrs m a :
  insert_addrs key addrs m !! a = if bool_decide (a ∈ addrs) then Some key else m !! a.
Proof.
  unfold insert_addrs. revert m. induction addrs as [|c addrs IH]; intros m; cbn; [done|].
  rewrite IH. destruct (decide (a = c)) as [->|Hne].
  - rewrite lookup_insert_eq, (bool_decide_true (c ∈ c :: addrs)) by left.
    by destruct (bool_decide _).
  - rewrite lookup_insert_ne by done. rewrite (bool_decide_ext (a ∈ c :: addrs) (a ∈ addrs)); [done|].
    rewrite elem_of_cons. naive_solver.
Qed.

Lemma lookup_retain_other {K} `{Countable K} key (m : gmap K ConnectionId) k v :
  retain_other key m !! k = Some v <-> m !! k = Some v /\ v <> key.
Proof. unfold retain_other. apply map_lookup_filter_Some. Qed.

Lemma elem_of_insert_lens cids lens n :
  n ∈ insert_lens cids lens <-> n ∈ lens \/ exists cid, cid ∈ cids /\ n = Types.len cid.
Proof.
  unfold insert_lens. revert lens. induction cids as [|c cids IH]; intros lens; cbn.
  - split; [by left|]. intros [?|(? & ?%elem_of_nil & _)]; done.
  - rewrite IH, elem_of_union, elem_of_singleton. setoid_rewrite elem_of_cons. naive_solver.
Qed.

Definition unroute_all (key : ConnectionId) (cids : list ConnectionId) (m : cid_table)
    : cid_table := foldl (fun m cid => unroute key cid m) m cids.

Lemma lookup_unroute key cid m c :
  unroute key cid m !! c = if bool_decide (c = cid /\ m !! c = Some key) then None else m !! c.
Proof.
  unfold unroute. destruct (bool_decide_reflect (m !! cid = Some key)) as [H|H].
  - rewrite lookup_delete. destruct (decide (cid = c)) as [->|Hne].
    + by rewrite bool_decide_true.
    + rewrite bool_decide_false; [done|]. by intros [-> _].
  - rewrite bool_decide_false; [done|]. by intros [-> ?].
Qed.

Lemma lookup_unroute_all key cids m c :
  unroute_all key cids m !! c =
    if bool_decide (c ∈ cids /\ m !! c = Some key) then None else m !! c.
Proof.
  revert m. induction cids as [|cid cids IH]; intros m.
  { cbn. rewrite bool_decide_false; [done|]. by intros [?%elem_of_nil _]. }
  cbn. change (unroute_all key cids (unroute key cid m) !! c =
    if bool_decide (c ∈ cid :: cids /\ m !! c = Some key) then None else m !! c).
  rewrite IH, lookup_unroute. pose proof (elem_of_cons cids c cid).
  repeat case_bool_decide; naive_solver.
Qed.

(** Retiring ids: the table without them, and the record with them. *)
Lemma retire_cids_wp key cids r P :
  wp (for_each cids remember_taken_cid) (r_taken r) (fun x t => x = Ok tt /\ P t) ->
  wp (retire_cids key cids) r (fun x r' => x = Ok tt /\ exists t, P t /\
    r' = r <| r_cid_map := unroute_all key cids (r_cid_map r) |> <| r_taken := t |>).
Proof.
  revert r. induction cids as [|cid cids IH]; intros r H.
  { destruct H as [_ H]. apply wp_ret. split; [done|]. exists (r_taken r). by destruct r. }
  unfold wp, retire_cids, on_taken, mbind, M_bind, modify, zoom in *. cbn in *.
  unfold mbind, M_bind in *. cbn in *.
  destruct (remember_taken_cid cid (r_taken r)) as [[] t|e t| |]; [|by destruct H..].
  specialize (IH (r <| r_cid_map := unroute key cid (r_cid_map r) |> <| r_taken := t |>) H).
  apply IH.
Qed.

(** ** Properties *)

(** C20: [resolve_dcid] never panics on received bytes. A packet with a long header goes
    to the connection registered for exactly the connection id of the header; one with
    a short header goes to the connection of the longest registered length for which
    the bytes after the first are a registered id. *)
Theorem resolve_dcid_correct {S} (m : cid_table) (lengths : gset Z) (first : Z) (l : bytes) (s : S)
    (Hb : are_bytes (first :: l)) (Hlengths : forall n, n ∈ lengths -> 0 <= n) :
  let d := first :: l in
  exists o, resolve_dcid m lengths d s = Done o s /\
    forall key, o = Some key <->
      if Z.land first 0x80 =? 0 then
        exists n, n ∈ lengths /\ hit m d n key /\
          (forall n' key', n' ∈ lengths -> n < n' -> ~ hit m d n' key')
      else exists cid, long_prefix d cid /\ m !! cid = Some key.
Proof.
  intros d. destruct (Z.eqb_spec (Z.land first 0x80) 0) as [Hshort|Hlong].
  - unfold resolve_dcid, d. cbv beta iota. rewrite Hshort. cbn [Z.eqb negb].
    destruct (descending_spec lengths) as [Hsort Hin].
    destruct (resolve_short_spec m (descending lengths) (first :: l) s) as (o & Ho & Hspec).
    { apply Forall_forall. intros n Hn. apply Hlengths. by apply Hin. }
    { done. }
    exists o. split; [exact Ho|]. intros key. rewrite Hspec. by setoid_rewrite Hin.
  - by apply resolve_long.
Qed.

Lemma resolve_dcid_correct_witness :
  resolve_dcid {[mkCid [1; 2] := mkCid [9]; mkCid [1] := mkCid [8]]} {[1; 2]} [0x40; 1; 2; 3] tt
    = Done (Some (mkCid [9])) tt.
Proof.
  set (m := {[mkCid [1; 2] := mkCid [9]; mkCid [1] := mkCid [8]]} : cid_table).
  assert (are_bytes [0x40; 1; 2; 3]) as Hb by solve_bytes.
  assert (forall n, n ∈ ({[1; 2]} : gset Z) -> 0 <= n) as Hl by set_solver by lia.
  destruct (resolve_dcid_correct m {[1; 2]} 0x40 [1; 2; 3] tt Hb Hl) as (o & -> & Hspec).
  f_equal. apply Hspec. change (Z.land 0x40 0x80 =? 0) with true. cbv iota.
  exists 2. split; [set_solver|]. split; [|set_solver by lia].
  split; [vm_compute; split; discriminate|]. split; [vm_compute; discriminate|reflexivity].
Defined.

(** C31: the record of handed-over connection ids never panics, never holds an id twice or
    more than 8192 ids. An id it did not hold is added as the newest, and stays while fewer
    than 8192 further calls remember ids: no Stateless Reset is sent for it in the meantime.
    Remembering an id it holds already changes nothing: the id keeps its place, and the ids
    recorded after it ([l2]) count towards the 8192, so that its stay is not extended. *)
Theorem taken_ids_remembered (cid : ConnectionId) (l : list ConnectionId) (t : taken)
    (Hwf : taken_wf t) :
  wp (remember_taken_cid cid) t (fun r t1 => r = Ok tt /\ taken_wf t1 /\
    (is_taken_cid cid t = true -> t1 = t) /\
    exists l1 l2, taken_cid_order t1 = l1 ++ cid :: l2 /\
      (is_taken_cid cid t = false -> l2 = []) /\
      wp (for_each l remember_taken_cid) t1 (fun r t' => r = Ok tt /\ taken_wf t' /\
        (slen l2 + slen l < MAX_TAKEN_CIDS -> is_taken_cid cid t' = true))).
Proof.
  assert (forall l1 l2 t1, taken_wf t1 -> taken_cid_order t1 = l1 ++ cid :: l2 ->
    wp (for_each l remember_taken_cid) t1 (fun r t' => r = Ok tt /\ taken_wf t' /\
      (slen l2 + slen l < MAX_TAKEN_CIDS -> is_taken_cid cid t' = true))) as Hstay.
  { intros l1 l2 t1 Hwf1 Ho.
    destruct (decide (slen l2 + slen l < MAX_TAKEN_CIDS)) as [Hl|Hl].
    - eapply wp_mono.
      { apply (remember_all_recent l (length l2) cid); [exact Hwf1|by exists l1, l2|].
        unfold slen in Hl. lia. }
      intros r t' (-> & Hwf' & k1 & k2 & Ho' & _). split; [done|]. split; [done|]. intros _.
      apply is_taken_spec; [done|]. rewrite Ho'. set_solver.
    - eapply wp_mono; [by apply remember_all_wf|]. by intros r t' [-> ?]. }
  unfold wp at 1. destruct (remember_taken_cid_spec cid t Hwf) as [-> Hwf1].
  split; [done|]. split; [done|]. destruct (is_taken_cid cid t) eqn:Hold.
  - apply is_taken_spec in Hold as Hin; [|done]. rewrite bool_decide_true in * by done.
    split. { intros _. destruct t, Hwf as (_ & Hc & _). cbn in *. by rewrite Hc. }
    apply list_elem_of_split in Hin as (l1 & l2 & Ho). exists l1, l2.
    split; [done|]. split; [done|]. by eapply Hstay.
  - assert (cid ∉ taken_cid_order t) as Hnot by (rewrite <- (is_taken_spec cid t Hwf), Hold; done).
    rewrite bool_decide_false in * by done. split; [done|].
    match goal with |- exists l1 l2, taken_cid_order ?t1 = _ /\ _ =>
      assert (exists l1, taken_cid_order t1 = l1 ++ [cid]) as [l1 Ho]
        by (cbn; destruct (_ <? _); by eexists) end.
    exists l1, []. split; [exact Ho|]. split; [done|]. by eapply Hstay.
Qed.

Lemma taken_ids_remembered_witness :
  wp (remember_taken_cid (mkCid [1])) taken_new (fun r t1 => r = Ok tt /\
    wp (for_each [mkCid [2]; mkCid [1]] remember_taken_cid) t1 (fun r t' =>
      r = Ok tt /\ is_taken_cid (mkCid [1]) t' = true)).
Proof.
  eapply wp_mono.
  { apply (taken_ids_remembered (mkCid [1]) [mkCid [2]; mkCid [1]] taken_new taken_new_wf). }
  intros r t1 (-> & _ & _ & l1 & l2 & _ & Hl2 & H). split; [reflexivity|].
  eapply wp_mono; [exact H|]. intros r t' (-> & _ & Ht). split; [reflexivity|]. apply Ht.
  rewrite Hl2 by reflexivity. vm_compute. reflexivity.
Defined.

(** The shared table hands each datagram to its owner: once a connection is
    registered with an open channel, a long-header datagram for one of its ids
    resolves to it and joins the end of its queue, or is dropped when 512 wait; after
    the connection is removed nothing resolves to it, delivery fails without touching
    a queue, and the routes of the other connections are the same. *)
Theorem shared_routes_lifecycle (key : ConnectionId) (sender : nat) (cids : list ConnectionId)
    (addrs : list SocketAddr) (r : SharedRoutes) (chs : channels) (q : list InboundDatagram)
    (dgram : InboundDatagram) (from : SocketAddr) (cid : ConnectionId)
    (Hopen : chs !! sender = Some (mkChannel q true))
    (Hb : are_bytes (in_data dgram)) (Hcid : cid ∈ cids)
    (Hfirst : exists first, head (in_data dgram) = Some first /\ Z.land first 0x80 <> 0)
    (Hdcid : long_prefix (in_data dgram) cid) :
  let r' := register key sender cids addrs r in
  resolve (in_data dgram) from r' = Done (Some key) r' /\
  deliver key dgram r' chs =
    ((if MAX_QUEUED_DATAGRAMS <=? slen q then chs
      else <[sender := mkChannel (q ++ [dgram]) true]> chs), true) /\
  (forall d a, resolve d a (remove key r') <> Done (Some key) (remove key r')) /\
  deliver key dgram (remove key r') chs = (chs, false) /\
  (forall c k, k <> key ->
     r_cid_map (remove key r') !! c = Some k <-> r_cid_map r' !! c = Some k).
Proof.
  intros r'. split; [|split; [|split; [|split]]].
  - unfold resolve. destruct (in_data dgram) as [|first l]; [by destruct Hfirst as (? & ? & _)|].
    destruct Hfirst as (? & [= <-] & Hlong).
    destruct (resolve_long (r_cid_map r') (r_short_cid_lengths r') first l r' Hb Hlong)
      as (o & Ho & Hspec).
    unfold mbind, M_bind. rewrite Ho.
    replace o with (Some key); [done|]. symmetry. apply Hspec. exists cid. split; [done|].
    unfold r', register. cbn. by rewrite lookup_insert_cids, bool_decide_true.
  - unfold deliver, r', register, try_send. cbn. rewrite lookup_insert_eq, Hopen. cbn.
    by destruct (_ <=? _).
  - intros d a. unfold resolve, mbind, M_bind.
    destruct (resolve_dcid _ _ d _) as [[k|] s1|? ?| |] eqn:Hd; [..|done|done|done].
    + intros [= -> _]. apply resolve_dcid_value in Hd as (c & Hc).
      apply lookup_retain_other in Hc as [_ Hc]. done.
    + intros [= Ha _]. by apply lookup_retain_other in Ha as [_ Ha].
  - unfold deliver, remove. cbn. by rewrite lookup_delete_eq.
  - intros c k Hk. unfold remove. cbn. rewrite lookup_retain_other. naive_solver.
Qed.

Lemma shared_routes_lifecycle_witness :
  let dgram := mkInbound [0xc0; 0; 0; 0; 1; 2; 7; 8; 0] (SockV4 [10; 0; 0; 1] 9)
    (SockV4 [127; 0; 0; 1] 4433) 0 in
  let r := register (mkCid [5]) 3 [mkCid [7; 8]] [] routes_new in
  resolve (in_data dgram) (in_from dgram) r = Done (Some (mkCid [5])) r /\
  deliver (mkCid [5]) dgram r {[3%nat := mkChannel [] true]}
    = (<[3%nat := mkChannel [dgram] true]> {[3%nat := mkChannel [] true]}, true).
Proof.
  intros dgram r.
  destruct (shared_routes_lifecycle (mkCid [5]) 3 [mkCid [7; 8]] [] routes_new
    {[3%nat := mkChannel [] true]} [] dgram (in_from dgram) (mkCid [7; 8])) as (H1 & H2 & _).
  - reflexivity.
  - solve_bytes.
  - by left.
  - exists 0xc0. split; [reflexivity|discriminate].
  - exists 0xc0, [0; 0; 0; 1], [0]. split; [reflexivity|]. split; [reflexivity|discriminate].
  - split; [exact H1|exact H2].
Defined.
End Routes.
