(* ===== verification/Tokio.v ===== *)
(** * Shared types of tokio-ngtcp2 (src/tokio-ngtcp2/src/lib.rs, qlog.rs, socket.rs)

    The datagram limits, the events the application sees, the qlog file, and the
    choice of a socket for a packet. *)
From S2P Require Import Prelude Types Errors Callbacks Conn Effects Transport Streams.
Import Types Errors Effects Transport.

Module Tokio.

(** ** lib.rs *)

Record DatagramConfig := mkDatagramConfig {
  max_datagram_frame_size : Z; max_tx_datagram_size : Z }.

Definition DatagramConfig_disabled : DatagramConfig := mkDatagramConfig 0 0.
Definition DatagramConfig_is_enabled (c : DatagramConfig) : bool :=
  (0 <? max_datagram_frame_size c) && (0 <? max_tx_datagram_size c).
Definition DatagramConfig_default : DatagramConfig := mkDatagramConfig 65535 1200.

Inductive ConnectionEvent :=
| HandshakeCompleted
| HandshakeConfirmed
| EarlyDataRejected
| StreamOpened (stream_id : StreamId)
| StreamData (stream_id : StreamId) (d : bytes) (fin : bool)
| StreamClosed (stream_id : StreamId) (rx_app_error_code tx_app_error_code : option Z)
| StreamReset (stream_id : StreamId) (final_size app_error_code : Z)
| StreamStopSending (stream_id : StreamId) (app_error_code : Z)
| StreamMaxData (stream_id : StreamId) (max_data : Z)
| MaxStreamsBidi (max_streams : Z)
| MaxStreamsUni (max_streams : Z)
| Datagram (d : bytes)
| StatelessResetReceived
| PathValidated (path : PathInfo) (success : bool)
| ConnectionClosed (error_code : Z) (reason : bytes) (kind : ConnectionErrorKind).

Definition from (event : Callbacks.ConnectionEvent) : ConnectionEvent :=
  match event with
  | Callbacks.HandshakeCompleted => HandshakeCompleted
  | Callbacks.HandshakeConfirmed => HandshakeConfirmed
  | Callbacks.EarlyDataRejected => EarlyDataRejected
  | Callbacks.StreamOpened id => StreamOpened id
  | Callbacks.StreamData id d fin => StreamData id d fin
  | Callbacks.StreamClosed id rx tx => StreamClosed id rx tx
  | Callbacks.StreamReset id size code => StreamReset id size code
  | Callbacks.StreamStopSending id code => StreamStopSending id code
  | Callbacks.StreamMaxData id n => StreamMaxData id n
  | Callbacks.MaxStreamsBidi n => MaxStreamsBidi n
  | Callbacks.MaxStreamsUni n => MaxStreamsUni n
  | Callbacks.Datagram d => Datagram d
  | Callbacks.StatelessResetReceived => StatelessResetReceived
  | Callbacks.PathValidated path success => PathValidated path success
  end.

(** [pop_event] of server.rs: [Vec::remove(0)] *)
Definition pop_event (events : list ConnectionEvent)
    : list ConnectionEvent * option ConnectionEvent :=
  match events with
  | [] => ([], None)
  | e :: es => (es, Some e)
  end.

(** [push_connection_closed] of server.rs: the event for the error of the connection *)
Definition closed_event (err : Conn.ConnectionError) : ConnectionEvent :=
  let kind :=
    if Conn.has_error err then
      if Conn.is_application err then ApplicationClose else TransportClose
    else Terminal in
  ConnectionClosed (Conn.error_code err) (Conn.reason err) kind.

(** ** qlog.rs *)

(** An open file: what was written, and how many writes will still succeed. *)
Record file := mkFile { contents : bytes; writes_left : nat }.

Definition write_all (d : bytes) (f : file) : option file :=
  match writes_left f with
  | O => None
  | S n => Some (mkFile (contents f ++ d) n)
  end.

(** [None] when qlog is disabled. *)
Definition QlogWriter : Type := option file.
Definition qlog_disabled : QlogWriter := None.

(** [QlogWriter::new]: the directory and the file may fail to open. *)
Definition qlog_new (create_dir_all : result Error unit) (create : result Error file) : QlogWriter :=
  match create_dir_all with
  | Err _ => qlog_disabled
  | Ok _ => match create with Ok f => Some f | Err _ => qlog_disabled end
  end.

Definition file_name (prefix : string) (cid : ConnectionId) : string :=
  foldl (fun name byte => name +:+ Types.hex [byte]) prefix (Types.as_bytes cid).

Section qlog.
Context {tr : Transport}.

Fixpoint qlog_loop (fuel : nat) : M (conn * file) bool :=
  match fuel with
  | O => diverge
  | S fuel =>
      o ← zoom fst (fun c s => (c, s.2)) (call t_poll_qlog_data);
      match o with
      | None => mret true
      | Some d =>
          f ← gets snd;
          match write_all d f with
          | None => mret false
          | Some f => modify (fun s => (s.1, f)) ;; qlog_loop fuel
          end
      end
  end.

(** [None] stays [None]; a failing write closes the file. *)
Definition qlog_write (fuel : nat) : M (conn * QlogWriter) unit := fun s =>
  match s with
  | (c, None) => Done tt (c, None)
  | (c, Some f) =>
      match qlog_loop fuel (c, f) with
      | Done ok (c, f) => Done tt (c, if ok then Some f else None)
      | Fail e (c, f) => Fail e (c, Some f)
      | Panics => Panics
      | Diverges => Diverges
      end
  end.

(** Two turns are enough: one poll takes all the data. *)
Lemma qlog_write_wp {doc : TransportDoc} (c : conn) (q : QlogWriter) :
  wp (qlog_write 2) (c, q) (fun r s => r = Ok tt /\ t_events s.1 = t_events c).
Proof.
  unfold wp, qlog_write. destruct q as [f|]; [|done].
  pose proof (poll_qlog_drained c) as Hd. pose proof (poll_qlog_events c) as He1.
  pose proof (poll_qlog_events (t_poll_qlog_data c).1) as He2.
  cbn. unfold mbind, M_bind, zoom, call, gets, modify, mret, M_ret. cbn.
  destruct (t_poll_qlog_data c) as [c1 [d|]]; cbn in *; [|done].
  specialize (Hd d eq_refl). destruct (write_all d f) as [f1|]; cbn; [|done].
  destruct (t_poll_qlog_data c1) as [c2 o]. cbn in *. subst o. cbn. split; [done|congruence].
Qed.
End qlog.

(** ** socket.rs: the choice of a socket *)

(** The addresses of the server's sockets. *)
Record ServerSockets := mkSockets { primary_addr : SocketAddr; preferred : option SocketAddr }.

(** [ServerSockets::send_to]: the socket a packet leaves from. *)
Definition socket_for (s : ServerSockets) (local_addr : SocketAddr) : SocketAddr :=
  match preferred s with
  | Some addr => if bool_decide (addr = local_addr) then addr else primary_addr s
  | None => primary_addr s
  end.
End Tokio.
