(* ===== verification/Flow.v ===== *)
(** * Events, datagrams and the bytes of a stream on their way through an endpoint

    A [port] is what the client and the accepted connections have in common: the
    connection, the stream data that waits to be written and the queue of events.
    [flow] follows the events of the connection to the application, and the bytes of one
    stream and the datagrams from the application to the connection. The commands of both
    crates keep it; Client.v and Accepted.v are composed from them (Delivery.v). *)
From S2P Require Import Prelude Types Errors Conn Callbacks Effects Transport Streams Tokio.
Import Types Errors Effects Transport.

Module Flow.

(** The data of a stream in events of the connection, and in those of the
    application. *)
Definition event_bytes (id : StreamId) (e : Callbacks.ConnectionEvent) : bytes :=
  match e with
  | Callbacks.StreamData i d _ => if bool_decide (i = id) then d else []
  | _ => []
  end.
Definition stream_bytes (id : StreamId) (es : list Callbacks.ConnectionEvent) : bytes :=
  concat (map (event_bytes id) es).

Definition reported (id : StreamId) (e : Tokio.ConnectionEvent) : bytes :=
  match e with
  | Tokio.StreamData i d _ => if bool_decide (i = id) then d else []
  | _ => []
  end.
Definition app_bytes (id : StreamId) (es : list Tokio.ConnectionEvent) : bytes :=
  concat (map (reported id) es).

Lemma reported_from id e : reported id (Tokio.from e) = event_bytes id e.
Proof. by destruct e. Qed.

(** The events that come from the connection: the end of the connection is told by
    tokio-ngtcp2 itself. *)
Definition told (e : Tokio.ConnectionEvent) : list Tokio.ConnectionEvent :=
  match e with Tokio.ConnectionClosed _ _ _ => [] | _ => [e] end.
Definition told_all (es : list Tokio.ConnectionEvent) : list Tokio.ConnectionEvent :=
  concat (map told es).

Lemma told_from e : told (Tokio.from e) = [Tokio.from e].
Proof. by destruct e. Qed.
Lemma told_all_app es es' : told_all (es ++ es') = told_all es ++ told_all es'.
Proof. unfold told_all. by rewrite map_app, concat_app. Qed.
Lemma told_all_one e : told_all [e] = told e.
Proof. apply app_nil_r. Qed.

(** The datagrams in events of the application, and in those of the connection. *)
Definition datagram_in (e : Tokio.ConnectionEvent) : list bytes :=
  match e with Tokio.Datagram d => [d] | _ => [] end.
Definition datagrams_in (es : list Tokio.ConnectionEvent) : list bytes := concat (map datagram_in es).

Lemma datagrams_in_app es es' : datagrams_in (es ++ es') = datagrams_in es ++ datagrams_in es'.
Proof. unfold datagrams_in. by rewrite map_app, concat_app. Qed.

Lemma stream_bytes_app id es es' : stream_bytes id (es ++ es') = stream_bytes id es ++ stream_bytes id es'.
Proof. unfold stream_bytes. by rewrite map_app, concat_app. Qed.

Lemma app_bytes_app id es es' : app_bytes id (es ++ es') = app_bytes id es ++ app_bytes id es'.
Proof. unfold app_bytes. by rewrite map_app, concat_app. Qed.

Lemma app_bytes_one id e : app_bytes id [e] = reported id e.
Proof. apply app_nil_r. Qed.

Lemma app_bytes_told id es : app_bytes id (told_all es) = app_bytes id es.
Proof.
  induction es as [|e es IH]; [done|].
  change (told_all (e :: es)) with (told e ++ told_all es). rewrite app_bytes_app, IH.
  change (app_bytes id (e :: es)) with (reported id e ++ app_bytes id es). f_equal.
  destruct e; try done; apply app_nil_r.
Qed.
Lemma app_bytes_from id es : app_bytes id (map Tokio.from es) = stream_bytes id es.
Proof.
  induction es as [|e es IH]; [done|]. unfold app_bytes, stream_bytes in *. cbn.
  by rewrite IH, reported_from.
Qed.

(** What an application writes to a stream: its data, and where it asks for the end. *)
Definition written (ws : list (bytes * bool)) : bytes := concat (map fst ws).
Definition finished (ws : list (bytes * bool)) : bool := existsb snd ws.

(** Nothing is written after the end. *)
Fixpoint clean (ws : list (bytes * bool)) : bool :=
  match ws with
  | [] | [_] => true
  | w :: ws => negb w.2 && clean ws
  end.

Lemma written_app ws ws' : written (ws ++ ws') = written ws ++ written ws'.
Proof. unfold written. by rewrite map_app, concat_app. Qed.

Lemma written_one w : written [w] = w.1.
Proof. apply app_nil_r. Qed.

Lemma clean_cons w ws : clean (w :: ws) = true -> clean ws = true.
Proof. destruct ws; cbn; [done|]. by intros [_ H]%andb_prop. Qed.

(** Before a last write the stream was not ended. *)
Lemma clean_snoc ws w : clean (ws ++ [w]) = true -> clean ws = true /\ finished ws = false.
Proof.
  induction ws as [|w' ws IH]; [done|]. intros H. destruct (IH (clean_cons _ _ H)) as [Hc Hf].
  destruct ws as [|w'' ws]; cbn in *; apply andb_prop in H as [Hw%negb_true_iff H];
    rewrite Hw; [done|]. split; [done|exact Hf].
Qed.

Section flow.
Context {tr : Transport} {acc : Streams.TransportAccept}.
Import Streams.

(** The events that the connection has reported so far, the datagrams it has taken to
    send, and whether the sending side of a stream was reset, by either peer. *)
Class Received := {
  history : conn -> list Callbacks.ConnectionEvent;
  taken : conn -> list bytes;
  cut : conn -> StreamId -> bool }.

Context {rcv : Received}.

(** The bytes of a stream among the events. *)
Definition received (c : conn) (id : StreamId) : bytes := stream_bytes id (history c).

(** What the functions of a connection do besides accepting stream data: they report new
    events, may end a stream by a reset, and take some of the datagrams [ds], in order. *)
Definition hands_over (c c' : conn) : Prop :=
  exists es, t_events c' = t_events c ++ es /\ history c' = history c ++ es.
Definition takes (ds : list bytes) (c c' : conn) : Prop :=
  exists l, taken c' = taken c ++ l /\ l `sublist_of` ds.
Record advances_taking (ds : list bytes) (c c' : conn) : Prop := {
  ad_taken : takes ds c c';
  ad_accepted id : accepted c' id = accepted c id;
  ad_ended id : ended c id = true -> ended c' id = true;
  ad_cut id : cut c id = true -> cut c' id = true;
  ad_reset id : ended c' id = true -> ended c id = true \/ cut c' id = true;
  ad_events : hands_over c c' }.
Notation advances := (advances_taking []).

#[export] Instance hands_over_preorder : PreOrder hands_over.
Proof.
  split.
  - intros c. exists []. by rewrite !app_nil_r.
  - intros c1 c2 c3 (es & H1 & H2) (es' & H3 & H4). exists (es ++ es').
    by rewrite H3, H1, H4, H2, !app_assoc.
Qed.
Lemma takes_none c c' : taken c' = taken c -> takes [] c c'.
Proof. intros H. exists []. by rewrite H, app_nil_r. Qed.
Lemma takes_trans ds ds' c1 c2 c3 : takes ds c1 c2 -> takes ds' c2 c3 -> takes (ds ++ ds') c1 c3.
Proof.
  intros (l & H1 & S1) (l' & H2 & S2). exists (l ++ l'). rewrite H2, H1, app_assoc.
  split; [done|]. by apply sublist_app.
Qed.
#[export] Instance advances_preorder : PreOrder advances.
Proof.
  split.
  - intros c. constructor; [by apply takes_none|done|done|done|by left|reflexivity].
  - intros c1 c2 c3 [T1 A1 E1 C1 X1 H1] [T2 A2 E2 C2 X2 H2].
    constructor; [exact (takes_trans [] [] _ _ _ T1 T2)|intros; by rewrite A2|auto|auto| |by etrans].
    intros id [H|H]%X2; [|by right]. destruct (X1 _ H); auto.
Qed.

(** Without a reset the stream goes on as it was. *)
Lemma advances_uncut ds c c' id : advances_taking ds c c' -> cut c' id = false ->
  cut c id = false /\ accepted c' id = accepted c id /\ ended c' id = ended c id.
Proof.
  intros [_ Ha He Hc Hx _] Hcut.
  assert (cut c id = false) as Hc'.
  { destruct (cut c id) eqn:H; [|done]. by rewrite (Hc _ H) in Hcut. }
  split; [done|]. split; [done|]. destruct (ended c id) eqn:H; [by apply He|].
  destruct (ended c' id) eqn:H'; [|done]. destruct (Hx _ H'); congruence.
Qed.

(** What QUIC and ngtcp2 document of streams and datagrams: data is accepted by the
    functions that write STREAM frames only, and not after the end of the stream, a datagram
    by the function that writes it; what arrives is reported in events, which are queued. *)
Class StreamsDoc : Prop := {
  sd_write_stream buf i d fin ts flags :
    keeps (fun c c' => hands_over c c' /\ takes [] c c' /\ forall id, cut c' id = cut c id)
      (t_write_stream_with_flags buf i d fin ts flags);
  sd_after_end buf i d fin ts flags c : ended c i = true ->
    wlp (t_write_stream_with_flags buf i d fin ts flags) c (fun r _ =>
      match r with Ok (_, dw, _, _, _) => default 0 dw = 0 | Err _ => True end);
  sd_poll_event c :
    let c' := (t_poll_event c).1 in
    (forall id, accepted c' id = accepted c id /\ ended c' id = ended c id /\ cut c' id = cut c id) /\
    history c' = history c /\ taken c' = taken c;
  sd_read_pkt path pi d ts : keeps advances (t_read_pkt path pi d ts);
  sd_write_pkt buf ts : keeps advances (t_write_pkt buf ts);
  sd_write_datagram buf d ts : keeps (advances_taking [d]) (t_write_datagram buf d ts);
  sd_write_close_app buf code why ts : keeps advances (t_write_connection_close_app buf code why ts);
  sd_handle_expiry ts : keeps advances (t_handle_expiry ts);
  sd_submit_new_token tok : keeps advances (t_submit_new_token tok);
  sd_open_bidi : keeps advances t_open_bidi_stream;
  sd_open_uni : keeps advances t_open_uni_stream;
  sd_shutdown i code : keeps advances (t_shutdown_stream i code);
  sd_shutdown_write i code : keeps advances (t_shutdown_stream_write i code);
  sd_shutdown_reliable i code : keeps advances (t_shutdown_stream_write_reliable i code);
  sd_shutdown_read i code : keeps advances (t_shutdown_stream_read i code);
  sd_extend_offset i n : keeps advances (t_extend_max_stream_offset i n);
  sd_migration path ts : keeps advances (t_initiate_migration path ts);
  sd_key_update ts : keeps advances (t_initiate_key_update ts);
  sd_ticket : keeps advances t_take_session_ticket;
  sd_issued c : advances c (t_poll_issued_cids c).1;
  sd_retired c : advances c (t_poll_retired_cids c).1;
  sd_qlog c : advances c (t_poll_qlog_data c).1;
  sd_new_token c : advances c (t_take_new_token c).1;
  sd_max_offset n c : advances c (t_extend_max_offset n c);
  sd_max_bidi n c : advances c (t_extend_max_streams_bidi n c);
  sd_max_uni n c : advances c (t_extend_max_streams_uni n c) }.

(** ** Ports *)

Record port := mkPort {
  p_conn : conn; p_pending : PendingStreams; p_queue : list Tokio.ConnectionEvent }.

Section stream.
Context (id : StreamId).

(** [ws] is all that was ever written to the stream: the connection accepted a prefix of
    it, and the rest waits unless the stream has ended. Without a reset nothing is lost
    even when the stream ends. *)
Record offered (ws : list (bytes * bool)) (s : port) : Prop := {
  of_prefix : accepted (p_conn s) id `prefix_of` written ws;
  of_open : ended (p_conn s) id = false ->
    accepted (p_conn s) id ++ pending_data (p_pending s) id = written ws;
  of_all : cut (p_conn s) id = false -> clean ws = true ->
    conserved id (written ws) (finished ws) (p_conn s) (p_pending s) }.

(** The events that wait for the application, and the bytes of the stream in them. *)
Definition unread (s : port) : list Tokio.ConnectionEvent :=
  told_all (p_queue s) ++ map Tokio.from (t_events (p_conn s)).
Definition waiting (s : port) : bytes := app_bytes id (unread s).

(** From [s] to [s'] the application was given the events [got], wrote [put] to the stream
    and handed over the datagrams [ds]. *)
Record flow (got : list Tokio.ConnectionEvent) (put : list (bytes * bool)) (ds : list bytes)
    (s s' : port) : Prop := {
  fl_in : exists es, history (p_conn s') = history (p_conn s) ++ es /\
    unread s ++ map Tokio.from es = got ++ unread s';
  fl_datagrams : takes ds (p_conn s) (p_conn s');
  fl_out ws : offered ws s -> offered (ws ++ put) s' }.

Lemma flow_trans g1 p1 d1 g2 p2 d2 s1 s2 s3 :
  flow g1 p1 d1 s1 s2 -> flow g2 p2 d2 s2 s3 -> flow (g1 ++ g2) (p1 ++ p2) (d1 ++ d2) s1 s3.
Proof.
  intros [(es1 & R1 & W1) T1 O1] [(es2 & R2 & W2) T2 O2]. constructor.
  - exists (es1 ++ es2). rewrite R2, R1, <- app_assoc. split; [done|].
    by rewrite map_app, app_assoc, W1, <- app_assoc, W2, app_assoc.
  - by eapply takes_trans.
  - intros ws H. rewrite app_assoc. auto.
Qed.

(** The connection is where it was. *)
Lemma flow_same c p q p' q' got put :
  told_all q = got ++ told_all q' ->
  (forall ws, offered ws (mkPort c p q) -> offered (ws ++ put) (mkPort c p' q')) ->
  flow got put [] (mkPort c p q) (mkPort c p' q').
Proof.
  intros Hq Ho. constructor; cbn [p_conn]; [|by apply takes_none|done].
  exists []. rewrite !app_nil_r. split; [done|]. unfold unread. cbn [p_conn p_queue].
  by rewrite Hq, <- app_assoc.
Qed.

#[export] Instance flow_preorder : PreOrder (flow [] [] []).
Proof.
  split.
  - intros [c p q]. apply flow_same; [done|]. intros ws. by rewrite app_nil_r.
  - intros s1 s2 s3. apply (flow_trans [] [] [] [] [] []).
Qed.

Lemma offered_queue ws c p q q' : offered ws (mkPort c p q) -> offered ws (mkPort c p q').
Proof. by intros [H1 H2 H3]. Qed.

Lemma offered_conn ds c c' p q q' ws : advances_taking ds c c' ->
  offered ws (mkPort c p q) -> offered ws (mkPort c' p q').
Proof.
  intros Had [H1 H2 H3]. cbn in *. pose proof (ad_accepted _ _ _ Had id) as Ha.
  constructor; cbn; rewrite ?Ha; [done|..].
  - intros H. apply H2. destruct (ended c id) eqn:He; [|done].
    by rewrite (ad_ended _ _ _ Had _ He) in H.
  - intros Hc Hw. destruct (advances_uncut _ _ _ _ Had Hc) as (Hc' & Ha' & He').
    unfold conserved. rewrite Ha', He'. by apply H3.
Qed.

Lemma flow_conn ds c c' p q :
  advances_taking ds c c' -> flow [] [] ds (mkPort c p q) (mkPort c' p q).
Proof.
  intros Had. destruct (ad_events _ _ _ Had) as (es & Hes & Hr). constructor.
  - exists es. split; [done|]. unfold unread. cbn [p_conn p_pending p_queue].
    by rewrite Hes, map_app, <- !app_assoc.
  - apply Had.
  - intros ws H. rewrite app_nil_r. by eapply offered_conn.
Qed.

(** An event moves from the connection to the queue, and the connection goes on. *)
Lemma flow_drain {doc : TransportDoc} {sdoc : StreamsDoc} c c' p q e es :
  t_events c = e :: es -> advances (t_poll_event c).1 c' ->
  flow [] [] [] (mkPort c p q) (mkPort c' p (q ++ [Tokio.from e])).
Proof.
  intros He Had. destruct (sd_poll_event c) as (S & Sh & St).
  destruct (ad_events _ _ _ Had) as (new & Hnew & Hr).
  rewrite (poll_event_rest _ _ _ He) in Hnew. constructor; cbn [p_conn p_pending p_queue].
  - exists new. split; [by rewrite Hr, Sh|]. unfold unread. cbn [p_conn p_pending p_queue app].
    by rewrite He, Hnew, told_all_app, told_all_one, told_from, map_app, <- !app_assoc.
  - destruct (ad_taken _ _ _ Had) as (l & Hl & Hs). exists l. by rewrite Hl, St.
  - intros ws [H1 H2 H3]. rewrite app_nil_r. apply (offered_conn _ _ _ _ q _ _ Had).
    destruct (S id) as (S1 & S2 & S3).
    constructor; cbn in *; unfold conserved; by rewrite ?S1, ?S2, ?S3.
Qed.

(** The application takes an event. *)
Lemma flow_pop c p e q : flow (told e) [] [] (mkPort c p (e :: q)) (mkPort c p q).
Proof. apply flow_same; [done|]. intros ws. rewrite app_nil_r. apply offered_queue. Qed.

(** The end of the connection is queued. *)
Lemma flow_event c p q e : told e = [] -> flow [] [] [] (mkPort c p q) (mkPort c p (q ++ [e])).
Proof.
  intros He. apply flow_same; [by rewrite told_all_app, told_all_one, He, app_nil_r|].
  intros ws. rewrite app_nil_r. apply offered_queue.
Qed.

(** The application writes. *)
Definition put_bytes (i : StreamId) (d : bytes) (fin : bool) : list (bytes * bool) :=
  if bool_decide (i = id) then [(d, fin)] else [].

Lemma flow_write c p q i d fin :
  flow [] (put_bytes i d fin) [] (mkPort c p q) (mkPort c (push p i d fin) q).
Proof.
  apply flow_same; [done|]. intros ws [H1 H2 H3].
  unfold put_bytes. case_bool_decide as Hi; [subst i|].
  - constructor; cbn in *; rewrite written_app, written_one; cbn.
    + by apply prefix_app_r.
    + intros H. rewrite <- H2 by done. unfold pending_data, push. cbn. rewrite lookup_insert_eq.
      destruct (entries p !! id) as [[]|]; cbn; by rewrite <- ?app_assoc.
    + intros Hc [Hw Hf]%clean_snoc. destruct (H3 Hc Hw) as (C1 & C2 & C3). rewrite Hf in C2.
      apply orb_false_iff in C2 as [C2 C4]. unfold conserved, pending_data, pending_fin, push in *.
      cbn. rewrite lookup_insert_eq. cbn. unfold finished. rewrite existsb_app.
      fold (finished ws). rewrite Hf, C2, <- C1. cbn. rewrite orb_false_r.
      split; [|split; [|done]]; destruct (entries p !! id) as [[]|]; cbn in *;
        rewrite ?C4; by rewrite <- ?app_assoc.
  - rewrite app_nil_r. constructor; cbn in *; unfold conserved, pending_data, pending_fin, push in *;
      cbn; by rewrite ?lookup_insert_ne by done.
Qed.

(** The data of another stream is dropped. *)
Lemma flow_forget c p q i : i <> id -> flow [] [] [] (mkPort c p q) (mkPort c (remove i p) q).
Proof.
  intros Hi. apply flow_same; [done|]. intros ws [H1 H2 H3].
  rewrite app_nil_r. constructor; cbn in *; unfold conserved, pending_data, pending_fin, remove in *;
    cbn; by rewrite ?lookup_delete_ne by done.
Qed.

(** ** Writing packets *)

Context {doc : TransportDoc} {sdoc : StreamsDoc}.

Lemma flow_hand_over c c' p p' q :
  hands_over c c' -> takes [] c c' ->
  (forall ws, offered ws (mkPort c p q) -> offered ws (mkPort c' p' q)) ->
  flow [] [] [] (mkPort c p q) (mkPort c' p' q).
Proof.
  intros (es & Hes & Hr) Ht Ho. constructor; [|done|].
  - exists es. split; [done|]. unfold unread. cbn [p_conn p_pending p_queue].
    by rewrite Hes, map_app, <- !app_assoc.
  - intros ws H. rewrite app_nil_r. auto.
Qed.

(** What a write does to a stream that may have ended. *)
Definition sent (total : bytes) (c : conn) (p : PendingStreams) : Prop :=
  accepted c id `prefix_of` total /\
  (ended c id = false -> accepted c id ++ pending_data p id = total).

Lemma sent_write buf i d fin flags ts c p :
  Z.testbit flags 1 = false -> entries p !! i = Some (d, fin) ->
  wp (t_write_stream_with_flags buf i d fin ts flags) c (fun r c' =>
    forall total, sent total c p ->
    match r with
    | Ok (_, dw, _, _, _) => sent total c' (after_write i d fin dw p)
    | Err (StreamShutWr _) => sent total c' (remove i p)
    | Err _ => sent total c' p
    end).
Proof.
  intros Hfl He. unfold sent, pending_data.
  assert (wlp (t_write_stream_with_flags buf i d fin ts flags) c (fun r _ =>
    ended c i = true -> match r with Ok (_, dw, _, _, _) => default 0 dw = 0 | Err _ => True end)) as Hshut.
  { destruct (ended c i) eqn:Hend.
    - eapply wlp_mono; [by apply sd_after_end|]. auto.
    - unfold wlp. by destruct (t_write_stream_with_flags _ _ _ _ _ _ _). }
  eapply wp_mono; [exact (wp_wlp _ _ _ _ (wp_and _ _ _ _ (accept_write_stream buf i d fin ts flags c Hfl)
    (write_stream_spec buf i d fin ts flags c)) Hshut)|].
  intros [[[[[n dw] path] pi] buf']|e] c' [[Ha Hw] Hend] total [H1 H2].
  - destruct (Ha id) as [-> Hended]. destruct Hw as [_ Hdw]. rewrite Hended.
    destruct (decide (i = id)) as [->|Hne].
    + rewrite bool_decide_true by done. rewrite after_write_same by done.
      destruct (ended c id); [rewrite (Hend eq_refl), take_0, app_nil_r; by split|].
      specialize (H2 eq_refl). rewrite He in H2. cbn in H2. subst total. split.
      * apply prefix_app. exists (drop (Z.to_nat (default 0 dw)) d). by rewrite take_drop.
      * intros _. rewrite <- app_assoc. f_equal. cbn.
        etrans; [|apply (take_drop (Z.to_nat (default 0 dw)) d)]. f_equal.
        destruct (is_nil _ && _) eqn:Hnil; [|done].
        apply andb_prop in Hnil as [Hnil%is_nil_true _]. by rewrite Hnil.
    + rewrite after_write_other by congruence. rewrite bool_decide_false by congruence.
      by rewrite app_nil_r, orb_false_r.
  - destruct Ha as [Ha Hs]. destruct (Ha id) as [Hacc Hended].
    assert (accepted c' id `prefix_of` total /\
      (ended c' id = false -> accepted c' id ++ default [] (fst <$> entries p !! id) = total))
      as Hsame by by rewrite Hacc, Hended.
    destruct e; try done. rewrite Hacc, Hended. split; [done|]. intros Hf.
    destruct (decide (i = id)) as [->|Hne].
    + rewrite (Hs _ eq_refl) in Hf. done.
    + unfold remove. cbn. rewrite lookup_delete_ne by done. auto.
Qed.

Lemma offered_sent ws c p q :
  offered ws (mkPort c p q) <-> sent (written ws) c p /\
    (cut c id = false -> clean ws = true -> conserved id (written ws) (finished ws) c p).
Proof. split; [by intros [H1 H2 H3]|by intros [[H1 H2] H3]]. Qed.

Definition io_port (q : list Tokio.ConnectionEvent) (s : io) : port := mkPort (io_conn s) (io_pending s) q.

Section write.
Context {bud : TransportBudget} (ts : Z) (q : list Tokio.ConnectionEvent) (s0 : port).

Lemma flow_write_stream buf i d fin flags c p :
  Z.testbit flags 1 = false -> entries p !! i = Some (d, fin) -> flow [] [] [] s0 (mkPort c p q) ->
  wp (t_write_stream_with_flags buf i d fin ts flags) c (fun r c' =>
    match r with
    | Ok (_, dw, _, _, _) => flow [] [] [] s0 (mkPort c' (after_write i d fin dw p) q)
    | Err (StreamShutWr _) => flow [] [] [] s0 (mkPort c' (remove i p) q)
    | Err _ => flow [] [] [] s0 (mkPort c' p q)
    end).
Proof.
  intros Hfl He H0.
  assert (forall x : bytes * bool, wp (t_write_stream_with_flags buf i d fin ts flags) c (fun r c' =>
    conserved id x.1 x.2 c p ->
    match r with
    | Ok (_, dw, _, _, _) => conserved id x.1 x.2 c' (after_write i d fin dw p)
    | Err (StreamShutWr _) => conserved id x.1 x.2 c' (remove i p)
    | Err _ => conserved id x.1 x.2 c' p
    end)) as Hcons.
  { intros [total f]. eapply wp_intro_hyp; [apply write_stream_spec|]. intros Hc.
    by apply conserved_write. }
  eapply wp_mono; [exact (wp_wlp _ _ _ _ (wp_forall _ _ _ _ (sent_write buf i d fin flags ts c p Hfl He)
    Hcons) (sd_write_stream buf i d fin ts flags c))|].
  intros r c' [[Ho Hc] (Hh & Ht & Hcut)]. specialize (Hcut id).
  assert (forall p', (forall total, sent total c p -> sent total c' p') ->
    (forall total f, conserved id total f c p -> conserved id total f c' p') ->
    flow [] [] [] s0 (mkPort c' p' q)) as Hflow.
  { intros p' Hs Hp. etrans; [exact H0|]. apply flow_hand_over; [done..|].
    intros ws [H1 H2]%offered_sent. apply offered_sent. rewrite Hcut. auto. }
  destruct r as [[[[[n dw] path] pi] b]|[]]; apply Hflow; try exact Ho;
    intros total f; exact (Hc (total, f)).
Qed.

Lemma flow_remove_empty i c p :
  entries p !! i = Some ([], false) -> flow [] [] [] s0 (mkPort c p q) ->
  flow [] [] [] s0 (mkPort c (remove i p) q).
Proof.
  intros He H0. etrans; [exact H0|]. apply flow_same; [done|].
  intros ws [[H1 H2] H3]%offered_sent. rewrite app_nil_r. apply offered_sent. split.
  - unfold sent, pending_data, remove in *. cbn. split; [done|]. intros H.
    rewrite <- H2 by done. destruct (decide (id = i)) as [<-|Hne].
    + by rewrite lookup_delete_eq, He.
    + by rewrite lookup_delete_ne.
  - intros Hc Hw. apply conserved_remove; auto.
Qed.

Lemma flow_write_pkt buf c p :
  flow [] [] [] s0 (mkPort c p q) ->
  wp (t_write_pkt buf ts) c (fun _ c' => flow [] [] [] s0 (mkPort c' p q)).
Proof.
  intros H0. eapply wp_mono; [exact (wp_wlp _ _ _ _ (write_pkt_spec buf ts c) (sd_write_pkt buf ts c))|].
  intros r c' [_ H]. etrans; [exact H0|]. by apply flow_conn.
Qed.
End write.

Lemma write_packets_flow {bud : TransportBudget} fuel ts q s :
  (budget ts (io_conn s) + pending_size (io_pending s) < fuel)%nat ->
  wp (write_packets fuel ts) s (fun _ s' => flow [] [] [] (io_port q s) (io_port q s')).
Proof.
  intros Hf. eapply wp_mono.
  { apply (write_loop_spec ts (fun c p => flow [] [] [] (io_port q s) (mkPort c p q))); [..|exact Hf|reflexivity].
    - intros. by apply flow_write_stream.
    - intros. by apply flow_remove_empty.
    - intros. by apply flow_write_pkt. }
  by intros r s' [[] _].
Qed.

Lemma write_control_flow {bud : TransportBudget} fuel ts q s :
  (budget ts (io_conn s) < fuel)%nat ->
  wp (write_control_packets fuel ts) s (fun _ s' => flow [] [] [] (io_port q s) (io_port q s')).
Proof.
  intros Hf. eapply wp_mono.
  { apply (write_control_loop_spec ts (fun c p => flow [] [] [] (io_port q s) (mkPort c p q))); [|exact Hf|reflexivity].
    intros. by apply flow_write_pkt. }
  by intros r s' [[] _].
Qed.
End stream.

(** The qlog writer only takes qlog data. *)
Lemma qlog_write_keeps {sdoc : StreamsDoc} fuel :
  keeps (fun s s' => advances s.1 s'.1) (Tokio.qlog_write fuel).
Proof.
  intros [c [f|]]; [|unfold wlp; cbn; reflexivity].
  assert (keeps (fun s s' => advances s.1 s'.1) (Tokio.qlog_loop fuel)) as Hloop.
  { assert (PreOrder (fun s s' : conn * Tokio.file => advances s.1 s'.1)).
    { split; [intros [? ?]; reflexivity|intros [] [] [] ? ?; cbn in *; by etrans]. }
    induction fuel as [|fuel IH]; [apply keeps_diverge|]. cbn [Tokio.qlog_loop].
    apply keeps_bind; [done| |].
    - apply (keeps_zoom _ advances); [apply keeps_call, sd_qlog|done].
    - intros [d|]; [|by apply keeps_ret]. apply keeps_bind; [done|by apply keeps_gets|]. intros f'.
      destruct (Tokio.write_all d f'); [|by apply keeps_ret].
      apply keeps_bind; [done|by apply keeps_modify; intros; cbn; reflexivity|done]. }
  specialize (Hloop (c, f)). unfold wlp, Tokio.qlog_write in *.
  by destruct (Tokio.qlog_loop fuel (c, f)) as [b []|e []| |].
Qed.

Lemma advances_modify f : (forall c, advances c (f c)) -> keeps advances (modify f).
Proof. apply keeps_modify. Qed.
Lemma advances_call {A} (f : conn -> conn * A) : (forall c, advances c (f c).1) -> keeps advances (call f).
Proof. apply keeps_call. Qed.

(** ** Commands on a state that has a port *)

Section commands.
Context {S : Type} (port_of : S -> port) (id : StreamId).

(** Nothing is given to the application or taken from it. *)
Definition quietly (s s' : S) : Prop := flow id [] [] [] (port_of s) (port_of s').
#[export] Instance quietly_preorder : PreOrder quietly.
Proof.
  split; [intros s; unfold quietly; reflexivity|].
  intros s1 s2 s3 H1 H2. unfold quietly in *. by etrans.
Qed.

(** The datagrams [ds] are handed to the connection, which may take them. *)
Definition handing (ds : list bytes) (s s' : S) : Prop := flow id [] [] ds (port_of s) (port_of s').

Lemma quietly_handing ds s s' : quietly s s' -> handing ds s s'.
Proof.
  intros [H1 (l & Hl & ->%sublist_nil_r) H3]. constructor; [done| |done].
  exists []. split; [done|]. apply sublist_nil_l.
Qed.
Lemma handing_quiet {A} ds (m : M S A) : keeps quietly m -> keeps (handing ds) m.
Proof. intros Hm s. eapply wlp_mono; [apply Hm|]. intros r s'. apply quietly_handing. Qed.
Lemma handing_after {A B} ds (m : M S A) (k : A -> M S B) :
  keeps quietly m -> (forall a, keeps (handing ds) (k a)) -> keeps (handing ds) (m ≫= k).
Proof.
  intros Hm Hk s. apply wlp_bind. eapply wlp_mono; [apply Hm|].
  intros [a|e] s1 H1; [|by apply quietly_handing].
  eapply wlp_mono; [apply Hk|]. intros r s2. exact (flow_trans id [] [] [] [] [] ds _ _ _ H1).
Qed.
Lemma handing_take {A B} ds (m : M S A) (k : A -> M S B) :
  keeps (handing ds) m -> (forall a, keeps quietly (k a)) -> keeps (handing ds) (m ≫= k).
Proof.
  intros Hm Hk s. apply wlp_bind. eapply wlp_mono; [apply Hm|]. intros [a|e] s1 H1; [|done].
  eapply wlp_mono; [apply Hk|]. intros r s2 H2.
  pose proof (flow_trans id _ _ _ _ _ _ _ _ _ H1 H2) as H. by rewrite !app_nil_r in H.
Qed.

(** The result of [m] gives the application the events [data] of it. *)
Definition gives {A} (data : A -> list Tokio.ConnectionEvent) (m : M S A) : Prop := forall s,
  wlp m s (fun r s' =>
    flow id (match r with Ok a => data a | Err _ => [] end) [] [] (port_of s) (port_of s')).

Lemma quiet_gives {A} (data : A -> list Tokio.ConnectionEvent) (m : M S A) :
  keeps quietly m -> (forall a, data a = []) -> gives data m.
Proof.
  intros Hm Hd s. eapply wlp_mono; [apply Hm|]. intros [a|e] s' H; [by rewrite Hd|done].
Qed.

Lemma gives_after {A B} (data : B -> list Tokio.ConnectionEvent) (m : M S A) (k : A -> M S B) :
  keeps quietly m -> (forall a, gives data (k a)) -> gives data (m ≫= k).
Proof.
  intros Hm Hk s. apply wlp_bind. eapply wlp_mono; [apply Hm|]. intros [a|e] s1 H1; [|done].
  eapply wlp_mono; [apply Hk|]. intros r s2 H2. exact (flow_trans id [] [] [] _ [] [] _ _ _ H1 H2).
Qed.

Lemma gives_throw {A} (data : A -> list Tokio.ConnectionEvent) e : gives data (throw e : M S A).
Proof. intros s. unfold wlp. cbn. reflexivity. Qed.

(** What [m] gave is the result, or it gave nothing. *)
Lemma gives_take {A B} (data0 : A -> list Tokio.ConnectionEvent) (data : B -> list Tokio.ConnectionEvent) (m : M S A) (k : A -> M S B) :
  gives data0 m ->
  (forall a, (exists b, k a = mret b /\ data b = data0 a) \/ (data0 a = [] /\ gives data (k a))) ->
  gives data (m ≫= k).
Proof.
  intros Hm Hk s. apply wlp_bind. eapply wlp_mono; [apply Hm|]. intros [a|e] s1 H1; [|done].
  destruct (Hk a) as [(b & -> & Hb)|[Ha Hg]]; [unfold wlp; cbn; by rewrite Hb|].
  rewrite Ha in H1. eapply wlp_mono; [apply Hg|].
  intros r s2 H2. exact (flow_trans id [] [] [] _ [] [] _ _ _ H1 H2).
Qed.

(** An event that was taken is the result; without one the command goes on. *)
Definition event_data (o : option Tokio.ConnectionEvent) : list Tokio.ConnectionEvent :=
  from_option told [] o.

Lemma gives_or_else (m k : M S (option Tokio.ConnectionEvent)) :
  gives event_data m -> gives event_data k ->
  gives event_data (o ← m; match o with Some event => mret (Some event) | None => k end).
Proof.
  intros Hm Hk. eapply gives_take; [exact Hm|]. intros [e|]; [left; by exists (Some e)|by right].
Qed.

Lemma gives_some (m : M S Tokio.ConnectionEvent) :
  gives told m -> gives event_data (event ← m; mret (Some event)).
Proof. intros Hm. eapply gives_take; [exact Hm|]. intros e. left. by exists (Some e). Qed.

Lemma gives_none : gives event_data (mret None).
Proof. intros s. unfold wlp. cbn. reflexivity. Qed.

Lemma gives_event (m : M S (option Tokio.ConnectionEvent)) e :
  gives event_data m ->
  gives told (o ← m; match o with Some event => mret event | None => throw e end).
Proof.
  intros Hm. eapply gives_take; [exact Hm|]. intros [ev|]; [left; by exists ev|right].
  split; [done|]. apply gives_throw.
Qed.

(** What a call returned. *)
Definition result_data (r : result Error (option Tokio.ConnectionEvent)) : list Tokio.ConnectionEvent :=
  match r with Ok o => event_data o | Err _ => [] end.

(** A run of calls, whether they succeed or fail, and an account of it: the events the
    application was given, what it wrote to the stream and the datagrams it handed over. *)
Section account.
Context {C : Type} (perform : C -> M S (option Tokio.ConnectionEvent)).
Context (put : C -> result Error (option Tokio.ConnectionEvent) -> list (bytes * bool)).
Context (offer : C -> list bytes).

Fixpoint account (calls : list C) : M S (list Tokio.ConnectionEvent * list (bytes * bool)) :=
  match calls with
  | [] => mret ([], [])
  | c :: calls =>
      r ← attempt (perform c);
      '(got, wrote) ← account calls;
      mret (result_data r ++ got, put c r ++ wrote)
  end.
Definition offers (calls : list C) : list bytes := concat (map offer calls).

Lemma account_wp (I : S -> Prop) (ok : C -> Prop) calls s :
  (forall c s, ok c -> I s -> wp (perform c) s (fun _ s' => I s')) ->
  (forall c s, ok c -> wlp (perform c) s (fun r s' =>
     flow id (result_data r) (put c r) (offer c) (port_of s) (port_of s'))) ->
  Forall ok calls -> I s ->
  wp (account calls) s (fun r s' => I s' /\
    exists got wrote, r = Ok (got, wrote) /\
      flow id got wrote (offers calls) (port_of s) (port_of s')).
Proof.
  intros Htotal Hflow Hok. revert s. induction Hok as [|c calls Hc _ IH]; intros s Hs; cbn [account].
  { apply wp_ret. split; [done|]. exists [], []. split; [done|]. reflexivity. }
  apply wp_bind, wp_attempt. eapply wp_mono; [apply wp_wlp; [by apply Htotal|by apply Hflow]|].
  intros r s1 [H1 F1]. apply wp_bind. eapply wp_mono; [by apply IH|].
  intros r2 s2 (H2 & got & wrote & -> & F2). apply wp_ret. split; [done|].
  do 2 eexists. split; [done|]. unfold offers. cbn [map concat]. by eapply flow_trans.
Qed.
End account.
End commands.

(** ** Two ends of a stream *)

(** No event was given to the application, no datagram taken from it, and nothing of the
    stream was written by it. *)
Definition fresh (id : StreamId) (s : port) : Prop :=
  map Tokio.from (history (p_conn s)) = unread s /\ taken (p_conn s) = [] /\ offered id [] s.

(** A stream is fresh while the connection has neither data nor events. *)
Lemma fresh_new id c q :
  history c = [] -> taken c = [] -> accepted c id = [] -> ended c id = false -> t_events c = [] ->
  told_all q = [] -> fresh id (mkPort c pending_new q).
Proof.
  intros Hr Ht Ha He Hev Hq. split; [|split; [done|]].
  - unfold unread. cbn [p_conn p_queue]. by rewrite Hr, Hev, Hq.
  - constructor; cbn; rewrite ?Ha; [done|done|]. intros _ _. unfold conserved. cbn. by rewrite Ha, He.
Qed.

(** Between the port [r], whose application was given [got], and the port [s], whose
    application wrote [wrote] to the stream and handed over the datagrams [ds].
    The events of the connection are those given and those that wait, in order.
    QUIC keeps what one connection received of the stream a prefix of what the other
    accepted; when all of it arrived, nothing waits at either end, no peer reset the stream
    and nothing was written after its end, the applications agree on its bytes.
    QUIC delivers a datagram at most once, if at all: so does tokio-ngtcp2. *)
Record delivered (id : StreamId) (got : list Tokio.ConnectionEvent) (wrote : list (bytes * bool))
    (ds : list bytes) (r s : port) : Prop := {
  dl_events : map Tokio.from (history (p_conn r)) = got ++ unread r;
  dl_prefix : received (p_conn r) id `prefix_of` accepted (p_conn s) id ->
    app_bytes id got `prefix_of` written wrote;
  dl_all : received (p_conn r) id = accepted (p_conn s) id -> cut (p_conn s) id = false ->
    clean wrote = true -> pending_data (p_pending s) id = [] -> waiting id r = [] ->
    app_bytes id got = written wrote;
  dl_datagrams : datagrams_in (map Tokio.from (history (p_conn r))) ⊆+ taken (p_conn s) ->
    datagrams_in got ⊆+ ds }.

Lemma flow_delivered id got put' ds' got' wrote ds r0 r s0 s :
  fresh id r0 -> flow id got put' ds' r0 r -> fresh id s0 -> flow id got' wrote ds s0 s ->
  delivered id got wrote ds r s.
Proof.
  intros (Hr & _ & _) [(es & H1 & H2) _ _] (_ & Ht & Hs) [_ (l & Hl & Hsub) Ho].
  assert (map Tokio.from (history (p_conn r)) = got ++ unread r) as Hev
    by by rewrite H1, map_app, Hr.
  assert (received (p_conn r) id = app_bytes id got ++ waiting id r) as Hgot.
  { unfold received, waiting. by rewrite <- app_bytes_from, Hev, app_bytes_app. }
  destruct (Ho [] Hs) as [Ha _ Hall]. cbn [app] in Ha, Hall. constructor; [done|..].
  - intros Hp. transitivity (accepted (p_conn s) id); [|done].
    transitivity (received (p_conn r) id); [|done]. rewrite Hgot. by eexists.
  - intros He Hcut Hclean Hp Hw. destruct (Hall Hcut Hclean) as [<- _].
    rewrite Hp, <- He, Hgot, Hw. by rewrite !app_nil_r.
  - rewrite Hev, datagrams_in_app, Hl, Ht. intros Hsm. cbn [app] in Hsm.
    transitivity l; [|by apply sublist_submseteq].
    transitivity (datagrams_in got ++ datagrams_in (unread r)); [|done]. apply submseteq_inserts_r.
    done.
Qed.
End flow.
Notation advances := (advances_taking []).

Create HintDb flow.
#[export] Hint Resolve keeps_ret keeps_throw keeps_panic keeps_diverge keeps_gets keeps_expect
  keeps_try quietly_preorder advances_preorder sd_read_pkt sd_write_pkt
  sd_write_close_app sd_handle_expiry sd_submit_new_token sd_open_bidi sd_open_uni sd_shutdown
  sd_shutdown_write sd_shutdown_reliable sd_shutdown_read sd_extend_offset sd_migration
  sd_key_update sd_ticket sd_issued sd_retired sd_qlog sd_new_token sd_max_offset sd_max_bidi
  sd_max_uni advances_modify advances_call : flow.

(** Decides that a command is quiet, by its form. *)
Ltac flow_auto :=
  repeat first
    [ solve [eauto with flow]
    | match goal with |- forall _, _ => intro end
    | match goal with |- keeps _ (match ?x with _ => _ end) => destruct x end
    | apply keeps_bind; [exact _| |]
    | apply keeps_attempt ].
End Flow.
