(* ===== verification/World.v ===== *)
(** * What the server and its accepted connections share

    The clock, the random generator, the sockets and, behind their mutex, the shared
    routes with the channels that carry datagrams to the accepted connections. The
    models of server.rs change it in place; nothing here is copied between owners. *)
From S2P Require Import Prelude Types Errors Tokens Effects Transport Streams Routes Tokio.
Import Types Errors Tokens Effects.

Module World.
#[local] Existing Instance Routes.SharedRoutes_eta.

(** What the operating system answers, by the number of the call: the nanoseconds
    [timestamp] reads, and the bytes [aws_lc_rs::rand::fill] gives. [monotonic n] is what
    [Instant::now] reads after [n] calls of [timestamp]: the nanoseconds of the monotonic
    clock of the system. *)
Class Env := {
  clock : nat -> Z;
  monotonic : nat -> Z;
  entropy : nat -> Z -> option bytes }.

Class EnvDoc `{!Env} : Prop := {
  clock_u64 n : is_u64 (clock n);
  entropy_len n len b : 0 <= len -> entropy n len = Some b -> slen b = len }.

(** What the tasks share behind the mutex: the routes, and the channels that their
    senders point to. *)
Record Shared := mkShared {
  sh_routes : Routes.SharedRoutes;
  sh_channels : gmap nat Routes.channel;
  sh_next : nat }.
#[export] Instance Shared_eta : Eta Shared := fun h =>
  mkShared (sh_routes h) (sh_channels h) (sh_next h).
Definition shared_new : Shared := mkShared Routes.routes_new ∅ 0.

(** Who else runs. [Alone]: nobody. [Among finds parked]: each time the task takes the
    lock it finds the shared part as the next of [finds], as the tasks that ran since
    left it. Once these are used up it waits for the lock, and [parked] is the shared
    part it left when it last released it; what the computation does from then on has
    not happened. *)
Inductive Schedule :=
| Alone
| Among (finds : list Shared) (parked : option Shared).

(** [sent]: the packets handed to the sockets, each with the address of the socket it
    left from. *)
Record World := mkWorld {
  ticks : nat; draws : nat;
  sockets : Tokio.ServerSockets;
  sent : list (SocketAddr * Streams.OutgoingPacket);
  shared : Shared;
  sched : Schedule }.
#[export] Instance World_eta : Eta World := fun w =>
  mkWorld (ticks w) (draws w) (sockets w) (sent w) (shared w) (sched w).

Definition routes (w : World) : Routes.SharedRoutes := sh_routes (shared w).
Definition channels (w : World) : gmap nat Routes.channel := sh_channels (shared w).
Definition next_channel (w : World) : nat := sh_next (shared w).
#[export] Instance update_routes : Update routes := fun r w =>
  w <| shared := (shared w) <| sh_routes := r |> |>.
#[export] Instance update_channels : Update channels := fun chs w =>
  w <| shared := (shared w) <| sh_channels := chs |> |>.
#[export] Instance update_next_channel : Update next_channel := fun n w =>
  w <| shared := (shared w) <| sh_next := n |> |>.

(** [cbn] computes the fields of an updated world down to those of [shared]. *)
Ltac fold_shared :=
  repeat match goal with
  | |- context [sh_routes (shared ?w)] => change (sh_routes (shared w)) with (routes w)
  | |- context [sh_channels (shared ?w)] => change (sh_channels (shared w)) with (channels w)
  | |- context [sh_next (shared ?w)] => change (sh_next (shared w)) with (next_channel w)
  end.

(** A shared part without a task that looks at it. *)
Definition lone (h : Shared) : World :=
  mkWorld 0 0 (Tokio.mkSockets (SockV4 [] 0) None) [] h Alone.

Lemma put_routes w : w <| routes := routes w |> = w.
Proof. by destruct w as [? ? ? ? []]. Qed.
Lemma put_channels w : w <| channels := channels w |> = w.
Proof. by destruct w as [? ? ? ? []]. Qed.

(** [self.routes.lock()], before each critical section. Alone a task finds what it left. *)
Definition take_lock (w : World) : World :=
  match sched w with
  | Among (h :: finds) None => w <| shared := h |> <| sched := Among finds None |>
  | Among [] None => w <| sched := Among [] (Some (shared w)) |>
  | _ => w
  end.
Definition lock : M World unit := modify take_lock.

Lemma take_lock_alone w : sched w = Alone -> take_lock w = w.
Proof. unfold take_lock. by intros ->. Qed.

(** The routes are a part of the world that only the route operations change. *)
Definition on_routes {A} (m : M Routes.SharedRoutes A) : M World A :=
  zoom routes (fun r w => w <| routes := r |>) m.

(** [ServerSockets::send_packets]: send errors are only logged. *)
Definition send_packets (packets : list Streams.OutgoingPacket) : M World unit :=
  modify (fun w => w <| sent := sent w ++
    map (fun p => (Tokio.socket_for (sockets w) (Streams.op_local p), p)) packets |>).

(** [mpsc::channel(MAX_QUEUED_DATAGRAMS)] *)
Definition new_channel : M World nat := fun w =>
  Done (next_channel w)
    (w <| channels := <[next_channel w := Routes.mkChannel [] true]> (channels w) |>
       <| next_channel := S (next_channel w) |>).

(** [SharedRoutes::deliver] on the shared table. *)
Definition deliver (key : ConnectionId) (dgram : Routes.InboundDatagram) : M World bool := fun w =>
  let '(chs, ok) := Routes.deliver key dgram (routes w) (channels w) in
  Done ok (w <| channels := chs |>).

(** Dropping the receiver of a channel. *)
Definition close_channel (id : nat) (w : World) : World :=
  match channels w !! id with
  | Some ch => w <| channels := <[id := Routes.mkChannel [] false]> (channels w) |>
  | None => w
  end.

Lemma routes_close_channel id w : routes (close_channel id w) = routes w.
Proof. unfold close_channel. by destruct (channels w !! id). Qed.

Lemma close_channel_Some id ch w :
  channels w !! id = Some ch ->
  close_channel id w = w <| channels := <[id := Routes.mkChannel [] false]> (channels w) |>.
Proof. unfold close_channel. by intros ->. Qed.

(** [receiver.recv()] when a datagram waits. *)
Definition recv (id : nat) : M World (option Routes.InboundDatagram) := fun w =>
  match channels w !! id with
  | Some ch =>
      match Routes.queue ch with
      | dgram :: q =>
          Done (Some dgram)
            (w <| channels := <[id := Routes.mkChannel q (Routes.rx_open ch)]> (channels w) |>)
      | [] => Done None w
      end
  | None => Done None w
  end.

(** ** The shared part *)

(** What the tasks share stays, and what the others do. The rest of the world is read
    and written by one task at a time and carries nothing from one to another. *)
Definition same_shared (w w' : World) : Prop :=
  shared w' = shared w /\ sched w' = sched w.

#[export] Instance same_shared_equiv : Equivalence same_shared.
Proof.
  split.
  - by intros w.
  - by intros w w' [? ?].
  - intros w1 w2 w3 [? ?] [? ?]. split; congruence.
Qed.

#[export] Hint Extern 0 (same_shared _ _) => (split; reflexivity) : core.

(** [live] tells which channels have a receiver, and for the connection with which key.
    The shared part is coherent with it when each live connection is the target of its
    key and its channel is open; every sender belongs to a live connection; every route
    leads to a key that has a sender; and no queue is longer than the channel allows. *)
Record shared_ok (live : gmap nat ConnectionId) (w : World) : Prop := {
  so_live n k : live !! n = Some k ->
    Routes.r_senders (routes w) !! k = Some n /\
    exists q, channels w !! n = Some (Routes.mkChannel q true);
  so_sender k n : Routes.r_senders (routes w) !! k = Some n -> live !! n = Some k;
  so_cid cid k : Routes.r_cid_map (routes w) !! cid = Some k ->
    is_Some (Routes.r_senders (routes w) !! k);
  so_addr a k : Routes.r_addr_map (routes w) !! a = Some k ->
    is_Some (Routes.r_senders (routes w) !! k);
  so_channel n ch : channels w !! n = Some ch ->
    (n < next_channel w)%nat /\ slen (Routes.queue ch) <= Routes.MAX_QUEUED_DATAGRAMS /\
    (Routes.rx_open ch = true -> is_Some (live !! n));
  so_lens len : len ∈ Routes.r_short_cid_lengths (routes w) -> 0 <= len;
  so_taken : Routes.taken_wf (Routes.r_taken (routes w)) }.

(** It is about the shared part only. *)
Lemma shared_ok_eq live w w' : shared w' = shared w -> shared_ok live w -> shared_ok live w'.
Proof.
  intros Hs [? ? ? ? ? ? ?].
  constructor; unfold routes, channels, next_channel in *; rewrite Hs; done.
Qed.

#[export] Instance shared_ok_proper live : Proper (same_shared ==> iff) (shared_ok live).
Proof.
  intros w w' [Hs _]. by split; apply shared_ok_eq.
Qed.

Section shared.
Context (live : gmap nat ConnectionId).
Implicit Types w : World.

(** Two live connections have different keys. *)
Lemma shared_ok_inj w n n' k :
  shared_ok live w -> live !! n = Some k -> live !! n' = Some k -> n = n'.
Proof.
  intros Hw Hn Hn'. apply (so_live _ _ Hw) in Hn as [Hn _], Hn' as [Hn' _]. congruence.
Qed.

(** A change of the routes that keeps the senders and routes only to keys with one. *)
Lemma shared_ok_routes w r :
  shared_ok live w ->
  Routes.r_senders r = Routes.r_senders (routes w) ->
  (forall cid k, Routes.r_cid_map r !! cid = Some k -> is_Some (Routes.r_senders r !! k)) ->
  (forall a k, Routes.r_addr_map r !! a = Some k -> is_Some (Routes.r_senders r !! k)) ->
  (forall len, len ∈ Routes.r_short_cid_lengths r -> 0 <= len) ->
  Routes.taken_wf (Routes.r_taken r) ->
  shared_ok live (w <| routes := r |>).
Proof.
  intros [] Hs. constructor; cbn; try done; rewrite Hs; done.
Qed.

(** Delivery to the owner of a route: the datagram joins the end of the queue of a live
    connection, or is dropped when that is full; it never finds the channel closed. *)
Lemma deliver_ok k dgram w :
  shared_ok live w -> is_Some (Routes.r_senders (routes w) !! k) ->
  wp (deliver k dgram) w (fun r w' => r = Ok true /\ routes w' = routes w /\
    sched w' = sched w /\ shared_ok live w').
Proof.
  intros Hw [n Hn]. pose proof (so_sender _ _ Hw _ _ Hn) as Hl.
  destruct (so_live _ _ Hw _ _ Hl) as [_ [q Hq]].
  destruct (so_channel _ _ Hw _ _ Hq) as (Hlt & Hlen & _).
  unfold wp, deliver, Routes.deliver, Routes.try_send. rewrite Hn, Hq. cbn.
  destruct (Z.leb_spec Routes.MAX_QUEUED_DATAGRAMS (slen q)).
  { split; [done|]. split; [done|]. split; [done|]. by rewrite put_channels. }
  split; [done|]. split; [done|]. split; [done|]. destruct Hw as [H1 H2 H3 H4 H5 H6 H7].
  constructor; cbn; try done.
  - intros n' k' Hn'. destruct (H1 n' k' Hn') as [? [q' Hq']]. split; [done|].
    rewrite lookup_insert. case_decide; eauto.
  - intros n' ch. rewrite lookup_insert. case_decide; [|apply H5]. subst. intros [= <-]. cbn.
    split; [done|]. split; [|by eexists]. rewrite slen_app. change (slen [dgram]) with 1. lia.
Qed.

(** Removing the routes of a key without a sender. *)
Lemma remove_absent_ok k w :
  shared_ok live w -> Routes.r_senders (routes w) !! k = None ->
  shared_ok live (w <| routes := Routes.remove k (routes w) |>).
Proof.
  intros Hw Hk. apply shared_ok_routes; try done; try apply Hw; cbn.
  - by rewrite delete_id.
  - intros cid k' [Hc _]%Routes.lookup_retain_other. rewrite delete_id by done.
    by apply (so_cid _ _ Hw cid).
  - intros a k' [Hc _]%Routes.lookup_retain_other. rewrite delete_id by done.
    by apply (so_addr _ _ Hw a).
Qed.

(** What [resolve] finds has a sender. *)
Lemma resolve_ok d from w :
  shared_ok live w -> are_bytes d ->
  exists o, Routes.resolve d from (routes w) = Done o (routes w) /\
    forall k, o = Some k -> is_Some (Routes.r_senders (routes w) !! k).
Proof.
  intros Hw Hb. unfold Routes.resolve, mbind, M_bind.
  destruct (Routes.resolve_dcid_Done (Routes.r_cid_map (routes w))
    (Routes.r_short_cid_lengths (routes w)) d (routes w) Hb (so_lens _ _ Hw)) as [[k|] Ho];
    rewrite Ho; eexists; (split; [done|]); intros k' [= Hk].
  - subst. apply Routes.resolve_dcid_value in Ho as [cid Hc]. by apply (so_cid _ _ Hw cid).
  - by apply (so_addr _ _ Hw from).
Qed.

(** A live connection routes ids to itself, and takes some back. *)
Lemma sync_ok n k issued retired t w :
  shared_ok live w -> live !! n = Some k -> Routes.taken_wf t ->
  shared_ok live (w <| routes := (routes w)
    <| Routes.r_short_cid_lengths :=
         Routes.insert_lens issued (Routes.r_short_cid_lengths (routes w)) |>
    <| Routes.r_cid_map := Routes.unroute_all k retired
         (Routes.insert_cids k issued (Routes.r_cid_map (routes w))) |>
    <| Routes.r_taken := t |> |>).
Proof.
  intros Hw Hn Ht. destruct (so_live _ _ Hw _ _ Hn) as [Hk _].
  apply shared_ok_routes; try done; cbn; [|apply Hw|].
  - intros cid k'. rewrite Routes.lookup_unroute_all, Routes.lookup_insert_cids.
    case_bool_decide; [done|]. case_bool_decide; [intros [= <-]; by eexists|].
    apply (so_cid _ _ Hw).
  - intros len [Hlen|(cid & _ & ->)]%Routes.elem_of_insert_lens; [by apply Hw|apply slen_nonneg].
Qed.

(** A live connection takes the first datagram of its queue. *)
Lemma recv_ok n w :
  shared_ok live w ->
  wp (recv n) w (fun r w' => (exists o, r = Ok o) /\ routes w' = routes w /\
    sched w' = sched w /\ shared_ok live w').
Proof.
  intros Hw. unfold wp, recv. destruct (channels w !! n) as [[q b]|] eqn:Hn; [|eauto].
  destruct q as [|dgram q]; cbn; [eauto|]. split; [eauto|]. split; [done|]. split; [done|].
  destruct (so_channel _ _ Hw _ _ Hn) as (Hlt & Hlen & Ho). cbn in Hlen, Ho.
  destruct Hw as [H1 H2 H3 H4 H5 H6 H7]. constructor; cbn; try done.
  - intros n' k' Hn'. destruct (H1 n' k' Hn') as [? [q' Hq']]. split; [done|].
    rewrite lookup_insert. case_decide; [|by eexists]. subst. rewrite Hn in Hq'.
    injection Hq' as _ ->. by eexists.
  - intros n' ch. rewrite lookup_insert. case_decide; [|apply H5]. subst. intros [= <-]. cbn.
    rewrite slen_cons in Hlen. split; [done|]. split; [lia|done].
Qed.

(** A connection that is taken becomes live under a key that no live one has. *)
Lemma register_ok k cids addrs w :
  shared_ok live w -> (forall n, live !! n <> Some k) ->
  shared_ok (<[next_channel w := k]> live)
    (w <| channels := <[next_channel w := Routes.mkChannel [] true]> (channels w) |>
       <| next_channel := S (next_channel w) |>
       <| routes := Routes.register k (next_channel w) cids addrs (routes w) |>).
Proof.
  intros [H1 H2 H3 H4 H5 H6 H7] Hfresh.
  assert (forall n k', live !! n = Some k' -> (n < next_channel w)%nat) as Hlt.
  { intros n k' Hn. destruct (H1 n k' Hn) as [_ [q Hq]]. by apply H5 in Hq as [? _]. }
  assert (forall k' : ConnectionId, is_Some (Routes.r_senders (routes w) !! k') ->
    is_Some (<[k := next_channel w]> (Routes.r_senders (routes w)) !! k')) as Hsome.
  { intros k' Hk'. rewrite lookup_insert. case_decide; [by eexists|done]. }
  constructor; cbn; try done.
  - intros n k' [[<- <-]|[Hne Hn]]%lookup_insert_Some.
    { rewrite !lookup_insert_eq. split; [done|by eexists]. }
    destruct (H1 n k' Hn) as [? [q ?]]. rewrite !lookup_insert_ne; [split; [done|by eexists]|done|].
    intros ->. by destruct (Hfresh n).
  - intros k' n [[<- <-]|[Hne Hk]]%lookup_insert_Some; [by rewrite lookup_insert_eq|].
    apply H2 in Hk. rewrite lookup_insert_ne; [done|]. intros <-. apply Hlt in Hk. lia.
  - intros cid k'. rewrite Routes.lookup_insert_cids. case_bool_decide.
    + intros [= <-]. rewrite lookup_insert_eq. by eexists.
    + intros Hc. apply Hsome. by apply (H3 cid).
  - intros a k'. rewrite Routes.lookup_insert_addrs. case_bool_decide.
    + intros [= <-]. rewrite lookup_insert_eq. by eexists.
    + intros Hc. apply Hsome. by apply (H4 a).
  - intros n ch [[<- <-]|[Hne Hn]]%lookup_insert_Some; cbn.
    + rewrite lookup_insert_eq. split; [lia|]. split; [done|by eexists].
    + apply H5 in Hn as (? & ? & Ho). rewrite lookup_insert_ne by done. split; [lia|]. done.
  - intros len [Hl|(cid & _ & ->)]%Routes.elem_of_insert_lens; [auto|apply slen_nonneg].
Qed.

(** A live connection is dropped: its routes and its sender go, its channel closes. *)
Lemma drop_ok n k w :
  shared_ok live w -> live !! n = Some k ->
  shared_ok (delete n live)
    (close_channel n (w <| routes := Routes.remove k (routes w) |>)).
Proof.
  intros Hw Hn. pose proof (fun n' => shared_ok_inj w n n' k Hw Hn) as Hinj.
  destruct Hw as [H1 H2 H3 H4 H5 H6 H7]. destruct (H1 n k Hn) as [Hk [q Hq]].
  rewrite (close_channel_Some n (Routes.mkChannel q true)) by exact Hq.
  assert (forall k', k' <> k -> delete k (Routes.r_senders (routes w)) !! k' =
    Routes.r_senders (routes w) !! k') as Hs by (intros k' ?; by apply lookup_delete_ne).
  constructor; cbn; try done.
  - intros n' k' [Hne Hn']%lookup_delete_Some. destruct (H1 n' k' Hn') as [Hk' [q' Hq']].
    rewrite Hs, lookup_insert_ne by (intros ->; congruence). split; [done|by eexists].
  - intros k' n' [Hne Hk']%lookup_delete_Some. apply H2 in Hk'. rewrite lookup_delete_ne; [done|].
    intros <-. congruence.
  - intros cid k' [Hc Hne]%Routes.lookup_retain_other. rewrite Hs by done. by apply (H3 cid).
  - intros a k' [Hc Hne]%Routes.lookup_retain_other. rewrite Hs by done. by apply (H4 a).
  - intros n' ch [[<- <-]|[Hne Hn']]%lookup_insert_Some; cbn.
    + destruct (H5 n _ Hq) as (? & ? & _). split; [done|]. split; [|done]. by rewrite slen_nil.
    + rewrite lookup_delete_ne by done. by apply H5.
Qed.
End shared.

(** ** What a task keeps of it

    A predicate on the world that survives what a task does to the routes and queues of
    others: a datagram that resolves to another connection is delivered, and the routes
    of that connection are removed when its channel is found closed. [me] is the
    connection of the task; the server has none. *)

Record routes_ok (r : Routes.SharedRoutes) : Prop := {
  ro_lens len : len ∈ Routes.r_short_cid_lengths r -> 0 <= len;
  ro_taken : Routes.taken_wf (Routes.r_taken r) }.

(** What the task will find under the lock. *)
Definition finds (w : World) : list Shared :=
  match sched w with Among finds _ => finds | Alone => [] end.

Record world_ok (w : World) : Prop := {
  wo_routes : routes_ok (routes w);
  wo_finds : Forall (fun h => routes_ok (sh_routes h)) (finds w) }.

Record stable (me : option ConnectionId) (W : World -> Prop) : Prop := {
  st_same w w' : same_shared w w' -> W w -> W w';
  st_lock w : W w -> W (take_lock w);
  st_ok w : W w -> routes_ok (routes w);
  st_deliver k dgram w :
    W w -> are_bytes (Routes.in_data dgram) -> me <> Some k ->
    Routes.resolve (Routes.in_data dgram) (Routes.in_from dgram) (routes w)
      = Done (Some k) (routes w) ->
    wp (deliver k dgram) w (fun r w' => exists b, r = Ok b /\ routes w' = routes w /\
      sched w' = sched w /\ W w' /\
      (b = false -> W (w' <| routes := Routes.remove k (routes w') |>))) }.

Lemma world_ok_lock w : world_ok w -> world_ok (take_lock w).
Proof.
  intros [Hr Hf]. unfold take_lock, finds in *. destruct w as [? ? ? ? h [|[|h' l] [p|]]]; cbn in *.
  1-4: by constructor. inversion Hf; subst. by constructor.
Qed.

Lemma world_ok_stable me : stable me world_ok.
Proof.
  constructor; [|apply world_ok_lock|by intros w []|].
  - intros w w' [Hr Hs] [? ?]. constructor; unfold routes, finds in *; by rewrite ?Hr, ?Hs.
  - intros k dgram w Hw _ _ _. unfold wp, deliver.
    destruct (Routes.deliver _ _ _ _) as [chs b]. exists b. split; [done|].
    split; [done|]. split; [done|]. destruct Hw as [Hr Hf]. split; [by constructor|]. intros _. constructor; [|done].
    by destruct Hr; constructor.
Qed.

Lemma shared_ok_routes_ok live w : shared_ok live w -> routes_ok (routes w).
Proof. intros []. by constructor. Qed.

(** [resolve] does not panic on received bytes and leaves the table alone. *)
Lemma resolve_Done d from r :
  routes_ok r -> are_bytes d -> exists o, Routes.resolve d from r = Done o r.
Proof.
  intros [Hl _] Hb. unfold Routes.resolve, mbind, M_bind.
  destruct (Routes.resolve_dcid_Done (Routes.r_cid_map r)
    (Routes.r_short_cid_lengths r) d r Hb Hl) as [o ->]. by eexists.
Qed.

Section env.
Context {env : Env}.

Definition timestamp : M World Z := fun w => Done (clock (ticks w)) (w <| ticks := S (ticks w) |>).

(** [Instant::now() + d]. An [Instant] counts the seconds in an [i64]; the sum panics when
    it does not fit. *)
Definition instant_max : Z := 2 ^ 63 * 1000000000 - 1.
Definition instant_add (t d : Z) : option Z := if t + d <=? instant_max then Some (t + d) else None.
Definition deadline_after (d : Z) : M World Z := fun w =>
  expect (instant_add (monotonic (ticks w)) d) w.

(** [ConnectionId::random] *)
Definition random_cid (len : Z) : M World (option ConnectionId) := fun w =>
  Done (Types.random (entropy (draws w)) len) (w <| draws := S (draws w) |>).

Lemma random_cid_ok {doc : EnvDoc} len w cid w' :
  random_cid len w = Done (Some cid) w' ->
  cid_ok cid /\ Types.len cid = len /\ 0 < len /\
  w' = w <| draws := S (draws w) |>.
Proof.
  unfold random_cid, Types.random, NGTCP2_MIN_CIDLEN, NGTCP2_MAX_CIDLEN.
  destruct (Z.ltb_spec len 1), (Z.ltb_spec 20 len); cbn [orb]; try (intros [=]; done).
  destruct (entropy (draws w) len) as [b|] eqn:He; [|intros [=]; done].
  intros [= <- <-]. apply entropy_len in He; [|lia]. unfold cid_ok, Types.len, NGTCP2_MAX_CIDLEN. cbn.
  split; [lia|]. split; [done|]. split; [lia|done].
Qed.
End env.
End World.
