(* ===== verification/Socket.v ===== *)
(** * UDP sockets (src/tokio-ngtcp2/src/socket.rs)

    Sending and receiving datagrams with [sendmsg] and [recvmsg]: the addresses byte for
    byte, the ECN codepoint in the control messages, the loops around [try_io], and the
    choice between the server's two sockets. The kernel is a parameter. World.v states
    what the rest of the crate sees of it. *)
From S2P Require Import Prelude Types Errors Effects Transport Streams Routes Tokio World.
Import Types Errors Effects.

Module Socket.
Local Open Scope rust_scope.

(** ** ECN *)

Definition NOT_ECT : Z := 0.
Definition ECT1 : Z := 1.
Definition ECT0 : Z := 2.
Definition CE : Z := 3.
Definition ECN_MASK : Z := 3.
Definition IPPROTO_IP : Z := 0.
Definition IP_TOS : Z := 1.
Definition IP_RECVTOS : Z := 13.
Definition IPPROTO_IPV6 : Z := 41.
Definition IPV6_TCLASS : Z := 67.
Definition IPV6_RECVTCLASS : Z := 66.

(** A control message: level, type and data. *)
Record cmsg := mkCmsg { cmsg_level : Z; cmsg_type : Z; cmsg_data : bytes }.

(** A little-endian [c_int]. *)
Definition int_bytes (v : Z) : bytes := rev (be_bytes 4 v).

(** The control messages [send_to_sync] gives to [sendmsg]. *)
Definition ecn_control (target : SocketAddr) (ecn : Z) : list cmsg :=
  if ecn =? NOT_ECT then []
  else
    match target with
    | SockV4 _ _ => [mkCmsg IPPROTO_IP IP_TOS (int_bytes ecn)]
    | SockV6 _ _ _ _ => [mkCmsg IPPROTO_IPV6 IPV6_TCLASS (int_bytes ecn)]
    end.

Definition is_tos (c : cmsg) : bool :=
  ((cmsg_level c =? IPPROTO_IP) && ((cmsg_type c =? IP_TOS) || (cmsg_type c =? IP_RECVTOS))) ||
  ((cmsg_level c =? IPPROTO_IPV6) &&
   ((cmsg_type c =? IPV6_TCLASS) || (cmsg_type c =? IPV6_RECVTCLASS))).

(** [CMSG_FIRSTHDR] and [CMSG_NXTHDR] go through the list; the first byte of the data
    is read. *)
Fixpoint parse_ecn (msg : list cmsg) : Z :=
  match msg with
  | [] => NOT_ECT
  | c :: msg =>
      if is_tos c then Z.land (default 0 (head (cmsg_data c))) ECN_MASK else parse_ecn msg
  end.

(** ** Addresses *)

(** A field of a C structure is written. *)
Definition put (mem : bytes) (offset : Z) (field : bytes) : bytes :=
  take (Z.to_nat offset) mem ++ field ++ drop (Z.to_nat (offset + slen field)) mem.

Definition sockaddr_to_raw (addr : SocketAddr) : bytes * Z :=
  let storage := replicate (Z.to_nat sizeof_sockaddr_storage) 0 in
  match addr with
  | SockV4 ip port =>
      let storage := put storage 0 (le_bytes 2 AF_INET) in
      let storage := put storage 2 (be_bytes 2 port) in
      let storage := put storage 4 ip in
      (storage, sizeof_sockaddr_in)
  | SockV6 ip port flowinfo scope_id =>
      let storage := put storage 0 (le_bytes 2 AF_INET6) in
      let storage := put storage 2 (be_bytes 2 port) in
      let storage := put storage 8 ip in
      let storage := put storage 4 (le_bytes 4 flowinfo) in
      let storage := put storage 24 (le_bytes 4 scope_id) in
      (storage, sizeof_sockaddr_in6)
  end.

(** [Ipv4Addr::from(u32::from_be(..))] goes through the number. *)
Definition sockaddr_from_raw (addr : bytes) (len : Z) : option SocketAddr :=
  let? family := slice addr 0 2 in
  if le_value family =? AF_INET then
    if len <? sizeof_sockaddr_in then None
    else
      let? s_addr := slice addr 4 8 in
      let? port := slice addr 2 4 in
      Some (SockV4 (be_bytes 4 (be_value s_addr)) (be_value port))
  else if le_value family =? AF_INET6 then
    if len <? sizeof_sockaddr_in6 then None
    else
      let? s6_addr := slice addr 8 24 in
      let? port := slice addr 2 4 in
      Some (SockV6 s6_addr (be_value port) 0 0)
  else None.

(** ** The kernel *)

Inductive io_error := WouldBlock | InvalidData (msg : string) | Os (code : Z).

(** What [sendmsg] is given: name, data and control messages. *)
Record msghdr := mkMsg {
  msg_name : bytes; msg_namelen : Z; msg_data : bytes; msg_control : list cmsg }.
(** What [recvmsg] leaves behind. *)
Record received := mkReceived {
  rv_buf : bytes; rv_name : bytes; rv_namelen : Z; rv_control : list cmsg }.

(** The sockets of tokio and the system calls on them; [k_errno] is [last_os_error]. *)
Class Kernel := {
  kernel : Type;
  fd : Type;
  k_bind : SocketAddr -> kernel -> kernel * result io_error fd;
  k_local_addr : fd -> kernel -> result io_error SocketAddr;
  k_setsockopt : fd -> Z -> Z -> Z -> kernel -> kernel;
  k_writable : fd -> kernel -> kernel * result io_error unit;
  k_readable : fd -> kernel -> kernel * result io_error unit;
  k_sendmsg : fd -> msghdr -> kernel -> kernel * Z;
  k_recvmsg : fd -> bytes -> Z -> kernel -> kernel * (Z * received);
  k_errno : kernel -> io_error }.

Section socket.
Context {kn : Kernel}.

(** An [async fn] that returns an [io::Result], and [?] on one. *)
Notation IO A := (M kernel (result io_error A)).
Definition io_bind {A B} (m : IO A) (f : A -> IO B) : IO B :=
  r ← m; match r with Ok a => f a | Err e => mret (Err e) end.
Notation "x ←? m ; k" := (io_bind m (fun x => k))
  (at level 20, m at level 100, k at level 200, right associativity).
Notation "' x ←? m ; k" := (io_bind m (fun x => k))
  (at level 20, x pattern, m at level 100, k at level 200, right associativity).

Record Socket := mkSocket { inner : fd; local_addr : SocketAddr }.

Definition enable_ecn (s : fd) : M kernel unit :=
  modify (k_setsockopt s IPPROTO_IP IP_RECVTOS 1) ;;
  modify (k_setsockopt s IPPROTO_IPV6 IPV6_RECVTCLASS 1).

Definition Socket_bind (addr : SocketAddr) : IO Socket :=
  inner ←? call (k_bind addr);
  local ←? gets (k_local_addr inner);
  enable_ecn inner ;; mret (Ok (mkSocket inner local)).

(** The message of [send_to_sync]. *)
Definition message (buf : bytes) (target : SocketAddr) (ecn : Z) : msghdr :=
  let '(addr, addr_len) := sockaddr_to_raw target in
  mkMsg addr addr_len buf (ecn_control target ecn).

Definition send_to_sync (s : fd) (buf : bytes) (target : SocketAddr) (ecn : Z) : IO Z :=
  n ← call (k_sendmsg s (message buf target ecn));
  if n <? 0 then e ← gets k_errno; mret (Err e) else mret (Ok n).

Definition CONTROL_BUFFER_SIZE : Z := 64.

(** Length, sender, codepoint, and the buffer. *)
Definition recv_from_sync (s : fd) (buf : bytes) : IO (Z * SocketAddr * Z * bytes) :=
  '(n, r) ← call (k_recvmsg s buf CONTROL_BUFFER_SIZE);
  if n <? 0 then e ← gets k_errno; mret (Err e)
  else
    match sockaddr_from_raw (rv_name r) (rv_namelen r) with
    | None => mret (Err (InvalidData "unsupported address family"))
    | Some from => mret (Ok (n, from, parse_ecn (rv_control r), rv_buf r))
    end.

Fixpoint send_to (fuel : nat) (s : fd) (buf : bytes) (target : SocketAddr) (ecn : Z) : IO Z :=
  match fuel with
  | O => diverge
  | S fuel =>
      _ ←? call (k_writable s);
      r ← send_to_sync s buf target ecn;
      match r with
      | Err WouldBlock => send_to fuel s buf target ecn
      | r => mret r
      end
  end.

Fixpoint recv_from (fuel : nat) (s : fd) (buf : bytes) : IO (Z * SocketAddr * Z * bytes) :=
  match fuel with
  | O => diverge
  | S fuel =>
      _ ←? call (k_readable s);
      r ← recv_from_sync s buf;
      match r with
      | Err WouldBlock => recv_from fuel s buf
      | r => mret r
      end
  end.

(** ** The sockets of a server *)

Record ServerSockets := mkServerSockets {
  primary : Socket;
  primary_addr : SocketAddr;
  preferred : option (SocketAddr * Socket) }.

Definition bind (addr : SocketAddr) (preferred_addr : option SocketAddr) : IO ServerSockets :=
  primary ←? Socket_bind addr;
  let primary_addr := local_addr primary in
  match preferred_addr with
  | None => mret (Ok (mkServerSockets primary primary_addr None))
  | Some addr =>
      socket ←? Socket_bind addr;
      mret (Ok (mkServerSockets primary primary_addr (Some (local_addr socket, socket))))
  end.

Definition preferred_addr (s : ServerSockets) : option SocketAddr := fst <$> preferred s.

(** [alt]: the [select] takes the datagram of the second socket. The result is the data,
    the sender, the local address and the codepoint. *)
Definition server_recv_from (fuel : nat) (s : ServerSockets) (alt : bool) (buf alt_buf : bytes)
    : IO (bytes * SocketAddr * SocketAddr * Z) :=
  '(len, from, local, ecn, buf, alt_buf) ←?
    match preferred s with
    | Some (addr, socket) =>
        if alt then
          '(len, from, ecn, alt_buf) ←? recv_from fuel (inner socket) alt_buf;
          mret (Ok (len, from, addr, ecn, buf, alt_buf))
        else
          '(len, from, ecn, buf) ←? recv_from fuel (inner (primary s)) buf;
          mret (Ok (len, from, primary_addr s, ecn, buf, alt_buf))
    | None =>
        '(len, from, ecn, buf) ←? recv_from fuel (inner (primary s)) buf;
        mret (Ok (len, from, primary_addr s, ecn, buf, alt_buf))
    end;
  d ← expect (if bool_decide (local = primary_addr s) then slice buf 0 len
              else slice alt_buf 0 len);
  mret (Ok (d, from, local, ecn)).

(** The socket a packet leaves from. *)
Definition socket_of (s : ServerSockets) (local : SocketAddr) : Socket :=
  match preferred s with
  | Some (addr, socket) => if bool_decide (addr = local) then socket else primary s
  | None => primary s
  end.

Definition server_send_to (fuel : nat) (s : ServerSockets) (d : bytes)
    (local remote : SocketAddr) (ecn : Z) : IO unit :=
  _ ←? send_to fuel (inner (socket_of s local)) d remote ecn; mret (Ok tt).

(** Errors are only logged. *)
Definition send_packets (fuel : nat) (s : ServerSockets) (packets : list Streams.OutgoingPacket)
    : M kernel unit :=
  for_each packets (fun packet =>
    _ ← server_send_to fuel s (Streams.op_data packet) (Streams.op_local packet)
          (Streams.op_remote packet) (Streams.op_ecn packet);
    mret tt).

(** ** Lemmas *)

Lemma parse_ecn_skip (others msg : list cmsg) :
  Forall (fun c => is_tos c = false) others -> parse_ecn (others ++ msg) = parse_ecn msg.
Proof. induction 1 as [|c others Hc _ IH]; [done|]. cbn. by rewrite Hc. Qed.

Lemma land_mask z : 0 <= z -> Z.land z ECN_MASK = z mod 4.
Proof. intros. by apply (Z.land_ones z 2). Qed.

Lemma parse_ecn_range msg :
  Forall (fun c => are_bytes (cmsg_data c)) msg -> 0 <= parse_ecn msg <= ECN_MASK.
Proof.
  induction 1 as [|c msg Hc _ IH]; cbn; [done|]. destruct (is_tos c); [|done].
  rewrite land_mask; [unfold ECN_MASK; lia|].
  destruct Hc as [|b l Hb _]; cbn; [done|]. unfold is_u8 in Hb. lia.
Qed.

(** ** What the kernel does *)

(** [k_log]: the messages the kernel took, in order; [k_queue]: the datagrams that wait at
    a socket, with the address of the sender; [k_tries]: how often a system call may still
    find the socket not ready although tokio said so (it clears the readiness then). *)
Class KernelView := {
  k_log : kernel -> list (fd * msghdr);
  k_queue : fd -> kernel -> list (SocketAddr * bytes * list cmsg);
  k_tries : kernel -> nat }.

Class KernelDoc `{!KernelView} : Prop := {
  kd_writable s k : let '(k', _) := k_writable s k in
    k_log k' = k_log k /\ (forall s', k_queue s' k' = k_queue s' k) /\ k_tries k' = k_tries k;
  kd_readable s k : let '(k', _) := k_readable s k in
    k_log k' = k_log k /\ (forall s', k_queue s' k' = k_queue s' k) /\ k_tries k' = k_tries k;
  kd_sendmsg s m k : let '(k', n) := k_sendmsg s m k in
    if n <? 0 then
      k_log k' = k_log k /\ (forall s', k_queue s' k' = k_queue s' k) /\
      (k_errno k' = WouldBlock -> k_tries k' < k_tries k)%nat /\ (k_tries k' <= k_tries k)%nat
    else k_log k' = k_log k ++ [(s, m)] /\ (k_tries k' <= k_tries k)%nat;
  kd_recvmsg s buf len k : let '(k', (n, r)) := k_recvmsg s buf len k in
    k_log k' = k_log k /\
    if n <? 0 then
      (forall s', k_queue s' k' = k_queue s' k) /\
      (k_errno k' = WouldBlock -> k_tries k' < k_tries k)%nat
    else n <= slen buf /\ slen (rv_buf r) = slen buf;
  (** the first datagram of the queue, cut to the buffer; the sender's address is an
      [AF_INET] or [AF_INET6] one; other control messages may come first *)
  kd_received s buf len k from d ctl q : k_queue s k = (from, d, ctl) :: q -> slen d <= slen buf ->
    let '(k', (n, r)) := k_recvmsg s buf len k in
    0 <= n ->
    n = slen d /\ take (length d) (rv_buf r) = d /\
    (rv_name r, rv_namelen r) = sockaddr_to_raw from /\
    (exists others, rv_control r = others ++ ctl /\
       Forall (fun c => is_tos c = false) others) /\
    k_queue s k' = q }.

(** The bytes of both forms of an address. *)
Lemma sockaddr_to_raw_eq a : addr_ok a -> sockaddr_to_raw a = Types.sockaddr_to_raw a.
Proof.
  assert (forall (l : bytes) n, slen l = Z.of_nat n -> length l = n) as Hlen by (unfold slen; lia).
  unfold sockaddr_to_raw, Types.sockaddr_to_raw, zero_extended, put, be_bytes, le_bytes.
  destruct a as [ip port|ip port flow scope]; cbn [addr_ok].
  - intros (_ & Hip & _). apply (Hlen _ 4%nat) in Hip. by do 5 (destruct ip as [|? ip]; try done).
  - intros (_ & Hip & _). apply (Hlen _ 16%nat) in Hip. by do 17 (destruct ip as [|? ip]; try done).
Qed.

Lemma slice_bytes (l b : bytes) i j : are_bytes l -> slice l i j = Some b -> are_bytes b /\ slen b = j - i.
Proof.
  intros Hl. unfold slice. bool_cases; cbn; try done. intros [= <-].
  split; [by apply Forall_take, Forall_drop|]. rewrite slen_take; [done|]. rewrite slen_drop; lia.
Qed.

Lemma sockaddr_from_raw_eq mem len :
  are_bytes mem -> sockaddr_from_raw mem len = Types.sockaddr_from_raw (Some mem) len.
Proof.
  intros Hb. unfold sockaddr_from_raw, Types.sockaddr_from_raw.
  destruct (slice mem 0 2) as [family|]; [|done].
  destruct (_ =? AF_INET).
  - destruct (len <? _); [done|].
    destruct (slice mem 4 8) as [ip|] eqn:Hip, (slice mem 2 4); try done.
    apply slice_bytes in Hip as [Hi Hl]; [|done].
    replace 4%nat with (length ip) by (unfold slen in Hl; lia). by rewrite be_bytes_be_value.
  - destruct (_ =? AF_INET6); [|done]. destruct (len <? _); [done|].
    by destruct (slice mem 8 24), (slice mem 2 4).
Qed.

Lemma sockaddr_raw_roundtrip a :
  addr_ok a -> let '(mem, n) := sockaddr_to_raw a in sockaddr_from_raw mem n = Some (drop_scope a).
Proof.
  intros Ha. rewrite sockaddr_to_raw_eq by done. pose proof (sockaddr_roundtrip a Ha) as H.
  destruct (Types.sockaddr_to_raw a) as [mem n] eqn:Hm. destruct H as [_ H].
  rewrite sockaddr_from_raw_eq; [done|].
  replace mem with (Types.sockaddr_to_raw a).1 by by rewrite Hm. clear -Ha.
  assert (forall n l, are_bytes l -> are_bytes (zero_extended n l)) as Hz.
  { intros n l Hl. apply Forall_app. split; [done|]. by apply Forall_replicate. }
  assert (forall k v, are_bytes (le_bytes k v)) as Hle.
  { intros k v. apply Forall_rev, are_bytes_be_bytes. }
  unfold Types.sockaddr_to_raw.
  destruct a as [ip port|ip port flow scope]; destruct Ha as [Hip _]; cbn [fst]; apply Hz;
    repeat first [done | apply Hle | apply are_bytes_be_bytes | apply Forall_app; split].
Qed.

Lemma wp_io_bind {A B} (m : IO A) (f : A -> IO B) k (Q : result Error (result io_error B) -> kernel -> Prop) :
  wp m k (fun r k => match r with
    | Ok (Ok a) => wp (f a) k Q
    | Ok (Err e) => Q (Ok (Err e)) k
    | Err e => Q (Err e) k
    end) -> wp (io_bind m f) k Q.
Proof.
  intros Hm. apply wp_bind. eapply wp_mono; [exact Hm|]. by intros [[a|e]|e] k' Hk.
Qed.

Context {view : KernelView} {doc : KernelDoc}.

(** A datagram is sent: the message is taken, or an error is returned and nothing is; the
    loop ends once the spurious wake-ups are used up. *)
Lemma send_to_wp fuel s buf target ecn k :
  (k_tries k < fuel)%nat ->
  wp (send_to fuel s buf target ecn) k (fun r k' => exists v, r = Ok v /\
    (k_tries k' <= k_tries k)%nat /\
    match v with
    | Ok n => k_log k' = k_log k ++ [(s, message buf target ecn)] /\
        exists k1, (forall s', k_queue s' k1 = k_queue s' k) /\ 0 <= n /\
          k_sendmsg s (message buf target ecn) k1 = (k', n)
    | Err _ => k_log k' = k_log k
    end).
Proof.
  revert k. induction fuel as [|fuel IH]; intros k Hf; [lia|]. cbn [send_to].
  apply wp_io_bind, wp_call. pose proof (kd_writable s k) as Hw.
  destruct (k_writable s k) as [k1 [[]|e]]; destruct Hw as (Hl & Hq & Ht); cbn.
  2:{ eexists. split; [done|]. split; [lia|done]. }
  apply wp_bind. unfold send_to_sync. apply wp_bind, wp_call.
  pose proof (kd_sendmsg s (message buf target ecn) k1) as Hs.
  destruct (k_sendmsg s (message buf target ecn) k1) as [k2 n] eqn:Hsend. cbn.
  destruct (Z.ltb_spec n 0).
  - destruct Hs as (Hl2 & Hq2 & Hblock & Ht2). apply wp_bind, wp_gets, wp_ret.
    destruct (k_errno k2) eqn:He.
    2,3: apply wp_ret; eexists; (split; [done|]); (split; [lia|congruence]).
    specialize (Hblock eq_refl). eapply wp_mono; [apply IH; lia|].
    intros r k3 (v & -> & Ht3 & Hv). exists v. split; [done|]. split; [lia|].
    destruct v as [m|e]; [|congruence]. destruct Hv as (Hlog & k4 & Hq4 & Hm & Hk4).
    split; [congruence|]. exists k4. split; [|done]. intros s'. by rewrite Hq4, Hq2, Hq.
  - destruct Hs as [Hl2 Ht2]. apply wp_ret, wp_ret. eexists. split; [done|]. split; [lia|].
    split; [congruence|]. exists k1. done.
Qed.

(** A datagram is received: the first of the queue, if one waits and the call succeeds. *)
Lemma recv_from_wp fuel s buf k :
  (k_tries k < fuel)%nat ->
  wp (recv_from fuel s buf) k (fun r k' => exists v, r = Ok v /\
    match v with
    | Ok (n, from, ecn, buf') => 0 <= n <= slen buf /\ slen buf' = slen buf /\
        forall a d ctl q, k_queue s k = (a, d, ctl) :: q -> slen d <= slen buf -> addr_ok a ->
          n = slen d /\ take (length d) buf' = d /\ from = drop_scope a /\
          ecn = parse_ecn ctl /\ k_queue s k' = q
    | Err _ => True
    end).
Proof.
  revert k. induction fuel as [|fuel IH]; intros k Hf; [lia|]. cbn [recv_from].
  apply wp_io_bind, wp_call. pose proof (kd_readable s k) as Hw.
  destruct (k_readable s k) as [k1 [[]|e]]; destruct Hw as (Hl & Hq & Ht); cbn; [|by eexists].
  apply wp_bind. unfold recv_from_sync. apply wp_bind, wp_call.
  pose proof (kd_recvmsg s buf CONTROL_BUFFER_SIZE k1) as Hr.
  pose proof (kd_received s buf CONTROL_BUFFER_SIZE k1) as Hfirst.
  destruct (k_recvmsg s buf CONTROL_BUFFER_SIZE k1) as [k2 [n r]]. cbn. destruct Hr as [Hl2 Hr].
  destruct (Z.ltb_spec n 0).
  - destruct Hr as (Hq2 & Hblock). apply wp_bind, wp_gets, wp_ret.
    destruct (k_errno k2) eqn:He; [|apply wp_ret; by eexists..].
    specialize (Hblock eq_refl). eapply wp_mono; [apply IH; lia|].
    intros r' k3 (v & -> & Hv). exists v. split; [done|].
    destruct v as [[[[m from] ecn] buf']|e]; [|done]. destruct Hv as (H1 & H2 & H3).
    split; [done|]. split; [done|]. intros a d ctl q Hd. apply H3. by rewrite Hq2, Hq.
  - destruct Hr as [Hn Hb]. destruct (sockaddr_from_raw _ _) as [from|] eqn:Hfrom.
    2:{ apply wp_ret, wp_ret. by eexists. }
    apply wp_ret, wp_ret. eexists. split; [done|]. split; [lia|]. split; [done|].
    intros a d ctl q Hd Hlen Ha. rewrite <- (Hq s) in Hd.
    destruct (Hfirst a d ctl q Hd Hlen) as (H1 & H2 & H3 & (others & H4 & H5) & H6); [lia|].
    split; [done|]. split; [done|]. split; [|split; [|done]].
    + pose proof (sockaddr_raw_roundtrip a Ha) as Hrt. rewrite <- H3 in Hrt. congruence.
    + rewrite H4. by apply parse_ecn_skip.
Qed.

(** ** The sockets of a server *)

(** What [bind] makes; the kernel binds no two sockets to one address. *)
Record sockets_ok (s : ServerSockets) : Prop := {
  ss_primary : primary_addr s = local_addr (primary s);
  ss_preferred addr socket : preferred s = Some (addr, socket) ->
    addr = local_addr socket /\ addr <> primary_addr s }.

Lemma bind_ok addr preferred_addr k s k' :
  bind addr preferred_addr k = Done (Ok s) k' ->
  (forall a socket, preferred s = Some (a, socket) -> a <> primary_addr s) -> sockets_ok s.
Proof.
  unfold bind. intros Hb Hne. unfold io_bind, mbind, M_bind in Hb.
  destruct (Socket_bind addr k) as [[p|e] k1|?| |]; try done. destruct preferred_addr as [a|].
  - destruct (Socket_bind a k1) as [[q|e] k2|?| |]; try done. injection Hb as <- <-.
    constructor; [done|]. intros a' socket Hs. split; [|by apply (Hne _ socket)].
    by injection Hs as <- <-.
  - injection Hb as <- <-. by constructor.
Qed.

(** What World.v knows of the sockets. *)
Definition addresses (s : ServerSockets) : Tokio.ServerSockets :=
  Tokio.mkSockets (primary_addr s) (preferred_addr s).

Lemma socket_of_addr s local :
  sockets_ok s -> local_addr (socket_of s local) = Tokio.socket_for (addresses s) local.
Proof.
  intros [Hp Hs]. unfold socket_of, Tokio.socket_for, addresses, preferred_addr. cbn.
  destruct (preferred s) as [[addr socket]|]; cbn; [|done].
  destruct (Hs _ _ eq_refl) as [-> _]. by case_bool_decide.
Qed.

(** A message the kernel took carries a packet that World.v lists as sent. *)
Definition carries (s : ServerSockets) (m : fd * msghdr)
    (e : SocketAddr * Streams.OutgoingPacket) : Prop :=
  let '(addr, p) := e in
  fst m = inner (socket_of s (Streams.op_local p)) /\
  local_addr (socket_of s (Streams.op_local p)) = addr /\
  sockaddr_from_raw (msg_name (snd m)) (msg_namelen (snd m)) = Some (drop_scope (Streams.op_remote p)) /\
  msg_data (snd m) = Streams.op_data p /\
  parse_ecn (msg_control (snd m)) = Streams.op_ecn p.

Lemma parse_ecn_control target ecn :
  0 <= ecn <= ECN_MASK -> parse_ecn (ecn_control target ecn) = ecn.
Proof.
  unfold ECN_MASK. intros H.
  assert (ecn = 0 \/ ecn = 1 \/ ecn = 2 \/ ecn = 3) as [-> | [-> | [-> | ->]]] by lia;
    by destruct target.
Qed.

Definition packet_ok (p : Streams.OutgoingPacket) : Prop :=
  addr_ok (Streams.op_remote p) /\ 0 <= Streams.op_ecn p <= ECN_MASK.

Lemma message_carries s p :
  sockets_ok s -> packet_ok p ->
  carries s (inner (socket_of s (Streams.op_local p)),
      message (Streams.op_data p) (Streams.op_remote p) (Streams.op_ecn p))
    (Tokio.socket_for (addresses s) (Streams.op_local p), p).
Proof.
  intros Hs [Ha He]. unfold carries, message. pose proof (sockaddr_raw_roundtrip _ Ha) as Hr.
  destruct (sockaddr_to_raw _) as [mem n]. cbn. split; [done|]. split; [by apply socket_of_addr|].
  split; [done|]. split; [done|]. by apply parse_ecn_control.
Qed.

(** ** Properties *)

(** The two copies of the address conversion, in socket.rs and in conn.rs, agree: the
    same bytes and length for every address, and the same address, or none, for every
    memory. *)
Theorem sockaddr_copies_agree :
  (forall a, addr_ok a -> sockaddr_to_raw a = Types.sockaddr_to_raw a) /\
  (forall mem len, are_bytes mem ->
     sockaddr_from_raw mem len = Types.sockaddr_from_raw (Some mem) len).
Proof. split; [exact sockaddr_to_raw_eq|exact sockaddr_from_raw_eq]. Qed.

(** C34: [ServerSockets::send_packets] does what World.v says of it: it always returns,
    and the kernel has taken, in their order, messages that carry packets of the list
    World.v adds to [sent], each from the socket and to the address given there, with its
    data and codepoint; a packet whose send fails is left out and stops no other. *)
Theorem send_packets_refines (fuel : nat) (s : ServerSockets)
    (packets : list Streams.OutgoingPacket) (w : World.World) (k : kernel)
    (Hfuel : (k_tries k < fuel)%nat) (Hs : sockets_ok s) (Hw : World.sockets w = addresses s)
    (Hp : Forall packet_ok packets) :
  wp (send_packets fuel s packets) k (fun r k' => r = Ok tt /\
    wp (World.send_packets packets) w (fun r' w' => r' = Ok tt /\
      exists log all taken, k_log k' = k_log k ++ log /\
        World.sent w' = World.sent w ++ all /\ taken `sublist_of` all /\
        Forall2 (carries s) log taken)).
Proof.
  enough (wp (send_packets fuel s packets) k (fun r k' => r = Ok tt /\
    exists log taken, k_log k' = k_log k ++ log /\
      taken `sublist_of` map (fun p => (Tokio.socket_for (addresses s) (Streams.op_local p), p)) packets /\
      Forall2 (carries s) log taken)) as H.
  { eapply wp_mono; [exact H|]. intros r k' (-> & log & taken & H1 & H2 & H3). split; [done|].
    apply wp_modify. split; [done|]. exists log. eexists _, taken. cbn. by rewrite Hw. }
  clear w Hw. revert k Hfuel. induction Hp as [|p packets Hp _ IH]; intros k Hfuel.
  { apply wp_ret. split; [done|]. exists [], []. by rewrite app_nil_r. }
  unfold send_packets. cbn [for_each map]. apply wp_bind, wp_bind, wp_io_bind.
  eapply wp_mono; [by apply send_to_wp|]. intros r k1 (v & -> & Ht & Hv).
  destruct v as [n|e]; apply wp_ret; [apply wp_ret|]; (eapply wp_mono; [apply IH; lia|]);
    intros r k2 (-> & log & taken & H1 & H2 & H3); (split; [done|]).
  - destruct Hv as [Hv _]. eexists (_ :: log), (_ :: taken).
    split; [by rewrite H1, Hv, <- app_assoc|]. split; [by apply sublist_skip|].
    constructor; [by apply message_carries|done].
  - exists log, taken. split; [congruence|]. split; [by apply sublist_cons|done].
Qed.

(** A datagram is answered from the socket it came in on: what
    [ServerSockets::recv_from] returns is the first datagram that waited at the socket
    which [send_to] uses for the local address it reports, with its data, sender and
    codepoint, whichever socket [select] took; it never slices out of a buffer. *)
Theorem reply_path (fuel : nat) (s : ServerSockets) (alt : bool) (buf alt_buf : bytes)
    (k : kernel) (Hfuel : (k_tries k < fuel)%nat) (Hs : sockets_ok s) :
  wp (server_recv_from fuel s alt buf alt_buf) k (fun r k' => exists v, r = Ok v /\
    match v with
    | Ok (d, from, local, ecn) =>
        let socket := inner (socket_of s local) in
        forall a d0 ctl q, k_queue socket k = (a, d0, ctl) :: q ->
          slen d0 <= slen buf -> slen d0 <= slen alt_buf -> addr_ok a ->
          d = d0 /\ from = drop_scope a /\ ecn = parse_ecn ctl /\ k_queue socket k' = q
    | Err _ => True
    end).
Proof.
  destruct Hs as [Hp Hs].
  assert (forall n (b d0 : bytes), n = slen d0 -> take (length d0) b = d0 ->
    take (Z.to_nat (n - 0)) (drop (Z.to_nat 0) b) = d0) as Htake.
  { intros n b d0 -> Hd. unfold slen. by rewrite Z.sub_0_r, Nat2Z.id. }
  assert (forall n (b : bytes), 0 <= n <= slen b -> slice b 0 n =
    Some (take (Z.to_nat (n - 0)) (drop (Z.to_nat 0) b))) as Hslice.
  { intros n b Hn. unfold slice. by destruct (Z.leb_spec 0 0), (Z.leb_spec 0 n), (Z.leb_spec n (slen b)); try lia. }
  unfold server_recv_from. apply wp_io_bind. destruct (preferred s) as [[addr socket]|] eqn:Hpref.
  - destruct (Hs _ _ eq_refl) as [_ Hne]. destruct alt; apply wp_io_bind;
      (eapply wp_mono; [by apply recv_from_wp|]); intros r k1 (v & -> & Hv);
      (destruct v as [[[[n from] ecn] b]|e]; [|by eexists]); destruct Hv as (Hn & Hb & Hq);
      apply wp_ret, wp_bind.
    + rewrite bool_decide_false by done. rewrite Hslice by lia. apply wp_ret, wp_ret.
      eexists. split; [done|]. intros a d0 ctl q. unfold socket_of.
      rewrite Hpref, bool_decide_true by done. intros H1 H2 H3 H4.
      destruct (Hq _ _ _ _ H1 H3 H4) as (E1 & E2 & E3 & E4 & E5). eauto.
    + rewrite bool_decide_true by done. rewrite Hslice by lia. apply wp_ret, wp_ret.
      eexists. split; [done|]. intros a d0 ctl q. unfold socket_of.
      rewrite Hpref, bool_decide_false by done. intros H1 H2 H3 H4.
      destruct (Hq _ _ _ _ H1 H2 H4) as (E1 & E2 & E3 & E4 & E5). eauto.
  - apply wp_io_bind. eapply wp_mono; [by apply recv_from_wp|]. intros r k1 (v & -> & Hv).
    destruct v as [[[[n from] ecn] b]|e]; [|by eexists]. destruct Hv as (Hn & Hb & Hq).
    apply wp_ret, wp_bind. rewrite bool_decide_true by done. rewrite Hslice by lia.
    apply wp_ret, wp_ret. eexists. split; [done|]. intros a d0 ctl q.
    unfold socket_of. rewrite Hpref. intros H1 H2 H3 H4.
    destruct (Hq _ _ _ _ H1 H2 H4) as (E1 & E2 & E3 & E4 & E5). eauto.
Qed.

(** Socket [a], bound to [from], reaches socket [b], bound to [to], and nothing is lost on
    the way: the loopback interface. *)
Class Loopback (a b : fd) (from to : SocketAddr) : Prop := {
  lb_deliver m k k' n :
    k_sendmsg a m k = (k', n) -> 0 <= n ->
    sockaddr_from_raw (msg_name m) (msg_namelen m) = Some (drop_scope to) ->
    k_queue b k' = k_queue b k ++ [(from, msg_data m, msg_control m)] }.

(** C33: a datagram survives the way from socket to socket: when both calls succeed, the
    receiver gets the data that was sent, the address of the sender and the ECN
    codepoint, on IPv4 and IPv6, whatever other control messages its kernel adds. *)
Theorem datagram_roundtrip (fuel : nat) (a b : fd) (from to : SocketAddr)
    {net : Loopback a b from to} (d buf : bytes) (ecn : Z) (k : kernel)
    (Hfuel : (k_tries k < fuel)%nat) (Hfrom : addr_ok from) (Hto : addr_ok to)
    (Hecn : 0 <= ecn <= ECN_MASK) (Hlen : slen d <= slen buf) (Hempty : k_queue b k = []) :
  wp (_ ←? send_to fuel a d to ecn; recv_from fuel b buf) k (fun r _ => exists v, r = Ok v /\
    match v with
    | Ok (n, sender, codepoint, buf') =>
        n = slen d /\ take (length d) buf' = d /\ sender = drop_scope from /\ codepoint = ecn
    | Err _ => True
    end).
Proof.
  apply wp_io_bind. eapply wp_mono; [by apply send_to_wp|]. intros r k' (v & -> & Ht & Hv).
  destruct v as [n|e]; [|by eexists]. destruct Hv as (_ & k1 & Hq & Hn & Hk).
  assert (k_queue b k' = [(from, d, ecn_control to ecn)]) as Hq'.
  { pose proof (sockaddr_raw_roundtrip to Hto) as Hrt. revert Hk. unfold message.
    destruct (sockaddr_to_raw to) as [mem len]. intros Hk.
    rewrite (lb_deliver _ _ _ _ Hk Hn Hrt). by rewrite Hq, Hempty. }
  eapply wp_mono; [apply recv_from_wp; lia|]. intros r k2 (v & -> & Hv).
  destruct v as [[[[m sender] codepoint] buf']|e]; [|by eexists]. destruct Hv as (_ & _ & Hv).
  eexists. split; [done|]. destruct (Hv _ _ _ _ Hq' Hlen Hfrom) as (H1 & H2 & H3 & H4 & _).
  split; [done|]. split; [done|]. split; [done|]. rewrite H4. by apply parse_ecn_control.
Qed.
End socket.

(** ** A concrete kernel

    Two sockets on the loopback interface, 0 and 1, bound to [toy_addr 0] and
    [toy_addr 1]; what one sends waits at the other. The first [tk_tries] calls find their
    socket not ready; the kernel of the receiver adds a timestamp message. *)
Record toy_kernel := mkToyKernel {
  tk_log : list (nat * msghdr);
  tk_queues : nat -> list (SocketAddr * bytes * list cmsg);
  tk_tries : nat }.

Definition toy_addr (s : nat) : SocketAddr := SockV4 [127; 0; 0; 1] (4433 + Z.of_nat s).
Definition toy_peer (s : nat) : nat := match s with O => 1%nat | _ => 0%nat end.
Definition toy_timestamp : cmsg := mkCmsg 1 29 [1; 2; 3; 4].

Definition toy_net : Kernel := {|
  kernel := toy_kernel;
  fd := nat;
  k_bind addr k := (k, Ok (if bool_decide (addr = toy_addr 0) then 0%nat else 1%nat));
  k_local_addr s k := Ok (toy_addr s);
  k_setsockopt _ _ _ _ k := k;
  k_writable _ k := (k, Ok tt);
  k_readable _ k := (k, Ok tt);
  k_sendmsg s m k :=
    match tk_tries k with
    | S n => (mkToyKernel (tk_log k) (tk_queues k) n, -1)
    | O =>
        (mkToyKernel (tk_log k ++ [(s, m)])
           (fun s' => if (s' =? toy_peer s)%nat
                      then tk_queues k s' ++ [(toy_addr s, msg_data m, msg_control m)]
                      else tk_queues k s') 0,
         slen (msg_data m))
    end;
  k_recvmsg s buf _ k :=
    match tk_tries k, tk_queues k s with
    | S n, _ => (mkToyKernel (tk_log k) (tk_queues k) n, (-1, mkReceived buf [] 0 []))
    | O, [] => (k, (0, mkReceived buf [] 0 []))
    | O, (from, d, ctl) :: q =>
        let n := Z.min (slen d) (slen buf) in
        (mkToyKernel (tk_log k) (fun s' => if (s' =? s)%nat then q else tk_queues k s') 0,
         (n, mkReceived (take (Z.to_nat n) d ++ drop (Z.to_nat n) buf)
               (sockaddr_to_raw from).1 (sockaddr_to_raw from).2 (toy_timestamp :: ctl)))
    end;
  k_errno _ := WouldBlock |}.

#[local] Existing Instance toy_net.
#[local] Instance toy_view : KernelView :=
  {| k_log := tk_log; k_queue s k := tk_queues k s; k_tries := tk_tries |}.

#[local] Instance toy_kernel_doc : KernelDoc.
Proof.
  constructor; cbn.
  - done.
  - done.
  - intros s m [l q n]. cbn. destruct n; cbn.
    + pose proof (slen_nonneg (msg_data m)). destruct (Z.ltb_spec (slen (msg_data m)) 0); [lia|]. done.
    + split; [done|]. split; [done|]. lia.
  - intros s buf len [l q n]. cbn. pose proof (slen_nonneg buf).
    destruct n; cbn; [|split; [done|]; split; [done|]; lia].
    destruct (q s) as [|[[from d] ctl] q']; cbn; [done|]. pose proof (slen_nonneg d).
    split; [done|]. destruct (Z.ltb_spec (Z.min (slen d) (slen buf)) 0); [lia|]. split; [lia|].
    rewrite slen_app, slen_take, slen_drop; lia.
  - intros s buf len [l qs n] from d ctl q. cbn. intros Hq Hlen. destruct n; cbn; [|lia].
    rewrite Hq. cbn. intros _. rewrite Z.min_l by lia.
    split; [done|]. unfold slen. rewrite Nat2Z.id, (take_ge d), take_app_length by lia.
    split; [done|]. split; [by destruct (sockaddr_to_raw from)|]. rewrite Nat.eqb_refl.
    split; [|done]. exists [toy_timestamp]. split; [done|]. by repeat constructor.
Qed.

#[local] Instance toy_loopback : Loopback (0%nat : fd) (1%nat : fd) (toy_addr 0) (toy_addr 1).
Proof.
  constructor. intros m [l q n] k' r. cbn. destruct n; intros [= <- <-]; [done|lia].
Qed.

Definition toy_idle : toy_kernel := mkToyKernel [] (fun _ => []) 2.

Lemma toy_addr_ok s : (s <= 1)%nat -> addr_ok (toy_addr s).
Proof. intros Hs. cbn. split; [solve_bytes|]. split; [reflexivity|lia]. Qed.

Definition toy_exchange : M kernel (result io_error (Z * SocketAddr * Z * bytes)) :=
  io_bind (send_to 3 (0%nat : fd) [1; 2] (toy_addr 1) 2) (fun _ => recv_from 3 (1%nat : fd) [0; 0; 0]).

(** An IPv6 address with a scope id, and memory with a family that is not supported. *)
Lemma sockaddr_copies_agree_witness :
  let a := SockV6 (replicate 15 0 ++ [1]) 4433 7 2 in
  sockaddr_to_raw a = Types.sockaddr_to_raw a /\ snd (sockaddr_to_raw a) = 28 /\
  sockaddr_from_raw (replicate 128 0) 16 = Types.sockaddr_from_raw (Some (replicate 128 0)) 16 /\
  sockaddr_from_raw (replicate 128 0) 16 = None.
Proof.
  intros a. destruct sockaddr_copies_agree as [H1 H2]. split; [|split; [reflexivity|split]].
  - apply H1. cbn. split; [solve_bytes|]. split; [reflexivity|]. unfold u32_max. lia.
  - apply H2. apply Forall_replicate. unfold is_u8. lia.
  - reflexivity.
Defined.

(** The system calls fail twice before they succeed. *)
Lemma datagram_roundtrip_witness :
  wp toy_exchange toy_idle (fun r _ => exists v, r = Ok v /\
      match v with
      | Ok (n, sender, codepoint, buf) =>
          n = 2 /\ take 2 buf = [1; 2] /\ sender = toy_addr 0 /\ codepoint = 2
      | Err _ => True
      end) /\
  exists k, toy_exchange toy_idle = Done (Ok (2, toy_addr 0, 2, [1; 2; 0])) k.
Proof.
  split; [|eexists; reflexivity].
  apply (datagram_roundtrip (kn := toy_net) 3 0%nat 1%nat (toy_addr 0) (toy_addr 1) [1; 2] [0; 0; 0] 2).
  - cbn. lia.
  - apply toy_addr_ok. lia.
  - apply toy_addr_ok. lia.
  - unfold ECN_MASK. lia.
  - vm_compute. discriminate.
  - reflexivity.
Defined.

Definition toy_sockets : ServerSockets :=
  mkServerSockets (mkSocket (0%nat : fd) (toy_addr 0)) (toy_addr 0)
    (Some (toy_addr 1, mkSocket (1%nat : fd) (toy_addr 1))).

Lemma toy_sockets_ok : sockets_ok toy_sockets.
Proof. constructor; [done|]. intros ? ? [= <- <-]. split; [done|]. discriminate. Qed.

(** A client at [toy_addr 0] sent to the second socket; the answer leaves from there. *)
Lemma reply_path_witness :
  let k := mkToyKernel [] (fun s => if (s =? 1)%nat then [(toy_addr 0, [7], [])] else []) 1 in
  wp (server_recv_from 2 toy_sockets true [0; 0] [0; 0]) (k : kernel) (fun r _ => exists v, r = Ok v /\
    match v with
    | Ok (d, from, local, ecn) =>
        inner (socket_of toy_sockets local) = 1%nat -> d = [7] /\ from = toy_addr 0
    | Err _ => True
    end).
Proof.
  intros k. eapply wp_mono.
  - apply (reply_path (kn := toy_net) 2 toy_sockets true [0; 0] [0; 0] k); [cbn; lia|apply toy_sockets_ok].
  - intros r k' (v & -> & Hv). exists v. split; [reflexivity|]. destruct v as [[[[d from] local] ecn]|e].
    + intros H1. cbv zeta in Hv. rewrite H1 in Hv.
      destruct (Hv (toy_addr 0) [7] [] []) as (H2 & H3 & _).
      * reflexivity.
      * vm_compute. discriminate.
      * vm_compute. discriminate.
      * apply toy_addr_ok. lia.
      * split; [exact H2|exact H3].
    + exact I.
Defined.

Definition toy_packets : list Streams.OutgoingPacket :=
  [Streams.mkPacket [1] (toy_addr 0) (toy_addr 1) 0; Streams.mkPacket [2; 3] (toy_addr 1) (toy_addr 0) 1].

Lemma send_packets_refines_witness :
  let w := World.mkWorld 0 0 (addresses toy_sockets) [] World.shared_new World.Alone in
  wp (send_packets 3 toy_sockets toy_packets) (toy_idle : kernel) (fun r k' => r = Ok tt /\
    wp (World.send_packets toy_packets) w (fun r' w' => r' = Ok tt /\
      exists log all taken, k_log k' = k_log (toy_idle : kernel) ++ log /\
        World.sent w' = World.sent w ++ all /\
        taken `sublist_of` all /\ Forall2 (carries toy_sockets) log taken)).
Proof.
  intros w. apply (send_packets_refines (kn := toy_net) 3 toy_sockets toy_packets w toy_idle).
  - cbn. lia.
  - apply toy_sockets_ok.
  - reflexivity.
  - repeat constructor; cbn; unfold is_u8, ECN_MASK; lia.
Defined.
End Socket.
