(* ===== verification/ServerConn.v ===== *)
(** * A connection of the server (src/tokio-ngtcp2/src/server.rs, 512-560 and 2497-2697)

    [ServerConnection] and the functions on it that both [Server] and
    [AcceptedConnection] use. The loops compute their fuel: [drain_events] from the
    events that wait, [flush_to_packets] from the packets the connection can still
    write and the data that waits. *)
From S2P Require Import Prelude Types Errors Tokens Conn Callbacks Effects Transport Streams.
From S2P Require Import Routes Tokio World.
Import Types Errors Tokens Callbacks Effects Transport World.

Module ServerConn.

Section server_conn.
Context {api : TokenApi} {env : Env} {tr : Transport} {bud : TransportBudget}.

Record ServerConnection := mkServerConnection {
  sc_conn : conn;
  sc_remote_addr : SocketAddr;
  sc_pending : Streams.PendingStreams;
  sc_events : list Tokio.ConnectionEvent;
  sc_address_validated : bool;
  sc_new_token_secret : option RetrySecret;
  sc_new_token_submitted : bool;
  sc_early_data_received : bool;
  sc_closed : bool;
  sc_send_buf : bytes;
  sc_datagram : Tokio.DatagramConfig;
  sc_qlog : Tokio.QlogWriter }.
#[export] Instance ServerConnection_eta : Eta ServerConnection := fun c =>
  mkServerConnection (sc_conn c) (sc_remote_addr c) (sc_pending c) (sc_events c)
    (sc_address_validated c) (sc_new_token_secret c) (sc_new_token_submitted c)
    (sc_early_data_received c) (sc_closed c) (sc_send_buf c) (sc_datagram c) (sc_qlog c).

(** A connection, and the world around it. *)
Notation st := (ServerConnection * World)%type.

Definition on_sc {A} (m : M ServerConnection A) : M st A := zoom fst (fun c s => (c, s.2)) m.
Definition on_conn {A} (m : M conn A) : M st A :=
  on_sc (zoom sc_conn (fun c s => s <| sc_conn := c |>) m).
Definition on_world {A} (m : M World A) : M st A := zoom snd (fun w s => (s.1, w)) m.
Definition set_sc (f : ServerConnection -> ServerConnection) : M st unit := on_sc (modify f).
Definition sc {A} (f : ServerConnection -> A) : M st A := gets (fun s => f s.1).

(** A function that may panic and fails with a value. *)
Definition from_outcome {S A} (o : outcome (result Error A)) : M S (result Error A) :=
  match o with Panic => panic | Ret r => mret r end.

Definition submit_new_token : M st unit :=
  submitted ← sc sc_new_token_submitted;
  validated ← sc sc_address_validated;
  if submitted || negb validated then mret tt
  else
    secret ← sc sc_new_token_secret;
    match secret with
    | None => mret tt
    | Some secret =>
        ts ← on_world timestamp;
        addr ← sc sc_remote_addr;
        token ← from_outcome (generate_new_token secret addr ts);
        match token with
        | Err _ => mret tt
        | Ok token =>
            r ← attempt (on_conn (t_submit_new_token (tok_bytes token)));
            match r with
            | Ok _ => set_sc (fun c => c <| sc_new_token_submitted := true |>)
            | Err _ => mret tt
            end
        end
    end.

(** What an event changes besides the queue of events. *)
Definition note_early_data (event : ConnectionEvent) (c : ServerConnection) : ServerConnection :=
  if t_is_in_early_data (sc_conn c) &&
     match event with StreamData _ _ _ | Datagram _ => true | _ => false end
  then c <| sc_early_data_received := true |> else c.
Definition note_path (event : ConnectionEvent) (c : ServerConnection) : ServerConnection :=
  match event with
  | PathValidated path true => c <| sc_remote_addr := remote path |>
  | _ => c
  end.

Fixpoint drain_loop (fuel : nat) : M st unit :=
  match fuel with
  | O => diverge
  | S fuel =>
      o ← on_conn (call t_poll_event);
      match o with
      | None => mret tt
      | Some event =>
          match event with HandshakeCompleted => submit_new_token | _ => mret tt end ;;
          set_sc (note_early_data event) ;;
          set_sc (note_path event) ;;
          set_sc (fun c => c <| sc_events := sc_events c ++ [Tokio.from event] |>) ;;
          drain_loop fuel
      end
  end.

Definition drain_events : M st unit := fun s =>
  drain_loop (S (length (t_events (sc_conn s.1)))) s.

Definition read_packet (local_addr from : SocketAddr) (d : bytes) (ts ecn : Z) : M st unit :=
  r ← attempt (on_conn (t_read_pkt {| local := local_addr; remote := from |} {| ecn := ecn |} d ts));
  drain_events ;;
  try r.

(** [write_packets] and [write_control_packets] borrow fields of the connection. *)
Definition on_io {A} (m : M Streams.io A) : M st A :=
  on_sc (zoom (fun c => Streams.mkIo (sc_conn c) (sc_pending c) (sc_send_buf c))
    (fun s c => c <| sc_conn := Streams.io_conn s |> <| sc_pending := Streams.io_pending s |>
                  <| sc_send_buf := Streams.io_buf s |>) m).

Definition write_fuel (ts : Z) (c : ServerConnection) : nat :=
  S (budget ts (sc_conn c) + Streams.pending_size (sc_pending c)).

Definition flush_to_packets (ts : Z) : M st (list Streams.OutgoingPacket) :=
  fuel ← sc (write_fuel ts);
  r ← attempt (on_io (Streams.write_packets fuel ts));
  drain_events ;;
  on_sc (zoom (fun c => (sc_conn c, sc_qlog c))
    (fun s c => c <| sc_conn := s.1 |> <| sc_qlog := s.2 |>) (Tokio.qlog_write 2)) ;;
  try r.

Definition handle_datagram (local_addr from : SocketAddr) (d : bytes) (ts ecn : Z) : M st unit :=
  r ← attempt (read_packet local_addr from d ts ecn);
  match r with
  | Ok _ => mret tt
  | Err e =>
      match classify_connection_error e with
      | Ignore => mret tt
      | Terminal | SilentDrop | TransportClose | ApplicationClose => mret tt
      | InternalKind => throw e
      end
  end.

Definition send_datagram_impl (d : bytes) : M st unit :=
  cfg ← sc sc_datagram;
  if Tokio.max_tx_datagram_size cfg <? slen d then
    throw (InvalidArgument "datagram size exceeds max_tx_datagram_size")
  else
    ts ← on_world timestamp;
    buf ← sc sc_send_buf;
    '(written, accepted, path, info, buf) ← on_conn (t_write_datagram buf d ts);
    set_sc (fun c => c <| sc_send_buf := buf |>) ;;
    if negb accepted then mret tt
    else
      packets ← (
        if 0 <? written then
           data ← Streams.prefix buf written;
           p ← try (Streams.from_written data path (ecn info));
           mret [p]
         else
           fuel ← sc (write_fuel ts);
           on_io (Streams.write_control_packets fuel ts) : M st (list Streams.OutgoingPacket));
      on_world (send_packets packets).

Definition pop_event : M st (option Tokio.ConnectionEvent) := fun s =>
  let '(es, e) := Tokio.pop_event (sc_events s.1) in
  Done e (s.1 <| sc_events := es |>, s.2).

Definition push_connection_closed : M st unit :=
  closed ← sc sc_closed;
  if (closed : bool) then mret tt
  else
    set_sc (fun c => c <| sc_closed := true |>) ;;
    set_sc (fun c => c <| sc_events :=
      sc_events c ++ [Tokio.closed_event (t_get_connection_error (sc_conn c))] |>).

(** ** Lemmas *)

Definition same_world (w w' : World) : Prop := exists n, w' = w <| ticks := n |>.

Lemma same_world_refl w : same_world w w.
Proof. exists (ticks w). by destruct w. Qed.
Lemma same_world_trans w1 w2 w3 : same_world w1 w2 -> same_world w2 w3 -> same_world w1 w3.
Proof. intros [n ->] [m ->]. by exists m. Qed.
Lemma same_world_shared w w' : same_world w w' -> same_shared w w'.
Proof. intros [n ->]. auto. Qed.

(** The path validated last, if any. *)
Definition validated_remote (a : SocketAddr) (es : list ConnectionEvent) : SocketAddr :=
  foldl (fun a e => match e with PathValidated path true => remote path | _ => a end) a es.

(** The events that count as early data while the handshake runs. *)
Definition is_data (e : ConnectionEvent) : bool :=
  match e with StreamData _ _ _ | Datagram _ => true | _ => false end.

(** The connection after [n] polls. *)
Definition polled (n : nat) (i : conn) : conn := Nat.iter n (fun i => (t_poll_event i).1) i.

(** A token for [addr] can be made at time [ts], and the connection accepts it. *)
Definition token_accepted (secret : RetrySecret) (addr : SocketAddr) (ts : Z) (i : conn) : Prop :=
  exists token i', generate_new_token secret addr ts = Ret (Ok token) /\
    t_submit_new_token (tok_bytes token) i = Done tt i'.

(** What taking the events [es] does to a connection, in a world whose clock stands at
    [ticks w]. *)
Record drained (w : World) (es : list ConnectionEvent) (c c' : ServerConnection) : Prop := {
  dr_events : sc_events c' = sc_events c ++ map Tokio.from es;
  dr_left : t_events (sc_conn c') = [];
  dr_remote : sc_remote_addr c' = validated_remote (sc_remote_addr c) es;
  dr_pending : sc_pending c' = sc_pending c;
  dr_closed : sc_closed c' = sc_closed c;
  dr_buf : sc_send_buf c' = sc_send_buf c;
  dr_validated : sc_address_validated c' = sc_address_validated c;
  dr_secret : sc_new_token_secret c' = sc_new_token_secret c;
  dr_datagram : sc_datagram c' = sc_datagram c;
  dr_early :
    sc_early_data_received c' =
    sc_early_data_received c || (t_is_in_early_data (sc_conn c) && existsb is_data es);
  dr_kept : sc_new_token_submitted c = true -> sc_new_token_submitted c' = true;
  dr_submitted :
    sc_new_token_submitted c = false -> sc_new_token_submitted c' = true ->
    sc_address_validated c = true /\ sc_new_token_secret c <> None /\ HandshakeCompleted ∈ es;
  dr_token es1 es2 secret :
    es = es1 ++ HandshakeCompleted :: es2 -> HandshakeCompleted ∉ es1 ->
    HandshakeCompleted ∉ es2 -> sc_new_token_submitted c = false ->
    sc_address_validated c = true -> sc_new_token_secret c = Some secret ->
    (sc_new_token_submitted c' = true <->
     token_accepted secret (validated_remote (sc_remote_addr c) es1) (clock (ticks w))
       (polled (S (length es1)) (sc_conn c))) }.

Section laws.
Context {api_doc : TokenApiDoc api} {doc : TransportDoc}.

(** When [submit_new_token] submits a token. *)
Definition submits (c : ServerConnection) (w : World) : Prop :=
  sc_address_validated c = true /\
  exists secret, sc_new_token_secret c = Some secret /\
    token_accepted secret (sc_remote_addr c) (clock (ticks w)) (sc_conn c).

(** [submit_new_token] touches the connection and the flag only. *)
Definition submitted (c : ServerConnection) (w : World) (s' : st) : Prop :=
  same_world w s'.2 /\
  exists i b, s'.1 = c <| sc_conn := i |> <| sc_new_token_submitted := b |> /\
    t_events i = t_events (sc_conn c) /\
    t_is_in_early_data i = t_is_in_early_data (sc_conn c) /\
    (sc_new_token_submitted c = true -> b = true) /\
    (sc_new_token_submitted c = false -> (b = true <-> submits c w)).

Lemma submitted_not c w w' :
  same_world w w' -> (sc_new_token_submitted c = false -> ~ submits c w) ->
  submitted c w (c, w').
Proof.
  intros Hw Hn. split; [done|]. exists (sc_conn c), (sc_new_token_submitted c).
  split; [by destruct c|]. split_and!; [done..|]. intros H. rewrite H. split; [done|].
  intros Hs. by destruct (Hn H).
Qed.

Lemma submit_new_token_wp c w :
  wp submit_new_token (c, w) (fun r s' => r = Ok tt /\ submitted c w s').
Proof.
  pose proof (same_world_refl w) as Hrefl.
  unfold submit_new_token, sc. apply wp_bind, wp_gets, wp_bind, wp_gets. cbn [fst].
  destruct (sc_new_token_submitted c || negb (sc_address_validated c)) eqn:Hc.
  { apply wp_ret. split; [done|]. apply submitted_not; [done|]. intros H [Hv _].
    by rewrite H, Hv in Hc. }
  apply orb_false_elim in Hc as [Hs Hv%negb_false_iff].
  apply wp_bind, wp_gets. cbn [fst]. destruct (sc_new_token_secret c) as [secret|] eqn:Hsec.
  2: { apply wp_ret. split; [done|]. apply submitted_not; [done|]. intros _ (_ & ? & H & _).
       congruence. }
  apply wp_bind, wp_zoom. cbn. apply wp_bind, wp_gets. cbn [fst].
  destruct (generate_new_token_ret secret (sc_remote_addr c) (clock (ticks w))) as [r Hr].
  rewrite Hr. cbn. apply wp_bind, wp_ret.
  assert (same_world w (w <| ticks := S (ticks w) |>)) as Hw by by eexists.
  destruct r as [token|e].
  2: { apply wp_ret. split; [done|]. apply submitted_not; [done|].
       intros _ (_ & ? & H & ? & ? & Hg & _). congruence. }
  apply wp_bind, wp_attempt, wp_zoom, wp_zoom. cbn.
  pose proof (submit_new_token_spec (tok_bytes token) (sc_conn c)) as Hi.
  unfold wp at 1. unfold wp in Hi. destruct (t_submit_new_token _ _) as [[] i|e i| |] eqn:Ht;
    [| |done|done].
  - apply wp_zoom, wp_modify. split; [done|]. split; [done|]. exists i, true.
    split; [done|]. destruct Hi. split_and!; [done..|]. intros _. split; [|done]. intros _.
    split; [done|]. exists secret. split; [done|]. by exists token, i.
  - apply wp_ret. split; [done|]. split; [done|]. exists i, false. cbn. destruct Hi.
    split; [by destruct c; cbn in *; subst|]. rewrite Hs. split_and!; [done..|]. intros _.
    split; [done|]. intros (_ & ? & ? & ? & ? & ? & ?). congruence.
Qed.

(** One event: the world's clock only moves when the handshake completes. *)
Lemma drain_step e es c c2 i b early c' w w2 :
  t_events (sc_conn c) = e :: es ->
  c2 = c <| sc_conn := i |> <| sc_new_token_submitted := b |>
         <| sc_early_data_received := early |>
         <| sc_remote_addr := validated_remote (sc_remote_addr c) [e] |>
         <| sc_events := sc_events c ++ [Tokio.from e] |> ->
  early = sc_early_data_received c || (t_is_in_early_data (sc_conn c) && is_data e) ->
  t_is_in_early_data i = t_is_in_early_data (sc_conn c) ->
  (sc_new_token_submitted c = true -> b = true) ->
  (e = HandshakeCompleted /\
     (sc_new_token_submitted c = false ->
      (b = true <-> submits (c <| sc_conn := polled 1 (sc_conn c) |>) w)) \/
   e <> HandshakeCompleted /\
     i = polled 1 (sc_conn c) /\ b = sc_new_token_submitted c /\ w2 = w) ->
  drained w2 es c2 c' -> drained w (e :: es) c c'.
Proof.
  intros He -> Hearly Hi Hk Hb [D1 D2 D3 D4 D5 D6 D7 D8 D9 D10 D11 D12 D13]. cbn in *.
  constructor; try done.
  - rewrite D1. cbn. by rewrite <- app_assoc.
  - rewrite D10, Hearly, Hi. cbn.
    by destruct (sc_early_data_received c), (t_is_in_early_data (sc_conn c)), (is_data e).
  - intros H. by apply D11, Hk.
  - intros H1 H2. destruct Hb as [[Hc Hb]|[Hc (_ & -> & _)]].
    + destruct b; [|destruct (D12 eq_refl H2) as (? & ? & ?); split_and!; [done..|by right]].
      destruct (proj1 (Hb H1) eq_refl) as (? & ? & Hs & _). cbn in Hs.
      split_and!; [done|congruence|subst e; left].
    + destruct (D12 H1 H2) as (? & ? & ?).
      split_and!; [done..|by right].
  - intros es1 es2 secret Hes H1 H2 Hs Hv Hsec. destruct Hb as [[Hc Hb]|[Hc (-> & -> & ->)]].
    + destruct es1 as [|e1 es1]; cbn in Hes; simplify_eq; [|by destruct H1; left].
      assert (sc_new_token_submitted c' = true <-> b = true) as ->.
      { split; [|done]. destruct b; [done|]. intros H. by destruct (D12 eq_refl H) as (_ & _ & ?). }
      rewrite (Hb Hs). unfold submits. cbn. split; [|by eauto].
      intros (_ & ? & H & ?). congruence.
    + destruct es1 as [|e1 es1]; cbn in Hes; simplify_eq.
      rewrite (D13 es1 es2 secret eq_refl); [|by intros ?; destruct H1; right|done..].
      cbn [length]. unfold polled. rewrite Nat.iter_succ, (Nat.iter_succ_r (length es1)). done.
Qed.

Lemma drain_loop_spec fuel c w es :
  t_events (sc_conn c) = es -> (length es < fuel)%nat ->
  wp (drain_loop fuel) (c, w) (fun r s' =>
    r = Ok tt /\ same_world w s'.2 /\ drained w es c s'.1).
Proof.
  revert c w es. induction fuel as [|fuel IH]; intros c w es He Hf; [lia|].
  cbn [drain_loop]. apply wp_bind, wp_zoom, wp_zoom, wp_call. cbn.
  pose proof (poll_event_spec (sc_conn c)) as Hp. rewrite He in Hp.
  destruct es as [|e es].
  - rewrite Hp. cbn. split; [done|]. split; [apply same_world_refl|].
    destruct c; constructor; cbn in *; rewrite ?app_nil_r, ?andb_false_r, ?orb_false_r;
      try congruence || done. by intros [].
  - rewrite Hp. cbn. pose proof (poll_event_rest _ _ _ He) as Hrest.
    pose proof (poll_event_early (sc_conn c)) as Hearly.
    set (c1 := c <| sc_conn := (t_poll_event (sc_conn c)).1 |>).
    apply wp_bind.
    apply (wp_mono _ _ (fun r s' => r = Ok tt /\ same_world w s'.2 /\
      exists i b, s'.1 = c <| sc_conn := i |> <| sc_new_token_submitted := b |> /\
        t_events i = es /\ t_is_in_early_data i = t_is_in_early_data (sc_conn c) /\
        (sc_new_token_submitted c = true -> b = true) /\
        (e = HandshakeCompleted /\
           (sc_new_token_submitted c = false -> (b = true <-> submits c1 w)) \/
         e <> HandshakeCompleted /\
           i = polled 1 (sc_conn c) /\ b = sc_new_token_submitted c /\ s'.2 = w))).
    { assert (e = HandshakeCompleted \/ e <> HandshakeCompleted) as [->|Hne]
        by (destruct e; (by left) || by right).
      - eapply wp_mono; [apply submit_new_token_wp|].
        intros r s' (-> & Hw & i & b & Hs & Hi & Hei & Hk & Hb). cbn in *.
        split; [done|]. split; [done|]. exists i, b. rewrite Hs.
        split_and!; [done|congruence|congruence|done|by left].
      - replace (match e with HandshakeCompleted => submit_new_token | _ => mret tt end)
          with (mret tt : M st unit) by by destruct e.
        apply wp_ret. split; [done|]. split; [apply same_world_refl|].
        exists (t_poll_event (sc_conn c)).1, (sc_new_token_submitted c).
        split; [by destruct c|]. split_and!; [done..|by right]. }
    intros r [c2 w2] (-> & Hw & i & b & Hs & Hi & Hei & Hk & Hb). cbn in Hs, Hw, Hb.
    apply wp_bind, wp_zoom, wp_modify, wp_bind, wp_zoom, wp_modify, wp_bind, wp_zoom, wp_modify.
    cbn [fst snd].
    set (c3 := (note_path e (note_early_data e c2)) <| sc_events := _ |>).
    set (early := sc_early_data_received c || (t_is_in_early_data (sc_conn c) && is_data e)).
    assert (c3 = c <| sc_conn := i |> <| sc_new_token_submitted := b |>
      <| sc_early_data_received := early |>
      <| sc_remote_addr := validated_remote (sc_remote_addr c) [e] |>
      <| sc_events := sc_events c ++ [Tokio.from e] |>) as Hc3.
    { unfold c3, early, note_early_data, is_data. rewrite Hs. cbn. rewrite Hei. destruct c. cbn.
      by destruct (t_is_in_early_data sc_conn0), sc_early_data_received0,
        e as [| | | | | | | | | | | | |p []]. }
    eapply wp_mono; [apply (IH c3 w2 es); [by rewrite Hc3|cbn in Hf; lia]|].
    intros r [c4 w4] (-> & Hw4 & Hd). split; [done|].
    split; [by eapply same_world_trans|]. by eapply drain_step.
Qed.

Lemma drain_events_wp c w :
  wp drain_events (c, w) (fun r s' =>
    r = Ok tt /\ same_world w s'.2 /\ drained w (t_events (sc_conn c)) c s'.1).
Proof. apply drain_loop_spec; [done|]. cbn. lia. Qed.

(** What reading and writing packets keep of a connection. *)
Record stepped (c c' : ServerConnection) : Prop := {
  st_events : exists es, sc_events c' = sc_events c ++ map Tokio.from es;
  st_left : t_events (sc_conn c') = [];
  st_closed : sc_closed c' = sc_closed c;
  st_buf : slen (sc_send_buf c') = slen (sc_send_buf c);
  st_validated : sc_address_validated c' = sc_address_validated c;
  st_secret : sc_new_token_secret c' = sc_new_token_secret c }.

Lemma drained_stepped w es c c0 c' :
  drained w es c0 c' -> sc_events c0 = sc_events c -> sc_closed c0 = sc_closed c ->
  slen (sc_send_buf c0) = slen (sc_send_buf c) ->
  sc_address_validated c0 = sc_address_validated c ->
  sc_new_token_secret c0 = sc_new_token_secret c -> stepped c c'.
Proof.
  intros [] ? ? ? ? ?. constructor; try congruence. exists es. congruence.
Qed.

Lemma read_packet_wp local_addr from d ts ecn c w :
  wp (read_packet local_addr from d ts ecn) (c, w) (fun r s' =>
    same_world w s'.2 /\
    exists i, match t_read_pkt {| local := local_addr; remote := from |} {| ecn := ecn |} d ts
                (sc_conn c) with
              | Done _ i' => r = Ok tt /\ i = i'
              | Fail e i' => r = Err e /\ i = i'
              | _ => False
              end /\
      drained w (t_events i) (c <| sc_conn := i |>) s'.1).
Proof.
  unfold read_packet. apply wp_bind, wp_attempt, wp_zoom, wp_zoom. cbn.
  pose proof (read_pkt_total {| local := local_addr; remote := from |} {| ecn := ecn |} d ts
    (sc_conn c)) as Ht. unfold wp in Ht at 1. unfold wp at 1.
  destruct (t_read_pkt _ _ d ts (sc_conn c)) as [[] i|e i| |]; [..|done|done];
    (apply wp_bind; eapply wp_mono; [apply drain_events_wp|];
     intros r [c' w'] (-> & Hw & Hd); split; [done|]; exists i; split; [done|exact Hd]).
Qed.

Lemma flush_to_packets_wp ts c w :
  wp (flush_to_packets ts) (c, w) (fun r s' =>
    same_world w s'.2 /\ stepped c s'.1 /\
    match r with
    | Ok ps => Forall (fun p => 0 < slen (Streams.op_data p) <= slen (sc_send_buf c)) ps
    | Err _ => True
    end).
Proof.
  unfold flush_to_packets. apply wp_bind, wp_gets, wp_bind, wp_attempt, wp_zoom, wp_zoom.
  cbn [fst snd]. eapply wp_mono.
  { apply (Streams.write_loop_spec ts (fun _ _ => True)); try done.
    - intros. eapply wp_mono; [apply write_stream_spec|].
      by intros [[[[[? ?] ?] ?] ?]|[]] ? ?.
    - intros. by eapply wp_mono; [apply write_pkt_spec|].
    - unfold Streams.measure, write_fuel. cbn. lia. }
  intros r io [[_ Hbuf] Hps]. cbn in Hbuf, Hps.
  set (c1 := c <| sc_conn := Streams.io_conn io |> <| sc_pending := _ |> <| sc_send_buf := _ |>).
  apply wp_bind. eapply wp_mono; [apply drain_events_wp|].
  intros r2 [c2 w2] (-> & Hw & Hd). cbn in Hw, Hd.
  apply wp_bind, wp_zoom, wp_zoom. cbn. eapply wp_mono; [apply Tokio.qlog_write_wp|].
  intros r3 [i q] [-> Hi]. cbn in Hi. apply wp_try. split; [done|]. split.
  - pose proof (drained_stepped _ _ c c1 c2 Hd eq_refl eq_refl Hbuf eq_refl eq_refl) as [].
    constructor; cbn in *; congruence.
  - destruct r as [ps|]; [|done]. by destruct Hps as (new & -> & Hps).
Qed.

(** A DATAGRAM beyond the limit is refused and changes nothing. Otherwise the packets
    that are sent, if any, are not empty and fit the send buffer. *)
Lemma send_datagram_impl_wp d c w :
  wp (send_datagram_impl d) (c, w) (fun r s' =>
    same_shared w s'.2 /\ sc_events s'.1 = sc_events c /\ sc_closed s'.1 = sc_closed c /\
    slen (sc_send_buf s'.1) = slen (sc_send_buf c) /\
    (Tokio.max_tx_datagram_size (sc_datagram c) < slen d ->
     r = Err (InvalidArgument "datagram size exceeds max_tx_datagram_size") /\ s' = (c, w)) /\
    exists ps, sent s'.2 = sent w ++ ps /\
      Forall (fun p => 0 < slen (Streams.op_data p.2) <= slen (sc_send_buf c)) ps).
Proof.
  assert (exists ps, sent w = sent w ++ ps /\
    Forall (fun p => 0 < slen (Streams.op_data p.2) <= slen (sc_send_buf c)) ps) as Hquiet
    by (exists []; by rewrite app_nil_r).
  unfold send_datagram_impl. apply wp_bind, wp_gets. cbn [fst].
  destruct (Z.ltb_spec (Tokio.max_tx_datagram_size (sc_datagram c)) (slen d)) as [Hbig|Hfits].
  { apply wp_throw. by split_and!. }
  apply wp_bind, wp_zoom. unfold wp at 1, timestamp. cbn. apply wp_bind, wp_gets, wp_bind. cbn [fst].
  apply wp_zoom, wp_zoom. cbn. eapply wp_mono; [apply write_datagram_spec|].
  intros [[[[[n acc] path] pi] buf]|e] i Hw; [|cbn; split_and!; auto; lia].
  destruct Hw as (Hn & Hl & Hp). apply wp_bind, wp_zoom, wp_modify. cbn.
  destruct acc; cbn [negb]; [|apply wp_ret; cbn; split_and!; auto; lia].
  apply wp_bind. destruct (Z.ltb_spec 0 n) as [Hpos|Hzero].
  - destruct (Hp Hpos) as [path' ->]. apply wp_bind, Streams.wp_prefix; [lia|].
    apply wp_bind, wp_try. cbn. unfold wp. cbn.
    split_and!; auto; [lia|]. eexists. split; [done|]. repeat constructor; cbn; rewrite slen_take; lia.
  - apply wp_bind, wp_gets, wp_zoom, wp_zoom. cbn [fst snd].
    set (c1 := c <| sc_conn := i |> <| sc_send_buf := buf |>).
    eapply wp_mono.
    { apply (Streams.write_control_loop_spec _ (fun _ _ => True)); try done.
      - intros. by eapply wp_mono; [apply write_pkt_spec|].
      - unfold write_fuel. cbn. lia. }
    intros r io [[_ Hbuf] Hps]. cbn in Hbuf.
    destruct r as [ps|e]; [|cbn; split_and!; auto; [congruence|lia]].
    destruct Hps as (_ & new & -> & Hps). apply wp_zoom, wp_modify. cbn in *.
    split_and!; auto; [congruence|lia|]. eexists. split; [done|].
    apply Forall_map. rewrite <- Hl. exact Hps.
Qed.

(** ** Properties *)

End laws.

End server_conn.

(** ** Witness *)

#[export] Instance toy_env : Env := {|
  clock n := Z.of_nat n mod 2 ^ 64; monotonic n := Z.of_nat n mod 2 ^ 64; entropy n len := Some (repeat (Z.of_nat n mod 256) (Z.to_nat len)) |}.

Section witness.
#[local] Existing Instances toy_api toy_env toy_transport toy_transport_budget toy_transport_doc.

Definition toy_addr : SocketAddr := SockV4 [127; 0; 0; 1] 5000.
Definition toy_server_conn : ServerConnection :=
  mkServerConnection (toy_new : conn) toy_addr Streams.pending_new [] false None false false false
    (repeat 0 64) Tokio.DatagramConfig_default None.
Definition toy_world : World :=
  mkWorld 0 0 (Tokio.mkSockets (SockV4 [127; 0; 0; 1] 4433) None) [] shared_new Alone.

End witness.
End ServerConn.
