(* ===== verification/Server.v ===== *)
(** * The server (src/tokio-ngtcp2/src/server.rs)

    [ServerConfig], the state of [Server] and every handler of its receive loop. A
    datagram goes to a connection whose handshake runs, to an accepted connection
    through the shared routes, or starts a new connection; every other packet is
    answered without state or dropped. *)
From stdpp Require Import fin_maps.
From S2P Require Import Prelude Types Errors Tokens Params Conn Callbacks Effects Transport.
From S2P Require Import Streams Limiter Routes Tokio World ServerConn.
Import Types Errors Tokens Effects Transport World ServerConn.

Module Server.
#[local] Existing Instances Params.Settings_eta Params.TransportParams_eta.

(** ** Configuration *)

Record ServerConfig := mkServerConfig {
  alpn_protocols : list bytes;
  transport_params : Params.TransportParams;
  datagram : Tokio.DatagramConfig;
  scid_len : Z;
  quic_versions : list QuicVersion;
  settings : Params.Settings;
  retry_secret : option RetrySecret;
  retry_token_timeout : Params.Duration;
  stateless_reset_secret : option StatelessResetSecret;
  qlog_dir : option string;
  preferred_address : option SocketAddr;
  new_token : bool;
  early_data : bool }.
#[export] Instance ServerConfig_eta : Eta ServerConfig := fun c =>
  mkServerConfig (alpn_protocols c) (transport_params c) (datagram c) (scid_len c)
    (quic_versions c) (settings c) (retry_secret c) (retry_token_timeout c)
    (stateless_reset_secret c) (qlog_dir c) (preferred_address c) (new_token c) (early_data c).

Definition DEFAULT_RETRY_TOKEN_TIMEOUT : Params.Duration := Params.from_secs 10.
Definition DEFAULT_SCID_LEN : Z := 16.
Definition INTERNAL_KEY_LEN : Z := 16.
Definition SEND_BUFFER_SIZE : Z := 65535.
Definition MAX_CONNECTIONS : Z := 1024.

(** [vec![0u8; SEND_BUFFER_SIZE]] *)
Definition new_send_buf : bytes := repeat 0 (Z.to_nat SEND_BUFFER_SIZE).
#[global] Opaque new_send_buf.

(** [default] and [default_params] are the structures ngtcp2 fills in. *)
Definition ServerConfig_new (default : Params.ngtcp2_settings)
    (default_params : Params.TransportParams) (alpn : list bytes) : ServerConfig :=
  {| alpn_protocols := alpn; transport_params := Params.TransportParams_new default_params;
     datagram := Tokio.DatagramConfig_default; scid_len := DEFAULT_SCID_LEN;
     quic_versions := [V1; V2]; settings := Params.Settings_new default 0;
     retry_secret := None; retry_token_timeout := DEFAULT_RETRY_TOKEN_TIMEOUT;
     stateless_reset_secret := None; qlog_dir := None; preferred_address := None;
     new_token := false; early_data := false |}.

Section config.
Implicit Types c : ServerConfig.
Definition with_early_data (b : bool) c : ServerConfig := c <| early_data := b |>.
Definition with_retry (secret : RetrySecret) c : ServerConfig := c <| retry_secret := Some secret |>.
Definition with_preferred_versions (versions : list QuicVersion) c : ServerConfig :=
  c <| settings := (settings c) <| Params.preferred_versions := versions |>
                               <| Params.available_versions := versions |> |>.
Definition with_preferred_address (addr : SocketAddr) c : ServerConfig :=
  c <| preferred_address := Some addr |>.
Definition with_qlog_dir (dir : string) c : ServerConfig := c <| qlog_dir := Some dir |>.
Definition with_new_token (b : bool) c : ServerConfig := c <| new_token := b |>.
Definition with_retry_token_timeout (timeout : Params.Duration) c : ServerConfig :=
  c <| retry_token_timeout := timeout |>.
Definition with_stateless_reset_secret (secret : StatelessResetSecret) c : ServerConfig :=
  c <| stateless_reset_secret := Some secret |>.
Definition with_settings (s : Params.Settings) c : ServerConfig := c <| settings := s |>.
Definition with_quic_versions (versions : list QuicVersion) c : ServerConfig :=
  c <| quic_versions := versions |>.
Definition with_transport_params (p : Params.TransportParams) c : ServerConfig :=
  c <| transport_params := p |>.
Definition with_datagram (d : Tokio.DatagramConfig) c : ServerConfig := c <| datagram := d |>.
Definition with_scid_len (n : Z) c : ServerConfig := c <| scid_len := n |>.
End config.

Definition effective_transport_params (c : ServerConfig) : Params.TransportParams :=
  if Tokio.DatagramConfig_is_enabled (datagram c)
  then Params.with_datagram (transport_params c) (Tokio.max_datagram_frame_size (datagram c))
  else Params.with_datagram (transport_params c) 0.

(** ** Parsing *)

Section server.
Context {str : Strerror} {api : TokenApi} {env : Env} {tr : Transport} {bud : TransportBudget}.

Definition version_negotiation_info (d : bytes) (supported_versions : list QuicVersion)
    : option PacketVersion :=
  match decode_packet_version d with
  | None => None
  | Some info =>
      match from_u32 (pv_version info) with
      | Some version => if bool_decide (version ∈ supported_versions) then None else Some info
      | None => Some info
      end
  end.

Definition accept_initial_packet (d : bytes) (supported_versions : list QuicVersion)
    : option (QuicVersion * AcceptedInitial) :=
  match accept_initial d with
  | None => None
  | Some accepted =>
      match from_u32 (ai_version accepted) with
      | None => None
      | Some version =>
          if bool_decide (version ∈ supported_versions) then Some (version, accepted) else None
      end
  end.

(** ** State *)

(** What the server uses of the TLS context, of [Connection::server_new], of the file
    system and of [ngtcp2_err_infer_quic_transport_error_code]. *)
Class Endpoint := {
  tls_session : Type;
  create_session : result Error tls_session;
  server_new : ConnectionId -> ConnectionId -> SocketAddr -> SocketAddr -> QuicVersion ->
    tls_session -> Params.TransportParams -> Params.Settings -> outcome (result Error conn);
  infer_quic_transport_error_code : Z -> Z;
  create_dir_all : string -> result Error unit;
  create_file : string -> string -> result Error Tokio.file }.

(** The order in which a [HashMap] with these keys is iterated. *)
Class HashOrder := {
  cid_order : forall A, gmap ConnectionId A -> list ConnectionId;
  addr_order : forall A, gmap SocketAddr A -> list SocketAddr }.
Class HashOrderDoc `{!HashOrder} : Prop := {
  cid_order_all A (m : gmap ConnectionId A) : cid_order A m ≡ₚ (map_to_list m).*1;
  addr_order_all A (m : gmap SocketAddr A) : addr_order A m ≡ₚ (map_to_list m).*1 }.

Context {ep : Endpoint} {ord : HashOrder}.

Record Server := mkServer {
  s_local_addr : SocketAddr;
  s_config : ServerConfig;
  s_connections : gmap ConnectionId ServerConnection;
  s_cid_map : gmap ConnectionId ConnectionId;
  s_short_cid_lengths : gset Z;
  s_addr_map : gmap SocketAddr ConnectionId;
  s_stateless_reset_secret : option StatelessResetSecret;
  s_retry_secret : RetrySecret;
  s_limiter : Limiter.StatelessResetLimiter;
  s_taken : Routes.taken;
  s_send_buf : bytes }.
#[export] Instance Server_eta : Eta Server := fun s =>
  mkServer (s_local_addr s) (s_config s) (s_connections s) (s_cid_map s)
    (s_short_cid_lengths s) (s_addr_map s) (s_stateless_reset_secret s) (s_retry_secret s)
    (s_limiter s) (s_taken s) (s_send_buf s).

Record AcceptedConnection := mkAccepted {
  ac_local_addr : SocketAddr;
  ac_connection_id : ConnectionId;
  ac_inner : ServerConnection;
  ac_inbound_rx : nat }.
#[export] Instance AcceptedConnection_eta : Eta AcceptedConnection := fun a =>
  mkAccepted (ac_local_addr a) (ac_connection_id a) (ac_inner a) (ac_inbound_rx a).

Notation sys := (Server * World)%type.

Definition srv {A} (f : Server -> A) : M sys A := gets (fun s => f s.1).
Definition set_srv (f : Server -> Server) : M sys unit := modify (fun s => (f s.1, s.2)).
Definition in_world {A} (m : M World A) : M sys A := zoom snd (fun w s => (s.1, w)) m.
Definition send (packets : list Streams.OutgoingPacket) : M sys unit :=
  in_world (send_packets packets).

(** [connections.get_mut(key)]: run on the connection in the map, [None] without one. *)
Definition borrow {A} (key : ConnectionId) (m : M (ServerConnection * World) A)
    : M sys (option A) := fun s =>
  match s_connections s.1 !! key with
  | None => Done None s
  | Some c =>
      let put c' w' := (s.1 <| s_connections := <[key := c']> (s_connections s.1) |>, w') in
      match m (c, s.2) with
      | Done a (c', w') => Done (Some a) (put c' w')
      | Fail e (c', w') => Fail e (put c' w')
      | Panics => Panics
      | Diverges => Diverges
      end
  end.

(** ** Routing table *)

Definition remember_taken_cid (cid : ConnectionId) : M sys unit :=
  zoom (fun s => s_taken s.1) (fun t s => (s.1 <| s_taken := t |>, s.2))
    (Routes.remember_taken_cid cid).

Definition is_taken_cid (cid : ConnectionId) : M sys bool :=
  mine ← srv (fun s => Routes.is_taken_cid cid (s_taken s));
  if (mine : bool) then mret true
  else
    in_world lock ;;
    in_world (gets (fun w => Routes.is_taken_cid cid (Routes.r_taken (routes w)))).

Definition register_cids (key : ConnectionId) (cids : list ConnectionId) : M sys unit :=
  set_srv (fun s =>
    s <| s_short_cid_lengths := Routes.insert_lens cids (s_short_cid_lengths s) |>
      <| s_cid_map := Routes.insert_cids key cids (s_cid_map s) |>).

Definition remove_retired_cids (cids : list ConnectionId) (conn_key : ConnectionId) : M sys unit :=
  for_each cids (fun cid =>
    set_srv (fun s => s <| s_cid_map := Routes.unroute conn_key cid (s_cid_map s) |>) ;;
    remember_taken_cid cid).

(** [register_issued_cids] takes the ids from the connection itself. *)
Definition register_issued_cids (conn_key : ConnectionId) : M sys unit :=
  o ← borrow conn_key (on_conn (call t_poll_issued_cids));
  match o with Some issued => register_cids conn_key issued | None => mret tt end.

Definition remove_connection (conn_key : ConnectionId) : M sys unit :=
  set_srv (fun s =>
    s <| s_connections := delete conn_key (s_connections s) |>
      <| s_cid_map := Routes.retain_other conn_key (s_cid_map s) |>
      <| s_addr_map := Routes.retain_other conn_key (s_addr_map s) |>).

(** A [HashMap] filtered and collected in its order. *)
Definition keys_where {A} (p : A -> bool) (m : gmap ConnectionId A) : list ConnectionId :=
  filter (fun k => match m !! k with Some a => p a | None => false end = true) (cid_order A m).
Definition addrs_where {A} (p : A -> bool) (m : gmap SocketAddr A) : list SocketAddr :=
  filter (fun k => match m !! k with Some a => p a | None => false end = true) (addr_order A m).

Definition remove_closed_connections : M sys unit :=
  conns ← srv s_connections;
  for_each (keys_where (fun c => t_is_in_closing_period (sc_conn c) ||
                                 t_is_in_draining_period (sc_conn c)) conns)
    remove_connection.

(** The channel is created before the lock is taken, but nobody else knows it before it
    is registered. *)
Definition take_connection (conn_key : ConnectionId) : M sys AcceptedConnection :=
  conns ← srv s_connections;
  c ← expect (conns !! conn_key);
  set_srv (fun s => s <| s_connections := delete conn_key (s_connections s) |>) ;;
  cid_map ← srv s_cid_map;
  let taken := keys_where (fun key => bool_decide (key = conn_key)) cid_map in
  addr_map ← srv s_addr_map;
  let addrs := addrs_where (fun key => bool_decide (key = conn_key)) addr_map in
  in_world lock ;;
  ch ← in_world new_channel;
  in_world (on_routes (modify (Routes.register conn_key ch taken addrs))) ;;
  for_each taken remember_taken_cid ;;
  set_srv (fun s =>
    s <| s_cid_map := Routes.retain_other conn_key (s_cid_map s) |>
      <| s_addr_map := Routes.retain_other conn_key (s_addr_map s) |>) ;;
  local_addr ← srv s_local_addr;
  mret (mkAccepted local_addr conn_key c ch).

(** ** Packets without a connection *)

Definition generate_scid (len : Z) : M sys (option ConnectionId) :=
  if len =? 0 then mret (Some Types.empty) else in_world (random_cid len).

(** What follows every packet written to the server's own buffer: nothing is sent for
    an error or an empty packet. *)
Definition send_written (r : result Error (Z * bytes)) (local_addr to : SocketAddr) : M sys unit :=
  match r with
  | Err _ => mret tt
  | Ok (written, buf) =>
      set_srv (fun s => s <| s_send_buf := buf |>) ;;
      if 0 <? written then
        d ← Streams.prefix buf written;
        send [Streams.mkPacket d local_addr to 0]
      else mret tt
  end.

Definition send_retry (accepted : AcceptedInitial) (version : QuicVersion) (secret : RetrySecret)
    (to local_addr : SocketAddr) (ts : Z) : M sys unit :=
  cfg ← srv s_config;
  o ← generate_scid (Z.max (scid_len cfg) 8);
  match o with
  | None => mret tt
  | Some retry_scid =>
      r ← from_outcome (generate_retry_token secret version to retry_scid (ai_dcid accepted) ts);
      match r with
      | Err _ => mret tt
      | Ok token =>
          buf ← srv s_send_buf;
          r ← from_outcome (write_retry_packet buf version (ai_scid accepted) retry_scid
                (ai_dcid accepted) (tok_bytes token));
          send_written r local_addr to
      end
  end.

(** ["invalid address validation token"] *)
Definition invalid_token_reason : bytes :=
  [105; 110; 118; 97; 108; 105; 100; 32; 97; 100; 100; 114; 101; 115; 115; 32; 118; 97; 108;
   105; 100; 97; 116; 105; 111; 110; 32; 116; 111; 107; 101; 110].

Definition send_invalid_token_close (accepted : AcceptedInitial) (version : QuicVersion)
    (to local_addr : SocketAddr) : M sys unit :=
  cfg ← srv s_config;
  o ← generate_scid (scid_len cfg);
  match o with
  | None => mret tt
  | Some server_scid =>
      buf ← srv s_send_buf;
      r ← from_outcome (write_stateless_connection_close buf version (ai_scid accepted)
            server_scid TRANSPORT_ERROR_INVALID_TOKEN invalid_token_reason);
      send_written r local_addr to
  end.

Definition send_version_negotiation (info : PacketVersion) (to local_addr : SocketAddr)
    : M sys unit :=
  cfg ← srv s_config;
  buf ← srv s_send_buf;
  send_written (write_version_negotiation buf (pv_scid info) (pv_dcid info) (quic_versions cfg))
    local_addr to.

Fixpoint reset_loop (lens : list Z) (secret : StatelessResetSecret) (d : bytes)
    (to local_addr : SocketAddr) : M sys unit :=
  match lens with
  | [] => mret tt
  | len :: lens =>
      if slen d <? 1 + len then reset_loop lens secret d to local_addr
      else
        b ← Routes.index d 1 (1 + len);
        match Types.new b with
        | None => reset_loop lens secret d to local_addr
        | Some dcid =>
            taken ← is_taken_cid dcid;
            if (taken : bool) then mret tt
            else
              match reset_token secret dcid with
              | Panic => panic
              | Ret None => reset_loop lens secret d to local_addr
              | Ret (Some token) =>
                  buf ← srv s_send_buf;
                  send_written (write_stateless_reset buf token (slen d)) local_addr to
              end
        end
  end.

Definition send_stateless_reset (d : bytes) (to local_addr : SocketAddr) (ts : Z) : M sys unit :=
  ok ← (fun s =>
    let '(l, ok) := Limiter.try_acquire ts (s_limiter s.1) in
    Done ok (s.1 <| s_limiter := l |>, s.2));
  if negb ok then mret tt
  else
    secret ← srv s_stateless_reset_secret;
    match secret with
    | None => mret tt
    | Some secret =>
        lengths ← srv s_short_cid_lengths;
        reset_loop (Routes.descending lengths) secret d to local_addr
    end.

(** ** Packets of a connection *)

(** [unwrap_or_default] on the packets to send *)
Definition ok_or_empty {A} (r : result Error (list A)) : list A :=
  match r with Ok l => l | Err _ => [] end.

(** The CONNECTION_CLOSE for an error, in the server's buffer; the connection's state
    changes, the packets are cut from the buffer. *)
Definition write_close_for (err : Error) (buf : bytes) (ts : Z)
    (from local_addr : SocketAddr) : M (ServerConnection * World) (bytes * list Streams.OutgoingPacket) :=
  r ← attempt (on_conn
    (if bool_decide (classify_connection_error err = ApplicationClose)
     then t_write_connection_close_app buf 0 [] ts
     else
       let code := match err with
                   | Ngtcp2 _ code => infer_quic_transport_error_code code
                   | _ => 0
                   end in
       t_write_connection_close buf code [] ts));
  match r with
  | Ok (written, buf) =>
      if 0 <? written then
        d ← Streams.prefix buf written;
        packets ← Streams.close_packets d local_addr from 0;
        mret (buf, packets)
      else mret (buf, [])
  | Err _ => mret (buf, [])
  end.

Definition handle_conn_error (conn_key : ConnectionId) (err : Error) (from local_addr : SocketAddr)
    : M sys unit :=
  match classify_connection_error err with
  | Ignore => mret tt
  | SilentDrop | InternalKind => remove_connection conn_key
  | Terminal => mret tt
  | TransportClose | ApplicationClose =>
      ts ← in_world timestamp;
      buf ← srv s_send_buf;
      o ← borrow conn_key (write_close_for err buf ts from local_addr);
      match o with
      | None => mret tt
      | Some (buf, packets) =>
          set_srv (fun s => s <| s_send_buf := buf |>) ;;
          match packets with
          | [] => remove_connection conn_key
          | _ => send packets
          end
      end
  end.

(** What [handle_existing_connection] does while it borrows the connection. *)
Definition read_and_flush (local_addr from : SocketAddr) (d : bytes) (ts ecn : Z)
    : M (ServerConnection * World)
        (result Error unit * list Streams.OutgoingPacket * list ConnectionId * list ConnectionId) :=
  r ← attempt (read_packet local_addr from d ts ecn);
  packets ← attempt (flush_to_packets ts);
  issued ← on_conn (call t_poll_issued_cids);
  retired ← on_conn (call t_poll_retired_cids);
  mret (r, ok_or_empty packets, issued, retired).

Definition handle_existing_connection (conn_key : ConnectionId) (d : bytes)
    (from local_addr : SocketAddr) (ts ecn : Z) : M sys unit :=
  o ← borrow conn_key (read_and_flush local_addr from d ts ecn);
  match o with
  | None => mret tt
  | Some (r, packets, issued, retired) =>
      register_cids conn_key issued ;;
      remove_retired_cids retired conn_key ;;
      send packets ;;
      match r with
      | Err e => handle_conn_error conn_key e from local_addr
      | Ok _ => mret tt
      end
  end.

Definition handoff_to_accepted (d : bytes) (from local_addr : SocketAddr) (ecn : Z)
    : M sys bool :=
  in_world lock ;;
  o ← in_world (on_routes (Routes.resolve d from));
  match o with
  | None => mret false
  | Some conn_key =>
      ok ← in_world (deliver conn_key (Routes.mkInbound d from local_addr ecn));
      (if negb ok then in_world (on_routes (modify (Routes.remove conn_key))) else mret tt) ;;
      mret true
  end.

(** ** New connections *)

(** The checks of the token of an Initial packet: [None] when it was answered, else
    the original connection id, the valid token, and whether it came from a Retry. *)
Definition validate_address (accepted : AcceptedInitial) (version : QuicVersion)
    (from local_addr : SocketAddr) (ts : Z)
    : M sys (option (ConnectionId * option AddressValidationToken * bool)) :=
  cfg ← srv s_config;
  own_secret ← srv s_retry_secret;
  let immediate_retry_secret := retry_secret cfg in
  let effective_retry_secret := default own_secret immediate_retry_secret in
  match from_packet (ai_token accepted) with
  | None =>
      match immediate_retry_secret with
      | Some secret => send_retry accepted version secret from local_addr ts ;; mret None
      | None => mret (Some (ai_dcid accepted, None, false))
      end
  | Some token =>
      r ← match tok_kind token with
          | KRetry =>
              r ← from_outcome (verify_retry_token effective_retry_secret (tok_bytes token) version
                    from (ai_dcid accepted) (retry_token_timeout cfg) ts);
              mret (match r with Ok odcid => Ok (odcid, true) | Err e => Err e end)
          | KNewToken =>
              mret (match verify_new_token effective_retry_secret (tok_bytes token) from
                      (retry_token_timeout cfg) ts with
                    | Ok _ => Ok (ai_dcid accepted, false)
                    | Err e => Err e
                    end)
          end;
      match r with
      | Ok (original_dcid, retried) => mret (Some (original_dcid, Some token, retried))
      | Err _ => send_invalid_token_close accepted version from local_addr ;; mret None
      end
  end.

(** [with_*] of the parameters, which panics on an id longer than 20 bytes *)
Definition set_param {S} (o : outcome Params.TransportParams) : M S Params.TransportParams :=
  match o with Ret p => mret p | Panic => panic end.

(** [secret.token(cid)] *)
Definition derive_token {S} (secret : option StatelessResetSecret) (cid : ConnectionId)
    : M S (option StatelessResetToken) :=
  match secret with
  | None => mret None
  | Some secret => match reset_token secret cid with Ret o => mret o | Panic => panic end
  end.

(** The transport parameters of a new connection, and the id that comes with the
    preferred address. *)
Definition build_params (original_dcid server_scid : ConnectionId) (retried : bool)
    : M sys (Params.TransportParams * option ConnectionId) :=
  cfg ← srv s_config;
  secret ← srv s_stateless_reset_secret;
  params ← set_param (Params.with_original_dcid (effective_transport_params cfg) original_dcid);
  params ← (if retried : bool then set_param (Params.with_retry_scid params server_scid)
            else mret params);
  if is_empty server_scid then mret (params, None)
  else
    token ← derive_token secret server_scid;
    let params := match token with
                  | Some token => Params.with_stateless_reset_token params token
                  | None => params
                  end in
    preferred ← in_world (gets (fun w => Tokio.preferred (sockets w)));
    match preferred, secret with
    | Some addr, Some _ =>
        o ← in_world (random_cid (scid_len cfg));
        match o with
        | None => mret (params, None)
        | Some cid =>
            token ← derive_token secret cid;
            match token with
            | None => mret (params, None)
            | Some token =>
                params ← set_param (Params.with_preferred_address params cid addr token);
                mret (params, Some cid)
            end
        end
    | _, _ => mret (params, None)
    end.

(** The SCID of the connection and its key: a key of its own when the SCID is empty. *)
Definition choose_ids (accepted : AcceptedInitial) (retried : bool)
    : M sys (option (ConnectionId * ConnectionId)) :=
  cfg ← srv s_config;
  o ← (if retried then mret (Some (ai_dcid accepted)) else generate_scid (scid_len cfg));
  match o with
  | None => mret None
  | Some server_scid =>
      if is_empty server_scid then
        key ← in_world (random_cid INTERNAL_KEY_LEN);
        mret (match key with Some key => Some (server_scid, key) | None => None end)
      else mret (Some (server_scid, server_scid))
  end.

(** The routes of a new connection. *)
Definition register_new (server_scid conn_key original_dcid : ConnectionId)
    (retried : bool) (preferred_cid : option ConnectionId) (from : SocketAddr) : M sys unit :=
  (if is_empty server_scid then mret tt
   else set_srv (fun s => s <| s_short_cid_lengths :=
          {[Types.len server_scid]} ∪ s_short_cid_lengths s |>)) ;;
  (if bool_decide (server_scid = conn_key)
   then set_srv (fun s => s <| s_cid_map := <[server_scid := conn_key]> (s_cid_map s) |>)
   else set_srv (fun s => s <| s_addr_map := <[from := conn_key]> (s_addr_map s) |>)) ;;
  (if retried then set_srv (fun s => s <| s_cid_map := delete original_dcid (s_cid_map s) |>)
   else mret tt) ;;
  set_srv (fun s => s <| s_cid_map := <[original_dcid := conn_key]> (s_cid_map s) |>) ;;
  match preferred_cid with
  | Some cid => register_cids conn_key [cid]
  | None => mret tt
  end.

(** From the creation of the connection on: it reads the Initial packet, which may ask
    for a Retry or end it, and is then registered, flushed and kept. *)
Definition start_connection (c : ServerConnection) (accepted : AcceptedInitial)
    (version : QuicVersion) (server_scid conn_key original_dcid : ConnectionId) (retried : bool)
    (preferred_cid : option ConnectionId) (effective_retry_secret : RetrySecret) (d : bytes)
    (from local_addr : SocketAddr) (ts ecn : Z) : M sys unit :=
  '(r, c) ← in_world (fun w =>
    match attempt (read_packet local_addr from d ts ecn) (c, w) with
    | Done r (c, w) => Done (r, c) w
    | Fail e (_, w) => Fail e w
    | Panics => Panics
    | Diverges => Diverges
    end);
  let go_on :=
    register_new server_scid conn_key original_dcid retried preferred_cid from ;;
    '(packets, c) ← in_world (fun w =>
      match attempt (flush_to_packets ts) (c, w) with
      | Done r (c, w) => Done (ok_or_empty r, c) w
      | Fail e (_, w) => Fail e w
      | Panics => Panics
      | Diverges => Diverges
      end);
    set_srv (fun s => s <| s_connections := <[conn_key := c]> (s_connections s) |>) ;;
    register_issued_cids conn_key ;;
    send packets ;;
    match r with
    | Err e => handle_conn_error conn_key e from local_addr
    | Ok _ => mret tt
    end in
  match r with
  | Err e =>
      if is_retry_required e then
        send_retry accepted version effective_retry_secret from local_addr ts
      else if bool_decide (classify_connection_error e = Ignore) then go_on
      else mret tt
  | Ok _ => go_on
  end.

Definition handle_new_connection (d : bytes) (from local_addr : SocketAddr) (ts ecn : Z)
    : M sys unit :=
  cfg ← srv s_config;
  match version_negotiation_info d (quic_versions cfg) with
  | Some negotiation => send_version_negotiation negotiation from local_addr
  | None =>
  match accept_initial_packet d (quic_versions cfg) with
  | None => mret tt
  | Some (version, accepted) =>
      own_secret ← srv s_retry_secret;
      let effective_retry_secret := default own_secret (retry_secret cfg) in
      validated ← validate_address accepted version from local_addr ts;
      match validated with
      | None => mret tt
      | Some (original_dcid, address_validation_token, retried) =>
          conns ← srv s_connections;
          cid_map ← srv s_cid_map;
          if MAX_CONNECTIONS <=? Z.of_nat (size conns) then mret tt
          else if bool_decide (address_validation_token = None) &&
                  bool_decide (is_Some (cid_map !! original_dcid)) then mret tt
          else
            ids ← choose_ids accepted retried;
            match ids with
            | None => mret tt
            | Some (server_scid, conn_key) =>
                match create_session with
                | Err _ => mret tt
                | Ok session =>
                    '(params, preferred_cid) ← build_params original_dcid server_scid retried;
                    reset_secret ← srv s_stateless_reset_secret;
                    let qlog :=
                      match qlog_dir cfg with
                      | Some dir => Tokio.qlog_new (create_dir_all dir)
                          (create_file dir (Tokio.file_name "server-" server_scid))
                      | None => Tokio.qlog_disabled
                      end in
                    let s := (settings cfg)
                      <| Params.initial_ts := ts |>
                      <| Params.qlog := bool_decide (is_Some (qlog_dir cfg)) |>
                      <| Params.address_validation_token := address_validation_token |>
                      <| Params.stateless_reset_secret := reset_secret |> in
                    r ← from_outcome (server_new (ai_scid accepted) server_scid local_addr from
                          version session params s);
                    match r with
                    | Err _ => mret tt
                    | Ok i =>
                        let c := mkServerConnection i from Streams.pending_new []
                          (bool_decide (is_Some address_validation_token))
                          (if new_token cfg then Some effective_retry_secret else None)
                          false false false new_send_buf
                          (datagram cfg) qlog in
                        start_connection c accepted version server_scid conn_key original_dcid
                          retried preferred_cid effective_retry_secret d from local_addr ts ecn
                    end
                end
            end
      end
  end
  end.

(** ** The receive loop *)

Definition resolve_own (d : bytes) (from : SocketAddr) : M sys (option ConnectionId) :=
  cid_map ← srv s_cid_map;
  lengths ← srv s_short_cid_lengths;
  o ← Routes.resolve_dcid cid_map lengths d;
  match o with
  | Some key => mret (Some key)
  | None =>
      let is_long_header := Routes.is_long d in
      let dcid_len :=
        if is_long_header then match get d 5 with Some len => len | None => usize_max end else 0 in
      if negb is_long_header || (dcid_len =? 0) then srv (fun s => s_addr_map s !! from)
      else mret None
  end.

Definition handle_datagram (d : bytes) (from local_addr : SocketAddr) (ts ecn : Z) : M sys unit :=
  conn_key ← resolve_own d from;
  match conn_key with
  | Some key => handle_existing_connection key d from local_addr ts ecn
  | None =>
      handed ← handoff_to_accepted d from local_addr ecn;
      if (handed : bool) then mret tt
      else if Routes.is_long d then handle_new_connection d from local_addr ts ecn
      else send_stateless_reset d from local_addr ts
  end.

(** The timer of one connection. *)
Definition handle_timer (ts : Z) (key : ConnectionId) : M sys unit :=
  conns ← srv s_connections;
  match conns !! key with
  | None => mret tt
  | Some c =>
      if ts <? t_get_expiry (sc_conn c) then mret tt
      else
        o ← borrow key (
          r ← attempt (on_conn (t_handle_expiry ts));
          drain_events ;;
          mret r);
        register_issued_cids key ;;
        retired ← borrow key (on_conn (call t_poll_retired_cids));
        remove_retired_cids (default [] retired) key ;;
        match o with
        | Some (Err e) =>
            match classify_connection_error e with
            | Ignore | Terminal => mret tt
            | _ => remove_connection key
            end
        | _ => mret tt
        end
  end.

Definition handle_timers : M sys unit :=
  ts ← in_world timestamp;
  conns ← srv s_connections;
  for_each (cid_order _ conns) (handle_timer ts).

(** What a turn of [accept] waits for: a datagram, the timer, or an error of the
    socket. *)
Inductive input :=
| Received (d : bytes) (from local_addr : SocketAddr) (ecn : Z)
| TimerFired
| RecvError (msg : string).

(** The wait of [accept] in nanoseconds: until the first timer of a connection, a second
    without connections, a millisecond when a timer is due. *)
Definition timer_duration (conns : gmap ConnectionId ServerConnection) (now : Z) : Z :=
  let next_expiry :=
    match map (fun kv => t_get_expiry (sc_conn kv.2)) (map_to_list conns) with
    | [] => now + 1000000000
    | e :: es => foldl Z.min e es
    end in
  if now <? next_expiry then next_expiry - now else 1000000.

(** The loop of [accept] up to [select]: the connection it returns, or how long it
    waits. *)
Definition prepare : M sys (AcceptedConnection + Z) :=
  remove_closed_connections ;;
  conns ← srv s_connections;
  match keys_where (fun c => t_is_handshake_completed (sc_conn c)) conns with
  | conn_id :: _ => a ← take_connection conn_id; mret (inl a)
  | [] => now ← in_world timestamp; mret (inr (timer_duration conns now))
  end.

(** What [select] woke up for. *)
Definition handle_input (i : input) : M sys unit :=
  match i with
  | Received d from local_addr ecn =>
      ts ← in_world timestamp;
      handle_datagram d from local_addr ts ecn
  | RecvError msg => throw (Internal ("recv error: " +:+ msg))
  | TimerFired => handle_timers
  end.

(** [accept] on the inputs to come; [None] when it still waits. *)
Fixpoint accept (inputs : list input) : M sys (option AcceptedConnection) :=
  o ← prepare;
  match o, inputs with
  | inl a, _ => mret (Some a)
  | inr _, [] => mret None
  | inr _, i :: inputs => handle_input i ;; accept inputs
  end.

(** ** Binding *)

(** [bind] once the TLS context, its early data and the sockets are set up, or
    failed. *)
Definition bind (tls early : result Error unit) (bound : result Error SocketAddr)
    (config : ServerConfig) : result Error Server :=
  match quic_versions config with
  | [] => Err (InvalidArgument "quic_versions must not be empty")
  | _ =>
      match tls, (if early_data config then early else Ok tt), bound with
      | Err e, _, _ | Ok _, Err e, _ => Err e
      | Ok _, Ok _, Err _ => Err (Internal "failed to bind socket")
      | Ok _, Ok _, Ok local_addr =>
          let reset := match stateless_reset_secret config with
                       | Some secret => Some secret
                       | None => reset_secret_generate
                       end in
          match match retry_secret config with
                | Some secret => Some secret
                | None => retry_secret_generate
                end with
          | None => Err (Internal "failed to generate retry secret")
          | Some retry =>
              Ok {| s_local_addr := local_addr; s_config := config; s_connections := ∅;
                    s_cid_map := ∅;
                    s_short_cid_lengths := if 0 <? scid_len config then {[scid_len config]} else ∅;
                    s_addr_map := ∅; s_stateless_reset_secret := reset; s_retry_secret := retry;
                    s_limiter := Limiter.new; s_taken := Routes.taken_new;
                    s_send_buf := new_send_buf |}
          end
      end
  end.

(** What the application asks of the server. *)
Definition local_addr (s : Server) : SocketAddr := s_local_addr s.
Definition preferred_addr (w : World) : option SocketAddr := Tokio.preferred (sockets w).
Definition connection_ids (s : Server) : list ConnectionId :=
  cid_order _ (s_connections s).
End server.
End Server.
