(* ===== verification/ServerInv.v ===== *)
(** * The server is safe (about [Server])

    The invariant of the receive loop and its preservation by every handler; what
    handing over, Stateless Reset, Retry and registration do, each on its own. The
    predicate [W] on the world stands for what the server shares with others: the
    handlers keep every [W] that is [stable]. *)
From stdpp Require Import fin_maps.
From S2P Require Import Prelude Types Errors Tokens Params Conn Callbacks Effects Transport.
From S2P Require Import Streams Limiter Routes Tokio World ServerConn Server.
Import Types Errors Tokens Effects Transport World ServerConn Server.

Module ServerInv.
#[local] Existing Instances Params.Settings_eta Params.TransportParams_eta.
#[local] Existing Instances ServerConfig_eta Server_eta Routes.SharedRoutes_eta.

Section server.
Context {str : Strerror} {api : TokenApi} {env : Env} {tr : Transport} {bud : TransportBudget}.
Context {ep : Endpoint} {ord : HashOrder}.
Notation Server := Server.Server.
Notation sys := (Server * World)%type.

(** ** Hypotheses *)

(** The functions that write a packet return how much of the buffer they used; a
    Stateless Reset token has 16 bytes. *)
Class TokenWriteDoc : Prop := {
  reset_token_16 secret raw rv token :
    ngtcp2_crypto_generate_stateless_reset_token secret raw = (rv, token) -> slen token = 16;
  reset_fits buf token random rv buf' : slen token = 16 ->
    ngtcp2_pkt_write_stateless_reset2 buf token random = (rv, buf') -> rv <= slen buf';
  retry_fits buf v c r o tok rv buf' :
    ngtcp2_crypto_write_retry buf v c r o tok = (rv, buf') -> rv <= slen buf';
  close_fits buf v c s code why rv buf' :
    ngtcp2_crypto_write_connection_close buf v c s code why = (rv, buf') -> rv <= slen buf';
  vn_fits buf b c s vs rv buf' :
    ngtcp2_pkt_write_version_negotiation buf b c s vs = (rv, buf') -> rv <= slen buf' }.

(** [server_new] does not panic on connection ids of at most 20 bytes. *)
Class EndpointDoc : Prop :=
  server_new_ret dcid scid l r v t p s :
    cid_ok dcid -> cid_ok scid -> exists res, server_new dcid scid l r v t p s = Ret res.

(** ** The invariant *)

(** Every route leads to a connection, except to the ids of [X]; there are at most [n]
    connections; the record of handed-over ids is well-formed; the world satisfies [W]. *)
Record inv (W : World -> Prop) (X : gset ConnectionId) (n : Z) (s : sys) : Prop := {
  inv_cid cid k : s_cid_map s.1 !! cid = Some k -> k ∈ X \/ is_Some (s_connections s.1 !! k);
  inv_addr a k : s_addr_map s.1 !! a = Some k -> k ∈ X \/ is_Some (s_connections s.1 !! k);
  inv_size : Z.of_nat (size (s_connections s.1)) <= n;
  inv_lens len : len ∈ s_short_cid_lengths s.1 -> 0 <= len;
  inv_taken : Routes.taken_wf (s_taken s.1);
  inv_world : W s.2 }.

(** [m] keeps the invariant and returns a value that satisfies [Q]. *)
Definition safe {A} (W : World -> Prop) (X : gset ConnectionId) (n : Z) (m : M sys A)
    (Q : A -> Prop) : Prop :=
  forall s, inv W X n s -> wp m s (fun r s' => inv W X n s' /\ exists a, r = Ok a /\ Q a).

Lemma wp_borrow {A} key (m : M (ServerConnection * World) A) s Q :
  (s_connections s.1 !! key = None -> Q (Ok None) s) ->
  (forall c, s_connections s.1 !! key = Some c ->
     wp m (c, s.2) (fun r s' =>
       Q (match r with Ok a => Ok (Some a) | Err e => Err e end)
         (s.1 <| s_connections := <[key := s'.1]> (s_connections s.1) |>, s'.2))) ->
  wp (borrow key m) s Q.
Proof.
  intros Hn Hs. unfold borrow, wp in *.
  destruct (s_connections s.1 !! key) as [c|]; [|by apply Hn]. specialize (Hs c eq_refl).
  by destruct (m (c, s.2)) as [a [c' w]|e [c' w]| |].
Qed.

Section safety.
Context (W : World -> Prop) (HW : stable None W) (X : gset ConnectionId) (n : Z).

Lemma safe_ret {A} (a : A) (Q : A -> Prop) : Q a -> safe W X n (mret a) Q.
Proof. intros HQ s Hs. apply wp_ret. eauto. Qed.

Lemma safe_bind {A B} (m : M sys A) (f : A -> M sys B) P Q :
  safe W X n m P -> (forall a, P a -> safe W X n (f a) Q) -> safe W X n (m ≫= f) Q.
Proof.
  intros Hm Hf s Hs. apply wp_bind. eapply wp_mono; [by apply Hm|].
  intros r s' (Hs' & a & -> & Ha). by apply Hf.
Qed.

Lemma safe_srv {A B} (f : Server -> A) (g : A -> M sys B) Q :
  (forall s, inv W X n s -> safe W X n (g (f s.1)) Q) -> safe W X n (a ← srv f; g a) Q.
Proof. intros H s Hs. apply wp_bind, wp_gets. by apply H. Qed.

Lemma safe_mono {A} (m : M sys A) (P Q : A -> Prop) :
  safe W X n m P -> (forall a, P a -> Q a) -> safe W X n m Q.
Proof.
  intros Hm HPQ s Hs. eapply wp_mono; [by apply Hm|].
  intros r s' (? & a & -> & ?). eauto.
Qed.

Lemma safe_set (f : Server -> Server) :
  (forall s, inv W X n s -> inv W X n (f s.1, s.2)) -> safe W X n (set_srv f) (fun _ => True).
Proof. intros Hf s Hs. apply wp_modify. eauto. Qed.

Lemma safe_for_each {A} (l : list A) (f : A -> M sys unit) :
  (forall x, x ∈ l -> safe W X n (f x) (fun _ => True)) ->
  safe W X n (for_each l f) (fun _ => True).
Proof.
  intros Hf s Hs. eapply wp_mono.
  - apply (wp_for_each (inv W X n)); [done|]. intros x s' Hx Hs'.
    eapply wp_mono; [by apply Hf|]. intros r s'' (? & [] & -> & _). done.
  - intros r s' [-> Hs']. eauto.
Qed.

Lemma inv_same s w : inv W X n s -> same_shared s.2 w -> inv W X n (s.1, w).
Proof. intros [] Hw. constructor; cbn; try done. by eapply HW. Qed.

Lemma inv_set_world s w : inv W X n s -> W w -> inv W X n (s.1, w).
Proof. intros [] Hw. by constructor. Qed.

Lemma safe_lock : safe W X n (in_world lock) (fun _ => True).
Proof.
  intros s Hs. apply wp_zoom, wp_modify. split; [|eauto].
  apply inv_set_world; [done|]. apply (st_lock _ _ HW), Hs.
Qed.

(** Operations that leave the shared part of the world alone. *)
Lemma safe_world {A} (m : M World A) (Q : A -> Prop) :
  (forall w, wp m w (fun r w' => same_shared w w' /\ exists a, r = Ok a /\ Q a)) ->
  safe W X n (in_world m) Q.
Proof.
  intros Hm s Hs. apply wp_zoom. eapply wp_mono; [apply Hm|].
  intros r w (Hr & a & -> & Ha). split; [|eauto].
  by apply (inv_same s).
Qed.

Lemma inv_put key c c' s :
  s_connections s.1 !! key = Some c -> inv W X n s ->
  inv W X n (s.1 <| s_connections := <[key := c']> (s_connections s.1) |>, s.2).
Proof.
  intros Hc [H1 H2 H3 H4 H5 H6].
  assert (forall k : ConnectionId, is_Some (s_connections s.1 !! k) ->
    is_Some (<[key := c']> (s_connections s.1) !! k)) as Hk.
  { intros k Hk. destruct (decide (key = k)) as [->|].
    - rewrite lookup_insert_eq. by eexists.
    - by rewrite lookup_insert_ne. }
  constructor; cbn; try done.
  - intros cid k Hcid. destruct (H1 cid k Hcid); auto.
  - intros a k Ha. destruct (H2 a k Ha); auto.
  - rewrite map_size_insert_Some by by eexists. done.
Qed.

Lemma safe_borrow {A} (key : ConnectionId) (m : M (ServerConnection * World) A) (Q : A -> Prop) :
  (forall c w, wp m (c, w) (fun r s' => same_shared w s'.2 /\ exists a, r = Ok a /\ Q a)) ->
  safe W X n (borrow key m) (fun o => forall a, o = Some a -> Q a).
Proof.
  intros Hm s Hs. apply wp_borrow; [intros _; by split; [|eexists]|]. intros c Hc.
  eapply wp_mono; [apply Hm|]. intros r [c' w] (Hr & a & -> & Ha). cbn in Hr. split.
  - exact (inv_same (_, s.2) w (inv_put key c c' s Hc Hs) Hr).
  - eexists. split; [done|]. by intros ? [= <-].
Qed.

(** *** Tables *)

Lemma safe_send packets : safe W X n (send packets) (fun _ => True).
Proof. apply safe_world. intros w. apply wp_modify. eauto. Qed.

Lemma safe_remember cid : safe W X n (remember_taken_cid cid) (fun _ => True).
Proof.
  intros s [H1 H2 H3 H4 H5 H6]. apply wp_zoom. unfold wp.
  destruct (Routes.remember_taken_cid_spec cid (s_taken s.1) H5) as [-> Hwf].
  split; [by constructor|eauto].
Qed.

Lemma safe_is_taken cid : safe W X n (is_taken_cid cid) (fun _ => True).
Proof.
  apply safe_srv. intros s _. destruct (Routes.is_taken_cid _ _); [by apply safe_ret|].
  eapply safe_bind; [apply safe_lock|]. intros _ _. apply safe_world. intros w. apply wp_gets. eauto.
Qed.

Lemma inv_register key cids s :
  key ∈ X \/ is_Some (s_connections s.1 !! key) -> inv W X n s ->
  inv W X n (s.1 <| s_short_cid_lengths := Routes.insert_lens cids (s_short_cid_lengths s.1) |>
             <| s_cid_map := Routes.insert_cids key cids (s_cid_map s.1) |>, s.2).
Proof.
  intros Hk [H1 H2 H3 H4 H5 H6]. constructor; cbn; try done.
  - intros cid k. rewrite Routes.lookup_insert_cids. destruct (bool_decide _); [|by apply H1].
    by intros [= <-].
  - intros len [Hl|(cid & _ & ->)]%Routes.elem_of_insert_lens; [auto|].
    unfold Types.len. apply slen_nonneg.
Qed.

Lemma safe_unroute key cid :
  safe W X n (set_srv (fun s => s <| s_cid_map := Routes.unroute key cid (s_cid_map s) |>))
    (fun _ => True).
Proof.
  apply safe_set. intros s [H1 H2 H3 H4 H5 H6]. constructor; cbn; try done.
  intros c k. unfold Routes.unroute. destruct (bool_decide _); [|by apply H1].
  intros [_ Hc]%lookup_delete_Some. by apply (H1 c).
Qed.

Lemma safe_retired cids key : safe W X n (remove_retired_cids cids key) (fun _ => True).
Proof.
  apply safe_for_each. intros cid _. eapply safe_bind; [apply safe_unroute|].
  intros _ _. apply safe_remember.
Qed.

Lemma inv_remove key s :
  inv W X n s ->
  inv W X n (s.1 <| s_connections := delete key (s_connections s.1) |>
             <| s_cid_map := Routes.retain_other key (s_cid_map s.1) |>
             <| s_addr_map := Routes.retain_other key (s_addr_map s.1) |>, s.2).
Proof.
  intros [H1 H2 H3 H4 H5 H6]. constructor; cbn; try done.
  - intros cid k [Hc Hne]%Routes.lookup_retain_other. rewrite lookup_delete_ne by done. eauto.
  - intros a k [Hc Hne]%Routes.lookup_retain_other. rewrite lookup_delete_ne by done. eauto.
  - pose proof (map_size_delete key (s_connections s.1)) as Hd.
    revert Hd. destruct (s_connections s.1 !! key); cbn; unfold id; lia.
Qed.

Lemma safe_remove key : safe W X n (remove_connection key) (fun _ => True).
Proof. apply safe_set. intros s. apply inv_remove. Qed.

Lemma safe_remove_closed : safe W X n remove_closed_connections (fun _ => True).
Proof. apply safe_srv. intros s _. apply safe_for_each. intros k _. apply safe_remove. Qed.

(** Registering for a connection that is in the map. *)
Lemma safe_register key cids s :
  key ∈ X \/ is_Some (s_connections s.1 !! key) -> inv W X n s ->
  wp (register_cids key cids) s (fun r s' => inv W X n s' /\ r = Ok tt /\
    s_connections s'.1 = s_connections s.1).
Proof. intros Hk Hs. apply wp_modify. split; [by apply inv_register|done]. Qed.

Lemma safe_issued key : safe W X n (register_issued_cids key) (fun _ => True).
Proof.
  intros s Hs. apply wp_bind, wp_borrow; [intros _; apply wp_ret; eauto|]. intros c Hc.
  apply wp_zoom, wp_zoom, wp_call.
  eapply wp_mono.
  - apply safe_register; [right; cbn; rewrite lookup_insert_eq; by eexists|].
    by apply (inv_put _ c).
  - intros r s' (Hs' & -> & _). eauto.
Qed.


(** *** Packets without a connection *)

Context {api_doc : TokenApiDoc api} {env_doc : EnvDoc} {doc : TransportDoc}.

Context {write_doc : TokenWriteDoc}.

Definition fits (r : result Error (Z * bytes)) : Prop :=
  match r with Ok (n, buf) => n <= slen buf | Err _ => True end.

Lemma inv_send_buf s b : inv W X n s -> inv W X n (s.1 <| s_send_buf := b |>, s.2).
Proof. intros []. by constructor. Qed.

Lemma safe_send_written r local_addr to :
  fits r -> safe W X n (send_written r local_addr to) (fun _ => True).
Proof.
  intros Hr. destruct r as [[m buf]|e]; [|by apply safe_ret]. cbn in Hr.
  eapply safe_bind; [apply safe_set; intros s; apply inv_send_buf|]. intros _ _.
  destruct (Z.ltb_spec 0 m); [|by apply safe_ret].
  intros s Hs. apply wp_bind, Streams.wp_prefix; [lia|]. by apply safe_send.
Qed.

Lemma safe_scid len :
  safe W X n (generate_scid len) (fun o => forall cid, o = Some cid -> cid_ok cid).
Proof.
  unfold generate_scid. destruct (len =? 0).
  - apply safe_ret. intros cid [= <-]. vm_compute. discriminate.
  - apply safe_world. intros w. unfold wp. destruct (random_cid len w) as [o w'|e w'| |] eqn:Hr.
    + split; [by inversion Hr|]. eexists. split; [done|]. intros cid ->.
      by apply random_cid_ok in Hr as [? _].
    + by inversion Hr.
    + by inversion Hr.
    + by inversion Hr.
Qed.

Lemma safe_from_outcome {A} (o : outcome (result Error A)) (Q : result Error A -> Prop) :
  (exists r, o = Ret r /\ Q r) -> safe W X n (from_outcome o) Q.
Proof. intros (r & -> & Hr). by apply safe_ret. Qed.

Lemma safe_send_retry accepted v secret to local_addr ts :
  cid_ok (ai_dcid accepted) -> cid_ok (ai_scid accepted) ->
  safe W X n (send_retry accepted v secret to local_addr ts) (fun _ => True).
Proof.
  intros Hd Hc. apply safe_srv. intros s0 _. eapply safe_bind; [apply safe_scid|].
  intros [scid|] Hscid; [|by apply safe_ret]. specialize (Hscid _ eq_refl).
  destruct (generate_retry_token_ret secret v to scid (ai_dcid accepted) ts Hscid Hd) as [r Hr].
  eapply safe_bind; [apply (safe_from_outcome _ (fun _ => True)); eauto|].
  intros [token|e] _; [|by apply safe_ret]. apply safe_srv. intros s1 _.
  eapply safe_bind; [|intros r'; apply safe_send_written].
  apply safe_from_outcome. unfold write_retry_packet.
  destruct (cid_to_raw_ok _ Hc) as (rc & -> & _). destruct (cid_to_raw_ok _ Hscid) as (rs & -> & _).
  destruct (cid_to_raw_ok _ Hd) as (ro & -> & _).
  destruct (ngtcp2_crypto_write_retry _ _ _ _ _ _) as [rv b] eqn:Hw. eexists. split; [done|].
  apply retry_fits in Hw. by destruct (rv <? 0).
Qed.

Lemma safe_invalid_token accepted v to local_addr :
  cid_ok (ai_scid accepted) ->
  safe W X n (send_invalid_token_close accepted v to local_addr) (fun _ => True).
Proof.
  intros Hc. apply safe_srv. intros s0 _. eapply safe_bind; [apply safe_scid|].
  intros [scid|] Hscid; [|by apply safe_ret]. specialize (Hscid _ eq_refl).
  apply safe_srv. intros s1 _. eapply safe_bind; [|intros r'; apply safe_send_written].
  apply safe_from_outcome. unfold write_stateless_connection_close.
  destruct (cid_to_raw_ok _ Hc) as (rc & -> & _). destruct (cid_to_raw_ok _ Hscid) as (rs & -> & _).
  destruct (ngtcp2_crypto_write_connection_close _ _ _ _ _ _) as [rv b] eqn:Hw.
  eexists. split; [done|]. apply close_fits in Hw. by destruct (rv <? 0).
Qed.

Lemma safe_version_negotiation info to local_addr :
  safe W X n (send_version_negotiation info to local_addr) (fun _ => True).
Proof.
  apply safe_srv. intros s0 _. apply safe_srv. intros s1 _. apply safe_send_written.
  unfold write_version_negotiation. destruct (quic_versions _) as [|v vs]; [done|].
  destruct (rand_fill 1) as [[|b bs]|]; [done| |done].
  destruct (ngtcp2_pkt_write_version_negotiation _ _ _ _ _) as [rv b'] eqn:Hw.
  apply vn_fits in Hw. by destruct (rv <? 0).
Qed.

Lemma reset_write_fits buf token len : slen token = 16 -> fits (write_stateless_reset buf token len).
Proof.
  intros Ht. unfold write_stateless_reset. destruct (_ <? MIN_RANDOM_LEN).
  { cbn. apply slen_nonneg. }
  destruct (rand_fill _) as [random|]; [|done].
  destruct (ngtcp2_pkt_write_stateless_reset2 buf token random) as [rv b] eqn:Hw.
  apply reset_fits in Hw; [|done]. by destruct (rv <? 0).
Qed.

Lemma reset_token_ret secret cid : cid_ok cid ->
  exists o, reset_token secret cid = Ret o /\ forall t, o = Some t -> slen t = 16.
Proof.
  intros Hc. unfold reset_token. destruct (cid_to_raw_ok _ Hc) as (raw & -> & _).
  destruct (ngtcp2_crypto_generate_stateless_reset_token secret raw) as [rv tok] eqn:Hg.
  apply reset_token_16 in Hg. eexists. split; [done|].
  intros t. destruct (negb _); [done|]. by intros [= <-].
Qed.

Lemma safe_reset_loop lens secret d to local_addr :
  Forall (fun len => 0 <= len) lens ->
  safe W X n (reset_loop lens secret d to local_addr) (fun _ => True).
Proof.
  induction 1 as [|len lens Hlen _ IH]; [by apply safe_ret|]. cbn [reset_loop].
  destruct (Z.ltb_spec (slen d) (1 + len)); [done|].
  intros s Hs. apply wp_bind. unfold wp at 1. rewrite Routes.index_Done by lia.
  destruct (Types.new _) as [dcid|] eqn:Hnew; [|by apply IH].
  apply new_cid_ok in Hnew as [Hok _]. revert s Hs. eapply safe_bind; [apply safe_is_taken|].
  intros [] _; [by apply safe_ret|].
  destruct (reset_token_ret secret dcid Hok) as (o & -> & Ho).
  destruct o as [token|]; [|done]. apply safe_srv. intros s _.
  apply safe_send_written, reset_write_fits, Ho. done.
Qed.

Lemma safe_stateless_reset d to local_addr ts :
  safe W X n (send_stateless_reset d to local_addr ts) (fun _ => True).
Proof.
  unfold send_stateless_reset. eapply (safe_bind _ _ (fun _ => True)).
  - intros s Hs. unfold wp. destruct (Limiter.try_acquire ts (s_limiter s.1)) as [l ok].
    split; [|eauto]. destruct Hs. by constructor.
  - intros [] _; [|by apply safe_ret]. apply safe_srv. intros s1 _.
    destruct (s_stateless_reset_secret s1.1); [|by apply safe_ret].
    apply safe_srv. intros s2 Hs2. apply safe_reset_loop, Forall_forall.
    intros len Hlen. apply (inv_lens _ _ _ _ Hs2). by apply Routes.descending_spec.
Qed.


(** *** Packets of a connection *)

Lemma write_close_for_wp err buf ts from local_addr c w :
  wp (write_close_for err buf ts from local_addr) (c, w) (fun r s' =>
    same_shared w s'.2 /\ exists a, r = Ok a).
Proof.
  unfold write_close_for. apply wp_bind, wp_attempt, wp_zoom, wp_zoom.
  set (m := if bool_decide _ then _ else _).
  assert (wp m (sc_conn c) (fun r _ => close_ok buf r)) as Hm
    by (unfold m; destruct (bool_decide _); [apply write_close_app_spec|apply write_close_spec]).
  eapply wp_mono; [exact Hm|]. intros [[written buf']|e] i Hok; [|apply wp_ret; eauto].
  destruct Hok as (Hn & Hl & Hb). destruct (Z.ltb_spec 0 written); [|apply wp_ret; eauto].
  apply wp_bind, Streams.wp_prefix; [lia|]. apply wp_bind, Streams.wp_close_packets; [done|].
  intros ps _ _. apply wp_ret. eauto.
Qed.

Lemma safe_timestamp : safe W X n (in_world timestamp) (fun _ => True).
Proof. apply safe_world. intros w. unfold wp, timestamp. eauto. Qed.

Lemma safe_conn_error key err from local_addr :
  safe W X n (handle_conn_error key err from local_addr) (fun _ => True).
Proof.
  unfold handle_conn_error.
  assert (safe W X n (
    ts ← in_world timestamp; buf ← srv s_send_buf;
    o ← borrow key (write_close_for err buf ts from local_addr);
    match o with
    | None => mret tt
    | Some (buf, packets) =>
        set_srv (fun s => s <| s_send_buf := buf |>) ;;
        match packets with [] => remove_connection key | _ => send packets end
    end) (fun _ => True)) as Hclose.
  { eapply safe_bind; [apply safe_timestamp|]. intros ts _. apply safe_srv. intros s0 _.
    eapply safe_bind.
    { apply (safe_borrow _ _ (fun _ => True)). intros c w.
      eapply wp_mono; [apply write_close_for_wp|]. intros r s' (Hr & a & ->). eauto. }
    intros [[buf packets]|] _; [|by apply safe_ret].
    eapply safe_bind; [apply safe_set; intros s; apply inv_send_buf|]. intros _ _.
    destruct packets; [apply safe_remove|apply safe_send]. }
  destruct (classify_connection_error err); try exact Hclose; try (by apply safe_ret);
    apply safe_remove.
Qed.

(** What [same_world] keeps. *)
Lemma read_and_flush_wp local_addr from d ts ecn c w :
  wp (read_and_flush local_addr from d ts ecn) (c, w) (fun r s' =>
    same_shared w s'.2 /\ exists a, r = Ok a).
Proof.
  unfold read_and_flush. apply wp_bind, wp_attempt.
  eapply wp_mono; [apply read_packet_wp|]. intros r1 [c1 w1] [Hw1 _].
  apply wp_bind, wp_attempt. eapply wp_mono; [apply flush_to_packets_wp|].
  intros r2 [c2 w2] [Hw2 _]. apply same_world_shared in Hw1, Hw2. cbn in Hw1, Hw2.
  apply wp_bind, wp_zoom, wp_zoom, wp_call, wp_bind, wp_zoom, wp_zoom, wp_call, wp_ret.
  cbn. split; [by etrans|eauto].
Qed.

(** A borrow followed by the registration of ids for the same connection. *)
Lemma safe_existing key d from local_addr ts ecn :
  safe W X n (handle_existing_connection key d from local_addr ts ecn) (fun _ => True).
Proof.
  intros s Hs. apply wp_bind, wp_borrow; [intros _; apply wp_ret; eauto|]. intros c Hc.
  eapply wp_mono; [apply read_and_flush_wp|].
  intros r [c' w] (Hr & [[[r1 packets] issued] retired] & ->). cbn in Hr. cbn [fst snd].
  apply wp_bind. eapply wp_mono.
  { apply safe_register; [right; cbn; rewrite lookup_insert_eq; by eexists|].
    exact (inv_same (_, s.2) w (inv_put key c c' s Hc Hs) Hr). }
  intros r s1 (Hs1 & -> & _). revert s1 Hs1.
  eapply safe_bind; [apply safe_retired|]. intros _ _.
  eapply safe_bind; [apply safe_send|]. intros _ _.
  destruct r1; [by apply safe_ret|apply safe_conn_error].
Qed.

Lemma safe_handoff d from local_addr ecn :
  are_bytes d -> safe W X n (handoff_to_accepted d from local_addr ecn) (fun _ => True).
Proof.
  intros Hb. eapply safe_bind; [apply safe_lock|]. intros _ _ s Hs.
  pose proof (inv_world _ _ _ _ Hs) as Hw.
  destruct (resolve_Done d from _ (st_ok _ _ HW _ Hw) Hb) as [o Ho].
  apply wp_bind, wp_zoom, wp_zoom. unfold wp at 1. rewrite Ho, put_routes, <- surjective_pairing.
  destruct o as [key|]; [|apply wp_ret; eauto].
  apply wp_bind, wp_zoom. eapply wp_mono; [by apply (st_deliver _ _ HW)|].
  intros r w' (b & -> & Hr & _ & Hw' & Hgone). apply wp_bind. destruct b; cbn [negb].
  - apply wp_ret, wp_ret. split; [by apply inv_set_world|eauto].
  - apply wp_zoom, wp_zoom, wp_modify, wp_ret. cbn [fst snd]. split; [|eauto].
    apply (inv_set_world s); auto.
Qed.


(** *** New connections *)

Context {ep_doc : EndpointDoc}.

Lemma write_cid_ret raw cid : cid_ok cid -> exists r, Params.write_cid raw cid = Ret r.
Proof.
  unfold cid_ok, Params.write_cid. intros. destruct (Z.ltb_spec NGTCP2_MAX_CIDLEN (Types.len cid));
    [lia|by eexists].
Qed.

Lemma safe_set_param o : (exists p, o = Ret p) -> safe W X n (set_param o) (fun _ => True).
Proof. intros [p ->]. by apply safe_ret. Qed.

Lemma safe_derive secret cid : cid_ok cid -> safe W X n (derive_token secret cid) (fun _ => True).
Proof.
  intros Hc. unfold derive_token. destruct secret as [secret|]; [|by apply safe_ret].
  destruct (reset_token_ret secret cid Hc) as (o & -> & _). by apply safe_ret.
Qed.

Lemma safe_random len :
  safe W X n (in_world (random_cid len)) (fun o => forall cid, o = Some cid -> cid_ok cid).
Proof.
  pose proof (safe_scid len) as H. unfold generate_scid in H.
  destruct (len =? 0) eqn:E; [|done]. apply Z.eqb_eq in E. rewrite E.
  apply safe_world. intros w. unfold wp, random_cid. cbn. split; [done|].
  eexists. split; [done|]. done.
Qed.

Lemma safe_build_params odcid scid retried :
  cid_ok odcid -> cid_ok scid -> safe W X n (build_params odcid scid retried) (fun _ => True).
Proof.
  intros Ho Hs. apply safe_srv. intros s0 _. apply safe_srv. intros s1 _.
  eapply safe_bind.
  { apply safe_set_param. unfold Params.with_original_dcid.
    destruct (write_cid_ret (Params.original_dcid (effective_transport_params (s_config s0.1))) odcid Ho)
      as [r ->]. by eexists. }
  intros p1 _. eapply (safe_bind _ _ (fun _ => True)).
  { destruct retried; [|by apply safe_ret]. apply safe_set_param. unfold Params.with_retry_scid.
    destruct (write_cid_ret (Params.retry_scid p1) scid Hs) as [r ->]. by eexists. }
  intros p2 _. destruct (is_empty scid); [by apply safe_ret|].
  eapply safe_bind; [by apply safe_derive|]. intros token _.
  eapply (safe_bind _ _ (fun _ => True)).
  { apply safe_world. intros w. apply wp_gets. eauto. }
  intros [addr|] _; [|by apply safe_ret].
  destruct (s_stateless_reset_secret s1.1) as [secret|]; [|by apply safe_ret].
  eapply safe_bind; [apply safe_random|]. intros [cid|] Hcid; [|by apply safe_ret].
  specialize (Hcid _ eq_refl). eapply safe_bind; [by apply safe_derive|].
  intros [t|] _; [|by apply safe_ret]. eapply (safe_bind _ _ (fun _ => True)).
  - apply safe_set_param. unfold Params.with_preferred_address.
    set (p := match token with Some _ => _ | None => p2 end).
    destruct (write_cid_ret (Params.pa_cid (Params.preferred_addr p)) cid Hcid) as [r ->].
    by eexists.
  - intros p3 _. by apply safe_ret.
Qed.

Lemma safe_choose_ids accepted retried :
  cid_ok (ai_dcid accepted) ->
  safe W X n (choose_ids accepted retried)
    (fun o => forall scid key, o = Some (scid, key) -> cid_ok scid).
Proof.
  intros Ha. apply safe_srv. intros s0 _. eapply safe_bind.
  { destruct retried; [|apply safe_scid]. apply safe_ret. by intros cid [= <-]. }
  intros [scid|] Hscid; [|apply safe_ret; done]. specialize (Hscid _ eq_refl).
  destruct (is_empty scid).
  - eapply safe_bind; [apply safe_random|]. intros [key|] _; apply safe_ret; [|done].
    by intros ? ? [= <- _].
  - apply safe_ret. by intros ? ? [= <- _].
Qed.

Lemma safe_validate accepted v from local_addr ts :
  cid_ok (ai_dcid accepted) -> cid_ok (ai_scid accepted) ->
  safe W X n (validate_address accepted v from local_addr ts)
    (fun o => forall odcid tok retried, o = Some (odcid, tok, retried) -> cid_ok odcid).
Proof.
  intros Hd Hc. apply safe_srv. intros s0 _. apply safe_srv. intros s1 _.
  destruct (from_packet (ai_token accepted)) as [token|].
  2:{ destruct (retry_secret (s_config s0.1)) as [secret|].
      - eapply safe_bind; [by apply safe_send_retry|]. intros _ _. by apply safe_ret.
      - apply safe_ret. by intros ? ? ? [= <- _ _]. }
  set (es := default (s_retry_secret s1.1) (retry_secret (s_config s0.1))).
  eapply (safe_bind _ _ (fun r => forall odcid retried, r = Ok (odcid, retried) -> cid_ok odcid)).
  - destruct (tok_kind token).
    + destruct (verify_retry_token_ret es (tok_bytes token) v from (ai_dcid accepted)
        (retry_token_timeout (s_config s0.1)) ts Hd) as (r & Hr & Hok).
      eapply (safe_bind _ _ (fun r' => r' = r)); [apply safe_from_outcome; eauto|].
      intros r' ->. apply safe_ret. destruct r as [c|e]; [|done].
      intros ? ? [= <- _]. by apply Hok.
    + apply safe_ret. destruct (verify_new_token _ _ _ _ _); [|done]. by intros ? ? [= <- _].
  - intros [[odcid retried]|e] Hok.
    + apply safe_ret. intros ? ? ? [= <- _ _]. by eapply Hok.
    + eapply safe_bind; [by apply safe_invalid_token|]. intros _ _. by apply safe_ret.
Qed.

(** The routes of a key that is exempt. *)
Lemma inv_route_cid cid key s :
  key ∈ X -> inv W X n s ->
  inv W X n (s.1 <| s_cid_map := <[cid := key]> (s_cid_map s.1) |>, s.2).
Proof.
  intros Hk [H1 H2 H3 H4 H5 H6]. constructor; cbn; try done.
  intros c k [[_ <-]|[_ Hc]]%lookup_insert_Some; [by left|by apply (H1 c)].
Qed.

Lemma safe_register_new scid key odcid retried pcid from :
  key ∈ X -> safe W X n (register_new scid key odcid retried pcid from) (fun _ => True).
Proof.
  intros Hk. unfold register_new. eapply (safe_bind _ _ (fun _ => True)); [|intros _ _].
  { destruct (is_empty scid); [by apply safe_ret|]. apply safe_set.
    intros s [H1 H2 H3 H4 H5 H6]. constructor; cbn; try done.
    intros len [->%elem_of_singleton|Hl]%elem_of_union; [apply slen_nonneg|auto]. }
  eapply (safe_bind _ _ (fun _ => True)); [|intros _ _].
  { destruct (bool_decide _); apply safe_set; [intros s; by apply inv_route_cid|].
    intros s [H1 H2 H3 H4 H5 H6]. constructor; cbn; try done.
    intros a k [[_ <-]|[_ Ha]]%lookup_insert_Some; [by left|by apply (H2 a)]. }
  eapply (safe_bind _ _ (fun _ => True)); [|intros _ _].
  { destruct retried; [|by apply safe_ret]. apply safe_set.
    intros s [H1 H2 H3 H4 H5 H6]. constructor; cbn; try done.
    intros c k [_ Hc]%lookup_delete_Some. by apply (H1 c). }
  eapply (safe_bind _ _ (fun _ => True)); [|intros _ _].
  { apply safe_set. intros s. by apply inv_route_cid. }
  destruct pcid as [cid|]; [|by apply safe_ret].
  intros s Hs. eapply wp_mono; [apply safe_register; [by left|done]|].
  intros r s' (Hs' & -> & _). eauto.
Qed.


Lemma safe_ids_polled key (f : conn -> conn * list ConnectionId) :
  safe W X n (borrow key (on_conn (call f))) (fun _ => True).
Proof.
  eapply safe_mono; [apply (safe_borrow _ _ (fun _ => True))|done].
  intros c w. apply wp_zoom, wp_zoom, wp_call. eauto.
Qed.

Lemma safe_timer ts key : safe W X n (handle_timer ts key) (fun _ => True).
Proof.
  apply safe_srv. intros s0 _. destruct (s_connections s0.1 !! key) as [c|]; [|by apply safe_ret].
  destruct (ts <? t_get_expiry (sc_conn c)); [by apply safe_ret|].
  eapply (safe_bind _ _ (fun _ => True)).
  { eapply safe_mono; [apply (safe_borrow _ _ (fun _ => True))|done]. intros c1 w.
    apply wp_bind, wp_attempt, wp_zoom, wp_zoom. eapply wp_mono; [apply handle_expiry_total|].
    intros r i _. apply wp_bind. eapply wp_mono; [apply drain_events_wp|].
    intros r' [c2 w2] (-> & Hw & _). apply same_world_shared in Hw. apply wp_ret. eauto. }
  intros o _. eapply safe_bind; [apply safe_issued|]. intros _ _.
  eapply safe_bind; [apply safe_ids_polled|]. intros retired _.
  eapply safe_bind; [apply safe_retired|]. intros _ _.
  destruct o as [[|e]|]; [by apply safe_ret| |by apply safe_ret].
  destruct (classify_connection_error e); try (by apply safe_ret); apply safe_remove.
Qed.

Lemma safe_timers : safe W X n handle_timers (fun _ => True).
Proof.
  eapply safe_bind; [apply safe_timestamp|]. intros ts _. apply safe_srv. intros s _.
  apply safe_for_each. intros key _. apply safe_timer.
Qed.

End safety.

(** *** From one bound to the next *)

Section whole.
Context (W : World -> Prop) (HW : stable None W).
Context {api_doc : TokenApiDoc api} {env_doc : EnvDoc} {doc : TransportDoc}.
Context {write_doc : TokenWriteDoc} {ep_doc : EndpointDoc} {ord_doc : HashOrderDoc}.

Lemma inv_weaken X X' n n' s : inv W X n s -> X ⊆ X' -> n <= n' -> inv W X' n' s.
Proof.
  intros [H1 H2 H3 H4 H5 H6] HX Hn. constructor; try done.
  - intros cid k Hk. destruct (H1 cid k Hk); [left; set_solver|by right].
  - intros a k Hk. destruct (H2 a k Hk); [left; set_solver|by right].
  - lia.
Qed.

(** The connection of the exempt key. *)
Lemma inv_insert key c n s :
  inv W {[key]} n s ->
  inv W ∅ (n + 1) (s.1 <| s_connections := <[key := c]> (s_connections s.1) |>, s.2).
Proof.
  intros [H1 H2 H3 H4 H5 H6].
  assert (forall k : ConnectionId, k ∈ ({[key]} : gset ConnectionId) \/ is_Some (s_connections s.1 !! k) ->
    k ∈ (∅ : gset ConnectionId) \/ is_Some (<[key := c]> (s_connections s.1) !! k)) as Hk.
  { intros k Hk. right. destruct (decide (key = k)) as [->|Hne].
    - rewrite lookup_insert_eq. by eexists.
    - rewrite lookup_insert_ne by done. destruct Hk; [set_solver|done]. }
  constructor; cbn; try done; eauto.
  pose proof (map_size_insert key c (s_connections s.1)) as Hs. revert Hs.
  destruct (s_connections s.1 !! key); cbn; unfold id; lia.
Qed.

Lemma start_connection_wp c accepted v scid key odcid retried pcid es d from local_addr ts ecn n s :
  cid_ok (ai_dcid accepted) -> cid_ok (ai_scid accepted) -> inv W ∅ n s ->
  wp (start_connection c accepted v scid key odcid retried pcid es d from local_addr ts ecn) s
    (fun r s' => inv W ∅ (n + 1) s' /\ r = Ok tt).
Proof.
  intros Hd Hc Hs. unfold start_connection.
  assert (forall (m : M sys unit) s, inv W ∅ (n + 1) s -> safe W ∅ (n + 1) m (fun _ => True) ->
    wp m s (fun r s' => inv W ∅ (n + 1) s' /\ r = Ok tt)) as Hsafe.
  { intros m s' Hs' Hm. eapply wp_mono; [by apply Hm|]. intros r s'' (? & [] & -> & _). done. }
  apply wp_bind, wp_zoom.
  apply (wp_mono _ _ (fun r w' => same_shared s.2 w' /\ exists a, r = Ok a)).
  { pose proof (read_packet_wp local_addr from d ts ecn c s.2) as H. unfold wp, attempt in *.
    destruct (read_packet _ _ _ _ _ _) as [a [c' w]|e [c' w]| |]; try done;
      destruct H as [Hw _]; apply same_world_shared in Hw; eauto. }
  intros r w (Hr & [r1 c1] & ->).
  set (s1 := (s.1, w)). assert (inv W ∅ n s1) as Hs1
    by (by eapply inv_same).
  assert (inv W ∅ (n + 1) s1) as Hs1' by (eapply inv_weaken; [exact Hs1|done|lia]).
  set (go_on := register_new _ _ _ _ _ _ ;; _).
  assert (wp go_on s1 (fun r s' => inv W ∅ (n + 1) s' /\ r = Ok tt)) as Hgo.
  { unfold go_on. apply wp_bind. eapply wp_mono.
    { apply (safe_register_new W {[key]} n); [set_solver|]. eapply inv_weaken; [exact Hs1|set_solver|lia]. }
    intros r s2 (Hs2 & [] & -> & _). apply wp_bind, wp_zoom.
    apply (wp_mono _ _ (fun r w' => same_shared s2.2 w' /\ exists a, r = Ok a)).
    { pose proof (flush_to_packets_wp ts c1 s2.2) as H. unfold wp, attempt in *.
      destruct (flush_to_packets ts (c1, s2.2)) as [a [c' w']|e [c' w']| |]; try done;
        destruct H as [Hw _]; apply same_world_shared in Hw; eauto. }
    intros r w2 (Hr2 & [packets c2] & ->). apply wp_bind, wp_modify.
    assert (inv W {[key]} n (s2.1, w2)) as Hs3
      by (by eapply inv_same).
    apply Hsafe; [by apply inv_insert|]. eapply safe_bind; [by apply safe_issued|]. intros _ _.
    eapply safe_bind; [by apply safe_send|]. intros _ _.
    destruct r1; [by apply safe_ret|by apply safe_conn_error].
  }
  destruct r1 as [|e]; [exact Hgo|].
  destruct (is_retry_required e); [apply Hsafe; [done|by apply safe_send_retry]|].
  destruct (bool_decide _); [exact Hgo|]. apply Hsafe; [done|by apply safe_ret].
Qed.

Lemma accept_initial_packet_ok d vs v accepted :
  accept_initial_packet d vs = Some (v, accepted) ->
  v ∈ vs /\ cid_ok (ai_dcid accepted) /\ cid_ok (ai_scid accepted).
Proof.
  unfold accept_initial_packet, accept_initial. destruct (ngtcp2_accept d) as [rv hd].
  destruct (negb (rv =? 0)); [done|].
  destruct (Types.new (raw_cid_bytes (hd_dcid hd))) as [dcid|] eqn:Hd; [|done].
  destruct (Types.new (raw_cid_bytes (hd_scid hd))) as [scid|] eqn:Hs; [|done]. cbn.
  destruct (from_u32 (hd_version hd)) as [v'|]; [|done].
  destruct (bool_decide_reflect (v' ∈ vs)); [|done]. intros [= <- <-]. cbn.
  split; [done|]. apply new_cid_ok in Hd as [? _], Hs as [? _]. done.
Qed.

Notation keeps m := (safe W ∅ MAX_CONNECTIONS m (fun _ => True)).

Lemma keeps_new d from local_addr ts ecn : keeps (handle_new_connection d from local_addr ts ecn).
Proof.
  apply safe_srv. intros s0 _. destruct (version_negotiation_info _ _);
    [by apply safe_version_negotiation|].
  destruct (accept_initial_packet _ _) as [[v accepted]|] eqn:Ha; [|by apply safe_ret].
  apply accept_initial_packet_ok in Ha as (_ & Hd & Hc). apply safe_srv. intros s1 _.
  eapply safe_bind; [by apply safe_validate|].
  intros [[[odcid tok] retried]|] Hok; [|by apply safe_ret]. specialize (Hok _ _ _ eq_refl).
  intros s Hs. apply wp_bind, wp_gets, wp_bind, wp_gets.
  destruct (Z.leb_spec MAX_CONNECTIONS (Z.of_nat (size (s_connections s.1)))) as [|Hsize].
  { apply wp_ret. eauto. }
  destruct (_ && _); [apply wp_ret; eauto|].
  assert (inv W ∅ (MAX_CONNECTIONS - 1) s) as Hs' by (destruct Hs; constructor; try done; lia).
  apply wp_bind. eapply wp_mono; [by apply (safe_choose_ids W HW ∅ (MAX_CONNECTIONS - 1))|].
  assert (forall s, inv W ∅ (MAX_CONNECTIONS - 1) s -> inv W ∅ MAX_CONNECTIONS s) as Hw
    by (intros; eapply inv_weaken; [done|done|lia]).
  intros r s2 (Hs2 & o & -> & Hids). destruct o as [[scid key]|]; [|apply wp_ret; eauto].
  specialize (Hids _ _ eq_refl). destruct create_session as [session|]; [|apply wp_ret; eauto].
  apply wp_bind. eapply wp_mono; [by apply (safe_build_params W HW ∅ (MAX_CONNECTIONS - 1))|].
  intros r s3 (Hs3 & [params pcid] & -> & _). apply wp_bind, wp_gets.
  cbv zeta. match goal with |- context [server_new ?a ?b ?l ?r ?v ?t ?p ?st] =>
    destruct (server_new_ret a b l r v t p st Hc Hids) as [res Hres] end.
  rewrite Hres. apply wp_bind, wp_ret. destruct res as [i|]; [|apply wp_ret; eauto].
  eapply wp_mono; [by apply start_connection_wp|]. intros r s4 [Hs4 ->].
  replace (MAX_CONNECTIONS - 1 + 1) with MAX_CONNECTIONS in Hs4 by lia. eauto.
Qed.

Lemma keeps_datagram d from local_addr ts ecn :
  are_bytes d -> keeps (handle_datagram d from local_addr ts ecn).
Proof.
  intros Hb. eapply (safe_bind _ _ _ _ _ (fun _ => True)).
  - intros s Hs. unfold resolve_own, srv. do 4 wp_step. apply wp_bind. unfold wp at 1.
    destruct (Routes.resolve_dcid_Done (s_cid_map s.1) (s_short_cid_lengths s.1) d s Hb
      (inv_lens _ _ _ _ Hs)) as [o ->].
    destruct o; [apply wp_ret; eauto|].
    destruct (_ || _); [apply wp_gets|apply wp_ret]; eauto.
  - intros [key|] _; [by apply safe_existing|].
    eapply safe_bind; [by apply safe_handoff|]. intros [] _; [by apply safe_ret|].
    destruct (Routes.is_long d); [apply keeps_new|by apply safe_stateless_reset].
Qed.

(** *** Handing over *)

Lemma elem_of_keys {K} `{Countable K} {A} (m : gmap K A) k :
  k ∈ (map_to_list m).*1 <-> is_Some (m !! k).
Proof.
  rewrite list_elem_of_fmap. split.
  - intros ([k' a] & -> & Hk%elem_of_map_to_list). by eexists.
  - intros [a Ha]. exists (k, a). split; [done|]. by apply elem_of_map_to_list.
Qed.

Lemma elem_of_keys_where {A} (p : A -> bool) m k :
  k ∈ keys_where p m <-> exists a, m !! k = Some a /\ p a = true.
Proof.
  unfold keys_where. rewrite list_elem_of_filter, cid_order_all, elem_of_keys. split.
  - intros [Hp [a Ha]]. rewrite Ha in Hp. eauto.
  - intros (a & Ha & Hp). rewrite Ha. split; [done|by eexists].
Qed.

Lemma elem_of_addrs_where {A} (p : A -> bool) m k :
  k ∈ addrs_where p m <-> exists a, m !! k = Some a /\ p a = true.
Proof.
  unfold addrs_where. rewrite list_elem_of_filter, addr_order_all, elem_of_keys. split.
  - intros [Hp [a Ha]]. rewrite Ha in Hp. eauto.
  - intros (a & Ha & Hp). rewrite Ha. split; [done|by eexists].
Qed.

Lemma slen_keys_where {A} (p : A -> bool) (m : gmap ConnectionId A) :
  slen (keys_where p m) <= Z.of_nat (size m).
Proof.
  unfold keys_where, slen. pose proof (length_filter
    (fun k => match m !! k with Some a => p a | None => false end = true) (cid_order A m)) as H.
  assert (length (cid_order A m) = size m) as Hs
    by by rewrite (cid_order_all A m), length_fmap, length_map_to_list.
  lia.
Qed.

Lemma elem_of_keys_where_key cid key (m : gmap ConnectionId ConnectionId) :
  cid ∈ keys_where (fun k => bool_decide (k = key)) m <-> m !! cid = Some key.
Proof.
  rewrite elem_of_keys_where. setoid_rewrite bool_decide_eq_true. naive_solver.
Qed.
Lemma elem_of_addrs_where_key a key (m : gmap SocketAddr ConnectionId) :
  a ∈ addrs_where (fun k => bool_decide (k = key)) m <-> m !! a = Some key.
Proof.
  rewrite elem_of_addrs_where. setoid_rewrite bool_decide_eq_true. naive_solver.
Qed.

(** The state and the result of [take_connection], but for the record of ids. *)
Lemma take_connection_wp key c s (P : Routes.taken -> Prop) :
  s_connections s.1 !! key = Some c ->
  let cids := keys_where (fun k => bool_decide (k = key)) (s_cid_map s.1) in
  let addrs := addrs_where (fun k => bool_decide (k = key)) (s_addr_map s.1) in
  let w := take_lock s.2 in
  wp (for_each cids Routes.remember_taken_cid) (s_taken s.1) (fun r t => r = Ok tt /\ P t) ->
  wp (take_connection key) s (fun r s' =>
    r = Ok (mkAccepted (s_local_addr s.1) key c (next_channel w)) /\
    P (s_taken s'.1) /\
    s'.1 = s.1 <| s_connections := delete key (s_connections s.1) |>
               <| s_taken := s_taken s'.1 |>
               <| s_cid_map := Routes.retain_other key (s_cid_map s.1) |>
               <| s_addr_map := Routes.retain_other key (s_addr_map s.1) |> /\
    s'.2 = w <| channels := <[next_channel w := Routes.mkChannel [] true]> (channels w) |>
             <| next_channel := S (next_channel w) |>
             <| routes := Routes.register key (next_channel w) cids addrs (routes w) |>).
Proof.
  intros Hc cids addrs w Ht. unfold take_connection.
  apply wp_bind, wp_gets, wp_bind. eapply wp_expect; [exact Hc|].
  apply wp_bind, wp_modify, wp_bind, wp_gets, wp_bind, wp_gets, wp_bind, wp_zoom, wp_modify, wp_bind, wp_zoom.
  unfold wp at 1, new_channel. cbn [fst snd]. fold w.
  apply wp_bind, wp_zoom, wp_zoom, wp_modify, wp_bind. cbn [fst snd].
  apply wp_for_each_zoom; [done| |by intros [[] ?]|].
  { by intros [[] ?]. }
  eapply wp_mono; [exact Ht|]. intros r t (-> & Ht').
  apply wp_bind, wp_modify, wp_bind, wp_gets, wp_ret. done.
Qed.

(** What the handover of a connection does to the world. *)
Definition taken_from (w : World) (a : AcceptedConnection) (w' : World) : Prop :=
  ac_inbound_rx a = next_channel w /\
  exists cids addrs,
    w' = w <| channels := <[next_channel w := Routes.mkChannel [] true]> (channels w) |>
           <| next_channel := S (next_channel w) |>
           <| routes := Routes.register (ac_connection_id a) (next_channel w) cids addrs (routes w) |>.

Lemma taken_from_ok w a w' : taken_from w a w' -> world_ok w -> world_ok w'.
Proof.
  intros (_ & cids & addrs & ->) [[] ?]. constructor; [|done]. constructor; cbn; [|done].
  intros len [Hl|(cid & _ & ->)]%Routes.elem_of_insert_lens; [auto|apply slen_nonneg].
Qed.

Lemma taken_from_sched w a w' : taken_from w a w' -> sched w' = sched w.
Proof. by intros (_ & cids & addrs & ->). Qed.

Lemma keeps_take key s :
  inv W ∅ MAX_CONNECTIONS s -> is_Some (s_connections s.1 !! key) ->
  wp (take_connection key) s (fun r s' =>
    exists a, r = Ok a /\ taken_from (take_lock s.2) a s'.2 /\
      forall W' : World -> Prop, W' s'.2 -> inv W' ∅ MAX_CONNECTIONS s').
Proof.
  intros Hs [c Hc]. eapply wp_mono.
  { apply (take_connection_wp key c s Routes.taken_wf Hc).
    apply Routes.remember_all_wf, Hs. }
  intros r s' (-> & Ht & H1 & H2). eexists. split; [done|]. split; [split; [done|by do 2 eexists]|].
  intros W' HW'. pose proof (inv_remove _ ∅ MAX_CONNECTIONS key s Hs) as [I1 I2 I3 I4 I5 _].
  destruct s' as [sv w]. cbn in *. rewrite H1. by constructor.
Qed.

(** The inputs that are datagrams hold bytes. *)
Definition input_ok (i : input) : Prop :=
  match i with Received d _ _ _ => are_bytes d | _ => True end.

Lemma prepare_wp s :
  inv W ∅ MAX_CONNECTIONS s ->
  wp prepare s (fun r s' => exists o, r = Ok o /\
    match o with
    | inr _ => inv W ∅ MAX_CONNECTIONS s'
    | inl a => (exists w, W w /\ taken_from (take_lock w) a s'.2) /\
        forall W' : World -> Prop, W' s'.2 -> inv W' ∅ MAX_CONNECTIONS s'
    end).
Proof.
  intros Hs. unfold prepare. apply wp_bind.
  eapply wp_mono; [by apply safe_remove_closed|]. intros r s1 (Hs1 & [] & -> & _).
  apply wp_bind, wp_gets.
  destruct (keys_where _ (s_connections s1.1)) as [|key keys] eqn:Hk.
  - apply wp_bind. eapply wp_mono; [by eapply safe_timestamp|]. intros r s2 (Hs2 & now & -> & _).
    apply wp_ret. eauto.
  - assert (is_Some (s_connections s1.1 !! key)) as Hsome.
    { assert (key ∈ keys_where (fun c => t_is_handshake_completed (sc_conn c)) (s_connections s1.1))
        as Hin by (rewrite Hk; left).
      apply elem_of_keys_where in Hin as (a & ? & _). by eexists. }
    apply wp_bind. eapply wp_mono; [by apply keeps_take|]. intros r s2 (a & -> & Ht & Hs2).
    apply wp_ret. eexists. split; [done|]. split; [|done]. exists s1.2. split; [apply Hs1|done].
Qed.

Lemma handle_input_wp i s :
  input_ok i -> inv W ∅ MAX_CONNECTIONS s ->
  wp (handle_input i) s (fun r s' =>
    inv W ∅ MAX_CONNECTIONS s' /\
    match r with
    | Ok _ => True
    | Err e => exists msg, i = RecvError msg /\ e = Internal ("recv error: " +:+ msg)
    end).
Proof.
  intros Hi Hs. destruct i as [d from local_addr ecn| |msg]; cbn [handle_input].
  - apply wp_bind. eapply wp_mono; [by eapply safe_timestamp|].
    intros r s3 (Hs3 & ts & -> & _).
    eapply wp_mono; [by apply keeps_datagram|]. by intros r s4 (Hs4 & [] & -> & _).
  - eapply wp_mono; [by eapply safe_timers|]. by intros r s4 (Hs4 & [] & -> & _).
  - apply wp_throw. split; [done|]. eauto.
Qed.
End whole.

Section loop.
Context {api_doc : TokenApiDoc api} {env_doc : EnvDoc} {doc : TransportDoc}.
Context {write_doc : TokenWriteDoc} {ep_doc : EndpointDoc} {ord_doc : HashOrderDoc}.

Lemma accept_wp inputs s :
  Forall input_ok inputs -> inv world_ok ∅ MAX_CONNECTIONS s ->
  wp (accept inputs) s (fun r s' =>
    inv world_ok ∅ MAX_CONNECTIONS s' /\
    match r with
    | Ok _ => True
    | Err e => exists msg, RecvError msg ∈ inputs /\ e = Internal ("recv error: " +:+ msg)
    end).
Proof.
  pose proof (world_ok_stable None) as HW.
  intros Hi. revert s. induction Hi as [|i inputs Hi _ IH]; intros s Hs; cbn [accept];
    (apply wp_bind; eapply wp_mono; [by apply prepare_wp|]); intros r s' (o & -> & Ho);
    destruct o as [a|t].
  1, 3: destruct Ho as [(w & Hw & Ht) Ho]; apply wp_ret; split; [|done];
    by apply Ho, (taken_from_ok (take_lock w) a), world_ok_lock.
  - by apply wp_ret.
  - apply wp_bind. eapply wp_mono; [by apply handle_input_wp|].
    intros [u|e] s2 [Hs2 H2].
    + eapply wp_mono; [by apply IH|]. intros [r|e] s3 [Hs3 H3]; [done|]. split; [done|].
      destruct H3 as (msg & ? & ->). exists msg. split; [by right|done].
    + split; [done|]. destruct H2 as (msg & -> & ->). exists msg. split; [left|done].
Qed.

Lemma bind_inv tls early bound config sv (W : World -> Prop) w :
  bind tls early bound config = Ok sv -> W w -> inv W ∅ MAX_CONNECTIONS (sv, w).
Proof.
  unfold bind. intros Hb Hw. destruct (quic_versions config); [done|].
  destruct tls; [|done]. destruct (if early_data config then early else Ok tt); [|done].
  destruct bound; [|done].
  destruct (match retry_secret config with Some _ => _ | None => _ end); [|done].
  injection Hb as <-. constructor; cbn; try done.
  - intros len. destruct (Z.ltb_spec 0 (scid_len config)); [|set_solver].
    intros ->%elem_of_singleton. lia.
  - apply Routes.taken_new_wf.
Qed.

(** *** What is sent without a connection *)

(** One more packet at most, and the rest of the world but the counters is as before. *)
Definition sends_at_most_one (P : Streams.OutgoingPacket -> Prop) (w w' : World) : Prop :=
  routes w' = routes w /\ channels w' = channels w /\
  (sent w' = sent w \/
   exists p, sent w' = sent w ++ [(Tokio.socket_for (sockets w) (Streams.op_local p), p)] /\ P p).

(** Only the limiter and the send buffer may differ. *)
Definition same_tables (sv sv' : Server) : Prop :=
  s_connections sv' = s_connections sv /\ s_cid_map sv' = s_cid_map sv /\
  s_addr_map sv' = s_addr_map sv /\ s_short_cid_lengths sv' = s_short_cid_lengths sv /\
  s_taken sv' = s_taken sv /\ s_config sv' = s_config sv.

Definition answers (P : Streams.OutgoingPacket -> Prop) (s s' : sys) : Prop :=
  same_tables s.1 s'.1 /\ sends_at_most_one P s.2 s'.2.

Lemma answers_refl P s : answers P s s.
Proof. split; [done|]. split; [done|]. split; [done|by left]. Qed.

Lemma send_written_wp r local_addr to s :
  fits r ->
  wp (send_written r local_addr to) s (fun res s' => res = Ok tt /\
    answers (fun p => Streams.op_local p = local_addr /\ Streams.op_remote p = to /\
      exists n buf, r = Ok (n, buf) /\ slen (Streams.op_data p) = n) s s').
Proof.
  intros Hr. destruct r as [[m buf]|e]; [|apply wp_ret; split; [done|apply answers_refl]].
  cbn in Hr. apply wp_bind, wp_modify. destruct (Z.ltb_spec 0 m).
  - apply wp_bind, Streams.wp_prefix; [lia|]. apply wp_zoom, wp_modify. split; [done|].
    split; [done|]. split; [done|]. split; [done|]. right. eexists. split; [done|]. cbn.
    split; [done|]. split; [done|]. exists m, buf. split; [done|]. apply slen_take. lia.
  - apply wp_ret. split; [done|]. split; [done|]. split; [done|]. split; [done|by left].
Qed.

(** A generated id changes the counter of draws only. *)
Lemma generate_scid_wp len s :
  wp (generate_scid len) s (fun r s' =>
    answers (fun _ => False) s s' /\ s'.1 = s.1 /\
    exists o, r = Ok o /\ forall cid, o = Some cid -> cid_ok cid).
Proof.
  unfold generate_scid. destruct (len =? 0).
  - apply wp_ret. split; [apply answers_refl|]. split; [done|]. eexists. split; [done|].
    intros cid [= <-]. vm_compute. discriminate.
  - apply wp_zoom. unfold wp. destruct (random_cid len s.2) as [o w'|e w'| |] eqn:Hr;
      [|by inversion Hr..].
    split; [|split; [done|]].
    + unfold random_cid in Hr. injection Hr as _ <-. split; [done|]. split; [done|].
      split; [done|by left].
    + eexists. split; [done|]. intros cid ->. by apply random_cid_ok in Hr as [? _].
Qed.

Lemma answers_trans P s1 s2 s3 :
  answers (fun _ => False) s1 s2 -> answers P s2 s3 -> sockets s2.2 = sockets s1.2 ->
  answers P s1 s3.
Proof.
  intros [(A1 & A2 & A3 & A4 & A5 & A6) (A7 & A8 & A9)] [(B1 & B2 & B3 & B4 & B5 & B6) (B7 & B8 & B9)] Hs.
  assert (sent s2.2 = sent s1.2) as Hsent by (destruct A9 as [|(? & _ & [])]; done).
  split; [repeat split; congruence|]. split; [congruence|]. split; [congruence|].
  rewrite <- Hsent, <- Hs. done.
Qed.

Lemma write_stateless_reset_shorter buf token len m buf' :
  0 <= len -> write_stateless_reset buf token len = Ok (m, buf') -> m = 0 \/ m < len.
Proof.
  intros Hlen. unfold write_stateless_reset, sat_sub.
  unfold MIN_RANDOM_LEN, MAX_RANDOM_LEN, STATELESS_RESET_TOKEN_LEN, NGTCP2_MAX_CIDLEN.
  set (r := Z.min (20 + 22 - 16) (Z.max (len - (1 + 16)) 0)).
  destruct (Z.ltb_spec r 5); [intros [= <- _]; by left|].
  destruct (rand_fill r) as [random|] eqn:Hr; [|done]. apply rand_fill_len in Hr as [Hr _].
  destruct (ngtcp2_pkt_write_stateless_reset2 buf token random) as [rv b] eqn:Hw.
  destruct (Z.ltb_spec rv 0); [done|]. intros [= <- _].
  assert (rv = Z.min (slen random) (slen buf - 16) + 16) by (eapply reset2_len; [exact Hw|lia]).
  right. lia.
Qed.

(** The connection id a Stateless Reset would answer, for the lengths tried in order. *)
Lemma reset_loop_wp lens secret d to local_addr s :
  sched s.2 = Alone -> Forall (fun len => 0 <= len) lens ->
  wp (reset_loop lens secret d to local_addr) s (fun r s' => r = Ok tt /\
    answers (fun p => Streams.op_local p = local_addr /\ Streams.op_remote p = to /\
      slen (Streams.op_data p) < slen d /\
      exists len dcid, len ∈ lens /\ 1 + len <= slen d /\
        dcid = mkCid (take (Z.to_nat len) (drop 1 d)) /\
        Routes.is_taken_cid dcid (s_taken s.1) = false /\
        Routes.is_taken_cid dcid (Routes.r_taken (routes s.2)) = false) s s').
Proof.
  intros Halone.
  induction 1 as [|len lens Hlen _ IH]; [apply wp_ret; split; [done|apply answers_refl]|].
  assert (wp (reset_loop lens secret d to local_addr) s (fun r s' => r = Ok tt /\
    answers (fun p => Streams.op_local p = local_addr /\ Streams.op_remote p = to /\
      slen (Streams.op_data p) < slen d /\
      exists len' dcid, len' ∈ len :: lens /\ 1 + len' <= slen d /\
        dcid = mkCid (take (Z.to_nat len') (drop 1 d)) /\
        Routes.is_taken_cid dcid (s_taken s.1) = false /\
        Routes.is_taken_cid dcid (Routes.r_taken (routes s.2)) = false) s s')) as IH'.
  { eapply wp_mono; [exact IH|]. cbn [fst snd]. intros r s' (-> & Ht & Hr & Hc & Hsent). split; [done|].
    split; [done|]. split; [done|]. split; [done|].
    destruct Hsent as [|(p & Hp & H1 & H2 & H3 & l & c & Hin & H4)]; [by left|right].
    exists p. split; [done|]. split; [done|]. split; [done|]. split; [done|].
    exists l, c. split; [by right|done]. }
  cbn [reset_loop]. destruct (Z.ltb_spec (slen d) (1 + len)); [done|].
  apply wp_bind. unfold wp at 1. rewrite Routes.index_Done by lia.
  replace (1 + len - 1) with len by lia. change (Z.to_nat 1) with 1%nat.
  destruct (Types.new _) as [dcid|] eqn:Hnew; [|done].
  apply new_cid_ok in Hnew as [Hok Hd]. unfold is_taken_cid. apply wp_bind, wp_bind, wp_gets.
  destruct (Routes.is_taken_cid dcid (s_taken s.1)) eqn:Ht1.
  { apply wp_ret, wp_ret. split; [done|apply answers_refl]. }
  apply wp_bind, wp_zoom, wp_modify, wp_zoom, wp_gets.
  rewrite take_lock_alone by done. cbn [fst snd]. rewrite <- !surjective_pairing.
  destruct (Routes.is_taken_cid dcid (Routes.r_taken _)) eqn:Ht2.
  { apply wp_ret. split; [done|apply answers_refl]. }
  destruct (reset_token_ret secret dcid Hok) as (o & -> & Ho).
  destruct o as [token|]; [|exact IH']. apply wp_bind, wp_gets.
  eapply wp_mono; [apply send_written_wp, reset_write_fits; eauto|].
  intros r s' (-> & Ht & Hr & Hc & Hsent). split; [done|]. cbn in *.
  split; [done|]. split; [done|]. split; [done|].
  destruct Hsent as [|(p & Hp & H1 & H2 & m & buf & Hw & Hlen')]; [by left|right].
  exists p. split; [done|]. split; [done|]. split; [done|]. split.
  - apply write_stateless_reset_shorter in Hw; [|apply slen_nonneg]. destruct Hw as [->|]; [|lia].
    rewrite Hlen'. lia.
  - exists len, dcid. split; [left|]. split; [lia|]. split; [|done].
    destruct dcid. cbn in Hd. by subst.
Qed.

Lemma write_retry_ret buf v c r o tok :
  cid_ok c -> cid_ok r -> cid_ok o ->
  exists res, write_retry_packet buf v c r o tok = Ret res /\ fits res.
Proof.
  intros Hc Hr Ho. unfold write_retry_packet.
  destruct (cid_to_raw_ok _ Hc) as (rc & -> & _). destruct (cid_to_raw_ok _ Hr) as (rs & -> & _).
  destruct (cid_to_raw_ok _ Ho) as (ro & -> & _).
  destruct (ngtcp2_crypto_write_retry _ _ _ _ _ _) as [rv b] eqn:Hw. eexists. split; [done|].
  apply retry_fits in Hw. by destruct (rv <? 0).
Qed.

Lemma send_retry_wp accepted v secret to local_addr ts s :
  cid_ok (ai_dcid accepted) -> cid_ok (ai_scid accepted) ->
  wp (send_retry accepted v secret to local_addr ts) s (fun r s' => r = Ok tt /\
    answers (fun p => Streams.op_local p = local_addr /\ Streams.op_remote p = to) s s').
Proof.
  intros Hd Hc. apply wp_bind, wp_gets, wp_bind.
  assert (forall len, wp (generate_scid len) s (fun r s' =>
    sockets s'.2 = sockets s.2)) as Hsock.
  { intros len. unfold generate_scid. by destruct (len =? 0). }
  eapply wp_mono; [exact (wp_and _ _ _ _ (generate_scid_wp _ s) (Hsock _))|].
  intros r s1 [(Ha & H1 & o & -> & Ho) Hs]. destruct o as [scid|].
  2:{ apply wp_ret. split; [done|]. eapply answers_trans; [exact Ha|apply answers_refl|done]. }
  specialize (Ho _ eq_refl).
  destruct (generate_retry_token_ret secret v to scid (ai_dcid accepted) ts Ho Hd) as [r Hr].
  rewrite Hr. apply wp_bind, wp_ret. destruct r as [token|e].
  2:{ apply wp_ret. split; [done|]. eapply answers_trans; [exact Ha|apply answers_refl|done]. }
  apply wp_bind, wp_gets.
  destruct (write_retry_ret (s_send_buf s1.1) v (ai_scid accepted) scid (ai_dcid accepted)
    (tok_bytes token) Hc Ho Hd) as (res & -> & Hf).
  apply wp_bind, wp_ret. eapply wp_mono; [by apply send_written_wp|].
  intros r s2 [-> Hb]. split; [done|].
  eapply answers_trans; [exact Ha| |done]. destruct Hb as (T & R & C & S'). split; [done|].
  split; [done|]. split; [done|]. destruct S' as [|(p & Hp & Hl & Hr2 & _)]; [by left|right; eauto].
Qed.

(** ** Properties *)

(** C2: the server's receive loop is safe: whatever datagrams arrive, in any order and
    mixed with timers, and whatever well-formed tables it finds each time it takes the
    lock, [accept] on a bound server neither panics nor diverges and fails only when
    the socket does; every route in its tables leads to a connection it
    holds, it holds at most 1024 connections, and its records of handed-over ids stay
    well-formed and bounded. *)
Theorem server_loop_safe (tls early : result Error unit) (bound : result Error SocketAddr)
    (config : ServerConfig) (sv : Server) (w : World) (inputs : list input)
    (Hbind : bind tls early bound config = Ok sv) (Hw : world_ok w)
    (Hinputs : Forall input_ok inputs) :
  wp (accept inputs) (sv, w) (fun r s' =>
    (forall cid k, s_cid_map s'.1 !! cid = Some k -> is_Some (s_connections s'.1 !! k)) /\
    (forall a k, s_addr_map s'.1 !! a = Some k -> is_Some (s_connections s'.1 !! k)) /\
    Z.of_nat (size (s_connections s'.1)) <= MAX_CONNECTIONS /\
    Routes.taken_wf (s_taken s'.1) /\ Routes.taken_wf (Routes.r_taken (routes s'.2)) /\
    match r with
    | Ok _ => True
    | Err e => exists msg, RecvError msg ∈ inputs /\ e = Internal ("recv error: " +:+ msg)
    end).
Proof.
  assert (inv world_ok ∅ MAX_CONNECTIONS (sv, w)) as Hinv.
  { by eapply bind_inv. }
  eapply wp_mono; [by apply accept_wp|]. intros r s' [[I1 I2 I3 I4 I5 [[_ I6] _]] Hr].
  split; [|split; [|done]].
  - intros cid k Hk. by destruct (I1 cid k Hk); [set_solver|].
  - intros a k Hk. by destruct (I2 a k Hk); [set_solver|].
Qed.

(** C9: handing over loses no route and touches no other. [take_connection] on a
    connection of the server returns it with an open, empty channel that no live
    connection uses and no key sends to. Every connection id and address that led to it in
    the server's tables leads to it in the shared table and no longer in the server's; every
    other id and address keeps its route in both, the senders of the other keys, the other
    channels and the shared record of ids stay, and the shared lengths grow by those of its
    ids alone. When the server's table holds at most 8192 ids, each of its ids that was not
    on record is recorded as handed over, so that no Stateless Reset answers it. Nothing
    else of the server or of the world changes. *)
Theorem take_connection_hands_over (key : ConnectionId) (c : ServerConnection) (s : sys)
    (Hc : s_connections s.1 !! key = Some c) (Htaken : Routes.taken_wf (s_taken s.1)) :
  let w := take_lock s.2 in
  let ch := next_channel w in
  wp (take_connection key) s (fun r s' =>
    r = Ok (mkAccepted (s_local_addr s.1) key c ch) /\
    (forall live, shared_ok live w ->
       channels w !! ch = None /\ forall k, Routes.r_senders (routes w) !! k <> Some ch) /\
    s'.1 = s.1 <| s_connections := delete key (s_connections s.1) |>
               <| s_taken := s_taken s'.1 |> <| s_cid_map := s_cid_map s'.1 |>
               <| s_addr_map := s_addr_map s'.1 |> /\
    s'.2 = w <| channels := <[ch := Routes.mkChannel [] true]> (channels w) |>
             <| next_channel := S ch |> <| routes := routes s'.2 |> /\
    Routes.r_senders (routes s'.2) = <[key := ch]> (Routes.r_senders (routes w)) /\
    Routes.r_taken (routes s'.2) = Routes.r_taken (routes w) /\
    (forall cid, Routes.r_cid_map (routes s'.2) !! cid =
       if decide (s_cid_map s.1 !! cid = Some key) then Some key
       else Routes.r_cid_map (routes w) !! cid) /\
    (forall a, Routes.r_addr_map (routes s'.2) !! a =
       if decide (s_addr_map s.1 !! a = Some key) then Some key
       else Routes.r_addr_map (routes w) !! a) /\
    (forall n, n ∈ Routes.r_short_cid_lengths (routes s'.2) <->
       n ∈ Routes.r_short_cid_lengths (routes w) \/
       exists cid, s_cid_map s.1 !! cid = Some key /\ n = Types.len cid) /\
    (forall cid k, s_cid_map s'.1 !! cid = Some k <-> s_cid_map s.1 !! cid = Some k /\ k <> key) /\
    (forall a k, s_addr_map s'.1 !! a = Some k <-> s_addr_map s.1 !! a = Some k /\ k <> key) /\
    (Z.of_nat (size (s_cid_map s.1)) <= Routes.MAX_TAKEN_CIDS ->
     forall cid, s_cid_map s.1 !! cid = Some key ->
       Routes.is_taken_cid cid (s_taken s.1) = false ->
       Routes.is_taken_cid cid (s_taken s'.1) = true)).
Proof.
  intros w ch.
  set (cids := keys_where (fun k => bool_decide (k = key)) (s_cid_map s.1)).
  assert (forall cid, cid ∈ cids <-> s_cid_map s.1 !! cid = Some key) as Hcids
    by (intros; apply elem_of_keys_where_key).
  set (P t := Z.of_nat (size (s_cid_map s.1)) <= Routes.MAX_TAKEN_CIDS ->
    forall cid, s_cid_map s.1 !! cid = Some key ->
    Routes.is_taken_cid cid (s_taken s.1) = false -> Routes.is_taken_cid cid t = true).
  eapply wp_mono.
  { apply (take_connection_wp key c s P Hc). fold cids.
    eapply wp_mono; [by apply Routes.remember_all|]. intros r t (-> & _ & H). split; [done|].
    intros Hsize cid Hcid. apply H; [|by apply Hcids].
    pose proof (slen_keys_where (fun k => bool_decide (k = key)) (s_cid_map s.1)). unfold cids. lia. }
  intros r s' (-> & HP & H1 & H2). fold w ch in H2. split; [done|]. split.
  { intros live Hw. assert (channels w !! ch = None) as Hnone.
    { destruct (channels w !! ch) as [q|] eqn:Hq; [|done].
      apply (so_channel _ _ Hw) in Hq as [Hlt _]. unfold ch in Hlt. lia. }
    split; [done|]. intros k Hk. apply (so_sender _ _ Hw), (so_live _ _ Hw) in Hk as (_ & q & Hq).
    congruence. }
  assert (s_cid_map s'.1 = Routes.retain_other key (s_cid_map s.1) /\
    s_addr_map s'.1 = Routes.retain_other key (s_addr_map s.1)) as [Hcm Ham] by (rewrite H1; done).
  rewrite Hcm, Ham. split; [exact H1|]. rewrite H2. cbn.
  split_and!; try done.
  - intros cid. rewrite Routes.lookup_insert_cids. fold cids.
    by rewrite (bool_decide_ext _ _ (Hcids cid)), bool_decide_decide; case_decide.
  - intros a. rewrite Routes.lookup_insert_addrs.
    by rewrite (bool_decide_ext _ _ (elem_of_addrs_where_key a key _)), bool_decide_decide; case_decide.
  - intros n. rewrite Routes.elem_of_insert_lens. fold cids. by setoid_rewrite Hcids.
  - intros cid k. apply Routes.lookup_retain_other.
  - intros a k. apply Routes.lookup_retain_other.
Qed.

(** C13: a Stateless Reset is sent only within limits: at most one packet, to the sender
    of the datagram, strictly shorter than it, only when the limiter grants it, and
    only for a connection id that was not handed over; the tables and the connections
    stay as they are. *)
Theorem stateless_reset_guarded (d : bytes) (to local_addr : SocketAddr) (ts : Z) (s : sys)
    (Hlens : forall len, len ∈ s_short_cid_lengths s.1 -> 0 <= len) (Halone : sched s.2 = Alone) :
  wp (send_stateless_reset d to local_addr ts) s (fun r s' => r = Ok tt /\
    same_tables s.1 s'.1 /\
    sends_at_most_one (fun p =>
      Streams.op_local p = local_addr /\ Streams.op_remote p = to /\
      slen (Streams.op_data p) < slen d /\
      (Limiter.try_acquire ts (s_limiter s.1)).2 = true /\
      exists len dcid, len ∈ s_short_cid_lengths s.1 /\ 1 + len <= slen d /\
        dcid = mkCid (take (Z.to_nat len) (drop 1 d)) /\
        Routes.is_taken_cid dcid (s_taken s.1) = false /\
        Routes.is_taken_cid dcid (Routes.r_taken (routes s.2)) = false) s.2 s'.2).
Proof.
  unfold send_stateless_reset. apply wp_bind. unfold wp at 1.
  destruct (Limiter.try_acquire ts (s_limiter s.1)) as [l ok] eqn:Hl.
  set (s1 := (s.1 <| s_limiter := l |>, s.2)).
  assert (forall P, sends_at_most_one P s.2 s.2) as Hnone by (repeat split; by left).
  destruct ok; cbn [negb]; [|by apply wp_ret].
  apply wp_bind, wp_gets. cbn. destruct (s_stateless_reset_secret s.1) as [secret|];
    [|by apply wp_ret].
  apply wp_bind, wp_gets. cbn. eapply wp_mono.
  { apply (reset_loop_wp (Routes.descending (s_short_cid_lengths s.1)) secret d to local_addr s1 Halone).
    apply Forall_forall. intros len Hlen. apply Hlens. by apply Routes.descending_spec. }
  intros r s' (-> & Ht & Hr & Hch & Hsent). split; [done|]. split; [exact Ht|].
  split; [done|]. split; [done|].
  destruct Hsent as [|(p & Hp & H1 & H2 & H3 & len & dcid & Hin & H4)]; [by left|right].
  exists p. split; [done|]. split; [done|]. split; [done|]. split; [done|]. split; [done|].
  exists len, dcid. split; [|done]. by apply Routes.descending_spec.
Qed.

(** C18: with a Retry secret in the configuration, an Initial packet that carries no
    token creates no state: the server sends at most one packet, back to the sender,
    and its connections and tables are as before. *)
Theorem retry_before_state (d : bytes) (from local_addr : SocketAddr) (ts ecn : Z) (s : sys)
    (secret : RetrySecret) (v : QuicVersion) (accepted : AcceptedInitial)
    (Hretry : retry_secret (s_config s.1) = Some secret)
    (Hvn : version_negotiation_info d (quic_versions (s_config s.1)) = None)
    (Hinitial : accept_initial_packet d (quic_versions (s_config s.1)) = Some (v, accepted))
    (Hnotoken : from_packet (ai_token accepted) = None) :
  wp (handle_new_connection d from local_addr ts ecn) s (fun r s' => r = Ok tt /\
    same_tables s.1 s'.1 /\
    sends_at_most_one (fun p => Streams.op_local p = local_addr /\ Streams.op_remote p = from)
      s.2 s'.2).
Proof.
  unfold handle_new_connection. apply wp_bind, wp_gets. rewrite Hvn, Hinitial.
  apply accept_initial_packet_ok in Hinitial as (_ & Hd & Hc).
  apply wp_bind, wp_gets, wp_bind. unfold validate_address.
  apply wp_bind, wp_gets, wp_bind, wp_gets. rewrite Hnotoken, Hretry.
  apply wp_bind. eapply wp_mono; [by apply send_retry_wp|].
  intros r s1 [-> Ha]. apply wp_ret, wp_ret. done.
Qed.

(** C21: the routes of a new connection, and no other. Its first id leads to it when it has
    one (the key is that id), and then no address does that did not before; when it has none
    the peer's address leads to it and the other addresses keep their routes. The id that
    comes with the preferred address leads to it, and so does the id the client chose
    first, unless the client came back after a Retry: then that id at least no longer leads
    to any other connection. Every other id keeps its route, the known lengths grow by those
    of the first id and of the preferred address's id alone, and nothing else of the server
    or of the world changes. *)
Theorem register_new_routes (scid key odcid : ConnectionId) (retried : bool)
    (pcid : option ConnectionId) (from : SocketAddr) (s : sys) :
  wp (register_new scid key odcid retried pcid from) s (fun r s' => r = Ok tt /\
    s'.2 = s.2 /\
    s'.1 = s.1 <| s_short_cid_lengths := s_short_cid_lengths s'.1 |>
               <| s_cid_map := s_cid_map s'.1 |> <| s_addr_map := s_addr_map s'.1 |> /\
    s_addr_map s'.1 =
      (if decide (scid = key) then s_addr_map s.1 else <[from := key]> (s_addr_map s.1)) /\
    (forall n, n ∈ s_short_cid_lengths s'.1 <->
       n ∈ s_short_cid_lengths s.1 \/ is_empty scid = false /\ n = Types.len scid \/
       exists cid, pcid = Some cid /\ n = Types.len cid) /\
    (scid = key -> s_cid_map s'.1 !! scid = Some key) /\
    (forall cid, pcid = Some cid -> s_cid_map s'.1 !! cid = Some key) /\
    (retried = false -> s_cid_map s'.1 !! odcid = Some key) /\
    (forall k, s_cid_map s'.1 !! odcid = Some k -> k = key) /\
    (forall cid, ~ (cid = scid /\ scid = key) -> cid <> odcid -> pcid <> Some cid ->
       s_cid_map s'.1 !! cid = s_cid_map s.1 !! cid)).
Proof using Type.
  clear -str api env tr bud ep ord. destruct s as [[] w].
  unfold register_new, set_srv, register_cids, wp, mbind, M_bind.
  destruct (bool_decide_reflect (scid = key)) as [Hk|Hk], (is_empty scid), retried,
    pcid as [cid|]; cbn; split_and!; intros; simplify_eq;
    rewrite ?decide_True, ?decide_False by done;
    repeat match goal with
    | |- context [<[_ := _]> _ !! _] => rewrite lookup_insert; case_decide
    | |- context [delete _ _ !! _] => rewrite lookup_delete; case_decide
    | H : <[_ := _]> _ !! _ = Some _ |- _ => rewrite lookup_insert in H; case_decide
    end; first [done | congruence | naive_solver | set_solver].
Qed.

(** After a Retry the old route of that id is deleted, and inserted again at once. *)
Lemma retried_route_inserted scid key odcid pcid from s :
  wp (register_new scid key odcid true pcid from) s (fun _ s' =>
    s_cid_map s'.1 !! odcid = Some key).
Proof using Type.
  clear -str api env tr bud ep ord. destruct s as [[] w].
  unfold register_new, set_srv, register_cids, wp, mbind, M_bind.
  destruct (bool_decide_reflect (scid = key)), (is_empty scid), pcid as [cid|]; cbn;
    repeat (rewrite lookup_insert; case_decide; [done|]); done.
Qed.
End loop.
End server.

(** ** Witnesses *)

(** Every datagram is an Initial packet of version 1 without a token. *)
Definition server_api : TokenApi := {|
  rand_fill := rand_fill (TokenApi := toy_api);
  ngtcp2_crypto_generate_stateless_reset_token :=
    ngtcp2_crypto_generate_stateless_reset_token (TokenApi := toy_api);
  ngtcp2_pkt_write_stateless_reset2 := ngtcp2_pkt_write_stateless_reset2 (TokenApi := toy_api);
  ngtcp2_accept d :=
    (0, {| hd_version := 1; hd_dcid := toy_cid (take 8 (drop 6 d)); hd_scid := toy_cid [1; 2];
           hd_token := None |});
  ngtcp2_crypto_generate_retry_token2 := ngtcp2_crypto_generate_retry_token2 (TokenApi := toy_api);
  ngtcp2_crypto_verify_retry_token2 := ngtcp2_crypto_verify_retry_token2 (TokenApi := toy_api);
  ngtcp2_crypto_generate_regular_token := ngtcp2_crypto_generate_regular_token (TokenApi := toy_api);
  ngtcp2_crypto_verify_regular_token := ngtcp2_crypto_verify_regular_token (TokenApi := toy_api);
  ngtcp2_crypto_write_retry := ngtcp2_crypto_write_retry (TokenApi := toy_api);
  ngtcp2_crypto_write_connection_close := ngtcp2_crypto_write_connection_close (TokenApi := toy_api);
  ngtcp2_pkt_decode_version_cid := ngtcp2_pkt_decode_version_cid (TokenApi := toy_api);
  ngtcp2_pkt_write_version_negotiation :=
    ngtcp2_pkt_write_version_negotiation (TokenApi := toy_api) |}.

Lemma server_api_doc : TokenApiDoc server_api.
Proof. destruct toy_api_doc. constructor; assumption. Qed.

#[local] Existing Instances toy_strerror server_api toy_env toy_transport toy_transport_budget.

Lemma server_write_doc : TokenWriteDoc.
Proof.
  constructor; cbn.
  - by intros ? ? ? ? [= _ <-].
  - intros buf token random rv buf' Ht. destruct (Z.ltb_spec (slen buf) 21).
    + intros [= <- <-]. pose proof (slen_nonneg buf). lia.
    + intros [= <- <-]. autorewrite with rust. unfold slen in *.
      rewrite length_take, length_drop. lia.
  - intros buf ? ? ? ? ? rv ? [= <- <-]. apply slen_nonneg.
  - intros buf ? ? ? ? ? rv ? [= <- <-]. apply slen_nonneg.
  - intros buf ? ? ? ? rv ? [= <- <-]. apply slen_nonneg.
Qed.

#[local] Instance toy_env_doc : EnvDoc.
Proof.
  constructor.
  - intros n. cbn. unfold is_u64, u64_max. lia.
  - intros n len b Hlen [= <-]. unfold slen. rewrite repeat_length. lia.
Qed.

#[local] Instance toy_endpoint : Endpoint := {|
  tls_session := unit; create_session := Ok tt;
  server_new _ _ _ _ _ _ _ _ := Ret (Ok (toy_new : conn));
  infer_quic_transport_error_code code := code;
  create_dir_all _ := Ok tt; create_file _ _ := Ok (Tokio.mkFile [] 0) |}.
#[local] Instance toy_order : HashOrder := {|
  cid_order _ m := (map_to_list m).*1; addr_order _ m := (map_to_list m).*1 |}.
#[local] Instance toy_endpoint_doc : EndpointDoc.
Proof. intros ? ? ? ? ? ? ? ? _ _. by eexists. Qed.
#[local] Instance toy_order_doc : HashOrderDoc.
Proof. by constructor. Qed.
#[local] Existing Instances server_api_doc server_write_doc toy_transport_doc.

Definition toy_config : ServerConfig :=
  ServerConfig_new Params.toy_default Params.toy_params [[104; 51]].
Definition toy_server (retry : option RetrySecret) : Server :=
  {| s_local_addr := toy_addr; s_config := toy_config <| retry_secret := retry |>;
     s_connections := ∅; s_cid_map := ∅; s_short_cid_lengths := {[16]}; s_addr_map := ∅;
     s_stateless_reset_secret := Some [5]; s_retry_secret := []; s_limiter := Limiter.new;
     s_taken := Routes.taken_new; s_send_buf := new_send_buf |}.
Definition toy_initial : bytes :=
  [0xc0; 0; 0; 0; 1; 8; 1; 2; 3; 4; 5; 6; 7; 8; 2; 1; 2].

Lemma server_loop_safe_witness :
  exists sv, bind (Ok tt) (Ok tt) (Ok toy_addr) toy_config = Ok sv /\
  wp (accept [Received toy_initial toy_addr toy_addr 0; TimerFired; RecvError "closed"])
    (sv, toy_world <| sched := Among [shared_new; shared_new] None |>) (fun r s' =>
      (forall cid k, s_cid_map s'.1 !! cid = Some k -> is_Some (s_connections s'.1 !! k)) /\
      Z.of_nat (size (s_connections s'.1)) <= 1024).
Proof.
  eexists. split; [reflexivity|].
  eapply wp_mono; [eapply (server_loop_safe (Ok tt) (Ok tt) (Ok toy_addr) toy_config)|].
  - reflexivity.
  - assert (routes_ok Routes.routes_new) by (constructor; [set_solver|apply Routes.taken_new_wf]).
    constructor; [done|]. by repeat constructor.
  - repeat constructor; cbn; unfold is_u8; lia.
  - intros r s' (H1 & _ & H2 & _). split; [exact H1|exact H2].
Defined.

Definition toy_key : ConnectionId := mkCid [9; 9; 9; 9].
Definition toy_busy : Server * World :=
  ((toy_server None) <| s_connections := {[toy_key := toy_server_conn]} |>
     <| s_cid_map := {[mkCid [1; 2] := toy_key]} |>, toy_world).

Lemma take_connection_hands_over_witness :
  wp (take_connection toy_key) toy_busy (fun r s' =>
    Routes.r_cid_map (routes s'.2) !! mkCid [1; 2] = Some toy_key /\
    s_cid_map s'.1 !! mkCid [1; 2] = None /\
    Routes.is_taken_cid (mkCid [1; 2]) (s_taken s'.1) = true).
Proof.
  eapply wp_mono; [apply (take_connection_hands_over toy_key toy_server_conn toy_busy)|].
  - reflexivity.
  - apply Routes.taken_new_wf.
  - intros r s' (_ & _ & _ & _ & _ & _ & Hcid & _ & _ & Hown & _ & Htaken). split; [|split].
    + rewrite (Hcid (mkCid [1; 2])). reflexivity.
    + destruct (s_cid_map s'.1 !! mkCid [1; 2]) as [k|] eqn:Hk; [|done].
      apply Hown in Hk as [[= <-] Hne]. by destruct Hne.
    + apply Htaken; [vm_compute; discriminate|reflexivity|reflexivity].
Defined.

Lemma stateless_reset_guarded_witness :
  wp (send_stateless_reset (repeat 64 40) toy_addr toy_addr 0) (toy_server None, toy_world)
    (fun r s' => r = Ok tt /\
       forall p, sent s'.2 = [p] -> slen (Streams.op_data p.2) < 40).
Proof.
  eapply wp_mono; [apply (stateless_reset_guarded (repeat 64 40) toy_addr toy_addr 0
    (toy_server None, toy_world))|].
  - intros len Hlen. cbn in Hlen. set_unfold. lia.
  - reflexivity.
  - intros r s' (-> & _ & _ & _ & Hsent). split; [done|]. intros p Hp. rewrite Hp in Hsent.
    destruct Hsent as [Hsent|(q & Hsent & _ & _ & Hq & _)]; [discriminate Hsent|].
    apply (f_equal (fun l => match l with x :: _ => x.2 | [] => q end)) in Hsent.
    cbn in Hsent. rewrite Hsent. exact Hq.
Defined.

Lemma retry_before_state_witness :
  wp (handle_new_connection toy_initial toy_addr toy_addr 0 0)
    (toy_server (Some [1; 2; 3]), toy_world)
    (fun r s' => r = Ok tt /\ s_connections s'.1 = ∅).
Proof.
  eapply wp_mono; [eapply (retry_before_state toy_initial toy_addr toy_addr 0 0
    (toy_server (Some [1; 2; 3]), toy_world) [1; 2; 3] V1)|].
  - reflexivity.
  - vm_compute. reflexivity.
  - vm_compute. reflexivity.
  - reflexivity.
  - intros r s' (-> & Htables & _). split; [done|]. apply Htables.
Defined.
End ServerInv.
