(* ===== verification/Accepted.v ===== *)
(** * Accepted connections (src/tokio-ngtcp2/src/server.rs)

    The handle that [Server::accept] returns: its methods, the loop of [recv_event] and
    [Drop]. What [select] waits for is a list of inputs; the datagrams that the server
    hands over are in the channel of the connection. *)
From S2P Require Import Prelude Types Errors Tokens Params Conn Callbacks Effects Transport.
From S2P Require Import Streams Limiter Routes Tokio World ServerConn Server.
Import Types Errors Tokens Effects Transport World ServerConn.

Module Accepted.
#[local] Existing Instances Server.AcceptedConnection_eta Routes.SharedRoutes_eta.

Section accepted.
Context {str : Strerror} {api : TokenApi} {env : Env} {tr : Transport} {bud : TransportBudget}.

Notation AcceptedConnection := Server.AcceptedConnection.
Notation ast := (AcceptedConnection * World)%type.

(** The connection inside, the world around, and the fields of the handle. *)
Definition on_inner {A} (m : M (ServerConnection * World) A) : M ast A :=
  zoom (fun s => (Server.ac_inner s.1, s.2)) (fun t s => (s.1 <| Server.ac_inner := t.1 |>, t.2)) m.
Definition on_conn {A} (m : M conn A) : M ast A := on_inner (ServerConn.on_conn m).
Definition in_world {A} (m : M World A) : M ast A := zoom snd (fun w s => (s.1, w)) m.
Definition ac {A} (f : AcceptedConnection -> A) : M ast A := gets (fun s => f s.1).

Definition is_closed (a : AcceptedConnection) : bool :=
  let c := Server.ac_inner a in
  sc_closed c || t_is_in_closing_period (sc_conn c) || t_is_in_draining_period (sc_conn c).

Definition has_pending_data (a : AcceptedConnection) : bool :=
  negb (Streams.is_empty (sc_pending (Server.ac_inner a))).

(** What the application asks about the connection. *)
Definition connection_id (a : AcceptedConnection) : ConnectionId := Server.ac_connection_id a.
Definition local_addr (a : AcceptedConnection) : SocketAddr := Server.ac_local_addr a.
Definition remote_addr (a : AcceptedConnection) : SocketAddr := sc_remote_addr (Server.ac_inner a).
Definition received_early_data (a : AcceptedConnection) : bool :=
  sc_early_data_received (Server.ac_inner a).

Section queries.
Implicit Types a : AcceptedConnection.
Let inner a : conn := sc_conn (Server.ac_inner a).

Definition selected_alpn_protocol a : option bytes := t_selected_alpn_protocol (inner a).
Definition negotiated_version a : option QuicVersion := t_negotiated_version (inner a).
Definition stats a : Params.ConnStats := t_stats (inner a).
Definition cwnd_left a : Z := t_get_cwnd_left (inner a).
Definition max_stream_data_left a (stream_id : StreamId) : Z :=
  t_get_max_stream_data_left (inner a) stream_id.
Definition max_data_left a : Z := t_get_max_data_left (inner a).
Definition streams_bidi_left a : Z := t_get_streams_bidi_left (inner a).
Definition streams_uni_left a : Z := t_get_streams_uni_left (inner a).
Definition remote_transport_params a : outcome (option Params.RemoteTransportParams) :=
  t_remote_transport_params (inner a).
Definition remote_max_datagram_frame_size a : outcome Z :=
  match remote_transport_params a with
  | Panic => Panic
  | Ret params => Ret (from_option Params.r_max_datagram_frame_size 0 params)
  end.
Definition can_send_datagram a : outcome bool :=
  if Tokio.DatagramConfig_is_enabled (sc_datagram (Server.ac_inner a))
  then t_can_send_datagram (inner a) else Ret false.
Definition supports_reset_stream_at a : outcome bool := t_supports_reset_stream_at (inner a).
End queries.

Definition local_max_datagram_frame_size (a : AcceptedConnection) : Z :=
  let cfg := sc_datagram (Server.ac_inner a) in
  if Tokio.DatagramConfig_is_enabled cfg then Tokio.max_datagram_frame_size cfg else 0.

Definition write_stream (stream_id : StreamId) (d : bytes) (fin : bool) : M ast Z :=
  closed ← ac is_closed;
  if (closed : bool) then throw ConnectionClosed
  else
    on_inner (set_sc (fun c => c <| sc_pending := Streams.push (sc_pending c) stream_id d fin |>)) ;;
    mret (slen d).

Definition open_bidi_stream : M ast StreamId := on_conn t_open_bidi_stream.
Definition open_uni_stream : M ast StreamId := on_conn t_open_uni_stream.

Definition poll_event : M ast (option Tokio.ConnectionEvent) := on_inner pop_event.

Definition is_nil {A} (l : list A) : bool := match l with [] => true | _ => false end.

Definition sync_routes : M ast unit :=
  issued ← on_conn (call t_poll_issued_cids);
  retired ← on_conn (call t_poll_retired_cids);
  if is_nil issued && is_nil retired then mret tt
  else
    in_world lock ;;
    key ← ac Server.ac_connection_id;
    in_world (on_routes (modify (Routes.register_issued_cids key issued))) ;;
    in_world (on_routes (Routes.retire_cids key retired)).

Definition flush : M ast unit :=
  ts ← in_world timestamp;
  packets ← on_inner (flush_to_packets ts);
  in_world (send_packets packets) ;;
  sync_routes.

Definition handle_received_datagram (d : bytes) (from local_addr : SocketAddr) (ecn : Z)
    : M ast unit :=
  in_world lock ;;
  o ← in_world (on_routes (Routes.resolve d from));
  key ← ac Server.ac_connection_id;
  match o with
  | Some conn_key =>
      if bool_decide (conn_key = key) then
        ts ← in_world timestamp;
        on_inner (handle_datagram local_addr from d ts ecn) ;;
        sync_routes
      else
        ok ← in_world (deliver conn_key (Routes.mkInbound d from local_addr ecn));
        if (ok : bool) then mret tt
        else in_world (on_routes (modify (Routes.remove conn_key)))
  | None =>
      ts ← in_world timestamp;
      on_inner (handle_datagram local_addr from d ts ecn) ;;
      sync_routes
  end.

(** ** recv_event *)

(** What wakes the [select] of [recv_event]. *)
Inductive wake :=
| FromQueue
| FromSocket (d : bytes) (from local_addr : SocketAddr) (ecn : Z)
| SocketError (msg : string)
| TimerFired.

(** The end of a closed connection: its event once, then the error. *)
Definition report_closed (e : Error) : M ast Tokio.ConnectionEvent :=
  on_inner push_connection_closed ;;
  o ← poll_event;
  match o with Some event => mret event | None => throw e end.

(** The loop up to [select]. *)
Definition before_select : M ast (option Tokio.ConnectionEvent) :=
  o ← poll_event;
  match o with
  | Some event => mret (Some event)
  | None =>
      closing ← on_conn (gets t_is_in_closing_period);
      draining ← on_conn (gets t_is_in_draining_period);
      if closing || draining then event ← report_closed ConnectionClosed; mret (Some event)
      else
        flush ;;
        on_inner drain_events ;;
        sync_routes ;;
        poll_event
  end.

(** A sender of the channel is left. *)
Definition has_sender (rx : nat) (r : Routes.SharedRoutes) : bool :=
  existsb (fun kv => bool_decide (kv.2 = rx)) (map_to_list (Routes.r_senders r)).

(** The arm for a datagram of the queue: [None] while [receiver.recv()] waits, else
    whether the queue is still open. A channel has a lock of its own, which orders its
    accesses like that of the routes. *)
Definition from_queue : M ast (option bool) :=
  rx ← ac Server.ac_inbound_rx;
  in_world lock ;;
  o ← in_world (recv rx);
  match o with
  | Some dgram =>
      ts ← in_world timestamp;
      on_inner (handle_datagram (Routes.in_local_addr dgram) (Routes.in_from dgram)
        (Routes.in_data dgram) ts (Routes.in_ecn dgram)) ;;
      sync_routes ;;
      mret (Some true)
  | None =>
      open ← in_world (gets (fun w => has_sender rx (routes w)));
      mret (if (open : bool) then None else Some false)
  end.

(** The arm of the timer. *)
Definition timer_fired : M ast (option Tokio.ConnectionEvent) :=
  ts ← in_world timestamp;
  r ← attempt (on_conn (t_handle_expiry ts));
  on_inner drain_events ;;
  match r with
  | Ok _ => mret None
  | Err e =>
      match classify_connection_error e with
      | Ignore | Terminal => mret None
      | _ => event ← report_closed e; mret (Some event)
      end
  end.

(** The wait of [select] in nanoseconds. *)
Definition timer_duration (a : AcceptedConnection) (now : Z) : Z :=
  let expiry := t_get_expiry (sc_conn (Server.ac_inner a)) in
  if now <? expiry then expiry - now else 1000000.

(** Where a call of [recv_event] stands: it has its event, or it waits in [select], with
    or without the queue. *)
Inductive progress :=
| Returned (event : Tokio.ConnectionEvent)
| Waiting (queue_open : bool).

(** A turn of the loop, up to [select], whose timer reads the clock once more. *)
Definition next_turn (queue_open : bool) : M ast progress :=
  o ← before_select;
  match o with
  | Some event => mret (Returned event)
  | None => _ ← in_world timestamp; mret (Waiting queue_open)
  end.

(** An arm of [select], and the loop until it waits again. When the queue has nothing to
    offer it stays in its [select]. *)
Definition wake_up (w : wake) (queue_open : bool) : M ast progress :=
  match w with
  | FromQueue =>
      woken ← (if queue_open then from_queue else mret None);
      match woken with
      | Some queue_open => next_turn queue_open
      | None => mret (Waiting queue_open)
      end
  | FromSocket d from local_addr ecn =>
      handle_received_datagram d from local_addr ecn ;; next_turn queue_open
  | SocketError msg => throw (Internal ("recv error: " +:+ msg))
  | TimerFired =>
      o ← timer_fired;
      match o with
      | Some event => mret (Returned event)
      | None => next_turn queue_open
      end
  end.

(** A call of [recv_event] until it waits for the first time. *)
Definition start_recv : M ast progress :=
  o ← poll_event;
  match o with
  | Some event => mret (Returned event)
  | None =>
      closed ← ac is_closed;
      if (closed : bool) then event ← report_closed ConnectionClosed; mret (Returned event)
      else next_turn true
  end.

(** The rest of the call: [None] while it waits for inputs to come. *)
Fixpoint resume (wakes : list wake) (p : progress) : M ast (option Tokio.ConnectionEvent) :=
  match p, wakes with
  | Returned event, _ => mret (Some event)
  | Waiting _, [] => mret None
  | Waiting queue_open, w :: wakes => p ← wake_up w queue_open; resume wakes p
  end.

Definition recv_event (wakes : list wake) : M ast (option Tokio.ConnectionEvent) :=
  p ← start_recv; resume wakes p.

(** ** The other methods *)

Definition extend_max_stream_offset (stream_id : StreamId) (consumed : Z) : M ast unit :=
  on_conn (t_extend_max_stream_offset stream_id consumed) ;;
  on_conn (modify (t_extend_max_offset consumed)).
Definition extend_max_streams_bidi (n : Z) : M ast unit :=
  on_conn (modify (t_extend_max_streams_bidi n)).
Definition extend_max_streams_uni (n : Z) : M ast unit :=
  on_conn (modify (t_extend_max_streams_uni n)).

(** [pending.remove] *)
Definition forget (stream_id : StreamId) : M ast unit :=
  on_inner (set_sc (fun c => c <| sc_pending := Streams.remove stream_id (sc_pending c) |>)).

Definition reset_stream (stream_id : StreamId) (error_code : Z) : M ast unit :=
  forget stream_id ;; on_conn (t_shutdown_stream_write stream_id error_code).
Definition reset_stream_reliable (stream_id : StreamId) (error_code : Z) : M ast unit :=
  forget stream_id ;; on_conn (t_shutdown_stream_write_reliable stream_id error_code).
Definition stop_sending (stream_id : StreamId) (error_code : Z) : M ast unit :=
  on_conn (t_shutdown_stream_read stream_id error_code).
Definition close_stream (stream_id : StreamId) (error_code : Z) : M ast unit :=
  forget stream_id ;; on_conn (t_shutdown_stream stream_id error_code).

Definition send_datagram (d : bytes) : M ast unit := on_inner (send_datagram_impl d).

Definition initiate_key_update : M ast unit :=
  ts ← in_world timestamp; on_conn (t_initiate_key_update ts).

Definition close (error_code : Z) (reason : bytes) : M ast unit :=
  closed ← ac is_closed;
  if (closed : bool) then mret tt
  else
    ts ← in_world timestamp;
    buf ← on_inner (sc sc_send_buf);
    '(written, buf) ← on_conn (t_write_connection_close_app buf error_code reason ts);
    on_inner (set_sc (fun c => c <| sc_send_buf := buf |>)) ;;
    (if 0 <? written then
       d ← Streams.prefix buf written;
       local_addr ← ac Server.ac_local_addr;
       remote_addr ← on_inner (sc sc_remote_addr);
       packets ← Streams.close_packets d local_addr remote_addr 0;
       in_world (send_packets packets)
     else mret tt) ;;
    on_inner (set_sc (fun c => c <| sc_closed := true |>)).

(** The calls of the application other than [recv_event], their results left out. *)
Inductive method :=
| WriteStream (stream_id : StreamId) (d : bytes) (fin : bool)
| OpenBidiStream | OpenUniStream | PollEvent | Flush
| ExtendMaxStreamOffset (stream_id : StreamId) (consumed : Z)
| ExtendMaxStreamsBidi (n : Z) | ExtendMaxStreamsUni (n : Z)
| ResetStream (stream_id : StreamId) (error_code : Z)
| ResetStreamReliable (stream_id : StreamId) (error_code : Z)
| StopSending (stream_id : StreamId) (error_code : Z)
| CloseStream (stream_id : StreamId) (error_code : Z)
| SendDatagram (d : bytes) | InitiateKeyUpdate | Close (error_code : Z) (reason : bytes).

Definition run_method (m : method) : M ast unit :=
  match m with
  | WriteStream id d fin => _ ← write_stream id d fin; mret tt
  | OpenBidiStream => _ ← open_bidi_stream; mret tt
  | OpenUniStream => _ ← open_uni_stream; mret tt
  | PollEvent => _ ← poll_event; mret tt
  | Flush => flush
  | ExtendMaxStreamOffset id n => extend_max_stream_offset id n
  | ExtendMaxStreamsBidi n => extend_max_streams_bidi n
  | ExtendMaxStreamsUni n => extend_max_streams_uni n
  | ResetStream id code => reset_stream id code
  | ResetStreamReliable id code => reset_stream_reliable id code
  | StopSending id code => stop_sending id code
  | CloseStream id code => close_stream id code
  | SendDatagram d => send_datagram d
  | InitiateKeyUpdate => initiate_key_update
  | Close code reason => close code reason
  end.

(** [drop], and the receiver of the channel with it. *)
Definition drop (a : AcceptedConnection) (w : World) : World :=
  close_channel (Server.ac_inbound_rx a)
    (w <| routes := Routes.remove (Server.ac_connection_id a) (routes w) |>).

(** ** Safety *)

(** What a predicate on the world needs to survive what the connection with a key does:
    it exchanges the routes of its ids, and takes datagrams from its queue. *)
Record owner_stable (key : ConnectionId) (rx : nat) (W : World -> Prop) : Prop := {
  os_stable : stable (Some key) W;
  os_sync issued retired t w : W w -> Routes.taken_wf t ->
    W (w <| routes := (routes w)
         <| Routes.r_short_cid_lengths :=
              Routes.insert_lens issued (Routes.r_short_cid_lengths (routes w)) |>
         <| Routes.r_cid_map := Routes.unroute_all key retired
              (Routes.insert_cids key issued (Routes.r_cid_map (routes w))) |>
         <| Routes.r_taken := t |> |>);
  os_recv w : W w -> wp (recv rx) w (fun _ w' =>
    routes w' = routes w /\ sched w' = sched w /\ W w') }.

Lemma world_ok_owner key rx : owner_stable key rx world_ok.
Proof.
  constructor; [apply world_ok_stable| |].
  - intros issued retired t w [[Hl _] Hf] Ht. constructor; [|done]. constructor; cbn; [|done].
    intros len [Hlen|(cid & _ & ->)]%Routes.elem_of_insert_lens; [auto|apply slen_nonneg].
  - intros w Hw. unfold wp, recv. destruct (channels w !! rx) as [ch|]; [|done].
    destruct (Routes.queue ch); [done|]. split; [done|]. split; [done|]. by destruct Hw; constructor.
Qed.

Section safety.
Context (W : World -> Prop) (key : ConnectionId) (rx : nat) (HW : owner_stable key rx W).

(** What every method keeps: the identity of the handle, the predicate on the world, and
    the routes of the others, of which it adds none; other tasks may. *)
Record kept (s s' : ast) : Prop := {
  k_id : Server.ac_connection_id s'.1 = Server.ac_connection_id s.1;
  k_rx : Server.ac_inbound_rx s'.1 = Server.ac_inbound_rx s.1;
  k_local : Server.ac_local_addr s'.1 = Server.ac_local_addr s.1;
  k_ok : W s'.2;
  k_others : sched s.2 = Alone -> sched s'.2 = Alone /\
    forall cid k, k <> Server.ac_connection_id s.1 ->
    Routes.r_cid_map (routes s'.2) !! cid = Some k -> Routes.r_cid_map (routes s.2) !! cid = Some k }.

Lemma acc_kept_refl s : W s.2 -> kept s s.
Proof. by repeat constructor. Qed.

Lemma acc_kept_trans s1 s2 s3 : kept s1 s2 -> kept s2 s3 -> kept s1 s3.
Proof.
  intros [I1 R1 L1 O1 C1] [I2 R2 L2 O2 C2]. constructor; try congruence.
  intros Ha. destruct (C1 Ha) as [Ha2 H1]. destruct (C2 Ha2) as [Ha3 H2]. split; [done|].
  intros cid k Hk H. apply H1; [done|]. apply H2; [congruence|done].
Qed.

(** [m] returns on the connection with this key, and keeps that. *)
Definition safe {A} (m : M ast A) : Prop := forall s,
  Server.ac_connection_id s.1 = key /\ Server.ac_inbound_rx s.1 = rx ->
  W s.2 -> wp m s (fun _ s' => kept s s').

Lemma acc_safe_ret {A} (a : A) : safe (mret a).
Proof. intros s _ Hs. by apply wp_ret, acc_kept_refl. Qed.

Lemma acc_safe_throw {A} e : safe (throw e : M ast A).
Proof. intros s _ Hs. by apply wp_throw, acc_kept_refl. Qed.

Lemma acc_safe_bind {A B} (m : M ast A) (f : A -> M ast B) :
  safe m -> (forall a, safe (f a)) -> safe (m ≫= f).
Proof.
  intros Hm Hf s Hk Hs. apply wp_bind. eapply wp_mono; [by apply Hm|]. intros [a|e] s1 H1; [|done].
  eapply wp_mono; [apply Hf, H1; by rewrite (k_id _ _ H1), (k_rx _ _ H1)|]. intros r s2. by apply acc_kept_trans.
Qed.

Lemma acc_safe_key {A} (f : ConnectionId -> M ast A) :
  safe (f key) -> safe (k ← ac Server.ac_connection_id; f k).
Proof. intros Hf s Hk Hs. apply wp_bind, wp_gets. rewrite (proj1 Hk). by apply Hf. Qed.

Lemma acc_safe_rx {A} (f : nat -> M ast A) :
  safe (f rx) -> safe (n ← ac Server.ac_inbound_rx; f n).
Proof. intros Hf s Hk Hs. apply wp_bind, wp_gets. rewrite (proj2 Hk). by apply Hf. Qed.

Lemma acc_safe_attempt {A} (m : M ast A) : safe m -> safe (attempt m).
Proof. intros Hm s Hk Hs. apply wp_attempt. eapply wp_mono; [by apply Hm|]. done. Qed.

Lemma acc_safe_ac {A} (f : AcceptedConnection -> A) : safe (ac f).
Proof. intros s _ Hs. by apply wp_gets, acc_kept_refl. Qed.

Lemma acc_kept_world s w : W s.2 -> same_shared s.2 w -> kept s (s.1, w).
Proof.
  intros Hs Hw. constructor; cbn; try done; [by eapply (st_same _ _ (os_stable _ _ _ HW))|].
  destruct Hw as [Hsh ->]. unfold routes. by rewrite Hsh.
Qed.

Lemma acc_safe_lock : safe (in_world lock).
Proof.
  intros s _ Hs. apply wp_zoom, wp_modify. constructor; cbn; try done.
  - by apply (st_lock _ _ (os_stable _ _ _ HW)).
  - intros Ha. by rewrite take_lock_alone.
Qed.

Lemma acc_safe_inner {A} (m : M (ServerConnection * World) A) :
  (forall c w, wp m (c, w) (fun _ s' => same_shared w s'.2)) -> safe (on_inner m).
Proof.
  intros Hm s _ Hs. apply wp_zoom. eapply wp_mono; [apply Hm|]. intros r [c w] Hw. cbn in Hw.
  destruct (acc_kept_world s w Hs Hw). by constructor.
Qed.

Lemma acc_safe_conn {A} (m : M conn A) : (forall i, wp m i (fun _ _ => True)) -> safe (on_conn m).
Proof.
  intros Hm. apply acc_safe_inner. intros c w. apply wp_zoom, wp_zoom. cbn.
  eapply wp_mono; [apply Hm|]. auto.
Qed.

Lemma acc_safe_call {A} (f : conn -> conn * A) : safe (on_conn (call f)).
Proof. apply acc_safe_conn. intros i. by apply wp_call. Qed.

Lemma acc_safe_gets {A} (f : conn -> A) : safe (on_conn (gets f)).
Proof. apply acc_safe_conn. intros i. by apply wp_gets. Qed.

Lemma acc_safe_modify (f : conn -> conn) : safe (on_conn (modify f)).
Proof. apply acc_safe_conn. intros i. by apply wp_modify. Qed.

Lemma acc_safe_world {A} (m : M World A) :
  (forall w, wp m w (fun _ w' => same_shared w w')) -> safe (in_world m).
Proof.
  intros Hm s _ Hs. apply wp_zoom. eapply wp_mono; [apply Hm|]. intros r w Hw. by apply acc_kept_world.
Qed.

Lemma acc_safe_timestamp : safe (in_world timestamp).
Proof. apply acc_safe_world. intros w. unfold wp, timestamp. auto. Qed.

Lemma acc_safe_send ps : safe (in_world (send_packets ps)).
Proof. apply acc_safe_world. intros w. apply wp_modify. auto. Qed.

Lemma acc_safe_has_sender n : safe (in_world (gets (fun w => has_sender n (routes w)))).
Proof. apply acc_safe_world. intros w. apply wp_gets. auto. Qed.

Lemma acc_safe_pop : safe poll_event.
Proof.
  apply acc_safe_inner. intros c w. unfold pop_event, wp. destruct (Tokio.pop_event (sc_events _)).
  auto.
Qed.

Lemma acc_safe_set_sc f : safe (on_inner (set_sc f)).
Proof. apply acc_safe_inner. intros c w. apply wp_zoom, wp_modify. auto. Qed.

Lemma acc_safe_push_closed : safe (on_inner push_connection_closed).
Proof.
  apply acc_safe_inner. intros c w. unfold push_connection_closed. apply wp_bind, wp_gets.
  destruct (sc_closed _); [apply wp_ret; auto|].
  apply wp_bind, wp_zoom, wp_modify, wp_zoom, wp_modify. auto.
Qed.

(** Goals [safe m] for an [m] made of known parts. *)
#[local] Hint Resolve acc_safe_ret acc_safe_throw acc_safe_attempt acc_safe_ac acc_safe_call
  acc_safe_gets acc_safe_modify acc_safe_timestamp acc_safe_lock acc_safe_send acc_safe_has_sender acc_safe_pop
  acc_safe_set_sc acc_safe_push_closed : acc_safe.
Ltac acc_auto :=
  repeat first
    [ solve [eauto with acc_safe]
    | match goal with |- forall _, _ => intro end
    | match goal with |- safe (match ?x with _ => _ end) => destruct x end
    | apply acc_safe_bind
    | progress unfold report_closed, before_select, next_turn, start_recv ].

(** *** The shared routes *)

Lemma acc_safe_recv : safe (in_world (recv rx)).
Proof.
  intros s _ Hs. apply wp_zoom. eapply wp_mono; [by apply HW|]. intros r w (Hr & Hsc & Hw).
  constructor; cbn; try done. by rewrite Hr, Hsc.
Qed.

Lemma acc_safe_exchange issued retired :
  safe (in_world (on_routes (modify (Routes.register_issued_cids key issued))) ;;
        in_world (on_routes (Routes.retire_cids key retired))).
Proof.
  intros s Hk Hs. apply wp_bind, wp_zoom, wp_zoom, wp_modify, wp_zoom, wp_zoom.
  eapply wp_mono; [apply Routes.retire_cids_wp, Routes.remember_all_wf|].
  { apply (st_ok _ _ (os_stable _ _ _ HW) _ Hs). }
  intros r r' (-> & t & Ht & ->). constructor; cbn; try done.
  - exact (os_sync _ _ _ HW issued retired t s.2 Hs Ht).
  - intros Ha. split; [done|]. intros cid k Hne.
    rewrite Routes.lookup_unroute_all, Routes.lookup_insert_cids.
    repeat case_bool_decide; [done..| |done]. destruct Hk as [Hk _]. congruence.
Qed.

Lemma acc_safe_sync : safe sync_routes.
Proof.
  apply acc_safe_bind; [apply acc_safe_call|]. intros issued.
  apply acc_safe_bind; [apply acc_safe_call|]. intros retired.
  destruct (is_nil issued && is_nil retired); [apply acc_safe_ret|].
  apply acc_safe_bind; [apply acc_safe_lock|]. intros _. apply acc_safe_key, acc_safe_exchange.
Qed.

(** *** The loop *)

Context {api_doc : TokenApiDoc api} {doc : TransportDoc}.

Lemma acc_safe_drain : safe (on_inner drain_events).
Proof.
  apply acc_safe_inner. intros c w. eapply wp_mono; [apply drain_events_wp|].
  by intros r s (_ & ?%same_world_shared & _).
Qed.

Lemma acc_safe_handle_datagram local_addr from d ts ecn :
  safe (on_inner (handle_datagram local_addr from d ts ecn)).
Proof.
  apply acc_safe_inner. intros c w. unfold handle_datagram. apply wp_bind, wp_attempt.
  eapply wp_mono; [apply read_packet_wp|]. intros r s [?%same_world_shared _].
  destruct r as [[]|e]; [by apply wp_ret|]. by destruct (classify_connection_error e).
Qed.

Lemma acc_safe_flush_packets ts : safe (on_inner (flush_to_packets ts)).
Proof.
  apply acc_safe_inner. intros c w. eapply wp_mono; [apply flush_to_packets_wp|].
  by intros r s [?%same_world_shared _].
Qed.

Lemma acc_safe_expiry ts : safe (on_conn (t_handle_expiry ts)).
Proof. apply acc_safe_conn. intros i. apply handle_expiry_total. Qed.

#[local] Hint Resolve acc_safe_recv acc_safe_sync acc_safe_drain acc_safe_handle_datagram
  acc_safe_flush_packets acc_safe_expiry : acc_safe.

Lemma acc_safe_flush : safe flush.
Proof. unfold flush. acc_auto. Qed.
#[local] Hint Resolve acc_safe_flush : acc_safe.

Lemma acc_safe_received d from local_addr ecn :
  are_bytes d -> safe (handle_received_datagram d from local_addr ecn).
Proof.
  intros Hb. pose proof (os_stable _ _ _ HW) as HW'.
  apply acc_safe_bind; [apply acc_safe_lock|]. intros _ s Hk Hs.
  assert (safe (ts ← in_world timestamp;
    on_inner (handle_datagram local_addr from d ts ecn) ;; sync_routes)) as Hown by acc_auto.
  destruct (resolve_Done d from _ (st_ok _ _ HW' _ Hs) Hb) as [o Ho].
  apply wp_bind, wp_zoom, wp_zoom. unfold wp at 1. rewrite Ho, put_routes, <- surjective_pairing.
  apply wp_bind, wp_gets. rewrite (proj1 Hk). destruct o as [k|]; [|by apply Hown].
  destruct (bool_decide_reflect (k = key)) as [|Hne]; [by apply Hown|].
  apply wp_bind, wp_zoom. eapply wp_mono; [apply (st_deliver _ _ HW'); [done..|congruence|done]|].
  intros r w' (b & -> & Hr & Hsc & Hw & Hgone). destruct b.
  - apply wp_ret. constructor; cbn; try done. by rewrite Hr, Hsc.
  - apply wp_zoom, wp_zoom, wp_modify. constructor; cbn; try done; [auto|].
    rewrite Hsc. intros Ha. split; [done|].
    intros cid k' _ [Hc _]%Routes.lookup_retain_other. by rewrite <- Hr.
Qed.

Lemma acc_safe_from_queue : safe from_queue.
Proof. unfold from_queue. apply acc_safe_rx. acc_auto. Qed.

Lemma acc_safe_timer : safe timer_fired.
Proof. unfold timer_fired. acc_auto. Qed.

#[local] Hint Resolve acc_safe_received acc_safe_from_queue acc_safe_timer : acc_safe.

Definition wake_ok (w : wake) : Prop :=
  match w with FromSocket d _ _ _ => are_bytes d | _ => True end.

Lemma acc_safe_start : safe start_recv.
Proof. acc_auto. Qed.

Lemma acc_safe_wake_up w queue_open : wake_ok w -> safe (wake_up w queue_open).
Proof. intros Hw. destruct w; cbn [wake_up wake_ok] in *; acc_auto. Qed.

Lemma acc_safe_recv_event wakes : Forall wake_ok wakes -> safe (recv_event wakes).
Proof.
  intros Hw. apply acc_safe_bind; [apply acc_safe_start|].
  induction Hw as [|w wakes Hw _ IH]; intros [ev|q]; cbn [resume]; try apply acc_safe_ret.
  apply acc_safe_bind; [by apply acc_safe_wake_up|done].
Qed.

(** *** The other methods *)

Lemma acc_safe_send_datagram d : safe (send_datagram d).
Proof.
  apply acc_safe_inner. intros c w. eapply wp_mono; [apply send_datagram_impl_wp|].
  intros r s' H. apply H.
Qed.

Lemma acc_safe_close code reason : safe (close code reason).
Proof.
  unfold close. apply acc_safe_bind; [acc_auto|]. intros closed. destruct closed; [acc_auto|].
  apply acc_safe_bind; [acc_auto|]. intros ts.
  apply acc_safe_bind; [apply acc_safe_inner; intros; apply wp_gets; auto|]. intros buf.
  intros s Hk Hs. apply wp_bind.
  eapply wp_mono.
  { apply (wp_and _ _ (fun _ s' => kept s s') (fun r _ => close_ok buf r)).
    - apply acc_safe_conn; [|done..]. intros i. eapply wp_mono; [apply write_close_app_spec|done].
    - apply wp_zoom, wp_zoom, wp_zoom. eapply wp_mono; [apply write_close_app_spec|done]. }
  intros [[n buf']|e] s1 [H1 Hok]; [|done]. destruct Hok as (Hn & Hl & Hb).
  eapply wp_mono.
  2:{ intros r s2. by apply (acc_kept_trans s s1). }
  revert H1. generalize s1. clear s1. intros s1 [Hid Hrx _ HW1 _].
  assert (safe (if 0 <? n then
       d ← Streams.prefix buf' n;
       local_addr ← ac Server.ac_local_addr;
       remote_addr ← on_inner (sc sc_remote_addr);
       packets ← Streams.close_packets d local_addr remote_addr 0;
       in_world (send_packets packets)
     else mret tt)) as Hsend.
  { destruct (0 <? n); [|acc_auto]. intros s2 Hk2 Hs2. apply wp_bind, Streams.wp_prefix; [lia|].
    revert s2 Hk2 Hs2. apply acc_safe_bind; [acc_auto|]. intros l.
    apply acc_safe_bind; [apply acc_safe_inner; intros; apply wp_gets; auto|]. intros ra.
    intros s2 Hk2 Hs2. apply wp_bind, Streams.wp_close_packets; [done|]. intros ps _ _.
    by apply acc_safe_send. }
  apply (acc_safe_bind _ _ (acc_safe_set_sc _)); [|rewrite Hid, Hrx; done|done]. intros _.
  apply acc_safe_bind; [exact Hsend|]. intros _. apply acc_safe_set_sc.
Qed.

#[local] Hint Resolve acc_safe_close acc_safe_send_datagram : acc_safe.

Lemma acc_safe_method m : safe (run_method m).
Proof.
  assert (forall A (m : M conn A), (forall c, wp m c (fun _ _ => True)) -> safe (on_conn m)) as Hc
    by (intros; by apply acc_safe_conn).
  destruct m; cbn [run_method];
    unfold write_stream, open_bidi_stream, open_uni_stream, extend_max_stream_offset,
      extend_max_streams_bidi, extend_max_streams_uni, reset_stream, reset_stream_reliable,
      stop_sending, close_stream, forget, initiate_key_update;
    repeat first [ progress acc_auto | apply Hc; intros; eauto with rust ].
Qed.
End safety.

(** ** The end of a connection *)

(** Calls of [recv_event], each with what wakes it, and their results. *)
Fixpoint recv_all (calls : list (list wake))
    : M ast (list (result Error (option Tokio.ConnectionEvent))) :=
  match calls with
  | [] => mret []
  | wakes :: calls => r ← attempt (recv_event wakes); rs ← recv_all calls; mret (r :: rs)
  end.

(** The events a closed connection has left to report. *)
Definition last_events (c : ServerConnection) : list Tokio.ConnectionEvent :=
  sc_events c ++
  (if sc_closed c then [] else [Tokio.closed_event (t_get_connection_error (sc_conn c))]).

(** One call on a closed connection does not wait. *)
Lemma start_recv_closed a w :
  is_closed a = true ->
  wp start_recv (a, w) (fun r s' =>
    s'.2 = w /\ is_closed s'.1 = true /\
    sc_conn (Server.ac_inner s'.1) = sc_conn (Server.ac_inner a) /\
    r = match last_events (Server.ac_inner a) with
        | e :: _ => Ok (Returned e)
        | [] => Err ConnectionClosed
        end /\
    last_events (Server.ac_inner s'.1) = tail (last_events (Server.ac_inner a))).
Proof.
  intros Hc. unfold start_recv. apply wp_bind, wp_zoom. unfold pop_event, wp at 1.
  destruct a as [la k c rx]. unfold is_closed, last_events in *. cbn [Server.ac_inner] in *.
  destruct c as [i ra p es v ns sub early closed buf dg q]. cbn in *.
  destruct es as [|e es]; cbn.
  - apply wp_bind, wp_gets. cbn. unfold is_closed. cbn. rewrite Hc.
    unfold report_closed, poll_event, on_inner, push_connection_closed, pop_event, wp.
    by destruct closed.
  - done.
Qed.

Lemma recv_event_closed wakes a w :
  is_closed a = true ->
  wp (recv_event wakes) (a, w) (fun r s' =>
    s'.2 = w /\ is_closed s'.1 = true /\
    sc_conn (Server.ac_inner s'.1) = sc_conn (Server.ac_inner a) /\
    r = match last_events (Server.ac_inner a) with
        | e :: _ => Ok (Some e)
        | [] => Err ConnectionClosed
        end /\
    last_events (Server.ac_inner s'.1) = tail (last_events (Server.ac_inner a))).
Proof.
  intros Hc. apply wp_bind. eapply wp_mono; [by apply start_recv_closed|].
  intros r s' (H1 & H2 & H3 & -> & H5).
  destruct (last_events (Server.ac_inner a)); [done|]. destruct wakes; apply wp_ret; done.
Qed.

(** ** Properties *)

Context {api_doc : TokenApiDoc api} {doc : TransportDoc}.

(** C14: [recv_event] of an accepted connection is safe among the others: with whatever
    datagrams from the socket and the server's queue, timer expiries and socket errors,
    and whatever well-formed tables other tasks leave it under the lock, it neither panics
    nor diverges; the record of handed-over ids stays well-formed, the handle keeps its
    identity and its queue, and it routes no id to another connection: while no other
    task runs, every such route was there before. *)
Theorem recv_event_safe (wakes : list wake) (a : AcceptedConnection) (w : World)
    (Hwakes : Forall wake_ok wakes) (Hw : world_ok w) :
  wp (recv_event wakes) (a, w) (fun _ s' =>
    world_ok s'.2 /\
    Server.ac_connection_id s'.1 = Server.ac_connection_id a /\
    Server.ac_inbound_rx s'.1 = Server.ac_inbound_rx a /\
    (sched w = Alone -> forall cid k, k <> Server.ac_connection_id a ->
       Routes.r_cid_map (routes s'.2) !! cid = Some k -> Routes.r_cid_map (routes w) !! cid = Some k)).
Proof.
  eapply wp_mono; [by apply (acc_safe_recv_event world_ok _ _
    (world_ok_owner (Server.ac_connection_id a) (Server.ac_inbound_rx a)))|].
  intros r s' [Hid Hrx _ Hok Ho]. split; [done|]. split; [done|]. split; [done|]. apply Ho.
Qed.


(** C17: [sync_routes] carries the ids of the connection to the shared table as it finds it
    under the lock, which it takes when there is an id to carry: each id it issued and did
    not retire is routed to it, and the lengths of the ids it issued become known; an id it
    retired has no route any more if it was routed to this connection, and keeps the route
    it has to another; the routes of all other ids, the addresses, the senders and the
    queues stay, and nothing else of the world or of the connection changes. When it retired
    at most 8192 ids, each of them that was not on record is recorded as handed over. *)
Theorem sync_routes_applies (a : AcceptedConnection) (w : World) (i i' : conn)
    (issued retired : list ConnectionId)
    (Hissued : t_poll_issued_cids (sc_conn (Server.ac_inner a)) = (i, issued))
    (Hretired : t_poll_retired_cids i = (i', retired))
    (Hw : world_ok w) :
  wp sync_routes (a, w) (fun r s' => r = Ok tt /\
    let w := if is_nil issued && is_nil retired then w else take_lock w in
    s'.1 = a <| Server.ac_inner := (Server.ac_inner a) <| sc_conn := i' |> |> /\
    s'.2 = w <| routes := routes s'.2 |> /\
    (forall cid, Routes.r_cid_map (routes s'.2) !! cid =
       let before := Routes.r_cid_map (routes w) !! cid in
       if decide (cid ∈ retired) then
         if decide (cid ∈ issued \/ before = Some (Server.ac_connection_id a)) then None else before
       else if decide (cid ∈ issued) then Some (Server.ac_connection_id a) else before) /\
    (forall n, n ∈ Routes.r_short_cid_lengths (routes s'.2) <->
       n ∈ Routes.r_short_cid_lengths (routes w) \/ exists cid, cid ∈ issued /\ n = Types.len cid) /\
    (slen retired <= Routes.MAX_TAKEN_CIDS -> forall cid, cid ∈ retired ->
       Routes.is_taken_cid cid (Routes.r_taken (routes w)) = false ->
       Routes.is_taken_cid cid (Routes.r_taken (routes s'.2)) = true) /\
    Routes.r_addr_map (routes s'.2) = Routes.r_addr_map (routes w) /\
    Routes.r_senders (routes s'.2) = Routes.r_senders (routes w)).
Proof.
  unfold sync_routes, on_conn, on_inner, ServerConn.on_conn, on_sc.
  apply wp_bind, wp_zoom, wp_zoom, wp_zoom, wp_call. cbn [fst snd]. rewrite Hissued. cbn [fst snd].
  apply wp_bind, wp_zoom, wp_zoom, wp_zoom, wp_call. cbn [fst snd Server.ac_inner sc_conn].
  cbn. rewrite Hretired. cbn.
  destruct (is_nil issued && is_nil retired) eqn:Hnil.
  { apply andb_prop in Hnil as [H1 H2]. destruct issued, retired; try done. apply wp_ret.
    cbn. split_and!; try done; [by rewrite put_routes|..|by intros _ ? ?%elem_of_nil].
    intros n. split; [by left|]. by intros [?|(? & ?%elem_of_nil & _)]. }
  apply world_ok_lock in Hw. apply wp_bind, wp_zoom, wp_modify.
  change ((_, w).2) with w. set (w0 := take_lock w) in *. clearbody w0.
  apply wp_bind, wp_gets, wp_bind, wp_zoom, wp_zoom, wp_modify, wp_zoom, wp_zoom. cbn.
  eapply wp_mono; [apply Routes.retire_cids_wp|].
  { cbn. apply (Routes.remember_all retired _ (ro_taken _ (wo_routes _ Hw))). }
  intros r r' (-> & t & [_ Ht] & ->). cbn. split_and!; try done.
  - intros cid. rewrite Routes.lookup_unroute_all, Routes.lookup_insert_cids.
    repeat case_bool_decide; repeat case_decide; naive_solver.
  - intros n. apply Routes.elem_of_insert_lens.
Qed.
End accepted.

(** ** Witnesses *)

#[local] Existing Instances toy_strerror toy_api toy_env toy_transport toy_transport_budget
  toy_transport_doc.

Definition toy_accepted : Server.AcceptedConnection :=
  Server.mkAccepted toy_addr (mkCid [5]) toy_server_conn 0.
Definition toy_shared : World :=
  toy_world <| routes := Routes.register (mkCid [5]) 0 [mkCid [1]; mkCid [2]] [] Routes.routes_new |>
            <| channels := {[0%nat := Routes.mkChannel [Routes.mkInbound [7] toy_addr toy_addr 0] true]} |>.

Lemma toy_shared_ok : world_ok toy_shared.
Proof.
  constructor; [|constructor]. constructor; [|apply Routes.taken_new_wf]. intros len Hlen.
  apply Routes.elem_of_insert_lens in Hlen as [Hlen%elem_of_empty|(cid & _ & ->)]; [done|].
  apply slen_nonneg.
Qed.

Lemma recv_event_safe_witness :
  wp (recv_event [TimerFired; FromSocket [0x40; 1; 0] toy_addr toy_addr 0; FromQueue])
    (toy_accepted, toy_shared) (fun _ s' =>
      forall cid, Routes.r_cid_map (routes s'.2) !! cid <> Some (mkCid [6])).
Proof.
  eapply wp_mono; [apply (recv_event_safe (api_doc := toy_api_doc)
    [TimerFired; FromSocket [0x40; 1; 0] toy_addr toy_addr 0; FromQueue] toy_accepted toy_shared)|].
  - constructor; [exact I|]. constructor; [solve_bytes|]. constructor; [exact I|constructor].
  - apply toy_shared_ok.
  - intros r s' (_ & _ & _ & H) cid Hcid. apply (H eq_refl) in Hcid; [|discriminate].
    unfold toy_shared, Routes.register in Hcid. cbn -[Routes.insert_cids] in Hcid.
    rewrite Routes.lookup_insert_cids in Hcid. by destruct (bool_decide _).
Defined.


Lemma sync_routes_applies_witness :
  wp sync_routes
    (toy_accepted <| Server.ac_inner := toy_server_conn
       <| sc_conn := toy_new <| ty_issued := [mkCid [3]] |> <| ty_retired := [mkCid [1]] |> |> |>,
     toy_shared) (fun r s' => r = Ok tt /\
    Routes.r_cid_map (routes s'.2) !! mkCid [3] = Some (mkCid [5]) /\
    Routes.r_cid_map (routes s'.2) !! mkCid [2] = Some (mkCid [5]) /\
    Routes.r_cid_map (routes s'.2) !! mkCid [1] <> Some (mkCid [5])).
Proof.
  eapply wp_mono; [eapply sync_routes_applies|].
  - reflexivity.
  - reflexivity.
  - apply toy_shared_ok.
  - intros r s' (-> & _ & _ & H & _). split; [reflexivity|]. rewrite !H. by split_and!.
Defined.
End Accepted.
