(* ===== verification/Replay.v ===== *)
(** * How far a job is (src/tokio-ngtcp2/src/server.rs)

    A task that runs among others is its state when it began and what it found each time
    it took the lock ([Schedule] of World.v). This says how far it is: given one more
    thing to find it does the same up to the point where it waited for the lock, and then
    takes the lock. The proof goes through the code: nothing but [lock] looks at the
    schedule. *)
From S2P Require Import Prelude Types Errors Tokens Params Conn Callbacks Effects Transport.
From S2P Require Import Streams Limiter Routes Tokio World ServerConn Server Accepted.
Import Types Errors Tokens Effects Transport World ServerConn.

Module Replay.

(** States with a world in them. *)
Class Scheduled (T : Type) := {
  sched_of : T -> Schedule;
  with_sched : Schedule -> T -> T;
  sched_of_with sc t : sched_of (with_sched sc t) = sc }.

#[export] Instance world_scheduled : Scheduled World := {|
  sched_of := sched; with_sched sc w := w <| sched := sc |>; sched_of_with _ _ := eq_refl |}.
#[export] Instance pair_scheduled {S} : Scheduled (S * World) := {|
  sched_of t := sched t.2; with_sched sc t := (t.1, t.2 <| sched := sc |>);
  sched_of_with _ _ := eq_refl |}.

(** What is to be found becomes less, and nothing happens after the task waits. *)
Definition shrinks (sc sc' : Schedule) : Prop :=
  match sc with
  | Alone => sc' = Alone
  | Among l (Some _) => sc' = sc
  | Among l None => match sc' with Among l' _ => (length l' <= length l)%nat | Alone => False end
  end.

#[export] Instance shrinks_preorder : PreOrder shrinks.
Proof.
  split.
  - intros [|l [p|]]; cbn; done.
  - intros [|l [p|]] sc2 sc3; cbn; [by intros ->|by intros ->|].
    destruct sc2 as [|l2 [p2|]]; [done| |]; cbn; [by intros ? ->|].
    destruct sc3; [done|lia].
Qed.

Section tame.
Context {T : Type} `{!Scheduled T}.

(** The run that has [n] more things to find takes the lock where the other one waits. *)
Definition below {A} (n : nat) (o : exit T A) : Prop :=
  match o with
  | Done _ t | Fail _ t =>
      match sched_of t with Among l _ => (length l < n)%nat | Alone => False end
  | _ => True
  end.

Definition same_with {A} (x : list Shared) (o o' : exit T A) (t : T) (again : T -> exit T A) : Prop :=
  match sched_of t with
  | Among l None => o' = again (with_sched (Among (l ++ x) None) t)
  | _ => below (length x) o'
  end.

Definition agrees {A} (x : list Shared) (o o' : exit T A) : Prop :=
  match o with
  | Done a t => same_with x o o' t (Done a)
  | Fail e t => same_with x o o' t (Fail e)
  | _ => True
  end.

Record tame {A} (m : M T A) : Prop := {
  tm_shrinks : keeps (fun t t' => shrinks (sched_of t) (sched_of t')) m;
  tm_agrees x t l : x <> [] -> sched_of t = Among l None ->
    agrees x (m t) (m (with_sched (Among (l ++ x) None) t)) }.

#[local] Instance on_sched : PreOrder (fun t t' : T => shrinks (sched_of t) (sched_of t')).
Proof. split; [intros ?; reflexivity|intros ? ? ?; by etrans]. Qed.

(** Computations that do not look at the schedule. *)
Definition with_exit {A} (sc : Schedule) (o : exit T A) : exit T A :=
  match o with
  | Done a t => Done a (with_sched sc t)
  | Fail e t => Fail e (with_sched sc t)
  | Panics => Panics
  | Diverges => Diverges
  end.

Record blind {A} (m : M T A) : Prop := {
  bl_same sc t : m (with_sched sc t) = with_exit sc (m t);
  bl_sched t : wlp m t (fun _ t' => sched_of t' = sched_of t) }.

Lemma blind_tame {A} (m : M T A) : blind m -> tame m.
Proof.
  intros [Hm Hs]. constructor.
  - intros t. eapply wlp_mono; [apply Hs|]. intros _ t' ->. reflexivity.
  - intros x t l Hx Hl. rewrite Hm. specialize (Hs t). unfold wlp in Hs.
    destruct (m t) as [a t'|e t'| |]; [| |done..]; cbn; unfold same_with; by rewrite Hs, Hl.
Qed.

Lemma tame_ret {A} (a : A) : tame (mret a).
Proof. apply blind_tame. by constructor. Qed.
Lemma tame_throw {A} e : tame (throw e : M T A).
Proof. apply blind_tame. by constructor. Qed.
Lemma tame_panic {A} : tame (panic : M T A).
Proof. apply blind_tame. by constructor. Qed.
Lemma tame_diverge {A} : tame (diverge : M T A).
Proof. apply blind_tame. by constructor. Qed.
Lemma tame_expect {A} (o : option A) : tame (expect o).
Proof. destruct o; [apply tame_ret|apply tame_panic]. Qed.
Lemma tame_try {A} (r : result Error A) : tame (try r).
Proof. destruct r; [apply tame_ret|apply tame_throw]. Qed.
Lemma tame_gets {A} (f : T -> A) : (forall sc t, f (with_sched sc t) = f t) -> tame (gets f).
Proof. intros Hf. apply blind_tame. constructor; [|done]. intros sc t. unfold gets. by rewrite Hf. Qed.
Lemma tame_modify (f : T -> T) :
  (forall sc t, f (with_sched sc t) = with_sched sc (f t)) ->
  (forall t, sched_of (f t) = sched_of t) -> tame (modify f).
Proof.
  intros Hf Hs. apply blind_tame. constructor; [|intros t; apply Hs].
  intros sc t. unfold modify. cbn. by rewrite Hf.
Qed.

(** After the first part one run may wait, where the other goes on. *)
Lemma below_bind {A B} n (m : M T A) (f : A -> M T B) t :
  (forall a, tame (f a)) -> below n (m t) -> below n ((m ≫= f) t).
Proof.
  intros Hf. unfold mbind, M_bind. destruct (m t) as [a t'|e t'| |]; try done. cbn.
  destruct (sched_of t') as [|l p] eqn:Hs; [done|]. intros Hl.
  pose proof (tm_shrinks _ (Hf a) t') as H. unfold wlp in H. rewrite Hs in H.
  destruct (f a t') as [b t2|e t2| |]; try done; cbn in *; destruct p; cbn in H;
    first [by rewrite H|by destruct (sched_of t2); [|lia]].
Qed.

Lemma tame_bind {A B} (m : M T A) (f : A -> M T B) :
  tame m -> (forall a, tame (f a)) -> tame (m ≫= f).
Proof.
  intros Hm Hf. constructor.
  - apply keeps_bind; [apply _|apply Hm|]. intros a. apply Hf.
  - intros x t l Hx Hl. pose proof (tm_agrees _ Hm x t l Hx Hl) as H.
    pose proof (below_bind (length x) m f (with_sched (Among (l ++ x) None) t) Hf) as Hb.
    unfold mbind, M_bind in *. destruct (m t) as [a t'|e t'| |] eqn:Hmt; [| |done..];
      cbn [agrees] in H; unfold same_with in H.
    + destruct (sched_of t') as [|l' [p|]] eqn:Hs.
      3:{ rewrite H. by apply (tm_agrees _ (Hf a)). }
      all: pose proof (tm_shrinks _ (Hf a) t') as Hk; unfold wlp in Hk; rewrite Hs in Hk;
        destruct (f a t') as [b t2|e t2| |]; try done; cbn in Hk |- *; unfold same_with; rewrite Hk;
        by apply Hb.
    + cbn [agrees]. unfold same_with. destruct (sched_of t') as [|l' [p|]]; [by apply Hb..|].
      by rewrite H.
Qed.

Lemma tame_attempt {A} (m : M T A) : tame m -> tame (attempt m).
Proof.
  intros Hm. constructor; [apply keeps_attempt, Hm|].
  intros x t l Hx Hl. pose proof (tm_agrees _ Hm x t l Hx Hl) as H. unfold attempt.
  destruct (m t) as [a t'|e t'| |]; [| |done..]; cbn [agrees] in *; unfold same_with in *;
    (destruct (sched_of t') as [|l' [p|]]; [| |by rewrite H]);
    by destruct (m (with_sched _ _)).
Qed.

Lemma tame_for_each {A} (l : list A) (f : A -> M T unit) :
  (forall x, tame (f x)) -> tame (for_each l f).
Proof.
  intros Hf. induction l as [|x l IH]; cbn; [apply tame_ret|]. by apply tame_bind.
Qed.
End tame.

(** A part of the state without a world. *)
Lemma tame_zoom_away {T S A} `{!Scheduled T} (get : T -> S) (set : S -> T -> T) (m : M S A) :
  (forall sc t, get (with_sched sc t) = get t) ->
  (forall u sc t, set u (with_sched sc t) = with_sched sc (set u t)) ->
  (forall u t, sched_of (set u t) = sched_of t) -> tame (zoom get set m).
Proof.
  intros Hg Hs Hk. apply blind_tame. constructor.
  - intros sc t. unfold zoom. rewrite Hg. destruct (m (get t)); cbn; by rewrite ?Hs.
  - intros t. apply wlp_zoom. unfold wlp. destruct (m (get t)); rewrite ?Hk; done.
Qed.

(** A part of the state with its world. *)
Lemma tame_zoom {T S A} `{!Scheduled T} `{!Scheduled S} (get : T -> S) (set : S -> T -> T) (m : M S A) :
  (forall t, sched_of (get t) = sched_of t) -> (forall u t, sched_of (set u t) = sched_of u) ->
  (forall sc t, get (with_sched sc t) = with_sched sc (get t)) ->
  (forall sc u t, set (with_sched sc u) t = with_sched sc (set u t)) ->
  (forall sc u t, set u (with_sched sc t) = set u t) ->
  tame m -> tame (zoom get set m).
Proof.
  intros H1 H2 H3 H4 H5 Hm. constructor.
  - intros t. apply wlp_zoom. eapply wlp_mono; [apply Hm|]. intros r u. cbn. by rewrite H1, H2.
  - intros x t l Hx Hl. pose proof (tm_agrees _ Hm x (get t) l Hx) as H. rewrite H1 in H.
    specialize (H Hl). unfold zoom. rewrite H3.
    destruct (m (get t)) as [a u|e u| |]; [| |done..]; cbn [agrees] in *; unfold same_with in *;
      rewrite H2; (destruct (sched_of u) as [|l' [p|]]; [| |by rewrite H, H4, H5]);
      destruct (m (with_sched _ _)) as [a' u'|e' u'| |]; cbn in *; by rewrite ?H2.
Qed.

(** The lock itself. *)
Lemma tame_lock : tame lock.
Proof.
  constructor.
  - intros w. unfold wlp, lock, modify, take_lock. destruct (sched w) as [|[|h l] [p|]] eqn:Hs; cbn;
      rewrite ?Hs; cbn; try done; lia.
  - intros x w l Hx Hl. cbn in Hl |- *. unfold same_with, take_lock. cbn. rewrite Hl.
    destruct l as [|h l]; cbn; [|done]. destruct x as [|h x]; [done|]. cbn. lia.
Qed.

(** ** The code *)

Section code.
Context {str : Strerror} {api : TokenApi} {env : Env} {tr : Transport} {bud : TransportBudget}.
Context {ep : Server.Endpoint} {ord : Server.HashOrder}.

Create HintDb tame.
#[local] Hint Resolve tame_ret tame_throw tame_panic tame_diverge tame_expect tame_try tame_attempt
  tame_lock tame_for_each : tame.

(** Goals [tame m] for an [m] made of known parts. *)
Ltac tame_under := fail.
Ltac tame_auto :=
  repeat first
    [ solve [eauto with tame]
    | match goal with |- forall _, _ => intro end
    | match goal with |- tame (match ?x with _ => _ end) => destruct x end
    | match goal with |- tame (let '(_, _) := ?x in _) => destruct x end
    | apply tame_bind | apply tame_attempt | apply tame_for_each | tame_under ].

(** *** The world *)

Lemma tame_timestamp : tame timestamp.
Proof. apply blind_tame. by constructor. Qed.
Lemma tame_random_cid len : tame (random_cid len).
Proof. apply blind_tame. by constructor. Qed.
Lemma tame_send_packets ps : tame (send_packets ps).
Proof. by apply tame_modify. Qed.
Lemma tame_new_channel : tame new_channel.
Proof. apply blind_tame. by constructor. Qed.
Lemma tame_on_routes {A} (m : M Routes.SharedRoutes A) : tame (on_routes m).
Proof. by apply tame_zoom_away. Qed.
Lemma tame_world_gets {A} (f : World -> A) : (forall sc w, f (w <| sched := sc |>) = f w) -> tame (gets f).
Proof. intros Hf. by apply tame_gets. Qed.
Lemma tame_deliver k dgram : tame (deliver k dgram).
Proof.
  apply blind_tame. constructor.
  - intros sc w. unfold deliver. cbn. fold_shared. by destruct (Routes.deliver _ _ _ _).
  - intros w. unfold wlp, deliver. by destruct (Routes.deliver _ _ _ _).
Qed.
Lemma tame_recv n : tame (recv n).
Proof.
  apply blind_tame. constructor.
  - intros sc w. unfold recv. change (channels (with_sched sc w)) with (channels w).
    destruct (channels w !! n) as [ch|]; [|done]. by destruct (Routes.queue ch).
  - intros w. unfold wlp, recv. destruct (channels w !! n) as [ch|]; [|done].
    by destruct (Routes.queue ch).
Qed.
#[local] Hint Resolve tame_timestamp tame_random_cid tame_send_packets tame_new_channel
  tame_on_routes tame_deliver tame_recv : tame.

(** *** A connection of the server *)

Notation st := (ServerConnection * World)%type.

Lemma tame_on_sc {A} (m : M ServerConnection A) : tame (on_sc m).
Proof. by apply tame_zoom_away. Qed.
Lemma tame_on_conn {A} (m : M conn A) : tame (on_conn m).
Proof. apply tame_on_sc. Qed.
Lemma tame_on_world {A} (m : M World A) : tame m -> tame (on_world m).
Proof. by apply tame_zoom. Qed.
Lemma tame_set_sc f : tame (set_sc f).
Proof. apply tame_on_sc. Qed.
Lemma tame_sc {A} (f : ServerConnection -> A) : tame (sc f).
Proof. by apply tame_gets. Qed.
Lemma tame_on_io {A} (m : M Streams.io A) : tame (on_io m).
Proof. apply tame_on_sc. Qed.
Lemma tame_from_outcome {T A} `{!Scheduled T} (o : outcome (result Error A)) :
  tame (from_outcome o : M T _).
Proof. destruct o; [apply tame_ret|apply tame_panic]. Qed.
(** What a computation takes from the state before it begins, the world apart. *)
Lemma tame_self {S A B} (f : S -> B) (m : B -> M (S * World) A) :
  (forall b, tame (m b)) -> tame (fun s => m (f s.1) s).
Proof.
  intros Hm. constructor.
  - intros s. apply (Hm _).
  - intros x s l. apply (tm_agrees _ (Hm (f s.1)) x s l).
Qed.
#[local] Hint Resolve tame_on_sc tame_on_conn tame_on_world tame_set_sc tame_sc tame_on_io
  tame_from_outcome : tame.

Lemma tame_submit_new_token : tame submit_new_token.
Proof. unfold submit_new_token. tame_auto. Qed.
#[local] Hint Resolve tame_submit_new_token : tame.

Lemma tame_drain_events : tame drain_events.
Proof.
  apply (tame_self (fun c => S (length (t_events (sc_conn c)))) drain_loop). intros fuel.
  induction fuel as [|fuel IH]; cbn [drain_loop]; tame_auto.
Qed.
#[local] Hint Resolve tame_drain_events : tame.

Lemma tame_read_packet local_addr from d ts ecn : tame (read_packet local_addr from d ts ecn).
Proof. unfold read_packet. tame_auto. Qed.
Lemma tame_flush_to_packets ts : tame (flush_to_packets ts).
Proof. unfold flush_to_packets. tame_auto. Qed.
#[local] Hint Resolve tame_read_packet tame_flush_to_packets : tame.

Lemma tame_sc_handle_datagram local_addr from d ts ecn :
  tame (ServerConn.handle_datagram local_addr from d ts ecn).
Proof. unfold ServerConn.handle_datagram. tame_auto. Qed.
Lemma tame_prefix {S} (b : bytes) n : tame (Streams.prefix b n : M (S * World) _).
Proof. unfold Streams.prefix. tame_auto. Qed.
#[local] Hint Resolve tame_sc_handle_datagram tame_prefix : tame.
Lemma tame_send_datagram_impl d : tame (send_datagram_impl d).
Proof. unfold send_datagram_impl. tame_auto. Qed.
Lemma tame_pop_event : tame pop_event.
Proof.
  apply blind_tame. constructor.
  - intros sc s. unfold pop_event. cbn. by destruct (Tokio.pop_event _).
  - intros s. unfold wlp, pop_event. by destruct (Tokio.pop_event _).
Qed.
Lemma tame_push_connection_closed : tame push_connection_closed.
Proof. unfold push_connection_closed. tame_auto. Qed.
#[local] Hint Resolve tame_send_datagram_impl tame_pop_event tame_push_connection_closed : tame.

Lemma tame_close_packets {T} `{!Scheduled T} d l r ecn :
  tame (Streams.close_packets d l r ecn : M T _).
Proof. unfold Streams.close_packets. tame_auto. Qed.
#[local] Hint Resolve tame_close_packets : tame.

(** *** The server *)

Import Server.
Notation sys := (Server.Server * World)%type.

Lemma tame_srv {A} (f : Server.Server -> A) : tame (srv f).
Proof. by apply tame_gets. Qed.
Lemma tame_set_srv f : tame (set_srv f).
Proof. by apply tame_modify. Qed.
Lemma tame_in_world {A} (m : M World A) : tame m -> tame (in_world m).
Proof. by apply tame_zoom. Qed.
Lemma tame_send ps : tame (send ps).
Proof. apply tame_in_world, tame_send_packets. Qed.

(** A connection that is in the map, and one that is not yet. *)
Lemma tame_borrow {A} key (m : M st A) : tame m -> tame (borrow key m).
Proof.
  intros Hm. constructor.
  - intros s. unfold wlp, borrow. destruct (s_connections s.1 !! key) as [c|]; [|reflexivity].
    pose proof (tm_shrinks _ Hm (c, s.2)) as H. unfold wlp in H.
    by destruct (m (c, s.2)) as [a [c' w']|e [c' w']| |].
  - intros x s l Hx Hl. unfold borrow. cbn [with_sched pair_scheduled fst snd].
    destruct (s_connections s.1 !! key) as [c|].
    2:{ cbn. unfold same_with. by rewrite Hl. }
    pose proof (tm_agrees _ Hm x (c, s.2) l Hx Hl) as H. cbn [with_sched pair_scheduled fst snd] in H.
    destruct (m (c, s.2)) as [a [c' w']|e [c' w']| |]; [| |done..]; cbn [agrees] in *;
      unfold same_with in *; cbn [sched_of pair_scheduled snd] in *;
      (destruct (sched w') as [|l' [p|]]; [| |by rewrite H]);
      by destruct (m (c, _)) as [a2 [c2 w2]|e2 [c2 w2]| |].
Qed.

Lemma tame_with_conn {A B} c (m : M st A) (f : A -> ServerConnection -> B) :
  tame m ->
  tame (fun w => match m (c, w) with
    | Done r (c, w) => Done (f r c) w
    | Fail e (_, w) => Fail e w
    | Panics => Panics
    | Diverges => Diverges
    end).
Proof.
  intros Hm. constructor.
  - intros w. unfold wlp. pose proof (tm_shrinks _ Hm (c, w)) as H. unfold wlp in H.
    by destruct (m (c, w)) as [a [c' w']|e [c' w']| |].
  - intros x w l Hx Hl. pose proof (tm_agrees _ Hm x (c, w) l Hx Hl) as H. cbn in H.
    destruct (m (c, w)) as [a [c' w']|e [c' w']| |]; [| |done..]; cbn [agrees] in *;
      unfold same_with in *; cbn in *;
      (destruct (sched w') as [|l' [p|]]; [| |by rewrite H]);
      by destruct (m (c, _)) as [a2 [c2 w2]|e2 [c2 w2]| |].
Qed.
#[local] Hint Resolve tame_srv tame_set_srv tame_in_world tame_send tame_borrow tame_with_conn : tame.
Ltac tame_under ::= first [apply tame_on_world | apply tame_in_world | apply tame_borrow].

Lemma tame_remember cid : tame (remember_taken_cid cid).
Proof. by apply tame_zoom_away. Qed.
Lemma tame_is_taken cid : tame (is_taken_cid cid).
Proof. unfold is_taken_cid. tame_auto. by apply tame_world_gets. Qed.
Lemma tame_register_cids key cids : tame (register_cids key cids).
Proof. apply tame_set_srv. Qed.
#[local] Hint Resolve tame_remember tame_is_taken tame_register_cids : tame.
Lemma tame_remove_retired cids key : tame (remove_retired_cids cids key).
Proof. unfold remove_retired_cids. tame_auto. Qed.
Lemma tame_register_issued key : tame (register_issued_cids key).
Proof. unfold register_issued_cids. tame_auto. Qed.
Lemma tame_remove_connection key : tame (remove_connection key).
Proof. apply tame_set_srv. Qed.
#[local] Hint Resolve tame_remove_retired tame_register_issued tame_remove_connection : tame.
Lemma tame_remove_closed : tame remove_closed_connections.
Proof. unfold remove_closed_connections. tame_auto. Qed.
Lemma tame_take_connection key : tame (take_connection key).
Proof. unfold take_connection. tame_auto. Qed.
Lemma tame_generate_scid len : tame (generate_scid len).
Proof. unfold generate_scid. tame_auto. Qed.
Lemma tame_send_written r l t : tame (send_written r l t).
Proof. unfold send_written. tame_auto. Qed.
#[local] Hint Resolve tame_remove_closed tame_take_connection tame_generate_scid tame_send_written : tame.

Lemma tame_reset_loop lens secret d to local_addr : tame (reset_loop lens secret d to local_addr).
Proof. induction lens; cbn [reset_loop]; unfold Routes.index; tame_auto. Qed.
Lemma tame_stateless_reset d to local_addr ts : tame (send_stateless_reset d to local_addr ts).
Proof.
  unfold send_stateless_reset. apply tame_bind.
  - apply blind_tame. constructor.
    + intros sc s. cbn. by destruct (Limiter.try_acquire _ _).
    + intros s. unfold wlp. by destruct (Limiter.try_acquire _ _).
  - intros ok. pose proof tame_reset_loop. tame_auto.
Qed.
Lemma tame_handle_conn_error key e from local_addr : tame (handle_conn_error key e from local_addr).
Proof. unfold handle_conn_error, write_close_for. tame_auto. Qed.
#[local] Hint Resolve tame_stateless_reset tame_handle_conn_error : tame.
Lemma tame_existing key d from local_addr ts ecn :
  tame (handle_existing_connection key d from local_addr ts ecn).
Proof. unfold handle_existing_connection, read_and_flush. tame_auto. Qed.
Lemma tame_handoff d from local_addr ecn : tame (handoff_to_accepted d from local_addr ecn).
Proof. unfold handoff_to_accepted. tame_auto. Qed.
#[local] Hint Resolve tame_existing tame_handoff : tame.

Lemma tame_set_param {T} `{!Scheduled T} o : tame (set_param o : M T _).
Proof. unfold set_param. tame_auto. Qed.
Lemma tame_derive_token {T} `{!Scheduled T} secret cid : tame (derive_token secret cid : M T _).
Proof. unfold derive_token. tame_auto. Qed.
Lemma tame_send_retry accepted version secret from local_addr ts :
  tame (send_retry accepted version secret from local_addr ts).
Proof. unfold send_retry. tame_auto. Qed.
#[local] Hint Resolve tame_set_param tame_derive_token tame_send_retry : tame.
Lemma tame_validate_address accepted version from local_addr ts :
  tame (validate_address accepted version from local_addr ts).
Proof. unfold validate_address, send_invalid_token_close. tame_auto. Qed.
Lemma tame_build_params odcid scid retried : tame (build_params odcid scid retried).
Proof. unfold build_params. tame_auto. by apply tame_world_gets. Qed.
Lemma tame_choose_ids accepted retried : tame (choose_ids accepted retried).
Proof. unfold choose_ids. tame_auto. Qed.
Lemma tame_register_new scid key odcid retried preferred from :
  tame (register_new scid key odcid retried preferred from).
Proof. unfold register_new. tame_auto. Qed.
#[local] Hint Resolve tame_validate_address tame_build_params tame_choose_ids tame_register_new : tame.
Lemma tame_start_connection c accepted version scid key odcid retried preferred secret d from
    local_addr ts ecn :
  tame (start_connection c accepted version scid key odcid retried preferred secret d from
    local_addr ts ecn).
Proof.
  unfold start_connection. tame_auto;
    apply (tame_with_conn _ (attempt _) (fun r c => (ok_or_empty r, c))); tame_auto.
Qed.
#[local] Hint Resolve tame_start_connection : tame.

Lemma tame_new_connection d from local_addr ts ecn :
  tame (handle_new_connection d from local_addr ts ecn).
Proof. unfold handle_new_connection, send_version_negotiation. tame_auto. Qed.
#[local] Hint Resolve tame_new_connection : tame.
Lemma tame_resolve_dcid {T} `{!Scheduled T} map lens d : tame (Routes.resolve_dcid map lens d : M T _).
Proof.
  assert (forall lens, tame (Routes.resolve_short map lens d : M T _)).
  { intros ls. induction ls; cbn [Routes.resolve_short]; unfold Routes.index; tame_auto. }
  unfold Routes.resolve_dcid, Routes.index. tame_auto.
Qed.
#[local] Hint Resolve tame_resolve_dcid : tame.
Lemma tame_srv_handle_datagram d from local_addr ts ecn : tame (handle_datagram d from local_addr ts ecn).
Proof. unfold handle_datagram, resolve_own. tame_auto. Qed.
Lemma tame_handle_timers : tame handle_timers.
Proof. unfold handle_timers, handle_timer. tame_auto. Qed.
#[local] Hint Resolve tame_srv_handle_datagram tame_handle_timers : tame.
Lemma tame_prepare : tame prepare.
Proof. unfold prepare. tame_auto. Qed.
Lemma tame_handle_input i : tame (handle_input i).
Proof. unfold handle_input. tame_auto. Qed.

(** *** The connections that were accepted *)

Import Accepted.
Notation ast := (AcceptedConnection * World)%type.

Lemma tame_on_inner {A} (m : M st A) : tame m -> tame (on_inner m).
Proof. by apply tame_zoom. Qed.
Lemma tame_ac_on_conn {A} (m : M conn A) : tame (Accepted.on_conn m).
Proof. apply tame_on_inner, tame_on_conn. Qed.
Lemma tame_ac_in_world {A} (m : M World A) : tame m -> tame (Accepted.in_world m).
Proof. by apply tame_zoom. Qed.
Lemma tame_ac {A} (f : AcceptedConnection -> A) : tame (ac f).
Proof. by apply tame_gets. Qed.
#[local] Hint Resolve tame_on_inner tame_ac_on_conn tame_ac_in_world tame_ac : tame.
Ltac tame_under ::= first [apply tame_on_inner | apply tame_ac_in_world].

Lemma tame_poll_event : tame poll_event.
Proof. apply tame_on_inner, tame_pop_event. Qed.
Lemma tame_sync_routes : tame sync_routes.
Proof. unfold sync_routes. tame_auto. Qed.
#[local] Hint Resolve tame_poll_event tame_sync_routes : tame.
Lemma tame_flush : tame flush.
Proof. unfold flush. tame_auto. Qed.
Lemma tame_handle_received d from local_addr ecn :
  tame (handle_received_datagram d from local_addr ecn).
Proof. unfold handle_received_datagram. tame_auto. Qed.
Lemma tame_report_closed e : tame (report_closed e).
Proof. unfold report_closed. tame_auto. Qed.
#[local] Hint Resolve tame_flush tame_handle_received tame_report_closed : tame.
Lemma tame_before_select : tame before_select.
Proof. unfold before_select. tame_auto. Qed.
Lemma tame_from_queue : tame from_queue.
Proof. unfold from_queue. tame_auto; by apply tame_world_gets. Qed.
Lemma tame_timer_fired : tame timer_fired.
Proof. unfold timer_fired. tame_auto. Qed.
#[local] Hint Resolve tame_before_select tame_from_queue tame_timer_fired : tame.
Lemma tame_next_turn queue_open : tame (next_turn queue_open).
Proof. unfold next_turn. tame_auto. Qed.
#[local] Hint Resolve tame_next_turn : tame.
Lemma tame_wake_up w queue_open : tame (wake_up w queue_open).
Proof. unfold wake_up. tame_auto. Qed.
Lemma tame_start_recv : tame start_recv.
Proof. unfold start_recv. tame_auto. Qed.
Lemma tame_run_method m : tame (run_method m).
Proof.
  destruct m; cbn [run_method];
    unfold write_stream, open_bidi_stream, open_uni_stream, extend_max_stream_offset,
      extend_max_streams_bidi, extend_max_streams_uni, reset_stream, reset_stream_reliable,
      stop_sending, close_stream, forget, send_datagram, initiate_key_update, close; tame_auto.
Qed.

End code.
End Replay.
