(* ===== verification/System.v ===== *)
(** * The server with all its accepted connections (src/tokio-ngtcp2/src/server.rs)

    The tasks of an application that accepts connections: the one that runs
    [Server::accept], and one for each [AcceptedConnection]. They share the routes and
    the channels behind [SharedRoutes]. A job is what a task does from one [select] to
    the next, or one call of another method; it runs up to where it takes the lock of the
    routes, and from there to where it takes it next: these steps of the tasks interleave
    in any order. The abstract specification of what they share is a post office: a table of
    routes and a mailbox for each live connection. *)
From stdpp Require Import fin_maps relations.
From S2P Require Import Prelude Types Errors Tokens Params Conn Callbacks Effects Transport.
From S2P Require Import Streams Limiter Routes Tokio World ServerConn Server ServerInv Accepted Replay.
Import Types Errors Tokens Effects Transport World ServerConn Server ServerInv.

Module System.
#[local] Existing Instances Routes.SharedRoutes_eta AcceptedConnection_eta Replay.pair_scheduled.

(** ** The specification *)

Record spec := mkSpec {
  sp_cids : gmap ConnectionId ConnectionId;
  sp_addrs : gmap SocketAddr ConnectionId;
  sp_lens : gset Z;
  sp_mail : gmap ConnectionId (list Routes.InboundDatagram) }.
#[export] Instance spec_eta : Eta spec := fun s =>
  mkSpec (sp_cids s) (sp_addrs s) (sp_lens s) (sp_mail s).

(** The owner of a datagram. *)
Definition owner (dgram : Routes.InboundDatagram) (s : spec) : option ConnectionId :=
  match Routes.resolve_dcid (sp_cids s) (sp_lens s) (Routes.in_data dgram) tt with
  | Done (Some k) _ => Some k
  | Done None _ => sp_addrs s !! Routes.in_from dgram
  | _ => None
  end.

(** A step of the server, [who = None], or of the connection with a key. *)
Inductive spec_step (who : option ConnectionId) : spec -> spec -> Prop :=
| sp_post k dgram q s :
    who <> Some k -> owner dgram s = Some k -> sp_mail s !! k = Some q ->
    slen q < Routes.MAX_QUEUED_DATAGRAMS ->
    spec_step who s (s <| sp_mail := <[k := q ++ [dgram]]> (sp_mail s) |>)
| sp_take k dgram q s :
    who = Some k -> sp_mail s !! k = Some (dgram :: q) ->
    spec_step who s (s <| sp_mail := <[k := q]> (sp_mail s) |>)
| sp_exchange k issued retired s :
    who = Some k ->
    spec_step who s
      (s <| sp_lens := Routes.insert_lens issued (sp_lens s) |>
         <| sp_cids := Routes.unroute_all k retired (Routes.insert_cids k issued (sp_cids s)) |>)
| sp_open k cids addrs s :
    who = None -> sp_mail s !! k = None ->
    spec_step who s
      (mkSpec (Routes.insert_cids k cids (sp_cids s)) (Routes.insert_addrs k addrs (sp_addrs s))
         (Routes.insert_lens cids (sp_lens s)) (<[k := []]> (sp_mail s)))
| sp_close k s :
    who = Some k ->
    spec_step who s
      (mkSpec (Routes.retain_other k (sp_cids s)) (Routes.retain_other k (sp_addrs s))
         (sp_lens s) (delete k (sp_mail s))).

(** What the shared world stands for. *)
Definition mail (w : World) : gmap ConnectionId (list Routes.InboundDatagram) :=
  omap (fun n => Routes.queue <$> channels w !! n) (Routes.r_senders (routes w)).
#[local] Arguments mail : simpl never.
Definition spec_of (w : World) : spec :=
  mkSpec (Routes.r_cid_map (routes w)) (Routes.r_addr_map (routes w))
    (Routes.r_short_cid_lengths (routes w)) (mail w).

(** ** The system *)

Section system.
Context {str : Strerror} {api : TokenApi} {env : Env} {tr : Transport} {bud : TransportBudget}.
Context {ep : Endpoint} {ord : HashOrder}.

(** What a task does from one [select] to the next, or one call of another method. *)
Inductive server_job := AcceptCall | Woken (i : input).
Definition run_server (j : server_job) : M (Server.Server * World) (AcceptedConnection + Z) :=
  match j with
  | AcceptCall => prepare
  | Woken i => handle_input i ;; prepare
  end.

(** A call of [recv_event] makes progress, any other call returns. *)
Inductive handle_job :=
| RecvCall
| WokenUp (w : Accepted.wake) (queue_open : bool)
| MethodCall (m : Accepted.method).
Definition run_handle (j : handle_job) : M (AcceptedConnection * World) (option Accepted.progress) :=
  match j with
  | RecvCall => p ← Accepted.start_recv; mret (Some p)
  | WokenUp i queue_open => p ← Accepted.wake_up i queue_open; mret (Some p)
  | MethodCall m => Accepted.run_method m ;; mret None
  end.

(** A task is idle, waits in a [select], or runs a job and waits for the lock. A job that
    runs is what the task had when it began, and what it found each time it took the lock
    since: the code is deterministic, so that this says how far it is. *)
Inductive phase (J W : Type) :=
| Idle
| Waiting (x : W)
| Running (j : J) (found : list Shared).
#[global] Arguments Idle {J W}.
#[global] Arguments Waiting {J W} x.
#[global] Arguments Running {J W} j found.

Record task (S J W : Type) := mkTask { t_self : S; t_world : World; t_phase : phase J W }.
#[global] Arguments mkTask {S J W} t_self t_world t_phase.
#[global] Arguments t_self {S J W} t.
#[global] Arguments t_world {S J W} t.
#[global] Arguments t_phase {S J W} t.

(** The server until it is dropped, the live handles by the number of their channel, and
    what they share. *)
Record system := mkSystem {
  sy_server : option (task Server.Server server_job unit);
  sy_handles : gmap nat (task AcceptedConnection handle_job bool);
  sy_shared : Shared }.
Definition sy_world (s : system) : World := lone (sy_shared s).

(** A task runs until it waits for the lock, which leaves the shared part, or to its end.
    [None]: it would not take the lock again where it waited for it. *)
Definition go {S A} (m : M (S * World) A) (found : list Shared) (self : S) (w : World)
    : outcome (option (Shared + result Error A * S * World)) :=
  let stop r self w :=
    match sched w with
    | Among [] (Some h) => Some (inl h)
    | Among [] None => Some (inr (r, self, w))
    | _ => None
    end in
  match m (self, w <| sched := Among found None |>) with
  | Done a (self, w) => Ret (stop (Ok a) self w)
  | Fail e (self, w) => Ret (stop (Err e) self w)
  | Panics | Diverges => Panic
  end.

(** Where [accept] goes. *)
Definition server_goes (s : system) (sv : Server.Server) (w : World) (j : server_job)
    (found : list Shared) : outcome (option system) :=
  match go (run_server j) found sv w with
  | Panic => Panic
  | Ret None => Ret None
  | Ret (Some (inl h)) =>
      Ret (Some (mkSystem (Some (mkTask sv w (Running j found))) (sy_handles s) h))
  | Ret (Some (inr (r, sv, w))) =>
      let back p hs := Ret (Some (mkSystem (Some (mkTask sv w p)) hs (shared w))) in
      match r with
      | Ok (inl a) => back Idle (<[ac_inbound_rx a := mkTask a w Idle]> (sy_handles s))
      | Ok (inr _) => back (Waiting tt) (sy_handles s)
      | Err _ => back Idle (sy_handles s)
      end
  end.

Definition handle_goes (s : system) (n : nat) (a : AcceptedConnection) (w : World)
    (j : handle_job) (found : list Shared) : outcome (option system) :=
  let put t h := Ret (Some (mkSystem (sy_server s) (<[n := t]> (sy_handles s)) h)) in
  match go (run_handle j) found a w with
  | Panic => Panic
  | Ret None => Ret None
  | Ret (Some (inl h)) => put (mkTask a w (Running j found)) h
  | Ret (Some (inr (Ok (Some (Accepted.Waiting queue_open)), a, w))) =>
      put (mkTask a w (Waiting queue_open)) (shared w)
  | Ret (Some (inr (_, a, w))) => put (mkTask a w Idle) (shared w)
  end.

(** A step of a task goes up to its next wait for the lock, or to the end of its job.
    When a job begins the task reads the clock and the random generator from any number
    on. *)
Inductive label :=
| Accept (t d : nat)
| ServerWake (i : input) (t d : nat)
| ServerLock
| CancelAccept
| DropServer
| Recv (n t d : nat)
| Wake (n : nat) (w : Accepted.wake) (t d : nat)
| Call (n : nat) (m : Accepted.method) (t d : nat)
| HandleLock (n : nat)
| CancelRecv (n : nat)
| DropHandle (n : nat).

Definition begin (s : system) (t d : nat) (w : World) : World :=
  w <| ticks := t |> <| draws := d |> <| shared := sy_shared s |>.

(** [None]: the step is not enabled. *)
Definition exec (l : label) (s : system) : outcome (option system) :=
  let put_server o := Ret (Some (mkSystem o (sy_handles s) (sy_shared s))) in
  match l with
  | Accept t d =>
      match sy_server s with
      | Some (mkTask sv w Idle) => server_goes s sv (begin s t d w) AcceptCall []
      | _ => Ret None
      end
  | ServerWake i t d =>
      match sy_server s with
      | Some (mkTask sv w (Waiting _)) => server_goes s sv (begin s t d w) (Woken i) []
      | _ => Ret None
      end
  | ServerLock =>
      match sy_server s with
      | Some (mkTask sv w (Running j found)) => server_goes s sv w j (found ++ [sy_shared s])
      | _ => Ret None
      end
  | CancelAccept =>
      match sy_server s with
      | Some (mkTask sv w (Waiting _)) => put_server (Some (mkTask sv w Idle))
      | _ => Ret None
      end
  | DropServer =>
      match sy_server s with
      | Some (mkTask sv w Idle) => put_server None
      | _ => Ret None
      end
  | Recv n t d =>
      match sy_handles s !! n with
      | Some (mkTask a w Idle) => handle_goes s n a (begin s t d w) RecvCall []
      | _ => Ret None
      end
  | Wake n i t d =>
      match sy_handles s !! n with
      | Some (mkTask a w (Waiting queue_open)) =>
          handle_goes s n a (begin s t d w) (WokenUp i queue_open) []
      | _ => Ret None
      end
  | Call n m t d =>
      match sy_handles s !! n with
      | Some (mkTask a w Idle) => handle_goes s n a (begin s t d w) (MethodCall m) []
      | _ => Ret None
      end
  | HandleLock n =>
      match sy_handles s !! n with
      | Some (mkTask a w (Running j found)) => handle_goes s n a w j (found ++ [sy_shared s])
      | _ => Ret None
      end
  | CancelRecv n =>
      match sy_handles s !! n with
      | Some (mkTask a w (Waiting _)) =>
          Ret (Some (mkSystem (sy_server s) (<[n := mkTask a w Idle]> (sy_handles s)) (sy_shared s)))
      | _ => Ret None
      end
  | DropHandle n =>
      match sy_handles s !! n with
      | Some (mkTask a w Idle) =>
          Ret (Some (mkSystem (sy_server s) (delete n (sy_handles s))
            (shared (Accepted.drop a (sy_world s)))))
      | _ => Ret None
      end
  end.

(** Received datagrams are bytes. *)
Definition label_ok (l : label) : Prop :=
  match l with
  | ServerWake i _ _ => input_ok i
  | Wake _ i _ _ => Accepted.wake_ok i
  | _ => True
  end.

Definition live (s : system) : gmap nat ConnectionId :=
  (fun t => ac_connection_id (t_self t)) <$> sy_handles s.

#[local] Arguments live : simpl never.

(** A connection that is handed over has a key that no live connection has. *)
Definition fresh_key (s s' : system) : Prop :=
  forall n k, live s' !! n = Some k -> live s !! n = None -> forall n', live s !! n' <> Some k.

(** The task of a step. *)
Definition actor (l : label) (s : system) : option ConnectionId :=
  match l with
  | Recv n _ _ | Wake n _ _ _ | Call n _ _ _ | HandleLock n | CancelRecv n | DropHandle n =>
      live s !! n
  | _ => None
  end.

Inductive step (s s' : system) : Prop :=
| step_exec l : label_ok l -> exec l s = Ret (Some s') -> fresh_key s s' -> step s s'.

Definition initial (sv : Server.Server) (w : World) : system :=
  mkSystem (Some (mkTask sv w Idle)) ∅ (shared w).

(** ** The shared world as a post office *)

Lemma lookup_mail w k :
  mail w !! k = Routes.r_senders (routes w) !! k ≫= fun n => Routes.queue <$> channels w !! n.
Proof. apply lookup_omap. Qed.

Lemma mail_sender w k n ch :
  Routes.r_senders (routes w) !! k = Some n -> channels w !! n = Some ch ->
  mail w !! k = Some (Routes.queue ch).
Proof. intros Hk Hn. rewrite lookup_mail, Hk. cbn. by rewrite Hn. Qed.

(** A new queue for a live connection. *)
Lemma mail_update lv w n k q :
  shared_ok lv w -> lv !! n = Some k ->
  mail (w <| channels := <[n := Routes.mkChannel q true]> (channels w) |>) = <[k := q]> (mail w).
Proof.
  intros Hw Hn. destruct (so_live _ _ Hw _ _ Hn) as [Hk _]. apply map_eq. intros k'.
  rewrite lookup_mail. cbn. fold_shared. rewrite lookup_insert. case_decide as Hkk.
  - subst. rewrite Hk. cbn. by rewrite lookup_insert_eq.
  - rewrite lookup_mail. destruct (Routes.r_senders (routes w) !! k') as [n'|] eqn:Hk'; [|done].
    cbn. rewrite lookup_insert_ne; [done|]. intros <-. apply (so_sender _ _ Hw) in Hk'. congruence.
Qed.

Lemma resolve_dcid_state {S T} m lens d (s : S) (t : T) o s' :
  Routes.resolve_dcid m lens d s = Done o s' -> Routes.resolve_dcid m lens d t = Done o t.
Proof.
  assert (forall ls, Routes.resolve_short m ls d s = Done o s' ->
    Routes.resolve_short m ls d t = Done o t) as Hshort.
  { induction ls as [|len ls IH]; cbn; [by intros [= <- _]|].
    destruct (_ <? _); [done|]. unfold mbind, M_bind, Routes.index, expect.
    destruct (slice _ _ _) as [b|]; [|done]. cbn.
    destruct (Types.new b) as [c|]; [|done]. destruct (m !! c); [|done]. by intros [= <- _]. }
  unfold Routes.resolve_dcid. destruct d as [|first l]; [by intros [= <- _]|].
  destruct (negb _); [|apply Hshort]. destruct (_ <? 6); [by intros [= <- _]|].
  unfold mbind, M_bind, expect, Routes.index, expect. destruct (get _ 5) as [n|]; [|done].
  cbn. destruct (_ <? _); [by intros [= <- _]|]. destruct (slice _ _ _) as [b|]; [|done]. cbn.
  destruct (Types.new b); [|by intros [= <- _]]. by intros [= <- _].
Qed.

Lemma owner_resolve dgram w k :
  Routes.resolve (Routes.in_data dgram) (Routes.in_from dgram) (routes w) = Done (Some k) (routes w) ->
  owner dgram (spec_of w) = Some k.
Proof.
  unfold Routes.resolve, owner, mbind, M_bind. cbn.
  destruct (Routes.resolve_dcid _ _ _ (routes w)) as [o r| | |] eqn:Hr; [|done..].
  apply (resolve_dcid_state _ _ _ _ tt) in Hr. rewrite Hr. by destruct o; intros [= ->].
Qed.

(** The specification is about the shared part. *)
Lemma spec_of_eq w w' : shared w' = shared w -> spec_of w' = spec_of w.
Proof. unfold spec_of, mail, routes, channels. by intros ->. Qed.

Section refines.
Context (who : option ConnectionId).

(** Coherent, and reached from [w0] by steps of [who]. *)
Definition posted (lv : gmap nat ConnectionId) (w0 w : World) : Prop :=
  shared_ok lv w /\ rtc (spec_step who) (spec_of w0) (spec_of w).

Lemma posted_refl lv w : shared_ok lv w -> posted lv w w.
Proof. by split. Qed.

Lemma posted_eq lv w0 w0' w w' :
  shared w0' = shared w0 -> shared w' = shared w -> posted lv w0 w -> posted lv w0' w'.
Proof.
  intros H0 Hw [Hok Hr]. split; [by eapply shared_ok_eq|]. by rewrite (spec_of_eq _ _ H0), (spec_of_eq _ _ Hw).
Qed.

Lemma posted_step lv w0 w w' :
  posted lv w0 w -> shared_ok lv w' -> spec_step who (spec_of w) (spec_of w') -> posted lv w0 w'.
Proof. intros [_ Hr] Hw' Hs. split; [done|]. eapply rtc_r; [exact Hr|exact Hs]. Qed.

Lemma posted_deliver lv w0 k dgram w :
  posted lv w0 w -> are_bytes (Routes.in_data dgram) -> who <> Some k ->
  Routes.resolve (Routes.in_data dgram) (Routes.in_from dgram) (routes w)
    = Done (Some k) (routes w) ->
  wp (deliver k dgram) w (fun r w' => r = Ok true /\ routes w' = routes w /\
    sched w' = sched w /\ posted lv w0 w').
Proof.
  intros Hp Hb Hme Hr. destruct (proj1 Hp) as [_ _ Hc Ha _ _ _].
  destruct (resolve_ok lv _ (Routes.in_from dgram) w (proj1 Hp) Hb) as (o & Ho & Hs).
  rewrite Ho in Hr. injection Hr as ->. destruct (Hs k eq_refl) as [n Hn].
  pose proof (so_sender _ _ (proj1 Hp) _ _ Hn) as Hl.
  destruct (so_live _ _ (proj1 Hp) _ _ Hl) as [_ [q Hq]].
  pose proof (deliver_ok lv k dgram w (proj1 Hp) (Hs k eq_refl)) as Hd.
  unfold wp, deliver, Routes.deliver, Routes.try_send in *. rewrite Hn, Hq in *. cbn in *.
  destruct (Z.leb_spec Routes.MAX_QUEUED_DATAGRAMS (slen q)); cbn in *;
    destruct Hd as (_ & Hrt & Hsc & Hok).
  + by rewrite put_channels.
  + split; [done|]. split; [done|]. split; [done|]. eapply posted_step; [exact Hp|exact Hok|].
    unfold spec_of at 2. rewrite (mail_update lv w n k _ (proj1 Hp) Hl). cbn.
    apply (sp_post _ k dgram q (spec_of w)); [done| |exact (mail_sender w k n _ Hn Hq)|done].
    by apply owner_resolve.
Qed.

Lemma posted_sync lv w0 n k issued retired t w :
  who = Some k -> lv !! n = Some k -> posted lv w0 w -> Routes.taken_wf t ->
  posted lv w0 (w <| routes := (routes w)
    <| Routes.r_short_cid_lengths :=
         Routes.insert_lens issued (Routes.r_short_cid_lengths (routes w)) |>
    <| Routes.r_cid_map := Routes.unroute_all k retired
         (Routes.insert_cids k issued (Routes.r_cid_map (routes w))) |>
    <| Routes.r_taken := t |> |>).
Proof.
  intros Hme Hn Hp Ht. eapply posted_step; [exact Hp|by eapply sync_ok; [apply Hp| |]|].
  exact (sp_exchange who k issued retired (spec_of w) Hme).
Qed.

Lemma posted_recv lv w0 n k w :
  who = Some k -> lv !! n = Some k -> posted lv w0 w ->
  wp (recv n) w (fun _ w' => routes w' = routes w /\ sched w' = sched w /\ posted lv w0 w').
Proof.
  intros Hme Hn Hp. pose proof (recv_ok lv n w (proj1 Hp)) as Hr. unfold wp, recv in *.
  destruct (so_live _ _ (proj1 Hp) _ _ Hn) as [Hk [q Hq]]. rewrite Hq in *. cbn in *.
  destruct q as [|dgram q]; [done|]. destruct Hr as (_ & _ & _ & Hok).
  split; [done|]. split; [done|]. eapply posted_step; [exact Hp|exact Hok|].
  unfold spec_of at 2. rewrite (mail_update lv w n k _ (proj1 Hp) Hn). cbn.
  apply (sp_take _ k dgram q (spec_of w)); [done|]. exact (mail_sender w k n _ Hk Hq).
Qed.

(** A handover opens a mailbox. *)
Lemma posted_taken lv w0 w a w' :
  who = None -> posted lv w0 w -> taken_from w a w' ->
  (forall n, lv !! n <> Some (ac_connection_id a)) ->
  shared_ok (<[ac_inbound_rx a := ac_connection_id a]> lv) w' /\
  rtc (spec_step who) (spec_of w0) (spec_of w').
Proof.
  intros Hme [Hw Hr] (Hrx & cids & addrs & ->) Hfresh. rewrite Hrx. split; [by apply register_ok|].
  set (k := ac_connection_id a) in *. eapply rtc_r; [exact Hr|].
  assert (Routes.r_senders (routes w) !! k = None) as Hnone.
  { destruct (_ !! k) as [n|] eqn:Hk; [|done]. apply (so_sender _ _ Hw) in Hk. by destruct (Hfresh n). }
  set (w' := w <| channels := _ |> <| next_channel := _ |> <| routes := _ |>).
  assert (mail w' = <[k := []]> (mail w)) as Hm.
  { apply map_eq. intros k'. rewrite lookup_mail. cbn. rewrite !lookup_insert.
    case_decide as Hk'; cbn; [by rewrite lookup_insert_eq|].
    rewrite lookup_mail. destruct (Routes.r_senders (routes w) !! k') as [n|] eqn:Hn; [|done].
    cbn. rewrite lookup_insert_ne; [done|]. intros <-.
    apply (so_sender _ _ Hw), (so_live _ _ Hw) in Hn as [_ [q Hq]].
    apply (so_channel _ _ Hw) in Hq as [Hlt _]. lia. }
  unfold spec_of at 2. rewrite Hm. apply (sp_open who k cids addrs (spec_of w)); [done|]. cbn.
  rewrite lookup_mail. by rewrite Hnone.
Qed.

(** *** Under the lock

    What a job has found: at its beginning and each time it took the lock, the shared
    part and the live connections, of which the task may be one. *)
Context (mine : gmap nat ConnectionId -> Prop) (L : list (gmap nat ConnectionId * Shared)).

Definition found_ok : Prop := Forall (fun x => mine x.1 /\ shared_ok x.1 (lone x.2)) L.

(** Where the job is: in the section that began with [w0] while [lv] were live, with the
    rest of [L] still to come; or, once it waits for the lock, anywhere, while what it left
    was reached in the last section. *)
Definition section_at (sc : Schedule) (lv : gmap nat ConnectionId) (w0 : World) : Prop :=
  match sc with
  | Among rest None => exists pre h post,
      L = pre ++ (lv, h) :: post /\ rest = map snd post /\ w0 = lone h
  | Among rest (Some out) => rest = [] /\ mine lv /\ exists pre lv' h,
      L = pre ++ [(lv', h)] /\ posted lv' (lone h) (lone out)
  | Alone => False
  end.

Definition in_section (w : World) : Prop :=
  exists lv w0, section_at (sched w) lv w0 /\ posted lv w0 w.

Lemma section_mine sc lv w0 : found_ok -> section_at sc lv w0 -> mine lv.
Proof.
  intros HL. destruct sc as [|l [out|]]; cbn; [done|by intros (_ & ? & _)|].
  intros (pre & h' & post & HL' & _). unfold found_ok in HL. rewrite HL' in HL.
  apply Forall_app in HL as [_ HL]. by inversion HL as [|? ? [? _]].
Qed.

Lemma in_section_lock w : found_ok -> in_section w -> in_section (take_lock w).
Proof.
  intros HL (lv & w0 & Hat & Hp). unfold take_lock, in_section.
  destruct (sched w) as [|[|h' rest] [out|]] eqn:Hs; cbn in Hat; [done| | |by destruct Hat|].
  - exists lv, w0. by rewrite Hs.
  - pose proof (section_mine (Among [] None) lv w0 HL Hat) as Hm.
    destruct Hat as (pre & h & post & HL' & Hnil & ->). symmetry in Hnil.
    apply map_eq_nil in Hnil as ->. exists lv, (lone h). split; [|by eapply posted_eq; [| |exact Hp]].
    cbn. split; [done|]. split; [done|]. exists pre, lv, h. split; [done|]. by eapply posted_eq; [| |exact Hp].
  - destruct Hat as (pre & h & [|[lv2 h2] post] & HL' & [= -> ->] & ->).
    exists lv2, (lone h2). cbn. split.
    + exists (pre ++ [(lv, h)]), h2, post. split; [by rewrite <- app_assoc|done].
    + unfold found_ok in HL. rewrite HL' in HL. apply Forall_app in HL as [_ HL].
      inversion HL as [|? ? _ HL2]; subst. inversion HL2 as [|? ? [_ Hok] _]; subst.
      eapply posted_eq; [reflexivity| |by apply posted_refl]. done.
Qed.

Lemma in_section_stable : found_ok -> stable who in_section.
Proof.
  intros HL. constructor.
  - intros w w' [Hs Hsc] (lv & w0 & Hat & Hp). exists lv, w0. rewrite Hsc. split; [done|].
    by eapply posted_eq; [| |exact Hp].
  - by intros; apply in_section_lock.
  - intros w (lv & w0 & _ & [Hok _]). by eapply shared_ok_routes_ok.
  - intros k dgram w (lv & w0 & Hat & Hp) Hb Hme Hr.
    eapply wp_mono; [by eapply posted_deliver|]. intros r w' (-> & Hrt & Hsc & Hp').
    exists true. split; [done|]. split; [done|]. split; [done|]. split; [|done].
    exists lv, w0. by rewrite Hsc.
Qed.

Lemma in_section_owner n k :
  who = Some k -> (forall lv, mine lv -> lv !! n = Some k) -> found_ok ->
  Accepted.owner_stable k n in_section.
Proof.
  intros Hme Hmine HL. constructor.
  - rewrite <- Hme. by apply in_section_stable.
  - intros issued retired t w (lv & w0 & Hat & Hp) Ht. exists lv, w0. split; [done|].
    eapply posted_sync; [done| |done..]. by eapply Hmine, section_mine.
  - intros w (lv & w0 & Hat & Hp). eapply wp_mono.
    { eapply (posted_recv lv w0 n k); [done| |done]. by eapply Hmine, section_mine. }
    intros _ w' (Hr & Hsc & Hp'). split; [done|]. split; [done|]. exists lv, w0. by rewrite Hsc.
Qed.
End refines.

(** Dropping a handle closes its mailbox. *)
Lemma drop_spec lv a w :
  shared_ok lv w -> lv !! ac_inbound_rx a = Some (ac_connection_id a) ->
  spec_step (Some (ac_connection_id a)) (spec_of w) (spec_of (Accepted.drop a w)).
Proof.
  intros Hw Hn. destruct (so_live _ _ Hw _ _ Hn) as [Hk [q Hq]].
  set (k := ac_connection_id a) in *. set (n := ac_inbound_rx a) in *.
  assert (spec_of (Accepted.drop a w) = mkSpec (Routes.retain_other k (sp_cids (spec_of w)))
    (Routes.retain_other k (sp_addrs (spec_of w))) (sp_lens (spec_of w))
    (delete k (sp_mail (spec_of w)))) as ->; [|by apply sp_close].
  unfold Accepted.drop. fold n k. rewrite (close_channel_Some n (Routes.mkChannel q true)) by exact Hq.
  unfold spec_of. cbn. f_equal. apply map_eq. intros k'. rewrite lookup_mail. cbn.
  rewrite !lookup_delete. case_decide as Hkk; [done|]. rewrite lookup_mail. fold_shared.
  destruct (Routes.r_senders (routes w) !! k') as [n'|] eqn:Hk'; [|done]. cbn.
  rewrite lookup_insert_ne; [done|]. intros <-. apply (so_sender _ _ Hw) in Hk'. congruence.
Qed.

(** ** Steps keep the system coherent and follow the specification *)

(** What a job has found, and that it may be so. *)
Definition found_well (mine : gmap nat ConnectionId -> Prop) (w : World) (found : list Shared) : Prop :=
  exists lv L, found = map snd L /\ found_ok mine ((lv, shared w) :: L).

Definition server_job_ok (j : server_job) : Prop :=
  match j with Woken i => input_ok i | AcceptCall => True end.
Definition handle_job_ok (j : handle_job) : Prop :=
  match j with WokenUp i _ => Accepted.wake_ok i | _ => True end.

Definition anyone (lv : gmap nat ConnectionId) : Prop := True.
Definition owner_of (n : nat) (a : AcceptedConnection) (lv : gmap nat ConnectionId) : Prop :=
  lv !! n = Some (ac_connection_id a).

Record server_ok (t : task Server.Server server_job unit) : Prop := {
  sk_inv : inv (fun _ => True) ∅ MAX_CONNECTIONS (t_self t, t_world t);
  sk_job j found : t_phase t = Running j found ->
    server_job_ok j /\ found_well anyone (t_world t) found }.

Record handle_ok (n : nat) (t : task AcceptedConnection handle_job bool) : Prop := {
  hk_rx : ac_inbound_rx (t_self t) = n;
  hk_job j found : t_phase t = Running j found ->
    handle_job_ok j /\ found_well (owner_of n (t_self t)) (t_world t) found }.

Record sys_inv (s : system) : Prop := {
  si_server t : sy_server s = Some t -> server_ok t;
  si_handle n t : sy_handles s !! n = Some t -> handle_ok n t;
  si_shared : shared_ok (live s) (sy_world s) }.

Lemma inv_swap (W W' : World -> Prop) sv w w' :
  inv W ∅ MAX_CONNECTIONS (sv, w) -> W' w' -> inv W' ∅ MAX_CONNECTIONS (sv, w').
Proof. intros [] ?. by constructor. Qed.

Lemma live_insert n t (s s' : system) :
  sy_handles s' = <[n := t]> (sy_handles s) ->
  live s' = <[n := ac_connection_id (t_self t)]> (live s).
Proof. intros H. unfold live. by rewrite H, fmap_insert. Qed.

Lemma live_handle n t s :
  sy_handles s !! n = Some t -> live s !! n = Some (ac_connection_id (t_self t)).
Proof. intros H. unfold live. by rewrite lookup_fmap, H. Qed.

Lemma live_same n t (s s' : system) :
  sy_handles s' = <[n := t]> (sy_handles s) ->
  live s !! n = Some (ac_connection_id (t_self t)) -> live s' = live s.
Proof. intros H Hn. rewrite (live_insert _ _ _ _ H). by apply insert_id. Qed.

(** *** Jobs *)

(** A job that begins now, and one that takes the lock now. *)
Lemma found_begin mine s t d w :
  sys_inv s -> mine (live s) ->
  found_ok mine [(live s, shared (begin s t d w))].
Proof.
  intros Hs Hm. constructor; [|constructor]. split; [done|].
  by apply (shared_ok_eq _ (sy_world s)); [|apply Hs].
Qed.

Lemma found_lock mine s w found :
  sys_inv s -> mine (live s) -> found_well mine w found ->
  exists lv L, found ++ [sy_shared s] = map snd (L ++ [(live s, sy_shared s)]) /\
    found_ok mine ((lv, shared w) :: L ++ [(live s, sy_shared s)]).
Proof.
  intros Hs Hm (lv & L & -> & HL). exists lv, L. rewrite map_app. split; [done|].
  change ((lv, shared w) :: L ++ ?x) with (((lv, shared w) :: L) ++ x). apply Forall_app.
  split; [exact HL|]. constructor; [|constructor]. split; [done|apply Hs].
Qed.

Section job.
Context (who : option ConnectionId) (mine : gmap nat ConnectionId -> Prop).
Context (pre : list (gmap nat ConnectionId * Shared)) (lv : gmap nat ConnectionId) (h : Shared).
Notation L := (pre ++ [(lv, h)]).

(** Where a job stops it was in its last section. *)
Lemma in_section_out w out :
  in_section who mine L w -> sched w = Among [] (Some out) -> posted who lv (lone h) (lone out).
Proof.
  intros (lv' & w0 & Hat & _) Hs. rewrite Hs in Hat. destruct Hat as (_ & _ & pre' & lv2 & h' & HL & Hp).
  apply app_inj_tail in HL as [_ [= -> ->]]. done.
Qed.

Lemma in_section_end w :
  in_section who mine L w -> sched w = Among [] None -> posted who lv (lone h) w.
Proof.
  intros (lv' & w0 & Hat & Hp) Hs. rewrite Hs in Hat. destruct Hat as (pre' & h' & post & HL & Hpost & ->).
  symmetry in Hpost. apply map_eq_nil in Hpost as ->.
  by apply app_inj_tail in HL as [_ [= -> ->]].
Qed.

Lemma go_spec {S A} (m : M (S * World) A) found self w x L1 (P : result Error A -> S * World -> Prop) :
  L = (x, shared w) :: L1 -> found = map snd L1 -> found_ok mine L ->
  (in_section who mine L (w <| sched := Among found None |>) ->
   wp m (self, w <| sched := Among found None |>) P) ->
  match go m found self w with
  | Panic => False
  | Ret None => True
  | Ret (Some (inl out)) => exists r s', P r s' /\ sched s'.2 = Among [] (Some out)
  | Ret (Some (inr (r, s', w'))) => P r (s', w') /\ sched w' = Among [] None
  end.
Proof.
  intros HL Hf Hok Hm. unfold go.
  assert (in_section who mine L (w <| sched := Among found None |>)) as Hin.
  { exists x, (lone (shared w)). split.
    - cbn. exists [], (shared w), L1. done.
    - unfold found_ok in Hok. rewrite HL in Hok. inversion Hok as [|? ? [_ Hw] _]; subst.
      by eapply posted_eq; [| |apply posted_refl]. }
  specialize (Hm Hin). unfold wp in Hm.
  destruct (m _) as [a [self' w']|e [self' w']| |]; [| |done..];
    destruct (sched w') as [|[|] [out|]] eqn:Hs; eauto.
Qed.
End job.

(** *** The tasks *)

(** The outcome of a step is fine: it does not panic, and what it reaches is coherent and
    a sequence of steps of the specification away. *)
Definition fine (who : option ConnectionId) (s : system) (o : outcome (option system)) : Prop :=
  match o with
  | Ret (Some s') => fresh_key s s' ->
      sys_inv s' /\ rtc (spec_step who) (spec_of (sy_world s)) (spec_of (sy_world s'))
  | Ret None => True
  | Panic => False
  end.

Context {api_doc : TokenApiDoc api} {env_doc : EnvDoc} {doc : TransportDoc}.
Context {write_doc : TokenWriteDoc} {ep_doc : EndpointDoc} {ord_doc : HashOrderDoc}.

Lemma run_server_wp W (HW : stable None W) j s0 :
  server_job_ok j -> inv W ∅ MAX_CONNECTIONS s0 ->
  wp (run_server j) s0 (fun r s' =>
     match r with
     | Ok (inl a) => (exists w, W w /\ taken_from (take_lock w) a s'.2) /\
         forall W' : World -> Prop, W' s'.2 -> inv W' ∅ MAX_CONNECTIONS s'
     | _ => inv W ∅ MAX_CONNECTIONS s'
     end).
Proof.
  intros Hj H0. destruct j as [|i]; cbn [run_server].
  - eapply wp_mono; [by apply prepare_wp|]. intros r s' (o & -> & Ho). by destruct o.
  - apply wp_bind. eapply wp_mono; [by apply handle_input_wp|]. intros [[]|e] s1 [H1 _]; [|done].
    eapply wp_mono; [by apply prepare_wp|]. intros r s' (o & -> & Ho). by destruct o.
Qed.

Lemma run_handle_safe W k n (HW : Accepted.owner_stable k n W) j :
  handle_job_ok j -> Accepted.safe W k n (run_handle j).
Proof.
  intros Hj. destruct j as [|i q|m]; cbn [run_handle]; (apply Accepted.acc_safe_bind;
    [|intros; apply Accepted.acc_safe_ret]).
  - by apply Accepted.acc_safe_start.
  - by apply Accepted.acc_safe_wake_up.
  - by apply Accepted.acc_safe_method.
Qed.

(** A system whose shared part is that of a world. *)
Lemma fine_world (who : option ConnectionId) s s' w' lv :
  sy_shared s' = shared w' -> live s' = lv ->
  (forall t, sy_server s' = Some t -> server_ok t) ->
  (forall n t, sy_handles s' !! n = Some t -> handle_ok n t) ->
  shared_ok lv w' -> rtc (spec_step who) (spec_of (sy_world s)) (spec_of w') ->
  sys_inv s' /\ rtc (spec_step who) (spec_of (sy_world s)) (spec_of (sy_world s')).
Proof.
  intros Hsh <- Hsv Hh Hok Hr. split.
  - constructor; [done..|]. by eapply shared_ok_eq; [|exact Hok].
  - by rewrite (spec_of_eq w' (sy_world s')) by exact Hsh.
Qed.

Lemma server_goes_fine s sv w j x L1 pre :
  sys_inv s -> server_job_ok j -> inv (fun _ => True) ∅ MAX_CONNECTIONS (sv, w) ->
  (x, shared w) :: L1 = pre ++ [(live s, sy_shared s)] ->
  found_ok anyone ((x, shared w) :: L1) ->
  fine None s (server_goes s sv w j (map snd L1)).
Proof.
  intros [Hsv Hh Hsh] Hj Hi HL Hok. rewrite HL in Hok.
  set (W := in_section None anyone (pre ++ [(live s, sy_shared s)])).
  assert (stable None W) as HW by by apply in_section_stable.
  pose proof (go_spec None anyone pre (live s) (sy_shared s) (run_server j) (map snd L1) sv w x L1 _
    (eq_sym HL) eq_refl Hok
    (fun H => run_server_wp W HW j (sv, _) Hj (inv_swap _ _ _ _ _ Hi H))) as Hgo.
  unfold server_goes. destruct (go _ _ _ _) as [[[out|[[r sv'] w']]|]|]; [| |done..].
  { destruct Hgo as (r & [sv' w'] & HP & Hs). cbn in Hs. intros _.
    assert (posted None (live s) (sy_world s) (lone out)) as [Hw Hr].
    { destruct r as [[a|t]|e]; [|by eapply in_section_out; [apply HP|exact Hs]..].
      destruct HP as [(w1 & Hw1 & Ht) _]. apply taken_from_sched in Ht. cbn in Ht. rewrite Ht in Hs.
      eapply in_section_out; [|exact Hs]. by apply in_section_lock. }
    eapply (fine_world None s _ (lone out)); cbn; [done|reflexivity| |done|exact Hw|exact Hr].
    intros ? [= <-]. constructor; [exact Hi|]. intros j' found' [= <- <-]. split; [done|].
    exists x, L1. split; [done|]. cbn. by rewrite HL. }
  destruct Hgo as [HP Hs].
  assert (W w' -> inv W ∅ MAX_CONNECTIONS (sv', w') -> forall p,
    (forall j found, p <> Running j found) ->
    fine None s (Ret (Some (mkSystem (Some (mkTask sv' w' p)) (sy_handles s) (shared w'))))) as Hsame.
  { intros Hw' Hinv p Hp _. destruct (in_section_end _ _ _ _ _ _ Hw' Hs) as [Hw Hr].
    eapply (fine_world None s _ w'); cbn; [done|reflexivity| |done|exact Hw|exact Hr].
    intros ? [= <-]. constructor; [by eapply inv_swap|]. intros j' found' Hpj. by destruct (Hp j' found'). }
  destruct r as [[a|t]|e]; [|by apply Hsame; [apply HP|exact HP|]..].
  destruct HP as [(w1 & Hw1 & Ht) Hall]. intros Hfresh.
  assert (posted None (live s) (sy_world s) (take_lock w1)) as Hp.
  { eapply in_section_end; [by apply in_section_lock|]. by rewrite <- (taken_from_sched _ _ _ Ht). }
  set (s' := mkSystem _ _ _) in *.
  assert (ac_inbound_rx a = next_channel (take_lock w1)) as Hn by apply Ht.
  assert (live s !! next_channel (take_lock w1) = None) as Hnone.
  { destruct (live s !! next_channel (take_lock w1)) as [k|] eqn:Hk; [|done]. destruct Hp as [Hw _].
    apply (so_live _ _ Hw) in Hk as [_ [q Hq]]. apply (so_channel _ _ Hw) in Hq as [? _]. lia. }
  assert (live s' = <[ac_inbound_rx a := ac_connection_id a]> (live s)) as Hlive
    by by eapply (live_insert _ (mkTask a w' Idle)).
  destruct (posted_taken None (live s) (sy_world s) _ a w' eq_refl Hp Ht) as [Hok' Hr].
  { apply (Hfresh (ac_inbound_rx a)); [|by rewrite Hn]. by rewrite Hlive, lookup_insert_eq. }
  apply (fine_world None s s' w' _ eq_refl Hlive); cbn; [| |exact Hok'|exact Hr].
  - intros ? [= <-]. by constructor; [apply Hall|].
  - intros n t. rewrite lookup_insert. case_decide; [|apply Hh]. intros [= <-]. by constructor.
Qed.

Lemma handle_goes_fine s n a w j x L1 pre :
  sys_inv s -> handle_job_ok j -> ac_inbound_rx a = n -> live s !! n = Some (ac_connection_id a) ->
  (x, shared w) :: L1 = pre ++ [(live s, sy_shared s)] ->
  found_ok (owner_of n a) ((x, shared w) :: L1) ->
  fine (live s !! n) s (handle_goes s n a w j (map snd L1)).
Proof.
  intros [Hsv Hh Hsh] Hj Hrx Hl HL Hok. rewrite HL in Hok. rewrite Hl.
  set (k := ac_connection_id a) in *.
  set (W := in_section (Some k) (owner_of n a) (pre ++ [(live s, sy_shared s)])).
  assert (Accepted.owner_stable k n W) as HW by by apply in_section_owner.
  pose proof (go_spec (Some k) (owner_of n a) pre (live s) (sy_shared s) (run_handle j) (map snd L1)
    a w x L1 _ (eq_sym HL) eq_refl Hok
    (fun H => run_handle_safe W k n HW j Hj (a, _) (conj eq_refl Hrx) H)) as Hgo.
  assert (forall p w' a', posted (Some k) (live s) (sy_world s) w' ->
    ac_connection_id a' = k -> ac_inbound_rx a' = n -> forall w0,
    (forall j found, p = Running j found -> handle_job_ok j /\ found_well (owner_of n a') w0 found) ->
    fine (Some k) s (Ret (Some (mkSystem (sy_server s)
      (<[n := mkTask a' w0 p]> (sy_handles s)) (shared w'))))) as Hput.
  { intros p w' a' [Hw Hr] Hk Hn w0 Hp _.
    apply (fine_world (Some k) s _ w' (live s)); cbn; [done| |done| |exact Hw|exact Hr].
    - apply (live_same n (mkTask a' w0 p)); [done|]. cbn. by rewrite Hk.
    - intros n' t. rewrite lookup_insert. case_decide; [|apply Hh]. intros [= <-]. subst n'.
      by constructor. }
  unfold handle_goes. destruct (go _ _ _ _) as [[[out|[[r a'] w']]|]|]; [| |done..].
  { destruct Hgo as (r & [a' w'] & HP & Hs). cbn in Hs. apply (Hput _ (lone out)); [|done..|].
    - eapply in_section_out; [|exact Hs]. apply (Accepted.k_ok _ _ _ HP).
    - intros j' found' [= <- <-]. split; [done|]. exists x, L1. split; [done|]. cbn. by rewrite HL. }
  destruct Hgo as [HP Hs]. pose proof (Accepted.k_id _ _ _ HP) as Hid. pose proof (Accepted.k_rx _ _ _ HP) as Hrx'.
  cbn in Hid, Hrx'. rewrite Hrx in Hrx'.
  assert (posted (Some k) (live s) (sy_world s) w') as Hp
    by (eapply in_section_end; [apply (Accepted.k_ok _ _ _ HP)|exact Hs]).
  destruct r as [[[e|q]|]|e]; by apply Hput.
Qed.

Lemma exec_fine l s : label_ok l -> sys_inv s -> fine (actor l s) s (exec l s).
Proof.
  intros Hl Hs. pose proof Hs as [Hsv Hh Hsh].
  assert (forall s', sy_shared s' = sy_shared s -> live s' = live s ->
    (forall t, sy_server s' = Some t -> server_ok t) ->
    (forall n t, sy_handles s' !! n = Some t -> handle_ok n t) -> forall who, fine who s (Ret (Some s'))) as Hstay.
  { intros s' H1 H2 H3 H4 who _. by apply (fine_world who s s' (sy_world s) (live s)). }
  assert (forall n t, sy_handles s !! n = Some t -> live s !! n = Some (ac_connection_id (t_self t))
    /\ ac_inbound_rx (t_self t) = n) as Hlive.
  { intros n t Hn. split; [by apply live_handle|]. by apply Hh. }
  destruct l as [t d|i t d| | | |n t d|n i t d|n m t d|n|n|n]; cbn [exec actor label_ok] in *.
  1-5: destruct (sy_server s) as [[sv w [|[]|j found]]|] eqn:Hv; try done;
    destruct (Hsv _ eq_refl) as [Hi Hj]; cbn in Hi, Hj.
  - apply (server_goes_fine s sv _ _ (live s) [] []); [done..|by eapply inv_swap|done|by apply found_begin].
  - apply (server_goes_fine s sv _ _ (live s) [] []); [done..|by eapply inv_swap|done|by apply found_begin].
  - destruct (Hj _ _ eq_refl) as [Hjob Hf].
    destruct (found_lock anyone s w found Hs I Hf) as (lv & L & -> & HL).
    by apply (server_goes_fine s sv w j lv _ ((lv, shared w) :: L)).
  - apply Hstay; cbn; [done..| |done]. intros ? [= <-]. by constructor.
  - destruct (sy_handles s !! n) as [[a w [|q|j found]]|] eqn:Hn; try done.
    destruct (Hlive _ _ Hn) as [Hla Hrx]. cbn in Hla, Hrx.
    apply (handle_goes_fine s n a _ _ (live s) [] []); [done..|by apply found_begin].
  - destruct (sy_handles s !! n) as [[a w [|q|j found]]|] eqn:Hn; try done.
    destruct (Hlive _ _ Hn) as [Hla Hrx]. cbn in Hla, Hrx.
    apply (handle_goes_fine s n a _ _ (live s) [] []); [done..|by apply found_begin].
  - destruct (sy_handles s !! n) as [[a w [|q|j found]]|] eqn:Hn; try done.
    destruct (Hlive _ _ Hn) as [Hla Hrx]. cbn in Hla, Hrx.
    apply (handle_goes_fine s n a _ _ (live s) [] []); [done..|by apply found_begin].
  - destruct (sy_handles s !! n) as [[a w [|q|j found]]|] eqn:Hn; try done.
    destruct (Hlive _ _ Hn) as [Hla Hrx]. cbn in Hla, Hrx.
    destruct (hk_job _ _ (Hh _ _ Hn) _ _ eq_refl) as [Hjob Hf].
    destruct (found_lock (owner_of n a) s w found Hs Hla Hf) as (lv & L & -> & HL).
    by apply (handle_goes_fine s n a w j lv _ ((lv, shared w) :: L)).
  - destruct (sy_handles s !! n) as [[a w [|q|j found]]|] eqn:Hn; try done.
    destruct (Hlive _ _ Hn) as [Hla Hrx]. cbn in Hla, Hrx. apply Hstay; cbn; [done| |done|].
    + by apply (live_same n (mkTask a w Idle)).
    + intros n' t. rewrite lookup_insert. case_decide; [|apply Hh]. subst. intros [= <-]. by constructor.
  - destruct (sy_handles s !! n) as [[a w [|q|j found]]|] eqn:Hn; try done.
    destruct (Hlive _ _ Hn) as [Hla Hrx]. cbn in Hla, Hrx. subst n. rewrite Hla. intros _.
    eapply (fine_world _ s _ (Accepted.drop a (sy_world s))); cbn; [done| |done| | |].
    + unfold live. cbn. by rewrite fmap_delete.
    + intros n' t [_ H2]%lookup_delete_Some. by apply Hh.
    + by apply drop_ok.
    + apply rtc_once. by eapply drop_spec.
Qed.

Lemma step_inv s s' : sys_inv s -> step s s' -> sys_inv s'.
Proof.
  intros Hs [l Hl He Hf]. pose proof (exec_fine l s Hl Hs) as H. rewrite He in H. by apply H.
Qed.

Lemma sys_reachable_inv s s' : sys_inv s -> rtc step s s' -> sys_inv s'.
Proof. intros Hs Hr. induction Hr; [done|]. eauto using step_inv. Qed.

Lemma sys_initial_inv tls early bound config sv w :
  bind tls early bound config = Ok sv -> routes w = Routes.routes_new -> channels w = ∅ ->
  sys_inv (initial sv w).
Proof.
  intros Hb Hr Hc. constructor; cbn; [| |].
  - intros ? [= <-]. constructor; [by eapply bind_inv|done].
  - by intros ? ? ?%lookup_empty_Some.
  - eapply (shared_ok_eq _ w); [done|].
    constructor; unfold live, initial; rewrite ?Hr, ?Hc; cbn;
      try (by intros ? ? ?%lookup_empty_Some).
    + intros n k. rewrite fmap_empty. by intros ?%lookup_empty_Some.
    + by intros ? ?%elem_of_empty.
    + apply Routes.taken_new_wf.
Qed.

(** ** A task that waits for the lock gets on when it has it *)

Section on.
Context {S A : Type} (m : M (S * World) A) (Hm : Replay.tame m).

Definition waits (found : list Shared) (self : S) (w : World) : Prop :=
  exists h, go m found self w = Ret (Some (inl h)).

Lemma go_begins self w : go m [] self w <> Ret None.
Proof.
  unfold go. pose proof (Replay.tm_shrinks _ Hm (self, w <| sched := Among [] None |>)) as H.
  unfold wlp in H. destruct (m _) as [a [self' w']|e [self' w']| |]; [| |done..]; cbn in H;
    destruct (sched w') as [|[|] []]; first [done | cbn in H; lia].
Qed.

Lemma go_on found self w h : waits found self w -> go m (found ++ [h]) self w <> Ret None.
Proof.
  intros [out Hgo]. unfold go in *.
  pose proof (Replay.tm_agrees _ Hm [h] (self, w <| sched := Among found None |>) found
    ltac:(done) eq_refl) as H. cbn in H.
  destruct (m (self, w <| sched := Among found None |>)) as [a [self' w']|e [self' w']| |];
    [| |done..]; cbn in H; unfold Replay.same_with in H; cbn in H.
  all: destruct (sched w') as [|[|] [o|]]; try done; cbn in H.
  all: destruct (m _) as [? [? w2]|? [? w2]| |]; try done; cbn in H.
  all: destruct (sched w2) as [|[|] [|]]; first [done | cbn in H; lia].
Qed.
End on.

Lemma tame_run_server j : Replay.tame (run_server j).
Proof.
  destruct j; cbn [run_server]; [apply Replay.tame_prepare|].
  apply Replay.tame_bind; [apply Replay.tame_handle_input|]. intros _. apply Replay.tame_prepare.
Qed.

Lemma tame_run_handle j : Replay.tame (run_handle j).
Proof.
  destruct j; cbn [run_handle]; (apply Replay.tame_bind; [|intros; apply Replay.tame_ret]).
  - apply Replay.tame_start_recv.
  - apply Replay.tame_wake_up.
  - apply Replay.tame_run_method.
Qed.

(** Every task that runs waits for the lock. *)
Record all_wait (s : system) : Prop := {
  aw_server sv w j found : sy_server s = Some (mkTask sv w (Running j found)) ->
    waits (run_server j) found sv w;
  aw_handle n a w j found : sy_handles s !! n = Some (mkTask a w (Running j found)) ->
    waits (run_handle j) found a w }.

Lemma all_wait_server s sv w p hs h :
  all_wait s -> (forall j found, p = Running j found -> waits (run_server j) found sv w) ->
  (forall n t, hs !! n = Some t -> sy_handles s !! n = Some t \/ t_phase t = Idle) ->
  all_wait (mkSystem (Some (mkTask sv w p)) hs h).
Proof.
  intros [_ Hh] Hp Hhs. constructor; cbn; [intros sv' w' j found [= -> -> ->]; by apply Hp|].
  intros n a w' j found Hn. destruct (Hhs _ _ Hn) as [?|?]; [by eapply Hh|done].
Qed.

Lemma all_wait_handle s n t h :
  all_wait s ->
  (forall j found, t_phase t = Running j found -> waits (run_handle j) found (t_self t) (t_world t)) ->
  all_wait (mkSystem (sy_server s) (<[n := t]> (sy_handles s)) h).
Proof.
  intros [Hs Hh] Hp. constructor; cbn; [done|]. intros n' a w j found. rewrite lookup_insert.
  case_decide; [|by apply Hh]. intros [= ->]. by apply Hp.
Qed.

Lemma server_goes_waits s sv w j found s' :
  all_wait s -> server_goes s sv w j found = Ret (Some s') -> all_wait s'.
Proof.
  intros Hs. unfold server_goes.
  destruct (go _ _ _ _) as [[[h|[[r sv'] w']]|]|] eqn:Hgo; try done.
  - intros [= <-]. apply (all_wait_server s); [done| |by left].
    intros ? ? [= <- <-]. by exists h.
  - destruct r as [[a|q]|e]; intros [= <-]; apply (all_wait_server s); try done; try by left.
    intros n t. rewrite lookup_insert. case_decide; [|by left]. intros [= <-]. by right.
Qed.

Lemma handle_goes_waits s n a w j found s' :
  all_wait s -> handle_goes s n a w j found = Ret (Some s') -> all_wait s'.
Proof.
  intros Hs. unfold handle_goes.
  destruct (go _ _ _ _) as [[[h|[[r a'] w']]|]|] eqn:Hgo; try done.
  - intros [= <-]. apply all_wait_handle; [done|]. intros ? ? [= <- <-]. by exists h.
  - destruct r as [[[]|]|]; intros [= <-]; by apply all_wait_handle.
Qed.

Lemma exec_waits l s s' : all_wait s -> exec l s = Ret (Some s') -> all_wait s'.
Proof.
  intros Hs. destruct l as [t d|i t d| | | |n t d|n i t d|n m t d|n|n|n]; cbn [exec].
  1-5: destruct (sy_server s) as [[sv w [|[]|j found]]|]; try done;
    first [by apply server_goes_waits|intros [= <-]].
  - by apply (all_wait_server s); [| |left].
  - destruct Hs as [_ Hh]. by constructor.
  - destruct (sy_handles s !! n) as [[a w [|q|j found]]|]; try done. by apply handle_goes_waits.
  - destruct (sy_handles s !! n) as [[a w [|q|j found]]|]; try done. by apply handle_goes_waits.
  - destruct (sy_handles s !! n) as [[a w [|q|j found]]|]; try done. by apply handle_goes_waits.
  - destruct (sy_handles s !! n) as [[a w [|q|j found]]|]; try done. by apply handle_goes_waits.
  - destruct (sy_handles s !! n) as [[a w [|q|j found]]|]; try done. intros [= <-].
    by apply all_wait_handle.
  - destruct (sy_handles s !! n) as [[a w [|q|j found]]|]; try done. intros [= <-].
    destruct Hs as [Hv Hh]. constructor; [done|]. cbn. intros n' a' w' j found [_ H]%lookup_delete_Some.
    by eapply Hh.
Qed.

Lemma reachable_waits s s' : all_wait s -> rtc step s s' -> all_wait s'.
Proof. intros Hs Hr. induction Hr as [|s1 s2 s3 [l _ He _] _ IH]; [done|]. eauto using exec_waits. Qed.

Lemma server_goes_some s sv w j found :
  go (run_server j) found sv w <> Ret None -> server_goes s sv w j found <> Ret None.
Proof. unfold server_goes. by destruct (go _ _ _ _) as [[[h|[[[[]|] sv'] w']]|]|]. Qed.
Lemma handle_goes_some s n a w j found :
  go (run_handle j) found a w <> Ret None -> handle_goes s n a w j found <> Ret None.
Proof. unfold handle_goes. by destruct (go _ _ _ _) as [[[h|[[[[[]|]|] a'] w']]|]|]. Qed.

(** The step that a task may take next. *)
Definition server_may {S} (t : task S server_job unit) (l : label) : Prop :=
  match t_phase t, l with
  | Idle, Accept _ _ | Waiting _, ServerWake _ _ _ | Running _ _, ServerLock => True
  | _, _ => False
  end.
Definition handle_may {S} (n : nat) (t : task S handle_job bool) (l : label) : Prop :=
  match t_phase t, l with
  | Idle, Recv n' _ _ | Idle, Call n' _ _ _ | Waiting _, Wake n' _ _ _ | Running _ _, HandleLock n' =>
      n' = n
  | _, _ => False
  end.

Lemma server_may_exec s t l :
  all_wait s -> sy_server s = Some t -> server_may t l -> exec l s <> Ret None.
Proof.
  intros [Hs _] Ht. destruct t as [sv w [|[]|j found]], l; try done; intros _; cbn [exec]; rewrite Ht;
    apply server_goes_some; first [apply go_begins|apply go_on]; try apply tame_run_server; by apply Hs.
Qed.

Lemma handle_may_exec s n t l :
  all_wait s -> sy_handles s !! n = Some t -> handle_may n t l -> exec l s <> Ret None.
Proof.
  intros [_ Hh] Ht. destruct t as [a w [|q|j found]], l; try done; intros ->; cbn [exec]; rewrite Ht;
    apply handle_goes_some; first [apply go_begins|apply go_on]; try apply tame_run_handle;
    by eapply Hh.
Qed.

(** ** What the specification promises *)

(** Nobody but its owner takes a datagram from a mailbox or closes it; all others append. *)
Lemma spec_step_mail who k s s' q :
  spec_step who s s' -> who <> Some k -> sp_mail s !! k = Some q ->
  exists q', sp_mail s' !! k = Some (q ++ q').
Proof.
  intros [k' d q0 ? Hk' _ Hq _|k' d q0 ? -> Hq|k' ? ? ? ->|k' ? ? ? -> Hq|k' ? ->] Hne Hk; cbn.
  - rewrite lookup_insert. case_decide; [|exists []; by rewrite app_nil_r]. subst.
    rewrite Hq in Hk. injection Hk as ->. by eexists.
  - rewrite lookup_insert_ne by congruence. exists []. by rewrite app_nil_r.
  - exists []. by rewrite app_nil_r.
  - rewrite lookup_insert_ne by congruence. exists []. by rewrite app_nil_r.
  - rewrite lookup_delete_ne by congruence. exists []. by rewrite app_nil_r.
Qed.

Lemma spec_steps_mail who k s s' q :
  rtc (spec_step who) s s' -> who <> Some k -> sp_mail s !! k = Some q ->
  exists q', sp_mail s' !! k = Some (q ++ q').
Proof.
  intros Hr Hne. revert q. induction Hr as [s|s1 s2 s3 Hs _ IH]; intros q Hq.
  - exists []. by rewrite app_nil_r.
  - destruct (spec_step_mail _ _ _ _ _ Hs Hne Hq) as [q1 H1].
    destruct (IH _ H1) as [q2 H2]. exists (q1 ++ q2). by rewrite app_assoc.
Qed.

(** The owner takes datagrams from the front; the mailbox is gone when it closed it. *)
Lemma spec_steps_own k s s' q q' :
  rtc (spec_step (Some k)) s s' -> sp_mail s !! k = Some q -> sp_mail s' !! k = Some q' ->
  exists n, q' = drop n q.
Proof.
  intros Hr. assert (forall s s', rtc (spec_step (Some k)) s s' -> sp_mail s !! k = None ->
    sp_mail s' !! k = None) as Hgone.
  { clear. intros s s' Hr. induction Hr as [|s1 s2 s3 Hs _ IH]; [done|]. intros Hn. apply IH.
    destruct Hs as [k' d q0 ? Hk' _ Hq _|k' d q0 ? Hk' Hq| |k' ? ? ? Hk' Hq|k' ? Hk']; cbn; try done.
    - rewrite lookup_insert_ne by congruence. done.
    - injection Hk' as <-. congruence.
    - by rewrite lookup_delete_None; right. }
  revert q. induction Hr as [s|s1 s2 s3 Hs Hr IH]; intros q Hq Hq'.
  { exists 0%nat. rewrite Hq in Hq'. by injection Hq' as <-. }
  destruct Hs as [k' d q0 ? Hk' _ Hq0 _|k' d q0 ? Hk' Hq0| |k' ? ? ? Hk' Hq0|k' ? Hk']; cbn in *; try done.
  - apply (IH q); [|done]. rewrite lookup_insert_ne by congruence. done.
  - injection Hk' as <-. rewrite Hq0 in Hq. injection Hq as <-.
    destruct (IH q0) as [n ->]; [by rewrite lookup_insert_eq|done|]. by exists (S n).
  - by apply (IH q).
  - injection Hk' as <-. rewrite (Hgone _ _ Hr) in Hq'; [done|]. cbn. apply lookup_delete_eq.
Qed.

(** ** Runs *)

(** Steps one after another, for concrete executions. *)
Fixpoint run (ls : list label) (s : system) : system :=
  match ls with
  | [] => s
  | l :: ls => match exec l s with Ret (Some s) => run ls s | _ => s end
  end.

(** Each step is enabled, and keys are fresh: none lives before, or the same after. *)
Fixpoint runs (ls : list label) (s : system) : bool :=
  match ls with
  | [] => true
  | l :: ls =>
      match exec l s with
      | Ret (Some s') => (bool_decide (live s = ∅) || bool_decide (live s' = live s)) && runs ls s'
      | _ => false
      end
  end.

Lemma fresh_none s s' : live s = ∅ -> fresh_key s s'.
Proof. intros H n k _ _ n'. by rewrite H. Qed.
Lemma fresh_same s s' : live s' = live s -> fresh_key s s'.
Proof. intros H n k H1 H2. rewrite H in H1. congruence. Qed.

Lemma run_reach ls s : Forall label_ok ls -> runs ls s = true -> rtc step s (run ls s).
Proof.
  intros Hl. revert s. induction Hl as [|l ls Hl _ IH]; intros s; cbn; [done|].
  destruct (exec l s) as [[s'|]|] eqn:He; [|done..]. intros [Hf Hr]%andb_prop.
  eapply rtc_l; [|by apply IH]. exists l; [done..|]. apply orb_prop in Hf.
  destruct Hf as [?%bool_decide_eq_true|?%bool_decide_eq_true]; [by apply fresh_none|].
  by apply fresh_same.
Qed.

Lemma run_one l s : runs [l] s = true -> exec l s = Ret (Some (run [l] s)).
Proof. cbn. by destruct (exec l s) as [[s'|]|]. Qed.

(** ** Coherence *)

(** What holds between two steps: no step panics or diverges; a task can take its next
    step, in particular the lock once it waits for it; every shared route leads to a live
    handle; each live handle has a sender of its own to an open channel with at
    most 512 datagrams; and every sender belongs to a live handle. *)
Record coherent (s : system) : Prop := {
  co_total l : label_ok l -> exec l s <> Panic;
  co_server t l : sy_server s = Some t -> server_may t l -> exec l s <> Ret None;
  co_task n t l : sy_handles s !! n = Some t -> handle_may n t l -> exec l s <> Ret None;
  co_route k :
    (exists cid, Routes.r_cid_map (routes (sy_world s)) !! cid = Some k) \/
    (exists addr, Routes.r_addr_map (routes (sy_world s)) !! addr = Some k) ->
    exists n t, sy_handles s !! n = Some t /\ ac_connection_id (t_self t) = k;
  co_handle n t : sy_handles s !! n = Some t ->
    ac_inbound_rx (t_self t) = n /\
    Routes.r_senders (routes (sy_world s)) !! ac_connection_id (t_self t) = Some n /\
    exists q, channels (sy_world s) !! n = Some (Routes.mkChannel q true) /\
      slen q <= Routes.MAX_QUEUED_DATAGRAMS;
  co_sender k n : Routes.r_senders (routes (sy_world s)) !! k = Some n ->
    exists t, sy_handles s !! n = Some t /\ ac_connection_id (t_self t) = k }.

Lemma sys_inv_coherent s : sys_inv s -> all_wait s -> coherent s.
Proof.
  intros Hs Haw.
  assert (forall k n, Routes.r_senders (routes (sy_world s)) !! k = Some n ->
     exists t, sy_handles s !! n = Some t /\ ac_connection_id (t_self t) = k) as Hsend.
  { intros k n Hk. apply (so_sender _ _ (si_shared _ Hs)) in Hk. unfold live in Hk.
    apply lookup_fmap_Some in Hk as (t & <- & Hn). by eexists. }
  constructor; [|by intros; eapply server_may_exec|by intros; eapply handle_may_exec| | |done].
  - intros l Hl He. pose proof (exec_fine l s Hl Hs) as H. by rewrite He in H.
  - intros k Hk. assert (is_Some (Routes.r_senders (routes (sy_world s)) !! k)) as [n Hn].
    { destruct Hk as [[cid Hk]|[addr Hk]].
      - by eapply (so_cid _ _ (si_shared _ Hs)).
      - by eapply (so_addr _ _ (si_shared _ Hs)). }
    exists n. by apply Hsend.
  - intros n t Hn. split; [by apply (si_handle _ Hs)|]. apply live_handle in Hn.
    destruct (so_live _ _ (si_shared _ Hs) _ _ Hn) as [Hk [q Hq]]. split; [done|].
    exists q. split; [done|]. by apply (so_channel _ _ (si_shared _ Hs)) in Hq as (_ & ? & _).
Qed.

Lemma bound_coherent tls early bound config sv w s :
  bind tls early bound config = Ok sv -> routes w = Routes.routes_new -> channels w = ∅ ->
  rtc step (initial sv w) s -> coherent s.
Proof.
  intros Hb Hr Hc Hreach. apply sys_inv_coherent.
  - eapply sys_reachable_inv; [by eapply sys_initial_inv|exact Hreach].
  - eapply reachable_waits; [|exact Hreach]. constructor; cbn; [done|].
    by intros ? ? ? ? ? ?%lookup_empty_Some.
Qed.

(** ** Properties *)

(** C3: the server and its accepted connections stay coherent however their tasks
    interleave, each from one wait for the lock of the routes to its next: from a bound
    server with empty shared tables, as long as no connection
    is handed over under the key of a live one, every state that is reached is coherent. *)
Theorem system_coherent (tls early : result Error unit) (bound : result Error SocketAddr)
    (config : ServerConfig) (sv : Server.Server) (w : World) (s : system)
    (Hbind : bind tls early bound config = Ok sv)
    (Hroutes : routes w = Routes.routes_new) (Hchannels : channels w = ∅)
    (Hreach : rtc step (initial sv w) s) :
  coherent s.
Proof.
  by eapply bound_coherent.
Qed.

(** C4: the system refines the post office: what a task does while it holds the lock is a
    sequence of steps of the specification by that task. It follows that a step of one task never takes,
    reorders or loses a datagram that waits for another connection, and that a
    connection takes its own in the order of their arrival. *)
Theorem system_refines (tls early : result Error unit) (bound : result Error SocketAddr)
    (config : ServerConfig) (sv : Server.Server) (w : World) (s s' : system) (l : label)
    (Hbind : bind tls early bound config = Ok sv)
    (Hroutes : routes w = Routes.routes_new) (Hchannels : channels w = ∅)
    (Hreach : rtc step (initial sv w) s)
    (Hl : label_ok l) (Hexec : exec l s = Ret (Some s')) (Hfresh : fresh_key s s') :
  rtc (spec_step (actor l s)) (spec_of (sy_world s)) (spec_of (sy_world s')) /\
  (forall k q, mail (sy_world s) !! k = Some q -> actor l s <> Some k ->
     exists q', mail (sy_world s') !! k = Some (q ++ q')) /\
  (forall k q q', mail (sy_world s) !! k = Some q -> actor l s = Some k ->
     mail (sy_world s') !! k = Some q' -> exists n, q' = drop n q).
Proof.
  pose proof (sys_reachable_inv _ _ (sys_initial_inv _ _ _ _ _ _ Hbind Hroutes Hchannels) Hreach) as Hs.
  pose proof (exec_fine l s Hl Hs) as Hr. rewrite Hexec in Hr. apply Hr in Hfresh as [_ Hrtc].
  split; [done|]. split.
  - intros k q Hk Hne. by eapply (spec_steps_mail _ k _ _ q Hrtc).
  - intros k q q' Hk Hme Hk'. rewrite Hme in Hrtc. by eapply (spec_steps_own k _ _ q q' Hrtc).
Qed.

(** C22: keys are not protected against reuse. When a connection is handed over under the
    key of a live connection [a1], the queue of [a1] gets no datagram any more, whatever
    resolves to the key; and when [a1] is then dropped, nothing resolves to the key and
    it has no sender: the connection just accepted is unreachable through the shared
    tables. *)
Theorem key_reuse_loses_routes (key : ConnectionId) (c : ServerConnection)
    (a1 : AcceptedConnection) (sv : Server.Server) (w : World)
    (Hc : s_connections sv !! key = Some c)
    (Hkey : ac_connection_id a1 = key) (Hrx : (ac_inbound_rx a1 < next_channel w)%nat)
    (Halone : sched w = Alone) :
  wp (take_connection key) (sv, w) (fun r s' => exists a2,
    r = Ok a2 /\ ac_connection_id a2 = key /\
    (forall dgram, wp (deliver key dgram) s'.2 (fun _ w' =>
       channels w' !! ac_inbound_rx a1 = channels w !! ac_inbound_rx a1)) /\
    (let gone := Accepted.drop a1 s'.2 in
     Routes.r_senders (routes gone) !! key = None /\
     forall d from, Routes.resolve d from (routes gone) <> Done (Some key) (routes gone))).
Proof.
  eapply wp_mono.
  { apply (take_connection_wp key c (sv, w) (fun _ => True) Hc).
    apply wp_for_each; [done|]. intros cid t _ _.
    eapply wp_mono; [apply Routes.remember_taken_cid_total|]. by intros r t' ->. }
  intros r [sv' w'] (-> & _ & _ & Hw). cbn in Hw. rewrite take_lock_alone in * by done. eexists. split; [done|]. split; [done|].
  cbn [snd]. subst w'. split.
  - intros dgram. unfold wp, deliver, Routes.deliver, Routes.try_send. cbn.
    rewrite lookup_insert_eq, lookup_insert_eq. cbn [Routes.rx_open Routes.queue].
    destruct (_ <=? _); cbn; fold_shared; rewrite !lookup_insert_ne by lia; done.
  - set (w' := w <| channels := _ |> <| next_channel := _ |> <| routes := _ |>). set (gone := Accepted.drop a1 w').
    assert (routes gone = Routes.remove key (routes w')) as ->.
    { unfold gone, Accepted.drop. by rewrite Hkey, routes_close_channel. }
    split; [cbn; apply lookup_delete_eq|]. intros d from. unfold Routes.resolve, mbind, M_bind.
    destruct (Routes.resolve_dcid _ _ _ _) as [[k|] r| | |] eqn:Hr; try done.
    + intros [= -> _]. apply Routes.resolve_dcid_value in Hr as [cid Hcid].
      by apply Routes.lookup_retain_other in Hcid as [_ ?].
    + cbn. intros [= Ha _]. by apply Routes.lookup_retain_other in Ha as [_ ?].
Qed.
End system.

(** ** Witnesses *)

#[local] Existing Instances toy_strerror server_api toy_env toy_transport toy_transport_budget
  toy_endpoint toy_order server_api_doc toy_env_doc toy_transport_doc server_write_doc
  toy_endpoint_doc toy_order_doc.

Definition toy_bound : Server.Server :=
  match bind (Ok tt) (Ok tt) (Ok toy_addr) toy_config with
  | Ok sv => sv
  | Err _ => toy_server None
  end.
Definition toy_start : system := initial toy_bound toy_world.
(** A connection is accepted and handed over, and both tasks wait in their [select]. *)
Definition toy_handed : list label :=
  [Accept 0 0; ServerWake (Received toy_initial toy_addr toy_addr 0) 1 0; ServerLock; ServerLock;
   Accept 5 1; Recv 0 0 0; Recv 0 0 0].
(** The server reads a datagram for the connection, whose task wakes up for its queue
    before it is there: both wait for the lock. *)
Definition toy_race : list label :=
  [ServerWake (Received (0x40 :: repeat 0 20) toy_addr toy_addr 0) 0 0;
   Wake 0 Accepted.FromQueue 7 0].
Definition toy_raced : system := run (toy_handed ++ toy_race) toy_start.

Lemma toy_raced_reach : rtc step toy_start toy_raced.
Proof.
  apply run_reach; [|vm_compute; reflexivity]. repeat constructor; cbn; unfold is_u8; lia.
Qed.

Lemma system_coherent_witness :
  exec (HandleLock 0) toy_raced <> Panic /\ exec ServerLock toy_raced <> Ret None /\
  exists n t, sy_handles toy_raced !! n = Some t /\
    ac_connection_id (t_self t) = mkCid (repeat 0 16).
Proof.
  destruct (system_coherent (Ok tt) (Ok tt) (Ok toy_addr) toy_config toy_bound toy_world toy_raced)
    as [Hexec Hserver _ Hroute _ _].
  - reflexivity.
  - reflexivity.
  - reflexivity.
  - apply toy_raced_reach.
  - split; [apply Hexec; exact I|]. split.
    { assert (match sy_server toy_raced with
        | Some t => match t_phase t with Running _ _ => true | _ => false end
        | None => false
        end = true) as H by (vm_compute; reflexivity).
      destruct (sy_server toy_raced) as [t|] eqn:Ht; [|discriminate H].
      refine (Hserver t ServerLock eq_refl _). unfold server_may.
      destruct (t_phase t); [discriminate H..|exact I]. }
    apply Hroute. left. exists (mkCid [1; 2; 3; 4; 5; 6; 7; 8]).
    vm_compute. reflexivity.
Defined.

(** The server takes the lock first and delivers. *)
Lemma system_refines_witness :
  let s' := run [ServerLock] toy_raced in
  rtc (spec_step None) (spec_of (sy_world toy_raced)) (spec_of (sy_world s')) /\
  slen <$> mail (sy_world s') !! mkCid (repeat 0 16) = Some 1 /\
  exists q', mail (sy_world s') !! mkCid (repeat 0 16) = Some ([] ++ q').
Proof.
  intros s'.
  destruct (system_refines (Ok tt) (Ok tt) (Ok toy_addr) toy_config toy_bound toy_world toy_raced s'
    ServerLock) as (Hr & Hm & _).
  - reflexivity.
  - reflexivity.
  - reflexivity.
  - apply toy_raced_reach.
  - exact I.
  - apply run_one. vm_compute. reflexivity.
  - apply fresh_same. vm_compute. reflexivity.
  - split; [exact Hr|]. split; [vm_compute; reflexivity|].
    apply Hm; [vm_compute; reflexivity|discriminate].
Defined.

Lemma key_reuse_loses_routes_witness :
  let w := toy_world <| next_channel := 1%nat |> in
  wp (take_connection toy_key) (fst toy_busy, w) (fun _ s' =>
    let gone := Accepted.drop (mkAccepted toy_addr toy_key toy_server_conn 0) s'.2 in
    Routes.r_senders (routes gone) !! toy_key = None).
Proof.
  intros w. eapply wp_mono.
  - apply (key_reuse_loses_routes toy_key toy_server_conn
      (mkAccepted toy_addr toy_key toy_server_conn 0) (fst toy_busy) w).
    + vm_compute. reflexivity.
    + vm_compute. reflexivity.
    + vm_compute. constructor.
    + reflexivity.
  - intros r s' (a2 & _ & _ & _ & H & _). exact H.
Defined.
End System.
