(* ===== verification/Client.v ===== *)
(** * The client (src/tokio-ngtcp2/src/client.rs)

    [ClientConfig], [ClientConnection] with all its methods, and the connection set-up
    of [Client]. What [select] waits for is a list of inputs. The socket of the client
    is the primary socket of its world. *)
From S2P Require Import Prelude Types Errors Tokens Params Conn Callbacks Effects Transport.
From S2P Require Import Streams Routes Tokio World.
Import Types Errors Tokens Effects Transport World.

Module Client.
#[local] Existing Instances Params.Settings_eta Params.TransportParams_eta.

(** ** Configuration *)

Record ClientConfig := mkClientConfig {
  alpn_protocols : list bytes;
  verify_peer : bool;
  transport_params : Params.TransportParams;
  datagram : Tokio.DatagramConfig;
  handshake_timeout : Params.Duration;
  qlog_dir : option string;
  ca_cert_pem : list string;
  quic_version : QuicVersion;
  settings : Params.Settings }.
#[export] Instance ClientConfig_eta : Eta ClientConfig := fun c =>
  mkClientConfig (alpn_protocols c) (verify_peer c) (transport_params c) (datagram c)
    (handshake_timeout c) (qlog_dir c) (ca_cert_pem c) (quic_version c) (settings c).

Definition DEFAULT_HANDSHAKE_TIMEOUT : Params.Duration := Params.from_secs 10.
Definition SEND_BUFFER_SIZE : Z := 65535.
Definition new_send_buf : bytes := repeat 0 (Z.to_nat SEND_BUFFER_SIZE).
Lemma slen_new_send_buf : slen new_send_buf = SEND_BUFFER_SIZE.
Proof. unfold slen, new_send_buf. rewrite repeat_length. unfold SEND_BUFFER_SIZE. lia. Qed.
#[global] Opaque new_send_buf.

(** ["hq-interop"] *)
Definition DEFAULT_ALPN : bytes := [104; 113; 45; 105; 110; 116; 101; 114; 111; 112].

(** [default] and [default_params] are the structures ngtcp2 fills in. *)
Definition ClientConfig_new (default : Params.ngtcp2_settings)
    (default_params : Params.TransportParams) (alpn : list bytes) : ClientConfig :=
  {| alpn_protocols := alpn; verify_peer := true;
     transport_params := Params.TransportParams_new default_params;
     datagram := Tokio.DatagramConfig_default; handshake_timeout := DEFAULT_HANDSHAKE_TIMEOUT;
     qlog_dir := None; ca_cert_pem := []; quic_version := V1;
     settings := Params.Settings_new default 0 |}.

Section config.
Implicit Types c : ClientConfig.
Definition with_quic_version (v : QuicVersion) c : ClientConfig := c <| quic_version := v |>.
Definition with_settings (s : Params.Settings) c : ClientConfig := c <| settings := s |>.
Definition with_verify_peer (b : bool) c : ClientConfig := c <| verify_peer := b |>.
Definition with_transport_params (p : Params.TransportParams) c : ClientConfig :=
  c <| transport_params := p |>.
Definition with_datagram (d : Tokio.DatagramConfig) c : ClientConfig := c <| datagram := d |>.
Definition with_preferred_versions (versions : list QuicVersion) c : ClientConfig :=
  c <| settings := (settings c) <| Params.preferred_versions := versions |>
                               <| Params.available_versions := versions |> |>.
Definition with_qlog_dir (dir : string) c : ClientConfig := c <| qlog_dir := Some dir |>.
Definition with_handshake_timeout (t : Params.Duration) c : ClientConfig :=
  c <| handshake_timeout := t |>.
Definition with_ca_cert_pem (pem : string) c : ClientConfig :=
  c <| ca_cert_pem := ca_cert_pem c ++ [pem] |>.
End config.

Definition effective_transport_params (c : ClientConfig) : Params.TransportParams :=
  if Tokio.DatagramConfig_is_enabled (datagram c)
  then Params.with_datagram (transport_params c) (Tokio.max_datagram_frame_size (datagram c))
  else Params.with_datagram (transport_params c) 0.

(** ** Connections *)

Section client.
Context {env : Env} {tr : Transport} {bud : TransportBudget}.

Record ClientConnection := mkClientConnection {
  cl_local_addr : SocketAddr;
  cl_remote_addr : SocketAddr;
  cl_conn : conn;
  cl_pending : Streams.PendingStreams;
  cl_events : list Tokio.ConnectionEvent;
  cl_closed : bool;
  cl_send_buf : bytes;
  cl_datagram : Tokio.DatagramConfig;
  cl_qlog : Tokio.QlogWriter }.
#[export] Instance ClientConnection_eta : Eta ClientConnection := fun c =>
  mkClientConnection (cl_local_addr c) (cl_remote_addr c) (cl_conn c) (cl_pending c)
    (cl_events c) (cl_closed c) (cl_send_buf c) (cl_datagram c) (cl_qlog c).

Notation cst := (ClientConnection * World)%type.

Definition on_cl {A} (m : M ClientConnection A) : M cst A := zoom fst (fun c s => (c, s.2)) m.
Definition on_conn {A} (m : M conn A) : M cst A :=
  on_cl (zoom cl_conn (fun c s => s <| cl_conn := c |>) m).
Definition in_world {A} (m : M World A) : M cst A := zoom snd (fun w s => (s.1, w)) m.
Definition set_cl (f : ClientConnection -> ClientConnection) : M cst unit := on_cl (modify f).
Definition cl {A} (f : ClientConnection -> A) : M cst A := gets (fun s => f s.1).

(** A borrow of the connection, the streams and the buffer. *)
Definition on_io {A} (m : M Streams.io A) : M cst A :=
  on_cl (zoom (fun c => Streams.mkIo (cl_conn c) (cl_pending c) (cl_send_buf c))
    (fun s c => c <| cl_conn := Streams.io_conn s |> <| cl_pending := Streams.io_pending s |>
                  <| cl_send_buf := Streams.io_buf s |>) m).

Definition write_fuel (ts : Z) (c : ClientConnection) : nat :=
  S (budget ts (cl_conn c) + Streams.pending_size (cl_pending c)).

Definition is_closed (c : ClientConnection) : bool :=
  cl_closed c || t_is_in_closing_period (cl_conn c) || t_is_in_draining_period (cl_conn c).

Definition has_pending_data (c : ClientConnection) : bool := negb (Streams.is_empty (cl_pending c)).

(** What the application asks about the connection. *)
Definition is_handshake_completed (c : ClientConnection) : bool :=
  t_is_handshake_completed (cl_conn c).
Definition is_in_early_data (c : ClientConnection) : bool := t_is_in_early_data (cl_conn c).
Definition is_early_data_accepted (c : ClientConnection) : bool :=
  t_is_early_data_accepted (cl_conn c).
Definition is_early_data_rejected (c : ClientConnection) : bool :=
  t_is_early_data_rejected (cl_conn c).
Definition selected_alpn_protocol (c : ClientConnection) : option bytes :=
  t_selected_alpn_protocol (cl_conn c).
Definition negotiated_version (c : ClientConnection) : option QuicVersion :=
  t_negotiated_version (cl_conn c).
Definition stats (c : ClientConnection) : Params.ConnStats := t_stats (cl_conn c).
Definition cwnd_left (c : ClientConnection) : Z := t_get_cwnd_left (cl_conn c).
Definition max_stream_data_left (c : ClientConnection) (stream_id : StreamId) : Z :=
  t_get_max_stream_data_left (cl_conn c) stream_id.
Definition max_data_left (c : ClientConnection) : Z := t_get_max_data_left (cl_conn c).
Definition streams_bidi_left (c : ClientConnection) : Z := t_get_streams_bidi_left (cl_conn c).
Definition streams_uni_left (c : ClientConnection) : Z := t_get_streams_uni_left (cl_conn c).
Definition remote_transport_params (c : ClientConnection)
    : outcome (option Params.RemoteTransportParams) := t_remote_transport_params (cl_conn c).
Definition remote_max_datagram_frame_size (c : ClientConnection) : outcome Z :=
  match remote_transport_params c with
  | Panic => Panic
  | Ret params => Ret (from_option Params.r_max_datagram_frame_size 0 params)
  end.

Definition local_max_datagram_frame_size (c : ClientConnection) : Z :=
  if Tokio.DatagramConfig_is_enabled (cl_datagram c)
  then Tokio.max_datagram_frame_size (cl_datagram c) else 0.

Definition can_send_datagram (c : ClientConnection) : outcome bool :=
  if Tokio.DatagramConfig_is_enabled (cl_datagram c) then t_can_send_datagram (cl_conn c)
  else Ret false.
Definition supports_reset_stream_at (c : ClientConnection) : outcome bool :=
  t_supports_reset_stream_at (cl_conn c).

Definition write_stream (stream_id : StreamId) (d : bytes) (fin : bool) : M cst Z :=
  closed ← cl is_closed;
  if (closed : bool) then throw ConnectionClosed
  else
    set_cl (fun c => c <| cl_pending := Streams.push (cl_pending c) stream_id d fin |>) ;;
    mret (slen d).

Definition open_bidi_stream : M cst StreamId := on_conn t_open_bidi_stream.
Definition open_uni_stream : M cst StreamId := on_conn t_open_uni_stream.

Definition poll_event : M cst (option Tokio.ConnectionEvent) := fun s =>
  match cl_events s.1 with
  | [] => Done None s
  | e :: es => Done (Some e) (s.1 <| cl_events := es |>, s.2)
  end.

(** Every packet leaves from the one socket. *)
Definition send_packets (packets : list Streams.OutgoingPacket) : M cst unit :=
  in_world (World.send_packets packets).

Definition flush : M cst unit :=
  ts ← in_world timestamp;
  fuel ← cl (write_fuel ts);
  packets ← on_io (Streams.write_packets fuel ts);
  path ← on_conn (gets t_get_path);
  match path with
  | Some path => set_cl (fun c => c <| cl_remote_addr := remote path |>)
  | None => mret tt
  end ;;
  send_packets packets ;;
  on_cl (zoom (fun c => (cl_conn c, cl_qlog c))
    (fun s c => c <| cl_conn := s.1 |> <| cl_qlog := s.2 |>) (Tokio.qlog_write 2)).

Definition note_path (event : Callbacks.ConnectionEvent) (c : ClientConnection)
    : ClientConnection :=
  match event with
  | Callbacks.PathValidated path true => c <| cl_remote_addr := remote path |>
  | _ => c
  end.

Fixpoint drain_loop (fuel : nat) : M cst unit :=
  match fuel with
  | O => diverge
  | S fuel =>
      o ← on_conn (call t_poll_event);
      match o with
      | None => mret tt
      | Some event =>
          set_cl (note_path event) ;;
          set_cl (fun c => c <| cl_events := cl_events c ++ [Tokio.from event] |>) ;;
          drain_loop fuel
      end
  end.

Definition drain_events : M cst unit := fun s =>
  drain_loop (S (length (t_events (cl_conn s.1)))) s.

Definition push_connection_closed : M cst unit :=
  closed ← cl cl_closed;
  if (closed : bool) then mret tt
  else
    set_cl (fun c => c <| cl_closed := true |>) ;;
    set_cl (fun c => c <| cl_events :=
      cl_events c ++ [Tokio.closed_event (t_get_connection_error (cl_conn c))] |>).

Definition handle_packet (from : SocketAddr) (d : bytes) (ts ecn : Z) : M cst unit :=
  local_addr ← cl cl_local_addr;
  r ← attempt (on_conn (t_read_pkt {| local := local_addr; remote := from |}
                          {| ecn := ecn |} d ts));
  drain_events ;;
  match r with
  | Ok _ => mret tt
  | Err e =>
      if bool_decide (classify_connection_error e = InternalKind) &&
         negb (match e with StreamDataBlocked _ | StreamShutWr _ => true | _ => false end)
      then push_connection_closed else mret tt
  end.

(** What wakes the [select] of [recv_event]. *)
Inductive wake :=
| FromSocket (d : bytes) (from : SocketAddr) (ecn : Z)
| SocketError (msg : string)
| TimerFired.

Definition report_closed : M cst Tokio.ConnectionEvent :=
  push_connection_closed ;;
  o ← poll_event;
  match o with Some event => mret event | None => throw ConnectionClosed end.

(** The loop up to [select]. *)
Definition before_select : M cst (option Tokio.ConnectionEvent) :=
  o ← poll_event;
  match o with
  | Some event => mret (Some event)
  | None =>
      closing ← on_conn (gets t_is_in_closing_period);
      draining ← on_conn (gets t_is_in_draining_period);
      if closing || draining then event ← report_closed; mret (Some event)
      else flush ;; drain_events ;; poll_event
  end.

(** The arms that only [recv_event] and [connect] share. *)
Definition received (d : bytes) (from : SocketAddr) (ecn : Z) : M cst unit :=
  ts ← in_world timestamp; handle_packet from d ts ecn.

(** The result of [handle_expiry] is dropped. *)
Definition timer_fired : M cst unit :=
  ts ← in_world timestamp;
  _ ← attempt (on_conn (t_handle_expiry ts));
  drain_events.

(** The wait of [select] in nanoseconds, computed from one more reading of the clock. *)
Definition timer_duration (c : ClientConnection) (now : Z) : Z :=
  let expiry := t_get_expiry (cl_conn c) in
  if now <? expiry then expiry - now else 1000000.

(** The loop of [recv_event]: [None] while it waits for inputs to come. *)
Fixpoint recv_loop (wakes : list wake) : M cst (option Tokio.ConnectionEvent) :=
  o ← before_select;
  match o with
  | Some event => mret (Some event)
  | None =>
      _ ← in_world timestamp;
      match wakes with
      | [] => mret None
      | FromSocket d from ecn :: wakes => received d from ecn ;; recv_loop wakes
      | SocketError msg :: _ => throw (Internal ("recv error: " +:+ msg))
      | TimerFired :: wakes => timer_fired ;; recv_loop wakes
      end
  end.

Definition recv_event (wakes : list wake) : M cst (option Tokio.ConnectionEvent) :=
  o ← poll_event;
  match o with
  | Some event => mret (Some event)
  | None =>
      closed ← cl is_closed;
      if (closed : bool) then event ← report_closed; mret (Some event)
      else recv_loop wakes
  end.

(** ** The other methods *)

Definition extend_max_stream_offset (stream_id : StreamId) (consumed : Z) : M cst unit :=
  on_conn (t_extend_max_stream_offset stream_id consumed) ;;
  on_conn (modify (t_extend_max_offset consumed)).
Definition extend_max_streams_bidi (n : Z) : M cst unit :=
  on_conn (modify (t_extend_max_streams_bidi n)).
Definition extend_max_streams_uni (n : Z) : M cst unit :=
  on_conn (modify (t_extend_max_streams_uni n)).

(** [pending.remove] *)
Definition forget (stream_id : StreamId) : M cst unit :=
  set_cl (fun c => c <| cl_pending := Streams.remove stream_id (cl_pending c) |>).

Definition reset_stream (stream_id : StreamId) (error_code : Z) : M cst unit :=
  forget stream_id ;; on_conn (t_shutdown_stream_write stream_id error_code).
Definition reset_stream_reliable (stream_id : StreamId) (error_code : Z) : M cst unit :=
  forget stream_id ;; on_conn (t_shutdown_stream_write_reliable stream_id error_code).
Definition stop_sending (stream_id : StreamId) (error_code : Z) : M cst unit :=
  on_conn (t_shutdown_stream_read stream_id error_code).
Definition close_stream (stream_id : StreamId) (error_code : Z) : M cst unit :=
  forget stream_id ;; on_conn (t_shutdown_stream stream_id error_code).

Definition send_datagram (d : bytes) : M cst unit :=
  cfg ← cl cl_datagram;
  if Tokio.max_tx_datagram_size cfg <? slen d then
    throw (InvalidArgument "datagram size exceeds max_tx_datagram_size")
  else
    ts ← in_world timestamp;
    buf ← cl cl_send_buf;
    '(written, accepted, path, info, buf) ← on_conn (t_write_datagram buf d ts);
    set_cl (fun c => c <| cl_send_buf := buf |>) ;;
    if negb accepted then mret tt
    else
      packets ← (
        if 0 <? written then
           data ← Streams.prefix buf written;
           p ← try (Streams.from_written data path (ecn info));
           mret [p]
         else
           fuel ← cl (write_fuel ts);
           on_io (Streams.write_control_packets fuel ts) : M cst (list Streams.OutgoingPacket));
      send_packets packets.

(** [migrate] with the address of the new socket, or the error of binding it. *)
Definition migrate (socket : result Error SocketAddr) : M cst unit :=
  match socket with
  | Err _ => throw (Internal "failed to bind socket")
  | Ok bound =>
      remote_addr ← cl cl_remote_addr;
      ts ← in_world timestamp;
      on_conn (t_initiate_migration {| local := bound; remote := remote_addr |} ts) ;;
      in_world (modify (fun w => w <| sockets := Tokio.mkSockets bound None |>)) ;;
      set_cl (fun c => c <| cl_local_addr := bound |>) ;;
      flush
  end.

Definition take_new_token : M cst (option bytes) := on_conn (call t_take_new_token).
Definition take_session_ticket : M cst (option Conn.SessionTicket) :=
  on_conn t_take_session_ticket.

Definition initiate_key_update : M cst unit :=
  ts ← in_world timestamp; on_conn (t_initiate_key_update ts).

Definition close (error_code : Z) (reason : bytes) : M cst unit :=
  closed ← cl is_closed;
  if (closed : bool) then mret tt
  else
    ts ← in_world timestamp;
    buf ← cl cl_send_buf;
    '(written, buf) ← on_conn (t_write_connection_close_app buf error_code reason ts);
    set_cl (fun c => c <| cl_send_buf := buf |>) ;;
    (if 0 <? written then
       d ← Streams.prefix buf written;
       local_addr ← cl cl_local_addr;
       remote_addr ← cl cl_remote_addr;
       packets ← Streams.close_packets d local_addr remote_addr 0;
       send_packets packets
     else mret tt) ;;
    set_cl (fun c => c <| cl_closed := true |>).

Definition ClientConnection_new (local_addr remote_addr : SocketAddr) (i : conn)
    (datagram : Tokio.DatagramConfig) (qlog : Tokio.QlogWriter) : ClientConnection :=
  mkClientConnection local_addr remote_addr i Streams.pending_new [] false new_send_buf
    datagram qlog.

(** ** Connecting *)

Definition default_local_addr (remote_addr : SocketAddr) : SocketAddr :=
  match remote_addr with
  | SockV4 _ _ => SockV4 [0; 0; 0; 0] 0
  | SockV6 _ _ _ _ => SockV6 (repeat 0 16) 0 0 0
  end.

(** What the client uses of the TLS context, the constructors of [Connection], the
    socket and the file system. *)
Class Endpoint := {
  tls_context : Type;
  tls_session : Type;
  session_ticket : Type;
  new_client_with_options : list bytes -> bool -> result Error tls_context;
  add_ca_cert_pem : string -> tls_context -> result Error tls_context;
  create_session : tls_context -> result Error tls_session;
  bind_socket : SocketAddr -> result Error SocketAddr;
  client_new : ConnectionId -> ConnectionId -> SocketAddr -> SocketAddr -> QuicVersion ->
    string -> tls_session -> Params.TransportParams -> Params.Settings ->
    outcome (result Error conn);
  client_new_with_0rtt : ConnectionId -> ConnectionId -> SocketAddr -> SocketAddr ->
    QuicVersion -> string -> tls_session -> Params.TransportParams -> Params.Settings ->
    session_ticket -> outcome (result Error conn);
  create_dir_all : string -> result Error unit;
  create_file : string -> string -> result Error Tokio.file }.

Context {ep : Endpoint}.

Fixpoint add_ca_certs (pems : list string) (ctx : tls_context) : result Error tls_context :=
  match pems with
  | [] => Ok ctx
  | pem :: pems =>
      match add_ca_cert_pem pem ctx with
      | Ok ctx => add_ca_certs pems ctx
      | Err e => Err e
      end
  end.

Definition from_outcome {S A} (o : outcome (result Error A)) : M S A :=
  match o with Panic => panic | Ret r => try r end.

(** The loop that drives the handshake; [false] while it waits for inputs. The input
    [None] is the deadline. *)
Fixpoint handshake_loop (wakes : list (option wake)) : M cst bool :=
  flush ;;
  early ← on_conn (gets t_is_in_early_data);
  completed ← on_conn (gets t_is_handshake_completed);
  if early || completed then mret true
  else
    closed ← cl is_closed;
    if (closed : bool) then throw ConnectionClosed
    else
      _ ← in_world timestamp;
      match wakes with
      | [] => mret false
      | Some (FromSocket d from ecn) :: wakes => received d from ecn ;; handshake_loop wakes
      | Some (SocketError msg) :: _ => throw (Internal ("recv error: " +:+ msg))
      | Some TimerFired :: wakes => timer_fired ;; handshake_loop wakes
      | None :: _ => throw (Internal "handshake timeout")
      end.

(** Everything before the handshake. *)
Definition set_up (remote_addr local_addr : SocketAddr) (server_name : string)
    (config : ClientConfig) (ticket : option session_ticket) : M World ClientConnection :=
  ctx ← try (new_client_with_options (alpn_protocols config) (verify_peer config));
  ctx ← try (add_ca_certs (ca_cert_pem config) ctx);
  session ← try (create_session ctx);
  match bind_socket local_addr with
  | Err _ => throw (Internal "failed to bind socket")
  | Ok bound =>
      modify (fun w => w <| sockets := Tokio.mkSockets bound None |>) ;;
      let params := effective_transport_params config in
      dcid ← random_cid 16;
      match dcid with
      | None => throw (Internal "failed to generate dcid")
      | Some dcid =>
          scid ← random_cid 16;
          match scid with
          | None => throw (Internal "failed to generate scid")
          | Some scid =>
              ts ← timestamp;
              let s := (settings config)
                <| Params.initial_ts := ts |>
                <| Params.qlog := bool_decide (is_Some (qlog_dir config)) |> in
              i ← from_outcome
                    match ticket with
                    | Some ticket => client_new_with_0rtt dcid scid bound remote_addr
                        (quic_version config) server_name session params s ticket
                    | None => client_new dcid scid bound remote_addr
                        (quic_version config) server_name session params s
                    end;
              let qlog :=
                match qlog_dir config with
                | Some dir => Tokio.qlog_new (create_dir_all dir)
                    (create_file dir (Tokio.file_name "client-" scid))
                | None => Tokio.qlog_disabled
                end in
              mret (ClientConnection_new bound remote_addr i (datagram config) qlog)
          end
      end
  end.

(** [connect_inner]; [None] while the handshake waits for inputs. The wake-up of
    [sleep_until(deadline)] is [None] in [wakes]. *)
Definition connect_inner (remote_addr local_addr : SocketAddr) (server_name : string)
    (config : ClientConfig) (ticket : option session_ticket) (wakes : list (option wake))
    : M World (option ClientConnection) := fun w =>
  match (c ← set_up remote_addr local_addr server_name config ticket;
         deadline ← deadline_after (handshake_timeout config);
         mret (c, deadline)) w with
  | Done (c, _) w =>
      match handshake_loop wakes (c, w) with
      | Done true (c, w) => Done (Some c) w
      | Done false (_, w) => Done None w
      | Fail e (_, w) => Fail e w
      | Panics => Panics
      | Diverges => Diverges
      end
  | Fail e w => Fail e w
  | Panics => Panics
  | Diverges => Diverges
  end.

Definition connect_with_config (remote_addr local_addr : SocketAddr) (server_name : string)
    (config : ClientConfig) : list (option wake) -> M World (option ClientConnection) :=
  connect_inner remote_addr local_addr server_name config None.
Definition connect_with_early_data (remote_addr local_addr : SocketAddr) (server_name : string)
    (config : ClientConfig) (ticket : session_ticket)
    : list (option wake) -> M World (option ClientConnection) :=
  connect_inner remote_addr local_addr server_name config (Some ticket).
Definition connect (default : Params.ngtcp2_settings) (default_params : Params.TransportParams)
    (remote_addr : SocketAddr) (server_name : string)
    : list (option wake) -> M World (option ClientConnection) :=
  connect_with_config remote_addr (default_local_addr remote_addr) server_name
    (with_verify_peer false (ClientConfig_new default default_params [DEFAULT_ALPN])).

(** ** Lemmas *)

(** What taking the events [es] does. *)
Record drained (es : list Callbacks.ConnectionEvent) (c c' : ClientConnection) : Prop := {
  dr_events : cl_events c' = cl_events c ++ map Tokio.from es;
  dr_left : t_events (cl_conn c') = [];
  dr_remote : cl_remote_addr c' = foldl (fun a e =>
    match e with Callbacks.PathValidated path true => remote path | _ => a end) (cl_remote_addr c) es;
  dr_local : cl_local_addr c' = cl_local_addr c;
  dr_pending : cl_pending c' = cl_pending c;
  dr_closed : cl_closed c' = cl_closed c;
  dr_buf : cl_send_buf c' = cl_send_buf c;
  dr_datagram : cl_datagram c' = cl_datagram c }.

Context {doc : TransportDoc}.

Lemma client_drain_loop_spec fuel c w es :
  t_events (cl_conn c) = es -> (length es < fuel)%nat ->
  wp (drain_loop fuel) (c, w) (fun r s' => r = Ok tt /\ s'.2 = w /\ drained es c s'.1).
Proof.
  revert c es. induction fuel as [|fuel IH]; intros c es He Hf; [lia|].
  cbn [drain_loop]. apply wp_bind, wp_zoom, wp_zoom, wp_call. cbn.
  pose proof (poll_event_spec (cl_conn c)) as Hp. rewrite He in Hp.
  destruct es as [|e es]; rewrite Hp; cbn.
  - split; [done|]. split; [done|]. destruct c; constructor; cbn in *; by rewrite ?app_nil_r.
  - pose proof (poll_event_rest _ _ _ He) as Hrest.
    apply wp_bind, wp_zoom, wp_modify, wp_bind, wp_zoom, wp_modify. cbn [fst snd].
    eapply wp_mono; [apply (IH _ es); [|cbn in Hf; lia]|].
    { rewrite <- Hrest. by destruct e as [| | | | | | | | | | | | |path []]. }
    intros r s' (-> & Hw & Hd). split; [done|]. split; [done|].
    destruct Hd as [D1 D2 D3 D4 D5 D6 D7 D8].
    destruct e as [| | | | | | | | | | | | |path []]; cbn in *;
      (constructor; cbn; [rewrite D1; by rewrite <- app_assoc|done..]).
Qed.

Lemma client_drain_events_wp c w :
  wp drain_events (c, w) (fun r s' =>
    r = Ok tt /\ s'.2 = w /\ drained (t_events (cl_conn c)) c s'.1).
Proof. apply client_drain_loop_spec; [done|]. cbn. lia. Qed.

Lemma flush_wp c w :
  wp flush (c, w) (fun r s' =>
    cl_events s'.1 = cl_events c /\ cl_closed s'.1 = cl_closed c /\
    cl_local_addr s'.1 = cl_local_addr c /\ sockets s'.2 = sockets w).
Proof.
  unfold flush. apply wp_bind, wp_zoom. cbn. apply wp_bind, wp_gets, wp_bind, wp_zoom, wp_zoom.
  cbn [fst snd]. eapply wp_mono.
  { apply (Streams.write_loop_spec _ (fun _ _ => True)); try done.
    - intros. eapply wp_mono; [apply write_stream_spec|].
      by intros [[[[[? ?] ?] ?] ?]|[]] ? ?.
    - intros. by eapply wp_mono; [apply write_pkt_spec|].
    - unfold Streams.measure, write_fuel. cbn. lia. }
  intros [ps|e] io _; [|done]. apply wp_bind, wp_zoom, wp_zoom, wp_gets. cbn [fst snd].
  match goal with |- wp _ ?s0 _ => set (s1 := s0) end. apply wp_bind.
  apply (wp_mono _ _ (fun r s' => r = Ok tt /\
    exists a, s' = (s1.1 <| cl_remote_addr := a |>, s1.2))).
  { destruct (t_get_path _) as [path|].
    - apply wp_zoom, wp_modify. split; [done|]. by eexists.
    - apply wp_ret. split; [done|]. exists (cl_remote_addr s1.1). by destruct s1 as [[] ?]. }
  intros r s2 (-> & a & ->). apply wp_bind, wp_zoom, wp_modify, wp_zoom, wp_zoom.
  eapply wp_mono; [apply Tokio.qlog_write_wp|]. done.
Qed.

Lemma handle_packet_wp from d ts ecn c w :
  wp (handle_packet from d ts ecn) (c, w) (fun r s' => r = Ok tt /\ s'.2 = w /\
    cl_local_addr s'.1 = cl_local_addr c).
Proof.
  unfold handle_packet. apply wp_bind, wp_gets, wp_bind, wp_attempt, wp_zoom, wp_zoom. cbn [fst snd].
  eapply wp_mono; [apply read_pkt_total|]. intros r i _.
  apply wp_bind. eapply wp_mono; [apply client_drain_events_wp|]. intros r1 [c1 w1] (-> & Hw & Hd).
  cbn [fst snd] in *. subst w1. pose proof (dr_local _ _ _ Hd) as Hl. cbn in Hl.
  destruct r as [[]|e]; [by apply wp_ret|]. destruct (_ && _); [|by apply wp_ret].
  unfold push_connection_closed. apply wp_bind, wp_gets. cbn [fst snd].
  destruct (cl_closed c1); [by apply wp_ret|].
  by apply wp_bind, wp_zoom, wp_modify, wp_zoom, wp_modify.
Qed.

Lemma received_wp d from ecn s :
  wp (received d from ecn) s (fun r s' => r = Ok tt /\ sockets s'.2 = sockets s.2 /\
    cl_local_addr s'.1 = cl_local_addr s.1).
Proof.
  destruct s as [c w]. apply wp_bind, wp_zoom. cbn. eapply wp_mono; [apply handle_packet_wp|].
  intros r s' (-> & -> & ->). done.
Qed.

Lemma timer_fired_wp s :
  wp timer_fired s (fun r s' => r = Ok tt /\ sockets s'.2 = sockets s.2 /\
    cl_local_addr s'.1 = cl_local_addr s.1 /\ cl_closed s'.1 = cl_closed s.1 /\
    exists i es, (t_handle_expiry (clock (ticks s.2)) (cl_conn s.1) = Done tt i \/
                  exists e, t_handle_expiry (clock (ticks s.2)) (cl_conn s.1) = Fail e i) /\
      es = t_events i /\ cl_events s'.1 = cl_events s.1 ++ map Tokio.from es).
Proof.
  destruct s as [c w]. apply wp_bind, wp_zoom. cbn. apply wp_bind, wp_attempt, wp_zoom, wp_zoom.
  cbn [fst snd]. pose proof (handle_expiry_total (clock (ticks w)) (cl_conn c)) as Ht.
  unfold wp in Ht. unfold wp at 1.
  destruct (t_handle_expiry _ _) as [[] i|e i| |] eqn:He; [..|done|done];
    (eapply wp_mono; [apply client_drain_events_wp|]; intros r [c1 w1] (-> & Hw & Hd); cbn in *;
     subst w1; destruct Hd; cbn in *; split_and!; try done; exists i, (t_events i); eauto).
Qed.

(** ** Properties *)

(** [client_new] does not panic on connection ids of at most 20 bytes. *)
Class EndpointDoc : Prop := {
  client_new_ret dcid scid l r v name t p s : cid_ok dcid -> cid_ok scid ->
    exists res, client_new dcid scid l r v name t p s = Ret res;
  client_new_with_0rtt_ret dcid scid l r v name t p s ticket : cid_ok dcid -> cid_ok scid ->
    exists res, client_new_with_0rtt dcid scid l r v name t p s ticket = Ret res }.
Context {env_doc : EnvDoc} {ep_doc : EndpointDoc}.

Lemma set_up_wp remote_addr local_addr name config ticket w :
  wp (set_up remote_addr local_addr name config ticket) w (fun r w' =>
    match r with
    | Ok c => sockets w' = Tokio.mkSockets (cl_local_addr c) None /\ sent w' = sent w /\
        exists remote i qlog,
          c = ClientConnection_new (cl_local_addr c) remote i (datagram config) qlog
    | Err _ => True
    end).
Proof.
  unfold set_up. apply wp_bind, wp_try. destruct (new_client_with_options _ _) as [ctx|]; [|done].
  apply wp_bind, wp_try. destruct (add_ca_certs _ _) as [ctx'|]; [|done].
  apply wp_bind, wp_try. destruct (create_session _) as [session|]; [|done].
  destruct (bind_socket local_addr) as [bound|]; [|done]. apply wp_bind, wp_modify. cbv zeta.
  apply wp_bind. unfold wp at 1. destruct (random_cid 16 _) as [[dcid|] w1|? ?| |] eqn:H1; try done.
  apply random_cid_ok in H1 as (Hd & _ & _ & ->).
  apply wp_bind. unfold wp at 1. destruct (random_cid 16 _) as [[scid|] w2|? ?| |] eqn:H2; try done.
  apply random_cid_ok in H2 as (Hs & _ & _ & ->).
  apply wp_bind. unfold wp at 1, timestamp. apply wp_bind. destruct ticket as [ticket|].
  - edestruct client_new_with_0rtt_ret as [res ->]; [exact Hd|exact Hs|].
    destruct res; [|done]. split; [done|]. split; [done|]. by do 3 eexists.
  - edestruct client_new_ret as [res ->]; [exact Hd|exact Hs|].
    destruct res; [|done]. split; [done|]. split; [done|]. by do 3 eexists.
Qed.

Lemma handshake_wp wakes s :
  wp (handshake_loop wakes) s (fun r s' =>
    sockets s'.2 = sockets s.2 /\ cl_local_addr s'.1 = cl_local_addr s.1 /\
    match r with
    | Ok true => t_is_in_early_data (cl_conn s'.1) || t_is_handshake_completed (cl_conn s'.1) = true
    | Ok false => None ∉ wakes /\ forall msg, Some (SocketError msg) ∉ wakes
    | Err e => True
    end).
Proof.
  revert s. induction wakes as [|w wakes IH]; intros [c w0]; cbn [handshake_loop];
    (apply wp_bind; eapply wp_mono; [apply flush_wp|]);
    intros [[]|e] [c1 w1] (_ & _ & Hl & Hsock); cbn [fst snd] in *;
    try (split; [done|]; by split);
    apply wp_bind, wp_zoom, wp_zoom, wp_gets, wp_bind, wp_zoom, wp_zoom, wp_gets; cbn [fst snd];
    (replace (c1 <| cl_conn := cl_conn c1 |> <| cl_conn := cl_conn c1 |>) with c1 by by destruct c1);
    (destruct (_ || _) eqn:Hor; [by apply wp_ret|]);
    (apply wp_bind, wp_gets; cbn [fst snd]; destruct (is_closed c1); [by apply wp_throw|]);
    apply wp_bind, wp_zoom; unfold wp at 1, timestamp; cbn [fst snd].
  { apply wp_ret. split; [done|]. split; [done|].
    split; [by intros ?%elem_of_nil|by intros ? ?%elem_of_nil]. }
  assert (forall s2 x, w = Some x -> (forall msg, x <> SocketError msg) ->
    sockets s2.2 = sockets w1 -> cl_local_addr s2.1 = cl_local_addr c1 ->
    wp (handshake_loop wakes) s2 (fun r s' =>
      sockets s'.2 = sockets w0 /\ cl_local_addr s'.1 = cl_local_addr c /\
      match r with
      | Ok true => t_is_in_early_data (cl_conn s'.1) || t_is_handshake_completed (cl_conn s'.1) = true
      | Ok false => None ∉ w :: wakes /\ forall msg, Some (SocketError msg) ∉ w :: wakes
      | Err e => True
      end)) as Hgo.
  { intros s2 x -> Hx Hs2 Hl2. eapply wp_mono; [apply IH|]. intros r s3 (H1 & H2 & H3).
    split; [congruence|]. split; [congruence|]. destruct r as [[]|]; [done| |done].
    destruct H3 as [H3 H4]. split; [by intros [|]%elem_of_cons|].
    intros msg [[= <-]|]%elem_of_cons; [by eapply Hx|by eapply H4]. }
  destruct w as [[d from ecn|msg|]|]; [..|by apply wp_throw].
  - apply wp_bind. eapply wp_mono; [apply received_wp|]. intros r s2 (-> & H1 & H2).
    eapply (Hgo s2 (FromSocket d from ecn)); try done; congruence.
  - by apply wp_throw.
  - apply wp_bind. eapply wp_mono; [apply timer_fired_wp|]. intros r s2 (-> & H1 & H2 & _).
    eapply (Hgo s2 TimerFired); try done; congruence.
Qed.

(** The deadline of the handshake is past what an [Instant] can hold. *)
Definition deadline_overflows (config : ClientConfig) : Prop :=
  exists n, instant_add (monotonic n) (handshake_timeout config) = None.

(** What [connect_inner] does is what the handshake does with the connection of [set_up],
    unless the deadline overflows. *)
Lemma connect_inner_wpp remote_addr local_addr name config ticket wakes w
    (Q : result Error (option ClientConnection) -> World -> Prop) :
  (forall e w', Q (Err e) w') ->
  wp (set_up remote_addr local_addr name config ticket) w (fun r w1 =>
    match r with
    | Ok c => wp (handshake_loop wakes) (c, w1) (fun r s =>
        Q (match r with Ok true => Ok (Some s.1) | Ok false => Ok None | Err e => Err e end) s.2)
    | Err _ => True
    end) ->
  wpp (deadline_overflows config)
    (connect_inner remote_addr local_addr name config ticket wakes) w Q.
Proof.
  intros Herr. unfold wpp, wp at 1, connect_inner, mbind, M_bind, deadline_after.
  destruct (set_up _ _ _ _ _ w) as [c w1|e w1| |]; [|by intros|done|done].
  destruct (instant_add _ _) eqn:Ho; cbn; [|intros _; by eexists].
  unfold wp. by destruct (handshake_loop wakes (c, w1)) as [[] [? ?]|? [? ?]| |].
Qed.

(** C24: connecting is safe and ends in time: whatever arrives while the handshake runs,
    [connect] does not diverge, and it does not panic unless the handshake timeout is so
    long that the deadline overflows an [Instant]; it returns a connection only when 0-RTT
    data can be sent or the handshake is complete, with the address of its socket; and it
    does not wait beyond the handshake deadline or an error of the socket. *)
Theorem connect_safe (remote_addr local_addr : SocketAddr) (name : string)
    (config : ClientConfig) (ticket : option session_ticket) (wakes : list (option wake))
    (w : World) :
  wpp (deadline_overflows config)
    (connect_inner remote_addr local_addr name config ticket wakes) w (fun r w' =>
    match r with
    | Ok (Some c) =>
        t_is_in_early_data (cl_conn c) || t_is_handshake_completed (cl_conn c) = true /\
        cl_local_addr c = Tokio.primary_addr (sockets w')
    | Ok None => None ∉ wakes /\ forall msg, Some (SocketError msg) ∉ wakes
    | Err _ => True
    end).
Proof.
  apply connect_inner_wpp; [done|]. eapply wp_mono; [apply set_up_wp|].
  intros [c|e] w1; [|done]. intros (Hl & _). eapply wp_mono; [apply handshake_wp|].
  intros [[]|e] s; cbn; [|by intros (_ & _ & ?)|done].
  intros (H1 & H2 & H3). split; [done|]. by rewrite H1, Hl, H2.
Qed.

(** Every event of a packet that the client reads is queued once and in order, the
    peer's address follows the last validated path, and the end of the connection is
    reported only for an internal error; nothing panics. *)
Theorem handle_packet_delivers (from : SocketAddr) (d : bytes) (ts ecn : Z)
    (c : ClientConnection) (w : World) :
  wp (handle_packet from d ts ecn) (c, w) (fun r s' => r = Ok tt /\ s'.2 = w /\
    exists i, t_events (cl_conn s'.1) = [] /\
      cl_remote_addr s'.1 = foldl (fun a e =>
        match e with Callbacks.PathValidated path true => remote path | _ => a end)
        (cl_remote_addr c) (t_events i) /\
      match t_read_pkt {| local := cl_local_addr c; remote := from |} {| ecn := ecn |} d ts
              (cl_conn c) with
      | Done _ i' => i = i' /\ cl_closed s'.1 = cl_closed c /\
          cl_events s'.1 = cl_events c ++ map Tokio.from (t_events i)
      | Fail e i' => i = i' /\
          exists last, cl_events s'.1 = cl_events c ++ map Tokio.from (t_events i) ++ last /\
          (last = [] \/ classify_connection_error e = InternalKind /\ cl_closed c = false /\
                        cl_closed s'.1 = true /\ length last = 1%nat)
      | _ => False
      end).
Proof.
  unfold handle_packet. apply wp_bind, wp_gets, wp_bind, wp_attempt, wp_zoom, wp_zoom. cbn [fst snd].
  pose proof (read_pkt_total {| local := cl_local_addr c; remote := from |} {| ecn := ecn |} d ts
    (cl_conn c)) as Ht. unfold wp in Ht at 1. unfold wp at 1.
  destruct (t_read_pkt _ _ d ts (cl_conn c)) as [[] i|e i| |]; [..|done|done];
    (apply wp_bind; eapply wp_mono; [apply client_drain_events_wp|]);
    intros r1 [c1 w1] (-> & Hw & [D1 D2 D3 _ _ D6 _ _]); cbn in *; subst w1.
  - split; [done|]. split; [done|]. exists i. done.
  - destruct (_ && _) eqn:Hi.
    + apply andb_prop in Hi as [Hi%bool_decide_eq_true _].
      unfold push_connection_closed, wp, mbind, M_bind. cbn. rewrite D6.
      destruct (cl_closed c) eqn:Hc; cbn; (split; [done|]; split; [done|]; exists i; split_and!; try done).
      * exists []. rewrite app_nil_r. by split; [|left].
      * eexists. split; [by rewrite D1, <- app_assoc|]. by right.
    + split; [done|]. split; [done|]. exists i. split_and!; try done. exists [].
      rewrite app_nil_r. by split; [|left].
Qed.

(** The client drops the error of an expired timer: whatever [handle_expiry] reports,
    the idle timeout of the connection included, the timer branch marks nothing closed
    and queues only the events of the connection. *)
Theorem expiry_error_dropped (c : ClientConnection) (w : World) :
  wp timer_fired (c, w) (fun r s' => r = Ok tt /\ cl_closed s'.1 = cl_closed c /\
    match t_handle_expiry (clock (ticks w)) (cl_conn c) with
    | Done _ i | Fail _ i => cl_events s'.1 = cl_events c ++ map Tokio.from (t_events i)
    | _ => False
    end).
Proof.
  eapply wp_mono; [apply timer_fired_wp|].
  intros r s' (-> & _ & _ & Hc & i & es & Hi & -> & He). cbn in *. split; [done|]. split; [done|].
  destruct Hi as [-> | [e ->]]; done.
Qed.

(** When the connection writes a packet without the datagram, which it does when other
    frames leave no room for it, the packet is dropped: the call succeeds and nothing is
    sent. *)
Theorem unaccepted_packet_dropped (c : ClientConnection) (w : World) (d : bytes) written path info buf i :
  slen d <= Tokio.max_tx_datagram_size (cl_datagram c) ->
  t_write_datagram (cl_send_buf c) d (clock (ticks w)) (cl_conn c) = Done (written, false, path, info, buf) i ->
  exists c' w', send_datagram d (c, w) = Done tt (c', w') /\ cl_conn c' = i /\ sent w' = sent w.
Proof.
  intros Hd Hw. unfold send_datagram, mbind, M_bind, cl, gets. cbn.
  destruct (Z.ltb_spec (Tokio.max_tx_datagram_size (cl_datagram c)) (slen d)); [lia|]. cbn.
  unfold on_conn, on_cl, zoom. cbn. rewrite Hw. by do 2 eexists.
Qed.
End client.

(** ** Witnesses *)

#[local] Instance client_env : Env := {|
  clock n := Z.of_nat n mod 2 ^ 64; monotonic n := Z.of_nat n mod 2 ^ 64;
  entropy n len := Some (repeat (Z.of_nat n mod 256) (Z.to_nat len)) |}.
#[local] Instance client_env_doc : EnvDoc.
Proof.
  constructor.
  - intros n. cbn. unfold is_u64, u64_max. lia.
  - intros n len b Hlen [= <-]. unfold slen. rewrite repeat_length. lia.
Qed.
#[local] Existing Instances toy_transport toy_transport_budget toy_transport_doc.

(** The handshake of this endpoint completes with the first packet. *)
#[local] Instance client_endpoint : Endpoint := {|
  tls_context := unit; tls_session := unit; session_ticket := unit;
  new_client_with_options _ _ := Ok tt; add_ca_cert_pem _ _ := Ok tt; create_session _ := Ok tt;
  bind_socket a := Ok (SockV4 [127; 0; 0; 1] 5000);
  client_new _ _ _ _ _ _ _ _ _ := Ret (Ok (toy_new : conn));
  client_new_with_0rtt _ _ _ _ _ _ _ _ _ _ := Ret (Ok (toy_new : conn));
  create_dir_all _ := Ok tt; create_file _ _ := Ok (Tokio.mkFile [] 0) |}.
#[local] Instance client_endpoint_doc : EndpointDoc.
Proof. constructor; intros; by eexists. Qed.

Definition client_world : World :=
  mkWorld 0 0 (Tokio.mkSockets (SockV4 [0; 0; 0; 0] 0) None) [] shared_new Alone.
Definition toy_client_on (t : toy) : ClientConnection :=
  ClientConnection_new (SockV4 [127; 0; 0; 1] 5000) (SockV4 [127; 0; 0; 1] 4433)
    (t : conn) Tokio.DatagramConfig_default None.
Definition toy_client : ClientConnection := toy_client_on toy_new.

Lemma no_deadline_overflow :
  ~ deadline_overflows (ClientConfig_new Params.toy_default Params.toy_params [DEFAULT_ALPN]).
Proof.
  intros [n Hn]. unfold instant_add in Hn. cbn [monotonic client_env] in Hn.
  pose proof (Z.mod_pos_bound (Z.of_nat n) (2 ^ 64) eq_refl).
  change (handshake_timeout _) with 10000000000 in Hn. unfold instant_max in Hn.
  destruct (Z.leb_spec (Z.of_nat n mod 2 ^ 64 + 10000000000) (2 ^ 63 * 1000000000 - 1)); [done|lia].
Qed.

Lemma connect_safe_witness :
  wp (connect_inner (SockV4 [127; 0; 0; 1] 4433) (SockV4 [0; 0; 0; 0] 0) "localhost"
        (ClientConfig_new Params.toy_default Params.toy_params [DEFAULT_ALPN]) None
        [Some TimerFired; None]) client_world (fun r _ => r <> Ok None).
Proof.
  apply (wpp_not (deadline_overflows _) _ _ _ no_deadline_overflow). eapply wpp_mono.
  { apply (connect_safe (SockV4 [127; 0; 0; 1] 4433) (SockV4 [0; 0; 0; 0] 0)
      "localhost" (ClientConfig_new Params.toy_default Params.toy_params [DEFAULT_ALPN]) None
      [Some TimerFired; None] client_world). }
  intros r w' Hr ->. destruct Hr as [Hr _]. apply Hr. right. left.
Defined.

(** A timeout of [Duration::MAX] is accepted by [with_handshake_timeout], and [connect] panics. *)
Example longest_timeout_panics :
  connect_inner (SockV4 [127; 0; 0; 1] 4433) (SockV4 [0; 0; 0; 0] 0) "localhost"
    (with_handshake_timeout (u64_max * 1000000000 + 999999999)
      (ClientConfig_new Params.toy_default Params.toy_params [DEFAULT_ALPN])) None [] client_world
  = Panics.
Proof. reflexivity. Qed.

Lemma handle_packet_delivers_witness :
  wp (handle_packet (SockV4 [127; 0; 0; 1] 4433) [7] 3 0) (toy_client, client_world)
    (fun _ s' => cl_events s'.1 = [Tokio.StreamData 4 [7] true]).
Proof.
  eapply wp_mono; [apply (handle_packet_delivers (SockV4 [127; 0; 0; 1] 4433) [7] 3 0
    toy_client client_world)|].
  intros r s' (_ & _ & i & _ & _ & H). cbn in H. destruct H as (-> & _ & ->). reflexivity.
Defined.

Lemma expiry_error_dropped_witness :
  wp timer_fired (toy_client_on (toy_new <| ty_idle := true |>), client_world)
    (fun r s' => r = Ok tt /\ cl_closed s'.1 = false /\ cl_events s'.1 = []).
Proof.
  eapply wp_mono; [apply (expiry_error_dropped
    (toy_client_on (toy_new <| ty_idle := true |>)) client_world)|].
  intros r s' (-> & -> & H). split; [reflexivity|]. split; [reflexivity|]. exact H.
Defined.
End Client.
