(* ===== verification/ClientInv.v ===== *)
(** * Properties of client connections (src/tokio-ngtcp2/src/client.rs)

    The invariant of [ClientConnection] that its types promise, kept by every method;
    what [recv_event] returns; and how the end of a connection is reported. *)
From S2P Require Import Prelude Types Errors Tokens Params Conn Callbacks Effects Transport.
From S2P Require Import Streams Routes Tokio World Client.
Import Types Errors Tokens Effects Transport World Client.

Module ClientInv.

(** The calls of the application that change a connection, their results left out. *)
Inductive method :=
| RecvEvent (wakes : list wake)
| WriteStream (stream_id : StreamId) (d : bytes) (fin : bool)
| OpenBidiStream | OpenUniStream | PollEvent | Flush
| ExtendMaxStreamOffset (stream_id : StreamId) (consumed : Z)
| ExtendMaxStreamsBidi (n : Z) | ExtendMaxStreamsUni (n : Z)
| ResetStream (stream_id : StreamId) (error_code : Z)
| ResetStreamReliable (stream_id : StreamId) (error_code : Z)
| StopSending (stream_id : StreamId) (error_code : Z)
| CloseStream (stream_id : StreamId) (error_code : Z)
| SendDatagram (d : bytes) | Migrate (socket : result Error SocketAddr)
| TakeNewToken | TakeSessionTicket | InitiateKeyUpdate
| Close (error_code : Z) (reason : bytes).

Section inv.
Context {env : Env} {tr : Transport} {bud : TransportBudget}.
Notation cst := (ClientConnection * World)%type.

Definition run_method (m : method) : M cst unit :=
  match m with
  | RecvEvent wakes => _ ← recv_event wakes; mret tt
  | WriteStream id d fin => _ ← write_stream id d fin; mret tt
  | OpenBidiStream => _ ← open_bidi_stream; mret tt
  | OpenUniStream => _ ← open_uni_stream; mret tt
  | PollEvent => _ ← poll_event; mret tt
  | Flush => flush
  | ExtendMaxStreamOffset id n => extend_max_stream_offset id n
  | ExtendMaxStreamsBidi n => extend_max_streams_bidi n
  | ExtendMaxStreamsUni n => extend_max_streams_uni n
  | ResetStream id code => reset_stream id code
  | ResetStreamReliable id code => reset_stream_reliable id code
  | StopSending id code => stop_sending id code
  | CloseStream id code => close_stream id code
  | SendDatagram d => send_datagram d
  | Migrate socket => migrate socket
  | TakeNewToken => _ ← take_new_token; mret tt
  | TakeSessionTicket => _ ← take_session_ticket; mret tt
  | InitiateKeyUpdate => initiate_key_update
  | Close code reason => close code reason
  end.

(** ** The invariant *)

(** The send buffer has its length, the queue agrees with its order, and the client has
    one socket, whose address it knows. *)
Record client_ok (s : cst) : Prop := {
  ci_buf : slen (cl_send_buf s.1) = SEND_BUFFER_SIZE;
  ci_pending : Streams.pending_wf (cl_pending s.1);
  ci_socket : sockets s.2 = Tokio.mkSockets (cl_local_addr s.1) None }.

(** A packet that leaves from the client's socket. *)
Definition own_packet (local_addr : SocketAddr) (p : SocketAddr * Streams.OutgoingPacket) : Prop :=
  p.1 = local_addr /\ 0 < slen (Streams.op_data p.2) <= SEND_BUFFER_SIZE.

(** What every method does besides: a closed connection stays closed, the configuration
    stays, the packets that are sent are the client's own, and nothing that tasks share
    is touched. *)
Record moves (s s' : cst) : Prop := {
  mv_ok : client_ok s';
  mv_closed : cl_closed s.1 = true -> cl_closed s'.1 = true;
  mv_datagram : cl_datagram s'.1 = cl_datagram s.1;
  mv_shared : same_shared s.2 s'.2;
  mv_sent : exists ps, sent s'.2 = sent s.2 ++ ps /\ Forall (own_packet (cl_local_addr s'.1)) ps }.

(** The methods other than [migrate] keep the address. *)
Definition kept (s s' : cst) : Prop := moves s s' /\ cl_local_addr s'.1 = cl_local_addr s.1.

Lemma cl_kept_refl s : client_ok s -> kept s s.
Proof.
  intros Hs. split; [|done]. constructor; try done. exists []. by rewrite app_nil_r.
Qed.

Lemma moves_kept s1 s2 s3 : moves s1 s2 -> kept s2 s3 -> moves s1 s3.
Proof.
  intros [O1 C1 D1 S1 (p1 & P1 & F1)] [[O2 C2 D2 S2 (p2 & P2 & F2)] L].
  constructor; [done|auto|congruence|by etrans|].
  exists (p1 ++ p2). rewrite P2, P1, <- app_assoc. split; [done|].
  apply Forall_app. split; [|done]. by rewrite L.
Qed.

Lemma cl_kept_trans s1 s2 s3 : kept s1 s2 -> kept s2 s3 -> kept s1 s3.
Proof. intros [H1 L1] H2. split; [by eapply moves_kept|]. rewrite <- L1. apply H2. Qed.

(** ** Commands that keep the invariant *)

Definition safe {A} (m : M cst A) : Prop := forall s,
  client_ok s -> wp m s (fun _ s' => kept s s').

Lemma cl_safe_ret {A} (a : A) : safe (mret a).
Proof. intros s Hs. by apply wp_ret, cl_kept_refl. Qed.

Lemma cl_safe_throw {A} e : safe (throw e : M cst A).
Proof. intros s Hs. by apply wp_throw, cl_kept_refl. Qed.

Lemma cl_safe_bind {A B} (m : M cst A) (f : A -> M cst B) :
  safe m -> (forall a, safe (f a)) -> safe (m ≫= f).
Proof.
  intros Hm Hf s Hs. apply wp_bind. eapply wp_mono; [by apply Hm|]. intros [a|e] s1 H1; [|done].
  eapply wp_mono; [apply Hf, H1|]. intros r s2. by apply cl_kept_trans.
Qed.

(** [m] keeps the invariant and says of its result what the rest needs. *)
Definition gives {A} (P : A -> Prop) (m : M cst A) (s : cst) : Prop :=
  wp m s (fun r s' => kept s s' /\ match r with Ok a => P a | Err _ => True end).

Lemma gives_bind {A B} (P : A -> Prop) (Q : B -> Prop) (m : M cst A) (f : A -> M cst B) s :
  gives P m s -> (forall a s', P a -> client_ok s' -> gives Q (f a) s') -> gives Q (m ≫= f) s.
Proof.
  intros Hm Hf. apply wp_bind. eapply wp_mono; [exact Hm|]. intros [a|e] s1 [H1 Ha]; [|done].
  eapply wp_mono; [apply Hf; [done|apply H1]|]. intros r s2 [H2 Hr]. split; [|done].
  by eapply cl_kept_trans.
Qed.

Lemma gives_safe {A} (P : A -> Prop) (m : M cst A) s :
  gives P m s -> wp m s (fun _ s' => kept s s').
Proof. intros H. eapply wp_mono; [exact H|]. by intros r s' [? _]. Qed.

Lemma safe_gives {A} (P : A -> Prop) (m : M cst A) s :
  safe m -> client_ok s -> (forall a, P a) -> gives P m s.
Proof. intros Hm Hs HP. eapply wp_mono; [by apply Hm|]. by intros [] ? ?. Qed.

Lemma cl_safe_attempt {A} (m : M cst A) : safe m -> safe (attempt m).
Proof. intros Hm s Hs. apply wp_attempt. by apply Hm. Qed.

Lemma cl_safe_get {A} (f : ClientConnection -> A) : safe (cl f).
Proof. intros s Hs. by apply wp_gets, cl_kept_refl. Qed.

(** The connection of the crate ngtcp2 is no part of the invariant. *)
Lemma cl_safe_conn {A} (m : M conn A) : (forall i, wp m i (fun _ _ => True)) -> safe (on_conn m).
Proof.
  intros Hm s Hs. apply wp_zoom, wp_zoom. eapply wp_mono; [apply Hm|]. intros r i _.
  destruct (cl_kept_refl s Hs) as [[[] ?] ?]. split; [|done]. by constructor.
Qed.

Lemma cl_safe_gets {A} (f : conn -> A) : safe (on_conn (gets f)).
Proof. apply cl_safe_conn. intros i. by apply wp_gets. Qed.

Lemma cl_safe_call {A} (f : conn -> conn * A) : safe (on_conn (call f)).
Proof. apply cl_safe_conn. intros i. by apply wp_call. Qed.

Lemma cl_safe_modify (f : conn -> conn) : safe (on_conn (modify f)).
Proof. apply cl_safe_conn. intros i. by apply wp_modify. Qed.

(** A change of the other fields. *)
Definition harmless (f : ClientConnection -> ClientConnection) : Prop := forall c,
  (slen (cl_send_buf c) = SEND_BUFFER_SIZE -> slen (cl_send_buf (f c)) = SEND_BUFFER_SIZE) /\
  (Streams.pending_wf (cl_pending c) -> Streams.pending_wf (cl_pending (f c))) /\
  (cl_closed c = true -> cl_closed (f c) = true) /\
  cl_local_addr (f c) = cl_local_addr c /\ cl_datagram (f c) = cl_datagram c.

Lemma cl_safe_set f : harmless f -> safe (set_cl f).
Proof.
  intros Hf s [Hb Hp Hw]. apply wp_zoom, wp_modify. destruct (Hf s.1) as (F1 & F2 & F3 & F4 & F5).
  split; [|done]. constructor; cbn; [constructor; cbn; rewrite ?F4; auto|auto..|].
  exists []. by rewrite app_nil_r.
Qed.

Lemma cl_safe_timestamp : safe (in_world timestamp).
Proof.
  intros s Hs. apply wp_zoom. unfold wp, timestamp. cbn. destruct (cl_kept_refl s Hs) as [[[] ?] ?].
  split; [|done]. by constructor.
Qed.

Lemma cl_safe_send ps :
  Forall (Streams.sane SEND_BUFFER_SIZE) ps -> safe (send_packets ps).
Proof.
  intros Hps s Hs. apply wp_zoom, wp_modify. split; [|done].
  pose proof (ci_socket _ Hs) as Hsock. constructor; try done; cbn.
  - by destruct Hs.
  - eexists. split; [done|]. apply Forall_map. eapply Forall_impl; [exact Hps|].
    intros p Hp. split; [|done]. unfold Tokio.socket_for. cbn. by rewrite Hsock.
Qed.

Lemma cl_safe_poll : safe poll_event.
Proof.
  intros s Hs. unfold wp, poll_event. destruct (cl_events s.1); [by apply cl_kept_refl|].
  destruct (cl_kept_refl s Hs) as [[[] ?] ?]. split; [|done]. by constructor.
Qed.

Lemma cl_safe_note event : safe (set_cl (note_path event)).
Proof. apply cl_safe_set. intros c. by destruct event as [| | | | | | | | | | | | |path []]. Qed.

Lemma cl_safe_push_event f : safe (set_cl (fun c => c <| cl_events := f c |>)).
Proof. by apply cl_safe_set. Qed.

Lemma cl_safe_closed : safe (set_cl (fun c => c <| cl_closed := true |>)).
Proof. by apply cl_safe_set. Qed.

Lemma cl_safe_push id d fin :
  safe (set_cl (fun c => c <| cl_pending := Streams.push (cl_pending c) id d fin |>)).
Proof.
  apply cl_safe_set. intros c. split; [done|]. split; [|done]. apply Streams.push_wf.
Qed.

Lemma cl_safe_forget id : safe (forget id).
Proof.
  apply cl_safe_set. intros c. split; [done|]. split; [|done]. apply Streams.remove_wf.
Qed.

Create HintDb cl_safe.
#[local] Hint Resolve cl_safe_ret cl_safe_throw cl_safe_attempt cl_safe_get cl_safe_gets
  cl_safe_call cl_safe_modify cl_safe_timestamp cl_safe_poll cl_safe_note cl_safe_push_event
  cl_safe_closed cl_safe_push cl_safe_forget : cl_safe.
Ltac cl_auto :=
  repeat first
    [ solve [eauto with cl_safe]
    | match goal with |- forall _, _ => intro end
    | match goal with |- safe (match ?x with _ => _ end) => destruct x end
    | apply cl_safe_bind
    | apply cl_safe_attempt
    | apply cl_safe_conn; intros; solve [eauto with rust] ].

Context {doc : TransportDoc}.

Lemma cl_safe_drain : safe drain_events.
Proof.
  intros [c w] Hs. eapply wp_mono; [apply client_drain_events_wp|].
  intros r [c' w'] (-> & Hw & []). cbn [fst snd] in *. subst w'.
  destruct (cl_kept_refl _ Hs) as [[[] ? ? ? ?] ?]. cbn [fst snd] in *.
  split; [|done]. constructor; cbn [fst snd]; try congruence; [constructor; cbn; congruence|].
  exists []. by rewrite app_nil_r.
Qed.
#[local] Hint Resolve cl_safe_drain : cl_safe.

Lemma cl_safe_push_closed : safe push_connection_closed.
Proof. unfold push_connection_closed. cl_auto. Qed.
#[local] Hint Resolve cl_safe_push_closed : cl_safe.

Lemma cl_safe_received d from ecn : safe (received d from ecn).
Proof. unfold received, handle_packet. cl_auto. Qed.

Lemma cl_safe_timer : safe timer_fired.
Proof. unfold timer_fired. cl_auto. Qed.
#[local] Hint Resolve cl_safe_received cl_safe_timer : cl_safe.

(** The borrow of [write_packets] ends. *)
Lemma kept_io s io :
  client_ok s -> Streams.pending_wf (Streams.io_pending io) ->
  slen (Streams.io_buf io) = slen (cl_send_buf s.1) ->
  kept s (s.1 <| cl_conn := Streams.io_conn io |> <| cl_pending := Streams.io_pending io |>
              <| cl_send_buf := Streams.io_buf io |>, s.2).
Proof.
  intros [] Hp Hb. split; [|done]. constructor; try done; [constructor; cbn; congruence|].
  exists []. by rewrite app_nil_r.
Qed.

(** The packets of the queue. *)
Lemma cl_write fuel ts s :
  client_ok s -> (budget ts (cl_conn s.1) + Streams.pending_size (cl_pending s.1) < fuel)%nat ->
  gives (Forall (Streams.sane SEND_BUFFER_SIZE)) (on_io (Streams.write_packets fuel ts)) s.
Proof.
  intros Hs Hf. apply wp_zoom, wp_zoom.
  eapply wp_mono; [by apply Streams.write_packets_wp; [|apply Hs]|]. cbn [Streams.io_buf].
  intros r io (Hp & Hb & Hr). split; [by apply kept_io|]. by rewrite <- (ci_buf _ Hs).
Qed.

(** Control packets after a DATAGRAM. *)
Lemma cl_write_control fuel ts s :
  client_ok s -> (budget ts (cl_conn s.1) < fuel)%nat ->
  gives (Forall (Streams.sane SEND_BUFFER_SIZE)) (on_io (Streams.write_control_packets fuel ts)) s.
Proof.
  intros Hs Hf. apply wp_zoom, wp_zoom. eapply wp_mono.
  { apply (Streams.write_control_loop_spec ts (fun _ p => Streams.pending_wf p)).
    - intros buf c p Hp. eapply wp_mono; [apply write_pkt_spec|done].
    - exact Hf.
    - apply Hs. }
  intros r io ([Hp Hb] & Hr). split; [by apply kept_io|]. destruct r as [ps|e]; [|done].
  destruct Hr as (_ & new & -> & Hnew). by rewrite <- (ci_buf _ Hs).
Qed.

Lemma cl_safe_qlog : safe (on_cl (zoom (fun c => (cl_conn c, cl_qlog c))
    (fun s c => c <| cl_conn := s.1 |> <| cl_qlog := s.2 |>) (Tokio.qlog_write 2))).
Proof.
  intros s Hs. apply wp_zoom, wp_zoom. eapply wp_mono; [apply Tokio.qlog_write_wp|].
  intros r i _. destruct (cl_kept_refl s Hs) as [[[] ?] ?]. split; [|done]. by constructor.
Qed.
#[local] Hint Resolve cl_safe_qlog : cl_safe.

Lemma cl_safe_remote a : safe (set_cl (fun c => c <| cl_remote_addr := a |>)).
Proof. by apply cl_safe_set. Qed.
#[local] Hint Resolve cl_safe_remote : cl_safe.

Lemma cl_safe_flush : safe flush.
Proof.
  unfold flush. apply cl_safe_bind; [cl_auto|]. intros ts s Hs. apply wp_bind, wp_gets.
  apply (gives_safe (fun _ => True)). eapply gives_bind.
  { apply cl_write; [done|]. unfold write_fuel. lia. }
  intros ps s1 Hps Hs1. apply safe_gives; [|done..].
  apply cl_safe_bind; [cl_auto|]. intros path. apply cl_safe_bind; [cl_auto|]. intros _.
  apply cl_safe_bind; [by apply cl_safe_send|]. cl_auto.
Qed.
#[local] Hint Resolve cl_safe_flush : cl_safe.

Lemma cl_safe_report : safe report_closed.
Proof. unfold report_closed. cl_auto. Qed.
#[local] Hint Resolve cl_safe_report : cl_safe.

Lemma cl_safe_before_select : safe before_select.
Proof. unfold before_select. cl_auto. Qed.
#[local] Hint Resolve cl_safe_before_select : cl_safe.

Lemma cl_safe_recv_loop wakes : safe (recv_loop wakes).
Proof. induction wakes as [|[] wakes IH]; cbn [recv_loop]; cl_auto. Qed.
#[local] Hint Resolve cl_safe_recv_loop : cl_safe.

Lemma cl_safe_recv_event wakes : safe (recv_event wakes).
Proof. unfold recv_event. cl_auto. Qed.
#[local] Hint Resolve cl_safe_recv_event : cl_safe.

(** A buffer that a function of the connection filled. *)
Lemma cl_safe_set_buf b : slen b = SEND_BUFFER_SIZE -> safe (set_cl (fun c => c <| cl_send_buf := b |>)).
Proof. intros Hb. by apply cl_safe_set. Qed.
#[local] Hint Resolve cl_safe_set_buf : cl_safe.

Lemma cl_safe_buffer {A} (m : bytes -> M conn (A * bytes)) (P : A -> bytes -> Prop)
    (f : A * bytes -> M cst unit) :
  (forall buf i, slen buf = SEND_BUFFER_SIZE -> wp (m buf) i (fun r _ =>
     match r with Ok (a, b) => slen b = SEND_BUFFER_SIZE /\ P a b | Err _ => True end)) ->
  (forall a b, slen b = SEND_BUFFER_SIZE -> P a b -> safe (f (a, b))) ->
  safe (buf ← cl cl_send_buf; r ← on_conn (m buf); f r).
Proof.
  intros Hm Hf s Hs. apply wp_bind, wp_gets, wp_bind.
  pose proof (fun i => Hm (cl_send_buf s.1) i (ci_buf _ Hs)) as Hbuf.
  eapply wp_mono.
  { apply (wp_and _ _ (fun r _ => match r with
      | Ok (a, b) => slen b = SEND_BUFFER_SIZE /\ P a b | Err _ => True end) (fun _ s' => kept s s')).
    - apply wp_zoom, wp_zoom, Hbuf.
    - apply cl_safe_conn; [|done]. intros i. by eapply wp_mono; [apply Hbuf|]. }
  intros [[a b]|e] s1 [Hab H1]; [|done]. destruct Hab as [Hb HP].
  eapply wp_mono; [apply Hf; [done..|apply H1]|]. intros r s2. by apply cl_kept_trans.
Qed.

(** A packet in the buffer that was filled. *)
Lemma cl_safe_packet {A} buf n (f : bytes -> M cst A) :
  slen buf = SEND_BUFFER_SIZE -> 0 < n <= slen buf ->
  (forall d, slen d = n -> (are_bytes (take (Z.to_nat n) buf) -> are_bytes d) -> safe (f d)) ->
  safe (d ← Streams.prefix buf n; f d).
Proof.
  intros Hb Hn Hf s Hs. apply wp_bind, Streams.wp_prefix; [lia|]. apply Hf; [|done..].
  rewrite slen_take; lia.
Qed.

Lemma cl_safe_close_packets d l r (f : list Streams.OutgoingPacket -> M cst unit) :
  are_bytes d -> slen d <= SEND_BUFFER_SIZE ->
  (forall ps, Forall (Streams.sane SEND_BUFFER_SIZE) ps -> safe (f ps)) ->
  safe (ps ← Streams.close_packets d l r 0; f ps).
Proof.
  intros Hd Hl Hf s Hs. apply wp_bind, Streams.wp_close_packets; [done|]. intros ps Hc Hps.
  apply Hf; [|done]. eapply Forall_impl.
  - apply (Streams.concat_sane ps d Hc). eapply Forall_impl; [exact Hps|]. by intros p [].
  - intros p [H1 H2]. unfold Streams.sane. lia.
Qed.

Lemma cl_safe_close code reason : safe (close code reason).
Proof.
  unfold close. apply cl_safe_bind; [cl_auto|]. intros [|]; [cl_auto|].
  apply cl_safe_bind; [cl_auto|]. intros ts.
  eapply (cl_safe_buffer (fun buf => t_write_connection_close_app buf code reason ts)
    (fun n b => 0 <= n <= slen b /\ are_bytes (take (Z.to_nat n) b))).
  { intros buf i Hb. eapply wp_mono; [apply write_close_app_spec|]. intros [[n b]|e] i' Hok; [|done].
    destruct Hok as (Hn & Hl & Hbytes). split; [lia|]. split; [lia|done]. }
  intros n b Hb [Hn Hbytes]. apply cl_safe_bind; [cl_auto|]. intros _.
  apply cl_safe_bind; [|cl_auto]. destruct (Z.ltb_spec 0 n); [|cl_auto].
  apply cl_safe_packet; [done|lia|]. intros d Hd Hdb.
  apply cl_safe_bind; [cl_auto|]. intros l. apply cl_safe_bind; [cl_auto|]. intros ra.
  apply cl_safe_close_packets; [auto|lia|]. apply cl_safe_send.
Qed.
#[local] Hint Resolve cl_safe_close : cl_safe.

Lemma cl_safe_send_datagram d : safe (send_datagram d).
Proof.
  unfold send_datagram. apply cl_safe_bind; [cl_auto|]. intros cfg. destruct (_ <? _); [cl_auto|].
  apply cl_safe_bind; [cl_auto|]. intros ts.
  eapply (cl_safe_buffer (fun buf => t_write_datagram buf d ts)
    (fun r b => 0 <= r.1.1.1 <= slen b /\ (0 < r.1.1.1 -> exists p, r.1.2 = Some p))).
  { intros buf i Hb. eapply wp_mono; [apply write_datagram_spec|].
    intros [[[[[n acc] path] pi] b]|e] i' Hok; [|done]. destruct Hok as (Hn & Hl & Hp).
    split; [lia|]. cbn. split; [lia|done]. }
  intros [[[n acc] path] pi] b Hb [Hn Hp]. cbn in Hn, Hp. apply cl_safe_bind; [cl_auto|]. intros _.
  destruct acc; cbn [negb]; [|cl_auto].
  intros s Hs. apply (gives_safe (fun _ => True)).
  eapply (gives_bind (Forall (Streams.sane SEND_BUFFER_SIZE)) _ _ (fun ps => send_packets ps)).
  2:{ intros ps s1 Hps Hs1. apply safe_gives; [by apply cl_safe_send|done..]. }
  destruct (Z.ltb_spec 0 n) as [Hpos|_].
  - destruct (Hp Hpos) as [p ->]. apply wp_bind, Streams.wp_prefix; [lia|].
    apply wp_bind, wp_try. cbn [Streams.from_written]. apply wp_ret. split; [by apply cl_kept_refl|].
    repeat constructor; cbn; rewrite slen_take; lia.
  - apply wp_bind, wp_gets. apply cl_write_control; [done|]. unfold write_fuel. lia.
Qed.
#[local] Hint Resolve cl_safe_send_datagram : cl_safe.

Lemma cl_safe_method m :
  (forall socket, m <> Migrate socket) -> safe (run_method m).
Proof.
  intros Hm. destruct m; cbn [run_method]; try (exfalso; by eapply Hm);
    unfold write_stream, open_bidi_stream, open_uni_stream, extend_max_stream_offset,
      extend_max_streams_bidi, extend_max_streams_uni, reset_stream, reset_stream_reliable,
      stop_sending, close_stream, initiate_key_update, take_new_token, take_session_ticket;
    cl_auto.
Qed.

(** ** Connecting *)

Context {ep : Endpoint}.

Lemma cl_safe_handshake wakes : safe (handshake_loop wakes).
Proof. induction wakes as [|[[]|] wakes IH]; cbn [handshake_loop]; cl_auto. Qed.

(** Methods one after the other, whether they fail or not. *)
Fixpoint run_methods (ms : list method) : M cst unit :=
  match ms with
  | [] => mret tt
  | m :: ms => _ ← attempt (run_method m); run_methods ms
  end.

Lemma migrate_moves socket s :
  client_ok s -> wp (migrate socket) s (fun _ s' => moves s s' /\
    cl_local_addr s'.1 =
      match socket with
      | Ok bound =>
          match t_initiate_migration {| local := bound; remote := cl_remote_addr s.1 |}
                  (clock (ticks s.2)) (cl_conn s.1) with
          | Done _ _ => bound
          | _ => cl_local_addr s.1
          end
      | Err _ => cl_local_addr s.1
      end).
Proof.
  intros Hs. unfold migrate. destruct socket as [bound|e].
  2:{ apply wp_throw. destruct (cl_kept_refl s Hs). by split. }
  apply wp_bind, wp_gets, wp_bind, wp_zoom. unfold wp at 1, timestamp. cbn [fst snd].
  apply wp_bind, wp_zoom, wp_zoom. cbn [fst snd].
  pose proof (migration_total {| local := bound; remote := cl_remote_addr s.1 |}
    (clock (ticks s.2)) (cl_conn s.1)) as Ht. unfold wp in Ht. unfold wp at 1.
  destruct (cl_kept_refl s Hs) as [[[H1 H2 H3] ? ? ? ?] ?].
  destruct (t_initiate_migration _ _ _) as [[] i|e i| |]; [|split; [by constructor|done]|done..].
  apply wp_bind, wp_zoom, wp_modify, wp_bind, wp_zoom, wp_modify. cbn [fst snd].
  match goal with |- wp _ ?s0 _ => set (s1 := s0) end.
  assert (moves s s1) as Hm.
  { constructor; try done. exists []. by rewrite app_nil_r. }
  eapply wp_mono; [apply cl_safe_flush, Hm|]. intros r s2 Hk.
  split; [by eapply moves_kept|]. by rewrite (proj2 Hk).
Qed.

Lemma method_moves m s :
  client_ok s -> wp (run_method m) s (fun _ s' => moves s s' /\
    ((forall socket, m <> Migrate socket) -> cl_local_addr s'.1 = cl_local_addr s.1)).
Proof.
  intros Hs.
  assert ((exists socket, m = Migrate socket) \/ forall socket, m <> Migrate socket) as [[socket ->]|Hm]
    by (destruct m; naive_solver).
  - eapply wp_mono; [by apply migrate_moves|]. intros r s' [H _]. split; [done|]. intros Hne. by destruct (Hne socket).
  - eapply wp_mono; [by apply cl_safe_method|]. by intros r s' [].
Qed.

(** ** The end of a connection *)

(** Calls of [recv_event], each with what wakes it, and their results. *)
Fixpoint recv_all (calls : list (list wake))
    : M cst (list (result Error (option Tokio.ConnectionEvent))) :=
  match calls with
  | [] => mret []
  | wakes :: calls => r ← attempt (recv_event wakes); rs ← recv_all calls; mret (r :: rs)
  end.

(** The events a closed connection has left to report. *)
Definition last_events (c : ClientConnection) : list Tokio.ConnectionEvent :=
  cl_events c ++
  (if cl_closed c then [] else [Tokio.closed_event (t_get_connection_error (cl_conn c))]).

Lemma client_recv_closed wakes c w :
  is_closed c = true ->
  wp (recv_event wakes) (c, w) (fun r s' =>
    s'.2 = w /\ is_closed s'.1 = true /\ cl_conn s'.1 = cl_conn c /\
    r = match last_events c with e :: _ => Ok (Some e) | [] => Err ConnectionClosed end /\
    last_events s'.1 = tail (last_events c)).
Proof.
  intros Hc. apply wp_bind. unfold poll_event, wp at 1. destruct c as [la ra i p es closed buf dg q].
  unfold is_closed, last_events in *. cbn in *. destruct es as [|e es]; cbn; [|done].
  apply wp_bind, wp_gets. cbn. unfold is_closed. cbn. rewrite Hc.
  unfold report_closed, push_connection_closed, wp. by destruct closed.
Qed.

Context {env_doc : EnvDoc} {ep_doc : EndpointDoc}.

(** A connection that was just made is well-formed. *)
Lemma connect_ok (remote_addr local_addr : SocketAddr) (name : string) (config : ClientConfig)
    (ticket : option session_ticket) (wakes : list (option wake)) (w : World) :
  wpp (deadline_overflows config)
    (connect_inner remote_addr local_addr name config ticket wakes) w (fun r w' =>
    match r with Ok (Some c) => client_ok (c, w') | _ => True end).
Proof.
  apply connect_inner_wpp; [done|]. eapply wp_mono; [apply set_up_wp|].
  intros [c|e] w1; [|done]. intros (Hl & _ & remote & i & qlog & Hc).
  assert (client_ok (c, w1)) as Hok.
  { constructor; [|rewrite Hc; apply Streams.pending_new_wf|exact Hl].
    rewrite Hc. cbn. apply slen_new_send_buf. }
  eapply wp_mono; [exact (cl_safe_handshake wakes (c, w1) Hok)|].
  intros [[]|e] [c2 w2] H; [by apply H|done..].
Qed.

(** ** Properties *)

(** C15: the types of the client hold what they promise: [connect] returns a well-formed
    connection, without a panic unless the deadline of the handshake overflows, and every
    method keeps it so, whether it succeeds or fails, and neither
    panics nor diverges: the send buffer keeps its length, the queue agrees with its
    order, the connection knows the address of its one socket, a closed connection
    stays closed, and every packet is non-empty, fits the buffer and leaves from that
    socket, the new one after [migrate]. *)
Theorem client_well_formed (remote_addr local_addr : SocketAddr) (name : string)
    (config : ClientConfig) (ticket : option session_ticket) (wakes : list (option wake))
    (methods : list method) (w : World) :
  (forall m s, client_ok s -> wp (run_method m) s (fun _ s' => moves s s' /\
     ((forall socket, m <> Migrate socket) -> cl_local_addr s'.1 = cl_local_addr s.1))) /\
  wpp (deadline_overflows config)
    (connect_inner remote_addr local_addr name config ticket wakes) w (fun r w' =>
    match r with
    | Ok (Some c) => client_ok (c, w') /\
        wp (run_methods methods) (c, w') (fun r s => r = Ok tt /\ client_ok s)
    | _ => True
    end).
Proof.
  split; [apply method_moves|].
  assert (forall s, client_ok s ->
    wp (run_methods methods) s (fun r s' => r = Ok tt /\ client_ok s')) as Hrun.
  { induction methods as [|m ms IH]; intros s Hs; [done|]. cbn.
    apply wp_bind, wp_attempt. eapply wp_mono; [by apply method_moves|].
    intros r s' [H _]. apply IH, H. }
  eapply wpp_mono; [apply connect_ok|]. intros [[c|]|e] w' Hc; [|done..].
  split; [done|]. by apply Hrun.
Qed.

End inv.

(** ** Witnesses *)

#[local] Existing Instances toy_transport toy_transport_budget toy_transport_doc
  client_env client_env_doc client_endpoint client_endpoint_doc.

(** The handshake completes with the first packet; then the client writes to a stream,
    which fills three packets, moves to another socket, and closes. *)
Definition toy_methods : list method :=
  [WriteStream 0 [1; 2; 3; 4; 5; 6; 7] true; Flush; Migrate (Ok (SockV4 [127; 0; 0; 1] 5001));
   SendDatagram [1]; Close 0 []; RecvEvent []].
Definition toy_connect : M World (option ClientConnection) :=
  connect_inner (SockV4 [127; 0; 0; 1] 4433) (SockV4 [0; 0; 0; 0] 0) "localhost"
    (ClientConfig_new Params.toy_default Params.toy_params [DEFAULT_ALPN]) None
    [Some (FromSocket [7] (SockV4 [127; 0; 0; 1] 4433) 0)].

Lemma client_well_formed_witness :
  match toy_connect client_world with Done (Some c) _ => t_is_handshake_completed (cl_conn c) | _ => false end
    = true /\
  wp toy_connect client_world (fun r w' =>
    match r with
    | Ok (Some c) => client_ok (c, w') /\
        wp (run_methods toy_methods) (c, w') (fun r s => r = Ok tt /\ client_ok s)
    | _ => True
    end).
Proof.
  split; [vm_compute; reflexivity|]. unfold toy_connect.
  destruct (client_well_formed (SockV4 [127; 0; 0; 1] 4433) (SockV4 [0; 0; 0; 0] 0) "localhost"
    (ClientConfig_new Params.toy_default Params.toy_params [DEFAULT_ALPN]) None
    [Some (FromSocket [7] (SockV4 [127; 0; 0; 1] 4433) 0)] toy_methods client_world) as [_ H].
  exact (wpp_not _ _ _ _ no_deadline_overflow H).
Defined.

(** A draining client with an event of its own left. *)
Definition toy_closed : ClientConnection :=
  (toy_client_on (toy_new <| ty_closing := true |>)) <| cl_events := [Tokio.StreamData 4 [7] true] |>.

End ClientInv.
