(* ===== verification/Delivery.v ===== *)
(** * Delivery of events, datagrams and stream data, end to end

    What the application of one endpoint writes to a stream is what the application of
    the other is given: the bytes are followed (Flow.v) through the client and through
    accepted connections, over any sequence of calls. *)
From S2P Require Import Prelude Types Errors Tokens Params Conn Callbacks Effects Transport.
From S2P Require Import Streams Routes Tokio Flow World ServerConn Server Accepted Client ClientInv.
Import Types Errors Tokens Effects Transport World ServerConn Flow.

Module Delivery.
#[local] Existing Instances Client.ClientConnection_eta ServerConn.ServerConnection_eta
  Server.AcceptedConnection_eta.
Section delivery.
Context {str : Strerror} {api : TokenApi} {env : Env} {tr : Transport} {bud : TransportBudget}.
Context {api_doc : TokenApiDoc api} {doc : TransportDoc} {acc : Streams.TransportAccept} {rcv : Received} {sdoc : StreamsDoc}.
Context (id : StreamId).

(** ** The client *)

Definition client_port (c : Client.ClientConnection) : port :=
  mkPort (Client.cl_conn c) (Client.cl_pending c) (Client.cl_events c).

Section client.
Notation cst := (Client.ClientConnection * World)%type.
Notation R := (quietly (fun s : cst => client_port s.1) id).
Notation gives := (gives (fun s : cst => client_port s.1) id).

Lemma client_conn {A} (m : M conn A) : keeps advances m -> keeps R (Client.on_conn m).
Proof.
  intros Hm. apply (keeps_zoom _ (fun c c' => flow id [] [] [] (client_port c) (client_port c'))); [|done].
  apply (keeps_zoom _ advances); [done|]. intros s c. apply flow_conn.
Qed.

Lemma client_world {A} (m : M World A) : keeps R (Client.in_world m).
Proof.
  intros [c w]. unfold wlp, Client.in_world, zoom, quietly. by destruct (m _).
Qed.

Lemma client_get {A} (f : Client.ClientConnection -> A) : keeps R (Client.cl f).
Proof. apply keeps_gets. exact _. Qed.

Lemma client_set f :
  (forall c, client_port (f c) = client_port c) -> keeps R (Client.set_cl f).
Proof.
  intros Hf [c w]. unfold wlp, quietly. cbn. rewrite Hf. reflexivity.
Qed.

Lemma client_note event : keeps R (Client.set_cl (Client.note_path event)).
Proof. apply client_set. intros c. by destruct event as [| | | | | | | | | | | | |path []]. Qed.

(** Fields outside the port. *)
Lemma client_remote a : keeps R (Client.set_cl (fun c => c <| Client.cl_remote_addr := a |>)).
Proof. by apply client_set. Qed.
Lemma client_local a : keeps R (Client.set_cl (fun c => c <| Client.cl_local_addr := a |>)).
Proof. by apply client_set. Qed.
Lemma client_closed : keeps R (Client.set_cl (fun c => c <| Client.cl_closed := true |>)).
Proof. by apply client_set. Qed.
Lemma client_buf b : keeps R (Client.set_cl (fun c => c <| Client.cl_send_buf := b |>)).
Proof. by apply client_set. Qed.

Lemma client_end : keeps R (Client.set_cl (fun c => c <| Client.cl_events :=
  Client.cl_events c ++ [Tokio.closed_event (t_get_connection_error (Client.cl_conn c))] |>)).
Proof. intros [c w]. unfold wlp, quietly. cbn. by apply flow_event. Qed.

Lemma client_forget i : i <> id -> keeps R (Client.forget i).
Proof. intros Hi [c w]. unfold wlp, quietly. cbn. by apply flow_forget. Qed.

#[local] Hint Resolve client_conn client_world client_get client_note client_remote client_local
  client_closed client_buf client_end : flow.

(** Each event of the connection joins the queue. *)
Lemma client_drain_loop fuel : keeps R (Client.drain_loop fuel).
Proof.
  induction fuel as [|fuel IH]; [apply keeps_diverge|]. cbn [Client.drain_loop]. intros [c w].
  apply wlp_bind, wlp_zoom, wlp_zoom. unfold wlp at 1, call. cbn [fst snd].
  rewrite poll_event_spec. destruct (t_events (Client.cl_conn c)) as [|e es] eqn:He; cbn [fst snd].
  { unfold wlp, quietly. destruct c. cbn. reflexivity. }
  apply wlp_bind, wlp_zoom. unfold wlp at 1, modify. cbn [fst snd].
  apply wlp_bind, wlp_zoom. unfold wlp at 1, modify. cbn [fst snd].
  eapply wlp_mono; [apply IH|]. intros r s2 H2. etrans; [|exact H2]. unfold quietly. cbn [fst].
  match goal with |- flow _ _ _ _ _ ?p => replace p with (mkPort (t_poll_event (Client.cl_conn c)).1
    (Client.cl_pending c) (Client.cl_events c ++ [Tokio.from e]))
    by by destruct e as [| | | | | | | | | | | | |path []] end.
  by eapply flow_drain.
Qed.

Lemma client_drain : keeps R Client.drain_events.
Proof. intros s. apply client_drain_loop. Qed.
#[local] Hint Resolve client_drain : flow.

Lemma client_io {A} (m : M Streams.io A) (s : cst) :
  wlp m (Streams.mkIo (Client.cl_conn s.1) (Client.cl_pending s.1) (Client.cl_send_buf s.1))
    (fun _ io => flow id [] [] [] (client_port s.1) (io_port (Client.cl_events s.1) io)) ->
  wlp (Client.on_io m) s (fun _ s' => R s s').
Proof.
  intros Hm. apply wlp_zoom, wlp_zoom. eapply wlp_mono; [exact Hm|]. done.
Qed.

Lemma client_push_closed : keeps R Client.push_connection_closed.
Proof. unfold Client.push_connection_closed. flow_auto. Qed.
#[local] Hint Resolve client_push_closed : flow.

Lemma client_flush : keeps R Client.flush.
Proof.
  unfold Client.flush. apply keeps_bind; [exact _|flow_auto|]. intros ts s.
  apply wlp_bind. unfold wlp at 1, Client.cl, gets. apply wlp_bind. eapply wlp_mono.
  { apply client_io, wlp_wp. refine (write_packets_flow id _ _ _ _ _). unfold Client.write_fuel. cbn. lia. }
  intros [ps|e] s1 H1; [|exact H1]. eapply wlp_mono.
  { apply (keeps_bind R); [flow_auto|]. intros path. flow_auto. unfold Client.send_packets. flow_auto.
    apply (keeps_zoom _ (fun c c' => flow id [] [] [] (client_port c) (client_port c'))); [|done].
    apply (keeps_zoom _ (fun s s' => advances s.1 s'.1)); [apply qlog_write_keeps|].
    intros c s'. apply flow_conn. }
  intros r s2 H2. by etrans.
Qed.
#[local] Hint Resolve client_flush : flow.

Lemma client_received d from ecn : keeps R (Client.received d from ecn).
Proof. unfold Client.received, Client.handle_packet. flow_auto. Qed.
Lemma client_timer : keeps R Client.timer_fired.
Proof. unfold Client.timer_fired. flow_auto. Qed.
#[local] Hint Resolve client_received client_timer : flow.

Lemma client_poll : gives event_data Client.poll_event.
Proof.
  intros [c w]. unfold wlp, Client.poll_event. destruct c as [la ra i p [|e es] cl buf dg q]; cbn.
  - reflexivity.
  - apply flow_pop.
Qed.

Lemma client_report : gives told Client.report_closed.
Proof.
  unfold Client.report_closed. apply gives_after; [flow_auto|]. intros _. apply gives_event, client_poll.
Qed.
#[local] Hint Resolve gives_none gives_throw gives_some client_poll client_report : flow.

Lemma client_before_select : gives event_data Client.before_select.
Proof.
  apply gives_or_else; [apply client_poll|]. apply gives_after; [flow_auto|]. intros closing.
  apply gives_after; [flow_auto|]. intros draining. destruct (_ || _); [apply gives_some, client_report|].
  apply gives_after; [flow_auto|]. intros _. apply gives_after; [flow_auto|]. intros _. apply client_poll.
Qed.

Lemma client_recv_loop wakes : gives event_data (Client.recv_loop wakes).
Proof.
  induction wakes as [|wake wakes IH]; cbn [Client.recv_loop];
    (apply gives_or_else; [apply client_before_select|]);
    (apply gives_after; [flow_auto|]; intros _); [apply gives_none|].
  destruct wake as [d from ecn|msg|]; [|apply gives_throw|];
    (apply gives_after; [flow_auto|]; intros _; exact IH).
Qed.

Lemma client_recv_event wakes : gives event_data (Client.recv_event wakes).
Proof.
  apply gives_or_else; [apply client_poll|]. apply gives_after; [flow_auto|]. intros [|].
  - apply gives_some, client_report.
  - apply client_recv_loop.
Qed.

Lemma client_migrate socket : keeps R (Client.migrate socket).
Proof. unfold Client.migrate. flow_auto. Qed.

Lemma client_close code reason : keeps R (Client.close code reason).
Proof.
  unfold Client.close, Client.send_packets, Streams.prefix, Streams.close_packets. flow_auto.
Qed.

Lemma client_control ts : keeps R (fuel ← Client.cl (Client.write_fuel ts);
  Client.on_io (Streams.write_control_packets fuel ts)).
Proof.
  intros s. apply wlp_bind. unfold wlp at 1, Client.cl, gets.
  apply client_io, wlp_wp. refine (write_control_flow id _ _ _ _ _). unfold Client.write_fuel. cbn. lia.
Qed.
#[local] Hint Resolve client_control : flow.

#[local] Hint Resolve client_migrate client_close : flow.

(** The connection takes the datagram or not; the rest of the call is quiet. *)
Lemma client_send_datagram d : keeps (handing (fun s : cst => client_port s.1) id [d]) (Client.send_datagram d).
Proof.
  unfold Client.send_datagram. apply handing_after; [flow_auto|]. intros cfg.
  destruct (_ <? _); [apply handing_quiet; flow_auto|].
  do 2 (apply handing_after; [flow_auto|]; intros ?). apply handing_take.
  - intros [c w]. apply wlp_zoom, wlp_zoom. eapply wlp_mono; [apply sd_write_datagram|].
    intros r c' H. by apply flow_conn.
  - intros x. unfold Client.send_packets, Streams.prefix. flow_auto.
Qed.

(** ** The calls of an application *)

(** A call and the event it returns. *)
Definition client_call (m : ClientInv.method) : M cst (option Tokio.ConnectionEvent) :=
  match m with
  | ClientInv.RecvEvent wakes => Client.recv_event wakes
  | ClientInv.PollEvent => Client.poll_event
  | m => ClientInv.run_method m ;; mret None
  end.

(** What a call that succeeded gave to the stream, and which calls abandon it. *)
Definition client_put {A} (m : ClientInv.method) (r : result Error A) : list (bytes * bool) :=
  match m, r with
  | ClientInv.WriteStream i d fin, Ok _ => put_bytes id i d fin
  | _, _ => []
  end.
(** The datagrams it hands over. *)
Definition client_offer (m : ClientInv.method) : list bytes :=
  match m with ClientInv.SendDatagram d => [d] | _ => [] end.
Definition client_abandons (m : ClientInv.method) : bool :=
  match m with
  | ClientInv.ResetStream i _ | ClientInv.ResetStreamReliable i _ | ClientInv.CloseStream i _ =>
      bool_decide (i = id)
  | _ => false
  end.

Lemma client_write i d fin s :
  wlp (Client.write_stream i d fin) s (fun r s' =>
    flow id [] (match r with Ok _ => put_bytes id i d fin | Err _ => [] end) []
      (client_port s.1) (client_port s'.1)).
Proof.
  destruct s as [c w]. unfold Client.write_stream. apply wlp_bind. unfold wlp at 1, Client.cl, gets.
  destruct (Client.is_closed _); [unfold wlp; cbn; reflexivity|]. unfold wlp. cbn. apply flow_write.
Qed.

Lemma client_call_flow m s :
  client_abandons m = false ->
  wlp (client_call m) s (fun r s' =>
    flow id (result_data r) (client_put m r) (client_offer m) (client_port s.1) (client_port s'.1)).
Proof.
  intros Hm.
  assert (forall m', keeps R (ClientInv.run_method m') ->
    (forall r : result Error (option Tokio.ConnectionEvent), client_put m' r = []) ->
    wlp (ClientInv.run_method m' ;; mret None) s (fun r s' =>
      flow id (result_data r) (client_put m' r) [] (client_port s.1) (client_port s'.1))) as Hquiet.
  { intros m' Hk Hp. apply wlp_bind. eapply wlp_mono; [apply Hk|].
    intros [a|e] s' H; [unfold wlp; cbn|]; rewrite Hp; exact H. }
  assert (forall i, bool_decide (i = id) = false -> keeps R (Client.forget i)) as Hforget.
  { intros i Hi. by apply client_forget, (bool_decide_eq_false_1 _ Hi). }
  destruct m; cbn [client_call client_abandons] in *;
    try (apply Hquiet; [cbn [ClientInv.run_method];
      unfold Client.open_bidi_stream, Client.open_uni_stream, Client.extend_max_stream_offset,
        Client.extend_max_streams_bidi, Client.extend_max_streams_uni, Client.reset_stream,
        Client.reset_stream_reliable, Client.stop_sending, Client.close_stream,
        Client.initiate_key_update, Client.take_new_token, Client.take_session_ticket;
      flow_auto|done]).
  - apply client_recv_event.
  - cbn [ClientInv.run_method]. apply wlp_bind, wlp_bind. eapply wlp_mono; [apply client_write|].
    intros [n|e] s1 H; exact H.
  - apply client_poll.
  - cbn [ClientInv.run_method]. apply wlp_bind. eapply wlp_mono; [apply client_send_datagram|].
    intros [u|e] s1 H; exact H.
Qed.
End client.

(** ** Server connections *)

Definition server_port (c : ServerConnection) : port :=
  mkPort (sc_conn c) (sc_pending c) (sc_events c).

Section server.
Notation st := (ServerConnection * World)%type.
Notation R := (quietly (fun s : st => server_port s.1) id).
Notation gives := (gives (fun s : st => server_port s.1) id).

(** Only the connection inside goes on. *)
Definition inside (s s' : st) : Prop :=
  advances (sc_conn s.1) (sc_conn s'.1) /\ sc_pending s'.1 = sc_pending s.1 /\
  sc_events s'.1 = sc_events s.1.
#[local] Instance inside_preorder : PreOrder inside.
Proof.
  split; [intros s; by split|]. intros s1 s2 s3 (A1 & P1 & E1) (A2 & P2 & E2).
  split; [by etrans|]. split; congruence.
Qed.

Lemma inside_quiet s s' : inside s s' -> R s s'.
Proof.
  intros (Ha & Hp & He). unfold quietly, server_port. rewrite Hp, He. by apply flow_conn.
Qed.

Lemma inside_conn {A} (m : M conn A) : keeps advances m -> keeps inside (ServerConn.on_conn m).
Proof.
  intros Hm. apply (keeps_zoom _ (fun c c' => forall w : World, inside (c, w) (c', w))).
  - apply (keeps_zoom _ advances); [done|]. by intros s c.
  - intros [c w] c' H. apply H.
Qed.
Lemma inside_world {A} (m : M World A) : keeps inside (on_world m).
Proof. intros [c w]. unfold wlp, on_world, zoom. by destruct (m _). Qed.
Lemma inside_get {A} (f : ServerConnection -> A) : keeps inside (sc f).
Proof. apply keeps_gets. exact _. Qed.
Lemma inside_submitted : keeps inside (set_sc (fun c => c <| sc_new_token_submitted := true |>)).
Proof. by intros [c w]. Qed.
Lemma inside_token {A} (o : outcome (result Error A)) : keeps inside (ServerConn.from_outcome o).
Proof. unfold ServerConn.from_outcome. destruct o; [apply keeps_ret; exact _|apply keeps_panic]. Qed.
#[local] Hint Resolve inside_conn inside_world inside_get inside_submitted inside_token : flow.
#[local] Hint Extern 1 (PreOrder inside) => exact inside_preorder : flow.

Lemma inside_submit : keeps inside submit_new_token.
Proof. unfold submit_new_token. flow_auto. Qed.

Lemma server_quiet {A} (m : M st A) : keeps inside m -> keeps R m.
Proof. intros Hm s. eapply wlp_mono; [apply Hm|]. intros r s'. apply inside_quiet. Qed.
Lemma server_conn {A} (m : M conn A) : keeps advances m -> keeps R (ServerConn.on_conn m).
Proof. intros. by apply server_quiet, inside_conn. Qed.
Lemma server_world {A} (m : M World A) : keeps R (on_world m).
Proof. apply server_quiet, inside_world. Qed.
Lemma server_get {A} (f : ServerConnection -> A) : keeps R (sc f).
Proof. apply server_quiet, inside_get. Qed.
#[local] Hint Resolve server_conn server_world server_get : flow.

Lemma server_end : keeps R (set_sc (fun c => c <| sc_events :=
  sc_events c ++ [Tokio.closed_event (t_get_connection_error (sc_conn c))] |>)).
Proof. intros [c w]. unfold wlp, quietly. cbn. by apply flow_event. Qed.
Lemma server_closed : keeps R (set_sc (fun c => c <| sc_closed := true |>)).
Proof. intros [c w]. unfold wlp, quietly. cbn. reflexivity. Qed.
Lemma server_buf b : keeps R (set_sc (fun c => c <| sc_send_buf := b |>)).
Proof. intros [c w]. unfold wlp, quietly. cbn. reflexivity. Qed.
#[local] Hint Resolve server_end server_closed server_buf : flow.

Lemma server_push_closed : keeps R push_connection_closed.
Proof. unfold push_connection_closed. flow_auto. Qed.

(** Each event of the connection joins the queue, whatever else it sets off. *)
Lemma server_drain_loop fuel : keeps R (drain_loop fuel).
Proof.
  induction fuel as [|fuel IH]; [apply keeps_diverge|]. cbn [drain_loop]. intros [c w].
  apply wlp_bind, wlp_zoom, wlp_zoom. unfold wlp at 1, call. cbn [fst snd].
  rewrite poll_event_spec. destruct (t_events (sc_conn c)) as [|e es] eqn:He; cbn [fst snd].
  { unfold wlp, quietly. destruct c. cbn. reflexivity. }
  set (s1 := (c <| sc_conn := (t_poll_event (sc_conn c)).1 |>, w)).
  apply wlp_bind. apply (wlp_mono _ _ (fun r s2 => r = Ok tt /\ inside s1 s2)).
  { destruct e; try (unfold wlp; cbn; split; [done|reflexivity]). apply wlp_wp. eapply wp_mono.
    - apply wp_wlp; [apply submit_new_token_wp|apply inside_submit].
    - by intros r s2 [[-> _] ?]. }
  intros r s2 (-> & Ha & Hp & Hq). cbn in Ha, Hp, Hq.
  apply wlp_bind, wlp_zoom. unfold wlp at 1, modify. cbn [fst snd].
  apply wlp_bind, wlp_zoom. unfold wlp at 1, modify. cbn [fst snd].
  apply wlp_bind, wlp_zoom. unfold wlp at 1, modify. cbn [fst snd].
  eapply wlp_mono; [apply IH|]. intros r s3 H3. etrans; [|exact H3]. unfold quietly. cbn [fst].
  match goal with |- flow _ _ _ _ _ ?p => replace p with (mkPort (sc_conn s2.1) (sc_pending c)
    (sc_events c ++ [Tokio.from e])) end.
  { by eapply flow_drain. }
  rewrite <- Hp, <- Hq. unfold note_early_data.
  by destruct (_ && _), e as [| | | | | | | | | | | | |path []].
Qed.

Lemma server_drain : keeps R drain_events.
Proof. intros s. apply server_drain_loop. Qed.
#[local] Hint Resolve server_push_closed server_drain : flow.

Lemma server_read d local_addr from ts ecn : keeps R (read_packet local_addr from d ts ecn).
Proof. unfold read_packet. flow_auto. Qed.
#[local] Hint Resolve server_read : flow.

Lemma server_handle d local_addr from ts ecn : keeps R (handle_datagram local_addr from d ts ecn).
Proof. unfold handle_datagram. flow_auto. Qed.

Lemma server_io {A} (m : M Streams.io A) (s : st) :
  wlp m (Streams.mkIo (sc_conn s.1) (sc_pending s.1) (sc_send_buf s.1))
    (fun _ io => flow id [] [] [] (server_port s.1) (io_port (sc_events s.1) io)) ->
  wlp (on_io m) s (fun _ s' => R s s').
Proof. intros Hm. apply wlp_zoom, wlp_zoom. eapply wlp_mono; [exact Hm|]. done. Qed.

Lemma server_flush ts : keeps R (flush_to_packets ts).
Proof.
  unfold flush_to_packets. intros s. apply wlp_bind. unfold wlp at 1, sc, gets.
  apply wlp_bind. apply (wlp_mono _ _ (fun _ s' => R s s')).
  { apply wlp_attempt, server_io, wlp_wp. refine (write_packets_flow id _ _ _ _ _).
    unfold write_fuel. cbn. lia. }
  intros [ps|e] s1 H1; [|exact H1]. eapply wlp_mono.
  { apply (keeps_bind R); [flow_auto|]. intros u. apply keeps_bind; [exact _| |intros ?; flow_auto].
    apply (keeps_zoom _ (fun c c' => flow id [] [] [] (server_port c) (server_port c'))); [|done].
    apply (keeps_zoom _ (fun s s' => advances s.1 s'.1)); [apply qlog_write_keeps|].
    intros c s'. apply flow_conn. }
  intros r s2 H2. by etrans.
Qed.

Lemma server_control ts : keeps R (fuel ← sc (write_fuel ts);
  on_io (Streams.write_control_packets fuel ts)).
Proof.
  intros s. apply wlp_bind. unfold wlp at 1, sc, gets.
  apply server_io, wlp_wp. refine (write_control_flow id _ _ _ _ _). unfold write_fuel. cbn. lia.
Qed.
#[local] Hint Resolve server_control : flow.

Lemma server_send_datagram d :
  keeps (handing (fun s : st => server_port s.1) id [d]) (send_datagram_impl d).
Proof.
  unfold send_datagram_impl. apply handing_after; [flow_auto|]. intros cfg.
  destruct (_ <? _); [apply handing_quiet; flow_auto|].
  do 2 (apply handing_after; [flow_auto|]; intros ?). apply handing_take.
  - intros [c w]. apply wlp_zoom, wlp_zoom. eapply wlp_mono; [apply sd_write_datagram|].
    intros r c' H. by apply flow_conn.
  - intros x. unfold Streams.prefix. flow_auto.
Qed.

Lemma server_pop : gives event_data pop_event.
Proof.
  intros [c w]. unfold wlp, pop_event. destruct c as [i ra p [|e es] v ns sub early cl buf dg q]; cbn.
  - reflexivity.
  - apply flow_pop.
Qed.
End server.

(** ** Accepted connections *)

Section accepted.
Notation ast := (Server.AcceptedConnection * World)%type.
Notation st := (ServerConnection * World)%type.
Notation aport := (fun s : ast => server_port (Server.ac_inner s.1)).
Notation R := (quietly aport id).
Notation gives := (gives aport id).

Lemma accepted_inner {A} (m : M st A) :
  keeps (quietly (fun s : st => server_port s.1) id) m -> keeps R (Accepted.on_inner m).
Proof. intros Hm. eapply keeps_zoom; [exact Hm|]. done. Qed.
Lemma accepted_conn {A} (m : M conn A) : keeps advances m -> keeps R (Accepted.on_conn m).
Proof. intros. by apply accepted_inner, server_conn. Qed.
Lemma accepted_world {A} (m : M World A) : keeps R (Accepted.in_world m).
Proof. intros [c w]. unfold wlp, Accepted.in_world, zoom, quietly. by destruct (m _). Qed.
Lemma accepted_get {A} (f : Server.AcceptedConnection -> A) : keeps R (Accepted.ac f).
Proof. apply keeps_gets. exact _. Qed.
Lemma accepted_forget i : i <> id -> keeps R (Accepted.forget i).
Proof. intros Hi [c w]. unfold wlp, quietly. cbn. by apply flow_forget. Qed.

Lemma accepted_poll : gives event_data Accepted.poll_event.
Proof.
  intros s. apply wlp_zoom. eapply wlp_mono; [apply server_pop|]. done.
Qed.
#[local] Hint Resolve accepted_inner accepted_conn accepted_world accepted_get server_push_closed
  server_drain server_handle server_flush server_buf server_closed server_get : flow.

Lemma accepted_sync : keeps R Accepted.sync_routes.
Proof. unfold Accepted.sync_routes. flow_auto. Qed.
#[local] Hint Resolve accepted_sync : flow.

Lemma accepted_flush : keeps R Accepted.flush.
Proof. unfold Accepted.flush. flow_auto. Qed.
Lemma accepted_received d from local_addr ecn :
  keeps R (Accepted.handle_received_datagram d from local_addr ecn).
Proof. unfold Accepted.handle_received_datagram. flow_auto. Qed.
Lemma accepted_from_queue : keeps R Accepted.from_queue.
Proof. unfold Accepted.from_queue. flow_auto. Qed.
#[local] Hint Resolve accepted_flush accepted_received accepted_from_queue : flow.

Lemma accepted_report e : gives told (Accepted.report_closed e).
Proof.
  unfold Accepted.report_closed. apply gives_after; [flow_auto|]. intros _.
  apply gives_event, accepted_poll.
Qed.

Lemma accepted_before_select : gives event_data Accepted.before_select.
Proof.
  apply gives_or_else; [apply accepted_poll|]. apply gives_after; [flow_auto|]. intros closing.
  apply gives_after; [flow_auto|]. intros draining.
  destruct (_ || _); [apply gives_some, accepted_report|].
  do 3 (apply gives_after; [flow_auto|]; intros _). apply accepted_poll.
Qed.

Lemma accepted_timer : gives event_data Accepted.timer_fired.
Proof.
  unfold Accepted.timer_fired. apply gives_after; [flow_auto|]. intros ts.
  apply gives_after; [flow_auto|]. intros r. apply gives_after; [flow_auto|]. intros _.
  destruct r as [u|e]; [apply gives_none|].
  destruct (classify_connection_error e); try apply gives_none; apply gives_some, accepted_report.
Qed.

(** A call that waits has taken nothing. *)
Definition progress_data (p : Accepted.progress) : list Tokio.ConnectionEvent :=
  match p with Accepted.Returned e => told e | Accepted.Waiting _ => [] end.

Lemma gives_returned (m : M ast (option Tokio.ConnectionEvent)) (k : M ast Accepted.progress) :
  gives event_data m -> gives progress_data k ->
  gives progress_data
    (o ← m; match o with Some event => mret (Accepted.Returned event) | None => k end).
Proof.
  intros Hm Hk. eapply gives_take; [exact Hm|].
  intros [e|]; [left; by exists (Accepted.Returned e)|by right].
Qed.

Lemma gives_waiting b : gives progress_data (mret (Accepted.Waiting b)).
Proof. intros s. unfold wlp. cbn. reflexivity. Qed.

Lemma accepted_next_turn b : gives progress_data (Accepted.next_turn b).
Proof.
  apply gives_returned; [apply accepted_before_select|]. apply gives_after; [flow_auto|].
  intros _. apply gives_waiting.
Qed.

Lemma accepted_start : gives progress_data Accepted.start_recv.
Proof.
  apply gives_returned; [apply accepted_poll|]. apply gives_after; [flow_auto|]. intros [|].
  - eapply gives_take; [apply accepted_report|]. intros e. left. by exists (Accepted.Returned e).
  - apply accepted_next_turn.
Qed.

Lemma accepted_wake_up wk b : gives progress_data (Accepted.wake_up wk b).
Proof.
  destruct wk as [|d from local_addr ecn|msg|]; cbn [Accepted.wake_up].
  - apply gives_after; [destruct b; flow_auto|].
    intros [b'|]; [apply accepted_next_turn|apply gives_waiting].
  - apply gives_after; [flow_auto|]. intros _. apply accepted_next_turn.
  - apply gives_throw.
  - apply gives_returned; [apply accepted_timer|apply accepted_next_turn].
Qed.

Lemma accepted_recv_event wakes : gives event_data (Accepted.recv_event wakes).
Proof.
  assert (forall m, gives progress_data m ->
    gives event_data (p ← m; Accepted.resume wakes p)) as H.
  { induction wakes as [|wk wakes IH]; intros m Hm;
      (eapply gives_take; [exact Hm|]); (intros [e|b]; [left; by exists (Some e)|right]);
      (split; [done|]).
    - apply gives_none.
    - apply IH, accepted_wake_up. }
  apply H, accepted_start.
Qed.

Lemma accepted_send_datagram d : keeps (handing aport id [d]) (Accepted.send_datagram d).
Proof.
  unfold Accepted.send_datagram. eapply keeps_zoom; [apply server_send_datagram|]. done.
Qed.
Lemma accepted_close code reason : keeps R (Accepted.close code reason).
Proof. unfold Accepted.close, Streams.prefix, Streams.close_packets. flow_auto. Qed.
#[local] Hint Resolve accepted_close : flow.

Lemma accepted_write i d fin s :
  wlp (Accepted.write_stream i d fin) s (fun r s' =>
    flow id [] (match r with Ok _ => put_bytes id i d fin | Err _ => [] end) [] (aport s) (aport s')).
Proof.
  destruct s as [c w]. unfold Accepted.write_stream. apply wlp_bind.
  unfold wlp at 1, Accepted.ac, gets.
  destruct (Accepted.is_closed _); [unfold wlp; cbn; reflexivity|]. unfold wlp. cbn. apply flow_write.
Qed.

(** The calls of an application. *)
Inductive call :=
| Recv (wakes : list Accepted.wake)
| Call (m : Accepted.method).

Definition accepted_call (c : call) : M ast (option Tokio.ConnectionEvent) :=
  match c with
  | Recv wakes => Accepted.recv_event wakes
  | Call Accepted.PollEvent => Accepted.poll_event
  | Call m => Accepted.run_method m ;; mret None
  end.

Definition accepted_put {A} (c : call) (r : result Error A) : list (bytes * bool) :=
  match c, r with
  | Call (Accepted.WriteStream i d fin), Ok _ => put_bytes id i d fin
  | _, _ => []
  end.
Definition accepted_offer (c : call) : list bytes :=
  match c with Call (Accepted.SendDatagram d) => [d] | _ => [] end.
Definition accepted_abandons (c : call) : bool :=
  match c with
  | Call (Accepted.ResetStream i _ | Accepted.ResetStreamReliable i _ | Accepted.CloseStream i _) =>
      bool_decide (i = id)
  | _ => false
  end.

Lemma accepted_call_flow c s :
  accepted_abandons c = false ->
  wlp (accepted_call c) s (fun r s' =>
    flow id (result_data r) (accepted_put c r) (accepted_offer c) (aport s) (aport s')).
Proof.
  intros Hm. destruct c as [wakes|m]; [apply accepted_recv_event|].
  assert (forall m', keeps R (Accepted.run_method m') ->
    (forall r : result Error (option Tokio.ConnectionEvent), accepted_put (Call m') r = []) ->
    wlp (Accepted.run_method m' ;; mret None) s (fun r s' =>
      flow id (result_data r) (accepted_put (Call m') r) [] (aport s) (aport s'))) as Hquiet.
  { intros m' Hk Hp. apply wlp_bind. eapply wlp_mono; [apply Hk|].
    intros [a|e] s' H; [unfold wlp; cbn -[accepted_put]|]; rewrite Hp; exact H. }
  assert (forall i, bool_decide (i = id) = false -> keeps R (Accepted.forget i)) as Hforget.
  { intros i Hi. by apply accepted_forget, (bool_decide_eq_false_1 _ Hi). }
  destruct m; cbn [accepted_call accepted_abandons] in *;
    try (apply Hquiet; [cbn [Accepted.run_method];
      unfold Accepted.open_bidi_stream, Accepted.open_uni_stream, Accepted.extend_max_stream_offset,
        Accepted.extend_max_streams_bidi, Accepted.extend_max_streams_uni, Accepted.reset_stream,
        Accepted.reset_stream_reliable, Accepted.stop_sending, Accepted.close_stream,
        Accepted.initiate_key_update;
      flow_auto|done]).
  - cbn [Accepted.run_method]. apply wlp_bind, wlp_bind. eapply wlp_mono; [apply accepted_write|].
    intros [n|e] s1 H; exact H.
  - apply accepted_poll.
  - cbn [Accepted.run_method]. apply wlp_bind. eapply wlp_mono; [apply accepted_send_datagram|].
    intros [u|e] s1 H; exact H.
Qed.
End accepted.

(** ** Both ends *)

Lemma client_call_total m s :
  ClientInv.client_ok s -> wp (client_call m) s (fun _ s' => ClientInv.client_ok s').
Proof.
  intros Hs.
  assert (forall m', wp (ClientInv.run_method m' ;; mret (None : option Tokio.ConnectionEvent)) s
    (fun _ s' => ClientInv.client_ok s')) as Hm.
  { intros m'. apply wp_bind. eapply wp_mono; [by apply ClientInv.method_moves|].
    intros [a|e] s' [H _]; apply H. }
  destruct m; try apply Hm.
  - eapply wp_mono; [by apply ClientInv.cl_safe_recv_event|]. intros r s' H. apply H.
  - eapply wp_mono; [by apply ClientInv.cl_safe_poll|]. intros r s' H. apply H.
Qed.

Definition call_ok (c : call) : Prop :=
  match c with Recv wakes => Forall Accepted.wake_ok wakes | Call _ => True end.

(** The handle keeps its identity, and the shared part of the world its form. *)
Record handle_ok (key : ConnectionId) (rx : nat) (s : Server.AcceptedConnection * World) : Prop := {
  ho_key : Server.ac_connection_id s.1 = key;
  ho_rx : Server.ac_inbound_rx s.1 = rx;
  ho_world : world_ok s.2 }.

Lemma accepted_call_total key rx c s :
  call_ok c -> handle_ok key rx s -> wp (accepted_call c) s (fun _ s' => handle_ok key rx s').
Proof.
  intros Hc [Hk Hr Hw]. pose proof (Accepted.world_ok_owner key rx) as HW.
  assert (forall A (m : M _ A), Accepted.safe world_ok key rx m ->
    wp m s (fun _ s' => handle_ok key rx s')) as Hsafe.
  { intros A m Hm. eapply wp_mono; [by apply Hm|]. intros r s' [I1 I2 _ I4 _].
    constructor; [congruence|congruence|done]. }
  assert (forall m, wp (Accepted.run_method m ;; mret (None : option Tokio.ConnectionEvent)) s
    (fun _ s' => handle_ok key rx s')) as Hm.
  { intros m. apply wp_bind. eapply wp_mono; [by apply Hsafe, Accepted.acc_safe_method|].
    by intros [a|e] s' H. }
  destruct c as [wakes|m]; [by apply Hsafe, Accepted.acc_safe_recv_event|].
  destruct m; try apply Hm. by apply Hsafe, Accepted.acc_safe_pop.
Qed.

(** What one application writes to a stream is what the other is given, and so are the
    datagrams that arrive, over any calls of both. *)
Lemma ends_agree (methods : list ClientInv.method) (calls : list call)
    (c : Client.ClientConnection) (w : World) (a : Server.AcceptedConnection) (w' : World)
    (Hc : ClientInv.client_ok (c, w)) (Hw' : world_ok w') (Hcalls : Forall call_ok calls)
    (Hfc : fresh id (client_port c)) (Hfa : fresh id (server_port (Server.ac_inner a)))
    (Hmethods : Forall (fun m => client_abandons m = false) methods)
    (Hcalls' : Forall (fun k => accepted_abandons k = false) calls) :
  wp (account client_call client_put methods) (c, w) (fun r1 s1 =>
    exists got1 wrote1, r1 = Ok (got1, wrote1) /\
    wp (account accepted_call accepted_put calls) (a, w') (fun r2 s2 =>
      exists got2 wrote2, r2 = Ok (got2, wrote2) /\
      delivered id got2 wrote1 (offers client_offer methods)
        (server_port (Server.ac_inner s2.1)) (client_port s1.1) /\
      delivered id got1 wrote2 (offers accepted_offer calls)
        (client_port s1.1) (server_port (Server.ac_inner s2.1)))).
Proof.
  eapply wp_mono.
  { apply (account_wp (fun s => client_port s.1) id client_call client_put client_offer ClientInv.client_ok
      (fun m => client_abandons m = false)); [|intros; by apply client_call_flow|done|done].
    intros m s _. apply client_call_total. }
  intros r1 s1 (_ & got1 & wrote1 & -> & F1). do 2 eexists. split; [done|]. eapply wp_mono.
  { apply (account_wp (fun s => server_port (Server.ac_inner s.1)) id accepted_call accepted_put accepted_offer
      (handle_ok (Server.ac_connection_id a) (Server.ac_inbound_rx a))
      (fun k => call_ok k /\ accepted_abandons k = false)).
    - intros k s [H _]. by apply accepted_call_total.
    - intros k s [_ H]. by apply accepted_call_flow.
    - by apply Forall_and.
    - by constructor. }
  intros r2 s2 (_ & got2 & wrote2 & -> & F2). do 2 eexists. split; [done|].
  split; [eapply flow_delivered; [exact Hfa|exact F2|exact Hfc|exact F1]|eapply flow_delivered; [exact Hfc|exact F1|exact Hfa|exact F2]].
Qed.
End delivery.
End Delivery.
