(* ===== verification/Stack.v ===== *)
(** * The two crates together

    tokio-ngtcp2 (System.v) on top of [Connection] of the crate ngtcp2 (Conn.v): the
    interface between them is discharged, so that only the C libraries, the kernel and
    the application remain as parameters. *)
From stdpp Require Import relations.
From S2P Require Import Prelude Types Errors Tokens Params InFlight Callbacks Conn Effects Transport.
From S2P Require Import Streams Limiter Routes Tokio World ServerConn Server ServerInv Accepted System.
Import Types Errors Tokens Callbacks Effects Transport World ServerConn Server ServerInv.

Module Stack.
Section stack.
Context {str : Strerror} {api : TokenApi} {ng : Conn.Ngtcp2Api} {tls : Conn.Tls}.
Context {allocator : InFlight.Allocator} {env : Env} {ord : HashOrder}.
#[local] Existing Instances connection_transport connection_transport_doc.

(** The number of packets that ngtcp2 writes at a time, before congestion control, flow
    control and the amplification limit stop it. *)
Class Ngtcp2Budget := {
  packets_left : Z -> Conn.ngtcp2_conn -> nat;
  packets_left_write i buf ts u :
    let '((i', o), _) := exec (Conn.ngtcp2_conn_write_pkt i buf ts) u in
    0 <= Conn.wo_rv o ->
    (packets_left ts i' + (if (0 <? Conn.wo_rv o)%Z then 1 else 0) <= packets_left ts i)%nat;
  packets_left_writev i buf flags id d ts u :
    let '((i', _, o), _) := exec (Conn.ngtcp2_conn_writev_stream i buf flags id d ts) u in
    (packets_left ts i' + (if (0 <? Conn.wo_rv o)%Z then 1 else 0) <= packets_left ts i)%nat }.

#[export] Instance connection_budget `{!Ngtcp2Budget} : TransportBudget.
Proof.
  refine {| budget ts (c : conn) := packets_left ts (Conn.inner c) |}.
  - intros buf ts c. apply wp_call_result. unfold Conn.write_pkt.
    pose proof (packets_left_write (Conn.inner c) buf ts (Conn.user_data c)) as Hleft.
    destruct (exec _ _) as [[i o] u].
    destruct (Z.ltb_spec (Conn.wo_rv o) 0); cbn in *; [done|by apply Hleft].
  - intros buf id d fin ts flags c. apply wp_call_result. unfold Conn.write_stream_with_flags.
    destruct (InFlight.append _ d _) as [[e1 app] h].
    set (u1 := (Conn.user_data c) <| in_flight_stream_data := _ |>).
    set (fl := if fin then _ else _).
    pose proof (packets_left_writev (Conn.inner c) buf fl id d ts u1) as Hleft.
    destruct (exec _ u1) as [[[i datalen] o] u2]. cbn in Hleft.
    assert (forall k, (k <= if (0 <? Conn.wo_rv o)%Z then 1 else 0)%nat ->
      (packets_left ts i + k <= packets_left ts (Conn.inner c))%nat) as Hk.
    { intros k Hk. etrans; [|exact Hleft]. by apply Nat.add_le_mono_l. }
    pose proof (Hk 0%nat (Nat.le_0_l _)) as H0. rewrite Nat.add_0_r in H0.
    destruct (_ =? NGTCP2_ERR_WRITE_MORE); [exact (Hk 0%nat (Nat.le_0_l _))|].
    destruct (_ =? NGTCP2_ERR_STREAM_DATA_BLOCKED); [exact H0|].
    destruct (_ =? NGTCP2_ERR_STREAM_SHUT_WR); [exact H0|].
    destruct (_ <? 0); [exact H0|]. by apply Hk.
Defined.

(** What the server uses besides connections: the TLS context, the inferred error code
    and the file system. *)
Context (session : result Error Conn.TlsSession) (infer_code : Z -> Z).
Context (make_dir : string -> result Error unit).
Context (make_file : string -> string -> result Error Tokio.file).

(** [Connection::server_new], whose C object is owned by what it returns. *)
Definition connection_endpoint : Endpoint := {|
  Server.tls_session := Conn.TlsSession;
  create_session := session;
  Server.server_new dcid scid local_addr remote_addr version s params settings :=
    match Conn.server_new dcid scid local_addr remote_addr version s params settings with
    | Ret (r, _) => Ret r
    | Panic => Panic
    end;
  infer_quic_transport_error_code := infer_code;
  create_dir_all := make_dir;
  create_file := make_file |}.
#[local] Existing Instance connection_endpoint.

Lemma connection_endpoint_doc {ng_doc : Conn.Ngtcp2Doc} : EndpointDoc.
Proof.
  intros dcid scid l r v t p s Hd Hs. cbn.
  destruct (Conn.server_new_settled dcid scid l r v t p s Hd Hs) as (res & o & -> & _). by eexists.
Qed.

Context {bud : Ngtcp2Budget} {api_doc : TokenApiDoc api} {env_doc : EnvDoc}.
Context {write_doc : TokenWriteDoc} {ord_doc : HashOrderDoc}.
Context {ng_doc : Conn.Ngtcp2Doc} {ng_write_doc : Ngtcp2WriteDoc}.

(** C5: the crates fit together: with the connections of the crate ngtcp2 the server and
    its accepted connections stay coherent from [bind] on, under any interleaving of
    their tasks, when the C libraries behave as they document: the loops of tokio-ngtcp2
    end, no index it takes from a connection is out of range, and every constructor
    returns. *)
Theorem stack_coherent (early : result Error unit) (bound : result Error SocketAddr)
    (config : ServerConfig) (sv : Server.Server) (w : World) (s : System.system)
    (Hbind : bind (Ok tt) early bound config = Ok sv)
    (Hroutes : routes w = Routes.routes_new) (Hchannels : channels w = ∅)
    (Hreach : rtc System.step (System.initial sv w) s) :
  System.coherent s.
Proof.
  pose proof connection_endpoint_doc as Hep.
  by eapply System.bound_coherent.
Qed.
End stack.

(** ** Witness *)

#[local] Existing Instances toy_strerror server_api toy_env Conn.toy_ngtcp2 Conn.toy_tls
  InFlight.exact_allocator toy_order server_api_doc toy_env_doc server_write_doc toy_order_doc
  Conn.toy_ngtcp2_doc toy_ngtcp2_write_doc connection_transport connection_transport_doc.

#[local] Instance toy_ngtcp2_budget : Ngtcp2Budget.
Proof.
  refine {| packets_left _ (i : Conn.ngtcp2_conn) := Z.to_nat (4 - Conn.tq_sent i) |}.
  - intros i buf ts u. cbn. lia.
  - intros i buf flags id d ts u. cbn. pose proof (slen_nonneg buf).
    destruct (Conn.toy_shut i id); cbn; [lia|].
    destruct (Z.ltb_spec (Conn.tq_sent i) 4); cbn; [|lia]. destruct (_ <? _); lia.
Defined.
#[local] Instance toy_stack : Endpoint :=
  connection_endpoint (Ok tt) (fun code => code) (fun _ => Ok tt)
    (fun _ _ => Ok (Tokio.mkFile [] 0)).

Definition toy_sv : Server :=
  {| s_local_addr := toy_addr; s_config := toy_config; s_connections := ∅; s_cid_map := ∅;
     s_short_cid_lengths := {[scid_len toy_config]}; s_addr_map := ∅;
     s_stateless_reset_secret := reset_secret_generate;
     s_retry_secret := default [] retry_secret_generate; s_limiter := Limiter.new;
     s_taken := Routes.taken_new; s_send_buf := new_send_buf |}.

(** A client's first packet makes a connection of the crate ngtcp2, which is accepted;
    its handle reports the first event of the packet, and the next datagram goes to it
    once the server has the lock. *)
Definition toy_labels : list System.label :=
  [System.Accept 0 0; System.ServerWake (Received toy_initial toy_addr toy_addr 0) 1 0;
   System.ServerLock; System.ServerLock; System.Recv 0 0 0;
   System.Accept 5 1; System.ServerWake (Received (0x40 :: repeat 0 20) toy_addr toy_addr 0) 0 0;
   System.ServerLock].

Lemma stack_coherent_witness :
  let s := System.run toy_labels (System.initial toy_sv toy_world) in
  System.coherent s /\ size (System.sy_handles s) = 1%nat /\
  slen <$> System.mail (System.sy_world s) !! mkCid (repeat 0 16) = Some 1.
Proof.
  intros s. split.
  - apply (stack_coherent (tls := Conn.toy_tls)) with (early := Ok tt) (bound := Ok toy_addr)
      (config := toy_config) (sv := toy_sv) (w := toy_world).
    1-4: exact _.
    1: exact Conn.toy_ngtcp2_doc.
    1: exact toy_ngtcp2_write_doc.
    1-3: reflexivity.
    apply System.run_reach; [|vm_compute; reflexivity].
    unfold toy_labels. repeat (apply Forall_cons; split); try exact I; try apply Forall_nil_2;
      cbn; repeat constructor; unfold is_u8; lia.
  - split; vm_compute; reflexivity.
Defined.
End Stack.
