(* ===== verification/Integrity.v ===== *)
(** * Events, datagrams and the bytes of a stream through both crates

    What ngtcp2 documents of streams gives what tokio-ngtcp2 relies on (Streams.v,
    Flow.v), for the model of [Connection] (Conn.v): its callbacks copy the data they are
    given into events. With it the delivery of stream data (Delivery.v) rests on the C
    library alone. *)
From S2P Require Import Prelude Types Errors Tokens Params InFlight Callbacks Conn Effects Transport.
From S2P Require Import Streams Routes Tokio Flow World ServerConn Server ServerInv Accepted Client ClientInv.
From S2P Require Import Delivery Stack.
Import Types Errors Tokens Callbacks Effects Transport World ServerConn ServerInv Flow Delivery Stack.

Module Integrity.
Section integrity.
Context {str : Strerror} {api : TokenApi} {ng : Conn.Ngtcp2Api} {tls : Conn.Tls}.
Context {allocator : InFlight.Allocator} {env : Env}.
#[local] Existing Instances connection_transport connection_transport_doc.

(** ** What ngtcp2 documents *)

(** The stream data that a run of a C function hands to the application: the [datalen]
    bytes at [data] of each [recv_stream_data]. *)
Definition data_of (id : Z) (cb : callback) : bytes :=
  match cb with
  | CbRecvStreamData _ i _ d n =>
      if bool_decide (i = id) then take (Z.to_nat n) (default [] d) else []
  | _ => []
  end.
Definition data_in (id : Z) (cbs : list callback) : bytes := concat (map (data_of id) cbs).

(** The bytes of each stream that a connection has taken to send, whether its sending
    side has ended, by the FIN or by a reset, whether it was reset, the datagrams it has
    taken to send, and the callbacks it has made. *)
Class Ngtcp2Streams := {
  ng_accepted : Conn.ngtcp2_conn -> Z -> bytes;
  ng_ended : Conn.ngtcp2_conn -> Z -> bool;
  ng_cut : Conn.ngtcp2_conn -> Z -> bool;
  ng_datagrams : Conn.ngtcp2_conn -> list bytes;
  ng_history : Conn.ngtcp2_conn -> list callback }.
Context {ns : Ngtcp2Streams}.

Definition hands_on {A} (i : Conn.ngtcp2_conn) (p : run A) (next : A -> Conn.ngtcp2_conn) : Prop :=
  forall u, ng_history (next (exec p u).1) = ng_history i ++ trace p u.

(** A function that takes no stream data: a stream ends in it by a reset only. It takes
    the datagrams [ds]. *)
Record goes_on (ds : list bytes) (i i' : Conn.ngtcp2_conn) : Prop := {
  go_datagrams : ng_datagrams i' = ng_datagrams i ++ ds;
  go_accepted id : ng_accepted i' id = ng_accepted i id;
  go_ended id : ng_ended i id = true -> ng_ended i' id = true;
  go_cut id : ng_cut i id = true -> ng_cut i' id = true;
  go_reset id : ng_ended i' id = true -> ng_ended i id = true \/ ng_cut i' id = true }.
Record runs_on {A} (i : Conn.ngtcp2_conn) (p : run A) (next : A -> Conn.ngtcp2_conn) : Prop := {
  ro_received : hands_on i p next;
  ro_goes u : goes_on [] i (next (exec p u).1) }.

(** A function without callbacks. *)
Record unmoved (i i' : Conn.ngtcp2_conn) : Prop := {
  um_goes : goes_on [] i i';
  um_history : ng_history i' = ng_history i }.

Class Ngtcp2StreamsDoc : Prop := {
  nd_writev i buf flags id d ts u :
    let '((i', datalen, o), _) := exec (Conn.ngtcp2_conn_writev_stream i buf flags id d ts) u in
    (forall s, ng_accepted i' s =
       ng_accepted i s ++ (if bool_decide (s = id) then take (Z.to_nat datalen) d else [])) /\
    (forall s, ng_ended i' s =
       ng_ended i s || (bool_decide (s = id) && (Z.testbit flags 1 && bool_decide (datalen = slen d)))) /\
    (Conn.wo_rv o < 0 -> Conn.wo_rv o <> NGTCP2_ERR_WRITE_MORE -> datalen < 0) /\
    (Conn.wo_rv o = NGTCP2_ERR_STREAM_SHUT_WR -> ng_ended i id = true) /\
    (ng_ended i id = true -> datalen <= 0) /\
    (forall s, ng_cut i' s = ng_cut i s) /\ ng_datagrams i' = ng_datagrams i;
  nd_writev_received i buf flags id d ts :
    hands_on i (Conn.ngtcp2_conn_writev_stream i buf flags id d ts) (fun r => r.1.1);
  nd_read_pkt i path e d ts : runs_on i (Conn.ngtcp2_conn_read_pkt i path e d ts) fst;
  nd_write_pkt i buf ts : runs_on i (Conn.ngtcp2_conn_write_pkt i buf ts) fst;
  (** sending a packet ends no stream *)
  nd_write_pkt_open i buf ts u id :
    ng_ended (exec (Conn.ngtcp2_conn_write_pkt i buf ts) u).1.1 id = ng_ended i id;
  nd_writev_datagram i buf d ts u :
    let '((i', accepted, _), _) := exec (Conn.ngtcp2_conn_writev_datagram i buf d ts) u in
    goes_on (if accepted =? 0 then [] else [d]) i i';
  nd_writev_datagram_history i buf d ts :
    hands_on i (Conn.ngtcp2_conn_writev_datagram i buf d ts) (fun r => r.1.1);
  nd_close i buf e ts : runs_on i (Conn.ngtcp2_conn_write_connection_close i buf e ts) (fun r => r.1.1);
  nd_migration i path ts : runs_on i (Conn.ngtcp2_conn_initiate_migration i path ts) fst;
  nd_expiry i ts : runs_on i (Conn.ngtcp2_conn_handle_expiry i ts) fst;
  nd_key_update i ts : runs_on i (Conn.ngtcp2_conn_initiate_key_update i ts) fst;
  nd_shutdown i fl id code : runs_on i (Conn.ngtcp2_conn_shutdown_stream i fl id code) fst;
  nd_shutdown_write i fl id code : runs_on i (Conn.ngtcp2_conn_shutdown_stream_write i fl id code) fst;
  nd_shutdown_read i fl id code : runs_on i (Conn.ngtcp2_conn_shutdown_stream_read i fl id code) fst;
  nd_token i t : unmoved i (Conn.ngtcp2_conn_submit_new_token i t).1;
  nd_bidi i : unmoved i (Conn.ngtcp2_conn_open_bidi_stream i).1.1;
  nd_uni i : unmoved i (Conn.ngtcp2_conn_open_uni_stream i).1.1;
  nd_offset i id n : unmoved i (Conn.ngtcp2_conn_extend_max_stream_offset i id n).1;
  nd_max_offset i n : unmoved i (Conn.ngtcp2_conn_extend_max_offset i n);
  nd_max_bidi i n : unmoved i (Conn.ngtcp2_conn_extend_max_streams_bidi i n);
  nd_max_uni i n : unmoved i (Conn.ngtcp2_conn_extend_max_streams_uni i n) }.

Context {ng_doc : Conn.Ngtcp2Doc} {ng_write_doc : Ngtcp2WriteDoc} {streams_doc : Ngtcp2StreamsDoc}.

(** ** What a connection of the crate does with its streams and datagrams *)

(** The events are those that the callbacks stand for. *)
#[export] Instance connection_received : Received :=
  {| history (c : conn) :=
       concat (map (events_of (early_data_attempted (Conn.user_data c))) (ng_history (Conn.inner c)));
     taken (c : conn) := ng_datagrams (Conn.inner c);
     cut (c : conn) := ng_cut (Conn.inner c) |}.

(** A callback's data is the data of its event. *)
Lemma event_data_of tried id cb : stream_bytes id (events_of tried cb) = data_of id cb.
Proof.
  destruct cb; cbn; try (by repeat case_match); unfold copied, stream_bytes.
  destruct d as [d|], (Z.ltb_spec 0 datalen0); cbn; repeat case_bool_decide;
    rewrite ?app_nil_r, ?take_nil; try done. by rewrite Z2Nat.nonpos.
Qed.

Lemma data_in_events tried id cbs :
  stream_bytes id (concat (map (events_of tried) cbs)) = data_in id cbs.
Proof.
  induction cbs as [|cb cbs IH]; [done|]. cbn [map concat].
  change (data_in id (cb :: cbs)) with (data_of id cb ++ data_in id cbs).
  by rewrite stream_bytes_app, IH, event_data_of.
Qed.

(** What a connection has received of a stream is what ngtcp2 handed over. *)
Lemma received_data (c : Conn.Connection) id :
  received (c : conn) id = data_in id (ng_history (Conn.inner c)).
Proof. apply data_in_events. Qed.

(** The part of the state that the events depend on. *)
Definition told_by (u : ConnectionUserData) : list Callbacks.ConnectionEvent * bool :=
  (events u, early_data_attempted u).

Lemma run_hands_over {A} (p : run A) next (c c' : Conn.Connection) u :
  told_by u = told_by (Conn.user_data c) -> hands_on (Conn.inner c) p next ->
  Conn.inner c' = next (exec p u).1 -> told_by (Conn.user_data c') = told_by (exec p u).2 ->
  hands_over c c'.
Proof.
  intros [= Hu Ht] Hp Hi [= He Ht']. destruct (exec_queues p u) as (Hq & _ & _ & _ & Hq' & _).
  exists (concat (map (events_of (early_data_attempted u)) (trace p u))). split.
  - cbn. by rewrite He, Hq, Hu.
  - unfold history, connection_received. by rewrite Hi, Hp, map_app, concat_app, Ht', Hq', Ht.
Qed.

#[export] Instance connection_accept : Streams.TransportAccept.
Proof.
  refine {| Streams.accepted (c : conn) := ng_accepted (Conn.inner c);
            Streams.ended (c : conn) := ng_ended (Conn.inner c) |}.
  - intros buf id d fin ts flags c Hfl. apply wp_call_result. unfold Conn.write_stream_with_flags.
    destruct (InFlight.append _ d _) as [[e1 app] h].
    set (u1 := (Conn.user_data c) <| in_flight_stream_data := _ |>).
    set (fl := if fin then _ else _).
    assert (Z.testbit fl 1 = fin) as Hfin.
    { unfold fl. destruct fin; [|done]. by rewrite Z.lor_spec, orb_true_r. }
    pose proof (nd_writev (Conn.inner c) buf fl id d ts u1) as Hw. rewrite Hfin in Hw.
    pose proof (slen_nonneg d).
    destruct (exec _ u1) as [[[i n] o] u2]. destruct Hw as (Ha & He & Herr & Hshut & _).
    assert (forall s, ng_accepted i s = ng_accepted (Conn.inner c) s ++
        (if bool_decide (s = id) then take (Z.to_nat (default 0 (if 0 <=? n then Some n else None))) d else []) /\
      ng_ended i s = ng_ended (Conn.inner c) s || (bool_decide (s = id) &&
        (fin && bool_decide ((if 0 <=? n then Some n else None) = Some (slen d))))) as Hok.
    { intros s. rewrite Ha, He. destruct (Z.leb_spec 0 n); cbn.
      - split; [done|]. do 3 f_equal. apply bool_decide_ext. naive_solver.
      - rewrite Z2Nat.nonpos by lia. split; [done|].
        by rewrite (bool_decide_false (n = slen d)), (bool_decide_false (None = Some (slen d))) by (done || lia). }
    assert (Conn.wo_rv o < 0 -> Conn.wo_rv o <> NGTCP2_ERR_WRITE_MORE -> forall s,
      ng_accepted i s = ng_accepted (Conn.inner c) s /\ ng_ended i s = ng_ended (Conn.inner c) s) as Hsame.
    { intros H1 H2 s. destruct (Hok s) as [-> ->]. specialize (Herr H1 H2).
      destruct (Z.leb_spec 0 n); [lia|]. cbn. rewrite (bool_decide_false (None = Some (slen d))) by done.
      rewrite take_0, !andb_false_r, orb_false_r. by destruct (bool_decide (s = id)); rewrite ?app_nil_r. }
    destruct (Z.eqb_spec (Conn.wo_rv o) NGTCP2_ERR_WRITE_MORE); [exact Hok|].
    destruct (Z.eqb_spec (Conn.wo_rv o) NGTCP2_ERR_STREAM_DATA_BLOCKED) as [Hb|].
    { split; [apply Hsame; [rewrite Hb|]; done|done]. }
    destruct (Z.eqb_spec (Conn.wo_rv o) NGTCP2_ERR_STREAM_SHUT_WR) as [Hs|].
    { split; [apply Hsame; [rewrite Hs|]; done|auto]. }
    destruct (Z.ltb_spec (Conn.wo_rv o) 0); [|exact Hok].
    split; [by apply Hsame|]. intros s. unfold from_ngtcp2. repeat case_match; done.
  - intros buf ts c. apply wp_call_result. unfold Conn.write_pkt.
    pose proof (ro_goes _ _ _ (nd_write_pkt (Conn.inner c) buf ts) (Conn.user_data c)) as [_ Ha _ _ _].
    pose proof (nd_write_pkt_open (Conn.inner c) buf ts (Conn.user_data c)) as He.
    destruct (exec _ _) as [[i o] u]. by destruct (Conn.wo_rv o <? 0).
Defined.

Lemma run_advances_taking {A} ds (p : run A) next (c c' : Conn.Connection) :
  hands_on (Conn.inner c) p next ->
  (exists l, goes_on l (Conn.inner c) (next (exec p (Conn.user_data c)).1) /\ l `sublist_of` ds) ->
  Conn.inner c' = next (exec p (Conn.user_data c)).1 ->
  told_by (Conn.user_data c') = told_by (exec p (Conn.user_data c)).2 ->
  advances_taking ds c c'.
Proof.
  intros Hr (l & [Hd Ha Hend Hc Hx] & Hl) Hi He. rewrite <- Hi in *.
  constructor; [by exists l|done..|]. by eapply run_hands_over.
Qed.

Lemma run_advances {A} (p : run A) next (c c' : Conn.Connection) :
  runs_on (Conn.inner c) p next -> Conn.inner c' = next (exec p (Conn.user_data c)).1 ->
  told_by (Conn.user_data c') = told_by (exec p (Conn.user_data c)).2 ->
  advances c c'.
Proof.
  intros [Hr Hg]. apply run_advances_taking; [done|]. exists []. split; [apply Hg|done].
Qed.

Lemma unmoved_advances (c c' : Conn.Connection) :
  unmoved (Conn.inner c) (Conn.inner c') ->
  told_by (Conn.user_data c') = told_by (Conn.user_data c) -> advances c c'.
Proof.
  intros [[Hd Ha He Hc Hx] Hr] [= Hev Ht].
  constructor; [by exists []|done..|]. exists []. split; [by rewrite app_nil_r|].
  rewrite app_nil_r. unfold history, connection_received. by rewrite Hr, Ht.
Qed.

Lemma same_advances (c c' : Conn.Connection) :
  Conn.inner c' = Conn.inner c -> told_by (Conn.user_data c') = told_by (Conn.user_data c) ->
  advances c c'.
Proof.
  intros Hi. apply unmoved_advances. rewrite Hi.
  constructor; [constructor; auto; by rewrite app_nil_r|done].
Qed.

Lemma exec_rv_advances p (c : Conn.Connection) :
  runs_on (Conn.inner c) p fst -> advances c (Conn.exec_rv p c).1.
Proof.
  intros Hp. eapply run_advances; [exact Hp|..]; unfold Conn.exec_rv;
    by destruct (exec p _) as [[i rv] u].
Qed.

Lemma call_advances {A} (f : Conn.Connection -> Conn.Connection * result Error A) :
  (forall c, advances c (f c).1) -> keeps advances (call_result f).
Proof. intros Hf c. unfold wlp, call_result. specialize (Hf c). by destruct (f c) as [c' []]. Qed.

#[export] Instance connection_streams_doc : StreamsDoc.
Proof.
  constructor.
  - intros buf id d fin ts flags c. unfold wlp. cbn. unfold call_result, Conn.write_stream_with_flags.
    destruct (InFlight.append _ d _) as [[e1 app] h].
    set (u1 := (Conn.user_data c) <| in_flight_stream_data := _ |>).
    set (fl := if fin then _ else _).
    pose proof (fun c' => run_hands_over _ _ c c' u1 eq_refl
      (nd_writev_received (Conn.inner c) buf fl id d ts)) as Hh.
    pose proof (nd_writev (Conn.inner c) buf fl id d ts u1) as Hw.
    destruct (exec _ u1) as [[[i n] o] u2]. destruct Hw as (_ & _ & _ & _ & _ & Hcut & Hd). cbn in Hh.
    repeat case_match; simplify_eq; (split; [by apply Hh|split; [by apply takes_none|done]]).
  - intros buf id d fin ts flags c Hend. unfold wlp. cbn. unfold call_result, Conn.write_stream_with_flags.
    destruct (InFlight.append _ d _) as [[e1 app] h].
    set (u1 := (Conn.user_data c) <| in_flight_stream_data := _ |>).
    set (fl := if fin then _ else _).
    pose proof (nd_writev (Conn.inner c) buf fl id d ts u1) as Hw.
    destruct (exec _ u1) as [[[i n] o] u2]. destruct Hw as (_ & _ & _ & _ & Hw & _ & _).
    specialize (Hw Hend). repeat case_match; simplify_eq; cbn; try done; bool_cases; lia.
  - intros c. cbn. unfold Conn.poll_event. by destruct (events _).
  - intros. apply call_advances. intros c. apply exec_rv_advances, nd_read_pkt.
  - intros buf ts. apply call_advances. intros c.
    apply (run_advances _ _ _ _ (nd_write_pkt (Conn.inner c) buf ts)); unfold Conn.write_pkt;
      destruct (exec _ _) as [[i o] u]; by destruct (_ <? 0).
  - intros buf d ts c. unfold wlp. cbn. unfold call_outcome, Conn.write_datagram.
    assert (forall l c', goes_on l (Conn.inner c) (Conn.inner c') -> l `sublist_of` [d] ->
      Conn.inner c' = (exec (Conn.ngtcp2_conn_writev_datagram (Conn.inner c) buf d ts) (Conn.user_data c)).1.1.1 ->
      told_by (Conn.user_data c') =
        told_by (exec (Conn.ngtcp2_conn_writev_datagram (Conn.inner c) buf d ts) (Conn.user_data c)).2 ->
      advances_taking [d] c c') as Hr.
    { intros l c' Hl Hs Hi Hu. rewrite Hi in Hl. eapply run_advances_taking;
        [apply (nd_writev_datagram_history (Conn.inner c) buf d ts)|by exists l|exact Hi|exact Hu]. }
    destruct (Conn.can_send_datagram c) as [[]|]; [| |done].
    + pose proof (nd_writev_datagram (Conn.inner c) buf d ts (Conn.user_data c)) as Hg.
      destruct (exec _ _) as [[[i acc] o] u].
      assert ((if acc =? 0 then [] else [d]) `sublist_of` [d]) as Hs
        by (destruct (acc =? 0); [apply sublist_nil_l|done]).
      destruct (_ <? 0); by eapply Hr.
    + pose proof (same_advances c c eq_refl eq_refl) as [(l & H1 & ->%sublist_nil_r) H2 H3 H4 H5 H6].
      constructor; [|done..]. exists []. split; [done|apply sublist_nil_l].
  - intros buf code why ts. apply call_advances. intros c.
    apply (run_advances _ _ _ _ (nd_close (Conn.inner c) buf
      (Conn.ngtcp2_ccerr_application_error code why) ts)); unfold Conn.write_connection_close_app, Conn.write_ccerr;
      destruct (exec _ _) as [[[i rv] b] u]; by destruct (_ <? 0).
  - intros. apply call_advances. intros c. apply exec_rv_advances, nd_expiry.
  - intros. apply call_advances. intros c. apply unmoved_advances; [apply nd_token|done].
  - apply call_advances. intros c. pose proof (nd_bidi (Conn.inner c)) as H. unfold Conn.open_bidi_stream.
    destruct (Conn.ngtcp2_conn_open_bidi_stream _) as [[i rv] id]. by apply unmoved_advances.
  - apply call_advances. intros c. pose proof (nd_uni (Conn.inner c)) as H. unfold Conn.open_uni_stream.
    destruct (Conn.ngtcp2_conn_open_uni_stream _) as [[i rv] id]. by apply unmoved_advances.
  - intros. apply call_advances. intros c. apply exec_rv_advances, nd_shutdown.
  - intros. apply call_advances. intros c. apply exec_rv_advances, nd_shutdown_write.
  - intros. apply call_advances. intros c. apply exec_rv_advances, nd_shutdown_write.
  - intros. apply call_advances. intros c. apply exec_rv_advances, nd_shutdown_read.
  - intros. apply call_advances. intros c. apply unmoved_advances; [apply nd_offset|done].
  - intros. apply call_advances. intros c. apply exec_rv_advances, nd_migration.
  - intros. apply call_advances. intros c. unfold Conn.initiate_key_update.
    destruct (_ || _ || _); [reflexivity|]. apply exec_rv_advances, nd_key_update.
  - intros c. unfold wlp. cbn. unfold call_outcome, Conn.take_session_ticket.
    repeat (case_match; simplify_eq; try reflexivity); by apply same_advances.
  - intros c. by apply same_advances.
  - intros c. by apply same_advances.
  - intros c. cbn. unfold Conn.poll_qlog_data. destruct (qlog_data _); [reflexivity|]. by apply same_advances.
  - intros c. cbn. unfold Conn.take_new_token. destruct (new_tokens _); [reflexivity|]. by apply same_advances.
  - intros n c. apply unmoved_advances; [apply nd_max_offset|done].
  - intros n c. apply unmoved_advances; [apply nd_max_bidi|done].
  - intros n c. apply unmoved_advances; [apply nd_max_uni|done].
Qed.

Context {bud : Ngtcp2Budget} {api_doc : TokenApiDoc api}.

(** C1: what one application writes to a stream is what the other is given. Over any
    calls of a client and of an accepted connection, their failures included, that do not
    abandon the stream, the bytes of the events each application gets are, in order and
    without loss or repetition, a prefix of what the other wrote, provided the two QUIC
    connections delivered a prefix of what they took; and once they delivered all of it,
    and nothing waits in tokio-ngtcp2 at either end, they are all that was written, unless
    a peer reset the stream or the application wrote after its end. The events an
    application gets are those that ngtcp2 reported, in order, each once, up to those that
    wait; the datagrams among them are some of those the other application sent, each at
    most once, when QUIC delivers each at most once. Neither end panics or runs for ever. *)
Theorem stream_integrity (id : StreamId) (methods : list ClientInv.method) (calls : list call)
    (c : Client.ClientConnection) (w : World) (a : Server.AcceptedConnection) (w' : World)
    (Hc : ClientInv.client_ok (c, w)) (Hw' : world_ok w') (Hcalls : Forall call_ok calls)
    (Hfc : fresh id (client_port c)) (Hfa : fresh id (server_port (Server.ac_inner a)))
    (Hmethods : Forall (fun m => client_abandons id m = false) methods)
    (Hcalls' : Forall (fun k => accepted_abandons id k = false) calls) :
  wp (account client_call (client_put id) methods) (c, w) (fun r1 s1 =>
    exists got1 wrote1, r1 = Ok (got1, wrote1) /\
    wp (account accepted_call (accepted_put id) calls) (a, w') (fun r2 s2 =>
      exists got2 wrote2, r2 = Ok (got2, wrote2) /\
      delivered id got2 wrote1 (offers client_offer methods)
        (server_port (Server.ac_inner s2.1)) (client_port s1.1) /\
      delivered id got1 wrote2 (offers accepted_offer calls)
        (client_port s1.1) (server_port (Server.ac_inner s2.1)))).
Proof. by apply ends_agree. Qed.
End integrity.

(** ** Witness *)

#[local] Existing Instances toy_strerror server_api server_api_doc toy_env Conn.toy_ngtcp2 Conn.toy_tls
  InFlight.exact_allocator Conn.toy_ngtcp2_doc toy_ngtcp2_write_doc toy_ngtcp2_budget
  connection_transport connection_transport_doc connection_received connection_accept
  connection_streams_doc.

(** What the library of Conn.v reads is data of stream 4, or a datagram. *)
#[local] Instance toy_streams : Ngtcp2Streams := {|
  ng_accepted (c : Conn.ngtcp2_conn) id :=
    concat (map (fun e => if bool_decide (id = e.1.1) then e.1.2 else []) (Conn.tq_log c));
  ng_ended (c : Conn.ngtcp2_conn) id := Conn.toy_shut c id;
  ng_cut (c : Conn.ngtcp2_conn) id := false;
  ng_datagrams (c : Conn.ngtcp2_conn) := Conn.tq_datagrams c;
  ng_history (c : Conn.ngtcp2_conn) := concat (map Conn.toy_frames (Conn.tq_read c)) |}.

#[local] Instance toy_streams_doc : Ngtcp2StreamsDoc.
Proof.
  assert (forall i, goes_on [] i i) as Hgo by (intros i; constructor; auto; by rewrite app_nil_r).
  constructor; intros; try solve [done | by split; [intros u; cbn; rewrite app_nil_r|]].
  - assert (forall o s, (forall s, ng_accepted i s =
        ng_accepted i s ++ (if bool_decide (s = id) then take (Z.to_nat (-1)) d else [])) /\
      ng_ended i s = ng_ended i s || (bool_decide (s = id) && (o && bool_decide (-1 = slen d)))) as Hnone.
    { intros o s. pose proof (slen_nonneg d). rewrite (bool_decide_false (-1 = slen d)) by lia.
      rewrite !andb_false_r, orb_false_r. split; [|done].
      intros s'. case_bool_decide; by rewrite ?app_nil_r. }
    cbn. pose proof (slen_nonneg d). pose proof (slen_nonneg buf).
    destruct (Conn.toy_shut i id) eqn:Hs; [|destruct (Z.ltb_spec (Conn.tq_sent i) 4)]; cbn.
    1, 3: split; [apply (Hnone true 0)|]; (split; [intros s; apply Hnone|]);
      (split; [done|]); (split; [done|]); split; [intros; lia|done].
    split; [intros s; rewrite map_app, concat_app; cbn; by rewrite app_nil_r|].
    split; [|split; [lia|split; [unfold NGTCP2_ERR_STREAM_SHUT_WR; lia|done]]].
    intros s. unfold Conn.toy_shut. cbn. rewrite existsb_app. cbn. rewrite orb_false_r. do 2 f_equal.
    + apply eq_true_iff_eq. by rewrite Z.eqb_eq, bool_decide_eq_true.
    + f_equal. apply eq_true_iff_eq. by rewrite Z.eqb_eq, bool_decide_eq_true.
  - intros u. cbn. rewrite app_nil_r. by destruct (Conn.toy_shut i id), (Conn.tq_sent i <? 4).
  - assert (forall cbs u (r : Conn.ngtcp2_conn * Z),
      (exec (Conn.invoke_all cbs (Return r)) u).1 = r /\ trace (Conn.invoke_all cbs (Return r)) u = cbs) as Hall.
    { induction cbs as [|cb cbs IH]; intros u r; [done|]. cbn. destruct (on_callback cb u) as [x u'].
      destruct (IH u' r) as [H1 H2]. split; [exact H1|f_equal; exact H2]. }
    pose proof (fun u => Hall (Conn.toy_frames d) u (Conn.mkToyQuic (Conn.tq_sent i)
      (Conn.tq_log i) (Conn.tq_datagrams i) (Conn.tq_read i ++ [d]), 0)) as Hread.
    constructor; intros u; destruct (Hread u) as [H1 H2].
    + etrans; [exact (f_equal (fun r : Conn.ngtcp2_conn * Z => ng_history r.1) H1)|]. cbn.
      rewrite map_app, concat_app. f_equal. cbn. rewrite app_nil_r. symmetry. exact H2.
    + eapply (eq_ind_r (fun r : Conn.ngtcp2_conn * Z => goes_on [] i r.1)); [|exact H1].
      constructor; cbn; auto. by rewrite app_nil_r.
  - cbn. constructor; cbn; auto.
  - intros u. cbn. by rewrite app_nil_r.
Qed.

(** The client writes three bytes with their end and a datagram; the accepted connection
    receives a packet with each. *)
Definition toy_host : World :=
  mkWorld 0 0 (Tokio.mkSockets (SockV4 [127; 0; 0; 1] 5000) None) [] shared_new Alone.
Definition toy_client : Client.ClientConnection :=
  Client.ClientConnection_new (SockV4 [127; 0; 0; 1] 5000) (SockV4 [127; 0; 0; 1] 4433)
    (Conn.toy_conn : conn) Tokio.DatagramConfig_default None.
Definition toy_accepted : Server.AcceptedConnection :=
  Server.mkAccepted toy_addr (mkCid [5])
    (mkServerConnection (Conn.toy_conn : conn) toy_addr Streams.pending_new [] false None false false
       false (repeat 0 64) Tokio.DatagramConfig_default None) 0.
Definition toy_methods : list ClientInv.method :=
  [ClientInv.WriteStream 4 [0x40; 1; 0] true; ClientInv.Flush; ClientInv.SendDatagram [7; 8]].
Definition toy_calls : list call :=
  [Recv [Accepted.FromSocket [0x40; 1; 0] toy_addr toy_addr 0]; Recv [];
   Recv [Accepted.FromSocket [49; 7; 8] toy_addr toy_addr 0]].

Definition result_of {S} (o : exit S (list Tokio.ConnectionEvent * list (bytes * bool)))
    : option (list Tokio.ConnectionEvent * list (bytes * bool)) :=
  match o with Done r _ => Some r | _ => None end.

Lemma stream_integrity_witness :
  let one := account client_call (client_put 4) toy_methods in
  let other := account accepted_call (accepted_put 4) toy_calls in
  result_of (one (toy_client, toy_host)) = Some ([], [([0x40; 1; 0], true)]) /\
  result_of (other (toy_accepted, Accepted.toy_shared)) =
    Some ([Tokio.StreamOpened 4; Tokio.StreamData 4 [0x40; 1; 0] true; Tokio.Datagram [7; 8]], []) /\
  offers client_offer toy_methods = [[7; 8]] /\
  wp one (toy_client, toy_host) (fun r1 s1 => exists got1 wrote1, r1 = Ok (got1, wrote1) /\
    wp other (toy_accepted, Accepted.toy_shared) (fun r2 s2 =>
      exists got2 wrote2, r2 = Ok (got2, wrote2) /\
      delivered 4 got2 wrote1 (offers client_offer toy_methods)
        (server_port (Server.ac_inner s2.1)) (client_port s1.1) /\
      delivered 4 got1 wrote2 (offers accepted_offer toy_calls)
        (client_port s1.1) (server_port (Server.ac_inner s2.1)))).
Proof.
  cbv zeta. do 3 (split; [vm_compute; reflexivity|]).
  apply (stream_integrity 4 toy_methods toy_calls toy_client toy_host toy_accepted
    Accepted.toy_shared).
  - constructor; [apply Client.slen_new_send_buf|apply Streams.pending_new_wf|reflexivity].
  - apply Accepted.toy_shared_ok.
  - constructor; [constructor; [solve_bytes|constructor]|constructor; [constructor|]].
    constructor; [constructor; [solve_bytes|constructor]|constructor].
  - by apply fresh_new.
  - by apply fresh_new.
  - repeat constructor.
  - repeat constructor.
Defined.
End Integrity.
