(* ===== verification/TestCerts.v ===== *)
(** * Certificates of the tests (interop/src/lib.rs, ngtcp2/src/lib.rs, fuzz_targets/conn_read_pkt.rs)

    Tests and fuzz targets make their certificates with rcgen and write them to a directory
    of their own under the temporary directory. Here is that directory, in a file system
    whose calls may fail, and the chain of certificates, for a library [Rcgen]. A panic
    ends a test, not the process the tests share: it is an [Internal] error, with the
    files it leaves. *)
From stdpp Require Import pretty.
From Stdlib Require Import Ascii.
From S2P Require Import Prelude Errors Effects.
Import Errors Effects.

Module TestCerts.

(** ** Paths and files *)

(** The components of a path, the last one first. *)
Notation path := (list string).

Fixpoint components_of (s : string) : list string :=
  match s with
  | EmptyString => [""]
  | String a s =>
      if Ascii.eqb a "/"%char then "" :: components_of s else
      match components_of s with x :: l => String a x :: l | [] => [String a ""] end
  end.
Definition components (s : string) : list string :=
  List.filter (fun x => negb (String.eqb x "") && negb (String.eqb x ".")) (components_of s).
Definition is_absolute (s : string) : bool :=
  match s with String a _ => Ascii.eqb a "/" | EmptyString => false end.
Definition join (p : path) (s : string) : path :=
  rev (components s) ++ if is_absolute s then [] else p.
Definition parent (p : path) : option path := match p with [] => None | _ :: q => Some q end.

Inductive node := Dir | File (content : string).
Notation files := (gmap path node).

Definition content_of (p : path) (fs : files) : option string :=
  match fs !! p with Some (File t) => Some t | _ => None end.
(** The root is a directory. *)
Definition is_dir (p : path) (fs : files) : bool :=
  match p with [] => true | _ => match fs !! p with Some Dir => true | _ => false end end.

Inductive written := Written | PartlyWritten (t : string) | NotOpened.

(** The process with its temporary directory, and what the operating system refuses: a
    directory, (part of) a write, the removal of an entry. *)
Class Machine := {
  temp_dir : path;
  pid : Z;
  refuses_dir : path -> files -> bool;
  refuses_write : path -> string -> files -> written;
  refuses_removal : path -> files -> bool }.

(** ** rcgen *)

Inductive BasicConstraints := Unconstrained | Constrained (path_len : Z).
Inductive IsCa := NoCa | ExplicitNoCa | Ca (b : BasicConstraints).
Inductive KeyUsagePurpose :=
  DigitalSignature | ContentCommitment | KeyEncipherment | DataEncipherment | KeyAgreement
| KeyCertSign | CrlSign | EncipherOnly | DecipherOnly.
Inductive ExtendedKeyUsagePurpose :=
  AnyUsage | ServerAuth | ClientAuth | CodeSigning | EmailProtection | TimeStamping | OcspSigning.
Inductive DnType := CommonName | OtherName (oid : list Z).

#[export] Instance DnType_eq_dec : EqDecision DnType.
Proof. solve_decision. Defined.

(** The fields that the code sets. *)
Record CertificateParams := mkCertificateParams {
  subject_alt_names : list string;
  distinguished_name : list (DnType * string);
  is_ca : IsCa;
  key_usages : list KeyUsagePurpose;
  extended_key_usages : list ExtendedKeyUsagePurpose;
  use_authority_key_identifier_extension : bool }.

#[export] Instance eta_CertificateParams : Eta CertificateParams := fun p =>
  mkCertificateParams (subject_alt_names p) (distinguished_name p) (is_ca p) (key_usages p)
    (extended_key_usages p) (use_authority_key_identifier_extension p).

Class Rcgen := {
  KeyPair : Type;
  Certificate : Type;
  params_new : list string -> option CertificateParams;
  (** the n-th key pair of the process *)
  key_generate : nat -> option KeyPair;
  self_signed : CertificateParams -> KeyPair -> option Certificate;
  signed_by : CertificateParams -> KeyPair -> CertificateParams * KeyPair -> option Certificate;
  pem : Certificate -> string;
  serialize_pem : KeyPair -> string }.

(** [chain_valid ca leaf host]: a verifier that trusts [ca] accepts [leaf] for [host]. It
    wants an anchor that may sign certificates, and takes a leaf with the name of its
    issuer for its own issuer. [key_matches]: the private key of a certificate. *)
Class RcgenDoc `{Rcgen} := {
  chain_valid : string -> string -> string -> bool;
  key_matches : string -> string -> bool;
  doc_params_new names p : params_new names = Some p -> subject_alt_names p = names;
  doc_self_signed p k c : self_signed p k = Some c ->
    key_matches (pem c) (serialize_pem k) = true;
  doc_signed_by p k i c : signed_by p k i = Some c ->
    key_matches (pem c) (serialize_pem k) = true;
  doc_chain cp ck ca p k leaf host :
    self_signed cp ck = Some ca -> signed_by p k (cp, ck) = Some leaf ->
    is_ca cp = Ca Unconstrained -> KeyCertSign ∈ key_usages cp ->
    distinguished_name cp <> distinguished_name p ->
    host ∈ subject_alt_names p -> ServerAuth ∈ extended_key_usages p ->
    chain_valid (pem ca) (pem leaf) host = true }.

Section certs.
Context {mach : Machine} {rc : Rcgen}.

(** ** [std::fs] *)

(** The files left, and whether it succeeded. *)
Fixpoint create_dir_all (p : path) (fs : files) : files * bool :=
  if is_dir p fs then (fs, true) else
  match fs !! p, p with
  | None, _ :: up =>
      let '(fs, ok) := create_dir_all up fs in
      if negb ok || refuses_dir p fs then (fs, false) else (<[p := Dir]> fs, true)
  | _, _ => (fs, false)
  end.

Definition write (p : path) (t : string) (fs : files) : files * bool :=
  match p with
  | [] => (fs, false)
  | _ :: up =>
      if is_dir p fs || negb (is_dir up fs) then (fs, false) else
      match refuses_write p t fs with
      | Written => (<[p := File t]> fs, true)
      | PartlyWritten t => (<[p := File t]> fs, false)
      | NotOpened => (fs, false)
      end
  end.

Definition under (p q : path) : bool := bool_decide (p `suffix_of` q).

(** Whether it succeeded is not looked at. *)
Definition remove_dir_all (p : path) (fs : files) : files :=
  if is_dir p fs
  then filter (fun e => negb (under p e.1) || refuses_removal e.1 fs = true) fs else fs.

(** ** The process *)

(** [COUNTER] is the static of the function that names the directories. *)
Record Process := mkProcess { fs : files; COUNTER : Z; keys_made : nat }.
#[export] Instance eta_Process : Eta Process := fun s => mkProcess (fs s) (COUNTER s) (keys_made s).
Notation P := (M Process).

(** [.expect(msg)] *)
Definition expected {A} (msg : string) (o : option A) : P A :=
  match o with Some a => mret a | None => throw (Internal msg) end.
Definition io (msg : string) (f : files -> files * bool) : P unit := fun s =>
  let '(fs', ok) := f (fs s) in
  (if ok then mret tt else throw (Internal msg) : P unit) (s <| fs := fs' |>).
Definition fetch_add : P Z := fun s => Done (COUNTER s) (s <| COUNTER := as_u64 (COUNTER s + 1) |>).
Definition generate_key (msg : string) : P KeyPair := fun s =>
  expected msg (key_generate (keys_made s)) (s <| keys_made := S (keys_made s) |>).

(** ** TestCert *)

Record TestCert := mkTestCert {
  dir : path;
  cert_path : path;
  key_path : path;
  ca_cert_path : path;
  cert_pem : string;
  key_pem : string;
  ca_cert_pem : string }.

Definition dir_name (prefix label : string) (unique : Z) : string :=
  prefix +:+ label +:+ "_" +:+ pretty pid +:+ "_" +:+ pretty unique.

Definition make_ca : P (CertificateParams * KeyPair * Certificate) :=
  ca_params ← expected "ca params" (params_new []);
  let ca_params := ca_params
    <| distinguished_name := [(CommonName, "ngtcp2-rs interop test CA")] |>
    <| is_ca := Ca Unconstrained |>
    <| key_usages := [KeyCertSign; CrlSign; DigitalSignature] |> in
  ca_key ← generate_key "ca key";
  ca_cert ← expected "ca certificate" (self_signed ca_params ca_key);
  mret (ca_params, ca_key, ca_cert).

Definition make_server (issuer : CertificateParams * KeyPair) : P (KeyPair * Certificate) :=
  server_params ← expected "params" (params_new ["localhost"]);
  let server_params := server_params
    <| distinguished_name := [(CommonName, "localhost")] |>
    <| use_authority_key_identifier_extension := true |>
    <| key_usages := [DigitalSignature] |>
    <| extended_key_usages := [ServerAuth] |> in
  server_key ← generate_key "server key";
  server_cert ← expected "server certificate" (signed_by server_params server_key issuer);
  mret (server_key, server_cert).

Definition generate_in (dir : path) : P TestCert :=
  io "create_dir_all" (create_dir_all dir) ;;
  ca ← make_ca;
  server ← make_server ca.1;
  let c := mkTestCert dir (join dir "cert.pem") (join dir "key.pem") (join dir "ca_cert.pem")
    (pem server.2) (serialize_pem server.1) (pem ca.2) in
  io "write certificate" (write (cert_path c) (cert_pem c)) ;;
  io "write key" (write (key_path c) (key_pem c)) ;;
  io "write ca certificate" (write (ca_cert_path c) (ca_cert_pem c)) ;;
  mret c.
Definition generate (label : string) : P TestCert :=
  unique ← fetch_add;
  generate_in (join temp_dir (dir_name "ngtcp2_interop_" label unique)).

Definition drop (c : TestCert) : P unit :=
  modify (fun s => s <| fs := remove_dir_all (dir c) (fs s) |>).

(** ** The certificates of the unit tests (ngtcp2/src/lib.rs) *)

Definition make_self_signed : P (KeyPair * Certificate) :=
  params ← expected "params" (params_new ["localhost"]);
  key_pair ← generate_key "key";
  cert ← expected "certificate" (self_signed params key_pair);
  mret (key_pair, cert).

Definition write_self_signed (temp : path) : P (path * path) :=
  io "create_dir_all" (create_dir_all temp) ;;
  let cert_path := join temp "cert.pem" in
  let key_path := join temp "key.pem" in
  c ← make_self_signed;
  io "write certificate" (write cert_path (pem c.2)) ;;
  io "write key" (write key_path (serialize_pem c.1)) ;;
  mret (cert_path, key_path).

Definition generate_test_certs (label : string) : P (path * path) :=
  unique_id ← fetch_add;
  write_self_signed (join temp_dir (dir_name "ngtcp2_test_" label unique_id)).

Definition remove_test_certs (cert_path key_path : path) : P unit :=
  match parent cert_path with
  | Some dir => modify (fun s => s <| fs := remove_dir_all dir (fs s) |>)
  | None => mret tt
  end.

(** ** The contexts of the fuzz target (conn_read_pkt.rs) *)

Section contexts.
(** [TlsContext::new_server] reads the two files; the client reads none. *)
Context {TlsContext : Type}.
Context (new_server : path -> path -> files -> option TlsContext).
Context (new_client_with_options : option TlsContext).
Notation F := (M (option TlsContext * Process)).

Definition get_or_init (init : P TlsContext) : F TlsContext := fun s =>
  match s.1 with
  | Some c => Done c s
  | None =>
      match init s.2 with
      | Done c p => Done c (Some c, p)
      | Fail e p => Fail e (None, p)
      | Panics => Panics
      | Diverges => Diverges
      end
  end.

Definition server_tls_ctx : F TlsContext :=
  get_or_init (
    let temp := join temp_dir ("ngtcp2_fuzz_certs_" +:+ pretty pid) in
    paths ← write_self_signed temp;
    tls_ctx ← (s ← gets fs; expected "context" (new_server paths.1 paths.2 s));
    modify (fun s => s <| fs := remove_dir_all temp (fs s) |>) ;;
    mret tls_ctx).

Definition client_tls_ctx : F TlsContext :=
  get_or_init (expected "context" new_client_with_options).
End contexts.

(** ** Files *)

Lemma under_refl p : under p p = true.
Proof. by apply bool_decide_eq_true. Qed.

Lemma under_cons p q x : under p q = true -> under p (x :: q) = true.
Proof. unfold under. rewrite !bool_decide_eq_true. intros [k ->]. by exists (x :: k). Qed.

Lemma create_dir_all_other p q fs : under q p = false -> (create_dir_all p fs).1 !! q = fs !! q.
Proof.
  unfold under. rewrite bool_decide_eq_false. revert fs.
  induction p as [|x p IH]; intros fs Hq; cbn; [done|].
  destruct (fs !! (x :: p)) as [[]|]; try done.
  assert (~ q `suffix_of` p) as Hp by (intros [k ->]; apply Hq; by exists (x :: k)).
  specialize (IH fs Hp). destruct (create_dir_all p fs) as [fs' ok]. cbn in IH.
  destruct (negb ok || _); [done|]. cbn. rewrite lookup_insert_ne; [done|].
  intros <-. by apply Hq.
Qed.

(** No file changes, and an absent directory appears. *)
Lemma create_dir_all_content p q fs : content_of q (create_dir_all p fs).1 = content_of q fs.
Proof.
  revert fs. induction p as [|x p IH]; intros fs; cbn; [done|].
  destruct (fs !! (x :: p)) as [[]|] eqn:Hx; try done.
  pose proof (create_dir_all_other p (x :: p) fs) as Ho. specialize (IH fs).
  destruct (create_dir_all p fs) as [fs' ok]. cbn in *.
  destruct (negb ok || _); [done|]. unfold content_of in *. cbn.
  destruct (decide (x :: p = q)) as [<-|]; [|by rewrite lookup_insert_ne].
  by rewrite lookup_insert_eq, Hx.
Qed.

Lemma create_dir_all_is_dir p fs : (create_dir_all p fs).2 = true -> is_dir p (create_dir_all p fs).1 = true.
Proof.
  destruct p as [|x p]; cbn; [done|]. destruct (fs !! (x :: p)) as [[]|] eqn:Hx; cbn; [by rewrite Hx|done|].
  destruct (create_dir_all p fs) as [fs' ok]. destruct (negb ok || _); [done|]. cbn.
  by rewrite lookup_insert_eq.
Qed.

Lemma write_other p q t fs : p <> q -> (write p t fs).1 !! q = fs !! q.
Proof.
  intros Hq. destruct p as [|x p]; cbn; [done|]. destruct (_ || _); [done|].
  destruct (refuses_write _ _ _); cbn; by rewrite ?lookup_insert_ne.
Qed.

Lemma write_content_other p q t fs :
  p <> q -> content_of q (write p t fs).1 = content_of q fs.
Proof. intros H. unfold content_of. by rewrite write_other. Qed.

Lemma write_content p t fs : (write p t fs).2 = true -> content_of p (write p t fs).1 = Some t.
Proof.
  destruct p as [|x p]; cbn; [done|]. destruct (_ || _); [done|].
  destruct (refuses_write _ _ _); try done. intros _. unfold content_of. cbn.
  by rewrite lookup_insert_eq.
Qed.

Lemma write_parent x p t fs : (write (x :: p) t fs).2 = true -> is_dir p (write (x :: p) t fs).1 = true.
Proof.
  cbn. destruct (_ || _) eqn:E; [done|]. apply orb_false_iff in E as [_ E%negb_false_iff].
  assert (forall n, is_dir p (<[x :: p := n]> fs) = is_dir p fs) as Hi.
  { intros n. destruct p as [|y p]; [done|]. unfold is_dir. rewrite lookup_insert_ne; [done|].
    intros H%(f_equal length). cbn in H. lia. }
  by destruct (refuses_write _ _ _); cbn; rewrite ?Hi.
Qed.

Lemma remove_dir_all_other p q fs : under p q = false -> remove_dir_all p fs !! q = fs !! q.
Proof.
  intros Hq. unfold remove_dir_all. destruct (is_dir p fs); [|done].
  rewrite map_lookup_filter. destruct (fs !! q) as [n|]; cbn; [|done].
  rewrite option_guard_True; [done|]. by rewrite Hq.
Qed.

(** ** Names of directories *)

Definition has (a : ascii) (s : string) : Prop := a ∈ String.list_ascii_of_string s.

Lemma list_ascii_app s t :
  String.list_ascii_of_string (s +:+ t) = String.list_ascii_of_string s ++ String.list_ascii_of_string t.
Proof. induction s as [|a s IH]; [done|]. cbn. by rewrite <- IH. Qed.

Lemma has_app a s t : has a (s +:+ t) <-> has a s \/ has a t.
Proof. unfold has. by rewrite list_ascii_app, elem_of_app. Qed.

(** What a number is written with. *)
Definition digit (a : ascii) : bool := negb (Ascii.eqb a "_") && negb (Ascii.eqb a "/").

Lemma pretty_N_go_digits x s a : has a (pretty_N_go x s) -> digit a = true \/ has a s.
Proof.
  revert s. induction (N.lt_wf_0 x) as [x _ IH]; intros s.
  destruct (decide (x = 0)%N) as [->|]; [rewrite pretty_N_go_0; by right|].
  rewrite pretty_N_go_step by lia. intros [H|H]%IH; [by left| |apply N.div_lt; lia].
  apply elem_of_cons in H as [->|H]; [left|by right].
  unfold pretty_N_char. by repeat case_match.
Qed.

Lemma pretty_digits (z : Z) a : has a (pretty z) -> digit a = true.
Proof.
  assert (forall n, has a (pretty (Npos n)) -> digit a = true) as Hn.
  { intros n [H|H]%pretty_N_go_digits; [done|]. by apply elem_of_nil in H. }
  destruct z as [|n|n]; cbn.
  - by intros ->%list_elem_of_singleton.
  - apply Hn.
  - intros [->|H]%elem_of_cons; [done|by eapply Hn].
Qed.

Lemma last_separator {A} (c : A) (l1 l2 x y : list A) :
  l1 ++ c :: x = l2 ++ c :: y -> c ∉ x -> c ∉ y -> x = y.
Proof.
  revert l2. induction l1 as [|a l1 IH]; intros [|b l2]; cbn; intros [=] Hx Hy; subst.
  - done.
  - exfalso. apply Hx. apply elem_of_app. right. left.
  - exfalso. apply Hy. apply elem_of_app. right. left.
  - by eapply IH.
Qed.

Lemma dir_name_inj prefix l1 l2 u1 u2 : dir_name prefix l1 u1 = dir_name prefix l2 u2 -> u1 = u2.
Proof.
  intros H%(f_equal String.list_ascii_of_string). unfold dir_name in H.
  rewrite !list_ascii_app in H. cbn [String.list_ascii_of_string app] in H.
  rewrite !app_comm_cons, !app_assoc in H. apply last_separator in H.
  - apply (inj pretty). apply (f_equal String.string_of_list_ascii) in H.
    by rewrite !String.string_of_list_ascii_of_string in H.
  - intros Ha. by apply pretty_digits in Ha.
  - intros Ha. by apply pretty_digits in Ha.
Qed.

Lemma components_of_plain s : ~ has "/" s -> components_of s = [s].
Proof.
  induction s as [|a s IH]; cbn; [done|]. intros Hs. rewrite IH.
  - destruct (Ascii.eqb_spec a "/") as [->|]; [|done]. exfalso. apply Hs. left.
  - intros H. apply Hs. by right.
Qed.

Lemma join_dir_name (a : ascii) prefix label u :
  a <> "."%char -> ~ has "/" (String a prefix) -> ~ has "/" label ->
  join temp_dir (dir_name (String a prefix) label u) = dir_name (String a prefix) label u :: temp_dir.
Proof.
  intros Ha Hp Hl. assert (~ has "/" (dir_name (String a prefix) label u)) as Hd.
  { assert (forall z, ~ has "/" (pretty (z : Z))) as Hz by (by intros z ?%pretty_digits).
    assert (~ has "/" "_") as Hu by (by intros ?%list_elem_of_singleton).
    unfold dir_name. rewrite !has_app. naive_solver. }
  unfold join, components. rewrite components_of_plain by done.
  change (dir_name (String a prefix) label u) with (String a (dir_name prefix label u)). cbn.
  destruct (Ascii.eqb_spec a ".") as [->|_]; [done|].
  destruct (Ascii.eqb_spec a "/") as [->|_]; [exfalso; apply Hp; left|done].
Qed.

(** ** Rules *)

Lemma wp_expected {A} msg (o : option A) s Q :
  (forall a, o = Some a -> Q (Ok a) s) -> (o = None -> Q (Err (Internal msg)) s) ->
  wp (expected msg o) s Q.
Proof. destruct o; cbn; auto. Qed.

Lemma wp_io msg f s Q :
  (forall s', fs s' = (f (fs s)).1 -> (f (fs s)).2 = true -> Q (Ok tt) s') ->
  Q (Err (Internal msg)) (s <| fs := (f (fs s)).1 |>) -> wp (io msg f) s Q.
Proof. unfold wp, io. destruct (f (fs s)) as [fs' []]; cbn; auto. Qed.

Lemma wp_generate_key msg s Q :
  (forall k, Q (Ok k) (s <| keys_made := S (keys_made s) |>)) ->
  Q (Err (Internal msg)) (s <| keys_made := S (keys_made s) |>) -> wp (generate_key msg) s Q.
Proof. unfold wp, generate_key. destruct (key_generate _); cbn; auto. Qed.

(** *** What is outside of a directory *)

Definition outside (d : path) (s s' : Process) : Prop :=
  COUNTER s' = COUNTER s /\
  forall q t, under d q = false -> content_of q (fs s) = Some t -> content_of q (fs s') = Some t.

#[export] Instance outside_preorder d : PreOrder (outside d).
Proof. split; [by split|]. intros s1 s2 s3 [E1 H1] [E2 H2]. split; [congruence|auto]. Qed.

Lemma keeps_io d msg f :
  (forall fs q, under d q = false -> content_of q (f fs).1 = content_of q fs) ->
  keeps (outside d) (io msg f).
Proof.
  intros Hf s. unfold wlp, io. specialize (Hf (fs s)).
  destruct (f (fs s)) as [fs' []]; cbn in *; (split; [done|]); intros q t Hq; cbn; by rewrite Hf.
Qed.

Lemma keeps_expected d {A} msg (o : option A) : keeps (outside d) (expected msg o).
Proof. intros s. unfold wlp. by destruct o; cbn. Qed.

Lemma keeps_generate_key d msg : keeps (outside d) (generate_key msg).
Proof. intros s. unfold wlp, generate_key. by destruct (key_generate _); cbn. Qed.

Lemma keeps_create_dir_all d msg p : keeps (outside d) (io msg (create_dir_all p)).
Proof. apply keeps_io. intros. apply create_dir_all_content. Qed.

Lemma keeps_write d msg p t : under d p = true -> keeps (outside d) (io msg (write p t)).
Proof.
  intros Hp. apply keeps_io. intros fs q Hq. apply write_content_other.
  intros ->. by rewrite Hp in Hq.
Qed.

Lemma keeps_remove_dir_all d : keeps (outside d) (modify (fun s => s <| fs := remove_dir_all d (fs s) |>)).
Proof.
  apply keeps_modify. intros s. split; [done|]. intros q t Hq. cbn. unfold content_of.
  by rewrite remove_dir_all_other.
Qed.

Create HintDb certs.
#[local] Hint Resolve keeps_expected keeps_generate_key keeps_create_dir_all keeps_write
  keeps_remove_dir_all keeps_ret : certs.

Ltac keeps_outside :=
  repeat (apply (keeps_bind _); [|intros ?]); cbn [cert_path key_path ca_cert_path];
  eauto 6 using keeps_ret with typeclass_instances certs.

Lemma under_join d x : is_absolute x = false -> under d (join d x) = true.
Proof. intros Hx. unfold join, under. rewrite Hx. apply bool_decide_eq_true. by eexists. Qed.
#[local] Hint Resolve under_join : certs.
#[local] Hint Extern 1 (is_absolute _ = false) => reflexivity : certs.

Lemma keeps_generate_in d : keeps (outside d) (generate_in d).
Proof. unfold generate_in, make_ca, make_server. keeps_outside. Qed.

Lemma keeps_drop c : keeps (outside (dir c)) (drop c).
Proof. apply keeps_remove_dir_all. Qed.

(** ** What is generated *)

Definition placed (d : path) (c : TestCert) : Prop :=
  dir c = d /\ cert_path c = join d "cert.pem" /\ key_path c = join d "key.pem" /\
  ca_cert_path c = join d "ca_cert.pem".

(** The files hold what the accessors return. *)
Definition readable (c : TestCert) (s : Process) : Prop :=
  content_of (cert_path c) (fs s) = Some (cert_pem c) /\
  content_of (key_path c) (fs s) = Some (key_pem c) /\
  content_of (ca_cert_path c) (fs s) = Some (ca_cert_pem c).

Section doc.
Context {doc : RcgenDoc}.

(** A client that trusts the CA accepts the certificate, and the server holds its key. *)
Definition genuine (c : TestCert) : Prop :=
  chain_valid (ca_cert_pem c) (cert_pem c) "localhost" = true /\
  key_matches (cert_pem c) (key_pem c) = true.

Lemma wp_make_ca s :
  wp make_ca s (fun r _ => forall p k c, r = Ok (p, k, c) ->
    self_signed p k = Some c /\ is_ca p = Ca Unconstrained /\ KeyCertSign ∈ key_usages p /\
    distinguished_name p = [(CommonName, "ngtcp2-rs interop test CA")]).
Proof.
  unfold make_ca. apply wp_bind, wp_expected; [|done]. intros p Hp.
  apply wp_bind, wp_generate_key; [|done]. intros k.
  apply wp_bind, wp_expected; [|done]. intros c Hc. apply wp_ret. intros ? ? ? [= <- <- <-].
  split_and!; [done|done|left|done].
Qed.

Lemma wp_make_server i s :
  wp (make_server i) s (fun r _ => forall k c, r = Ok (k, c) -> exists p,
    signed_by p k i = Some c /\ "localhost" ∈ subject_alt_names p /\
    ServerAuth ∈ extended_key_usages p /\ distinguished_name p = [(CommonName, "localhost")]).
Proof.
  unfold make_server. apply wp_bind, wp_expected; [|done]. intros p Hp%doc_params_new.
  apply wp_bind, wp_generate_key; [|done]. intros k.
  apply wp_bind, wp_expected; [|done]. intros c Hc. apply wp_ret. intros ? ? [= <- <-].
  eexists. split; [exact Hc|]. split_and!; [cbn; rewrite Hp; left|left|done].
Qed.

Lemma wp_generate_in d s :
  wp (generate_in d) s (fun r s' => forall c, r = Ok c ->
    is_dir d (fs s') = true /\ placed d c /\ readable c s' /\ genuine c).
Proof.
  unfold generate_in. apply wp_bind, wp_io; [|done]. intros s1 _ _. apply wp_bind.
  eapply wp_mono; [apply wp_make_ca|]. intros [[[p k] ca]|e] s2 Hca; [|done].
  destruct (Hca _ _ _ eq_refl) as (Hself & His & Huse & Hdn). apply wp_bind.
  eapply wp_mono; [apply wp_make_server|]. intros [[sk leaf]|e] s3 Hl; [|done].
  destruct (Hl _ _ eq_refl) as (sp & Hsign & Hsan & Heku & Hsdn). cbn [fst snd] in *.
  apply wp_bind, wp_io; [|done]. intros s4 E4 O4. apply wp_bind, wp_io; [|done]. intros s5 E5 O5.
  apply wp_bind, wp_io; [|done]. intros s6 E6 O6. apply wp_ret. intros c [= <-].
  split; [rewrite E6; by apply write_parent|]. split; [done|].
  apply write_content in O4, O5, O6. split.
  - unfold readable. rewrite E6, O6, !write_content_other, E5, O5, write_content_other, E4 by done.
    done.
  - split; [|by eapply doc_signed_by]. eapply doc_chain; eauto. congruence.
Qed.

(** ** The tests of a process

    Tests make certificates and drop them, in any order; a test that panics makes none. *)
Inductive op := Generate (label : string) | DropNth (i : nat).

Definition step (st : Process * list TestCert) (o : op) : Process * list TestCert :=
  match o with
  | Generate label =>
      match generate label st.1 with
      | Done c s => (s, c :: st.2)
      | Fail _ s => (s, st.2)
      | _ => st
      end
  | DropNth i =>
      match st.2 !! i with
      | Some c => match drop c st.1 with Done _ s => (s, delete i st.2) | _ => st end
      | None => st
      end
  end.
Definition run (ops : list op) (st : Process * list TestCert) := foldl step st ops.

Definition plain_label (o : op) : Prop :=
  match o with Generate label => ~ has "/" label | DropNth _ => True end.

Definition cert_dir (label : string) (u : Z) : path :=
  dir_name "ngtcp2_interop_" label u :: temp_dir.

Lemma generate_dir label u : ~ has "/" label ->
  join temp_dir (dir_name "ngtcp2_interop_" label u) = cert_dir label u.
Proof. intros H. apply join_dir_name; [done| |done]. by vm_compute; set_solver. Qed.

Lemma under_sibling (x y z : string) t : x <> y -> under (x :: t) (z :: y :: t) = false.
Proof.
  intros Hxy. apply bool_decide_eq_false. intros [k Hk].
  assert (length k = 1)%nat as Hl.
  { apply (f_equal length) in Hk. rewrite length_app in Hk. cbn in Hk. lia. }
  destruct k as [|? [|? ?]]; try done. by injection Hk as _ <-.
Qed.

(** A certificate that lives, made by the call of [generate] with the number [u]. *)
Definition lives (s : Process) (c : TestCert) : Prop :=
  exists label u, 0 <= u < COUNTER s /\ placed (cert_dir label u) c /\ readable c s /\ genuine c.

Lemma lives_outside label u s s' c :
  outside (cert_dir label u) s s' -> dir c <> cert_dir label u -> lives s c -> lives s' c.
Proof.
  intros [Hn Ho] Hd (l & v & Hv & (Ed & E1 & E2 & E3) & (R1 & R2 & R3) & Hg).
  assert (dir_name "ngtcp2_interop_" label u <> dir_name "ngtcp2_interop_" l v) as Hne.
  { intros E. apply Hd. rewrite Ed. unfold cert_dir. by rewrite E. }
  exists l, v. rewrite Hn. split_and!; [lia|lia|done..| |done].
  rewrite E1 in R1. rewrite E2 in R2. rewrite E3 in R3.
  split_and!; rewrite ?E1, ?E2, ?E3; apply Ho; try done; by apply under_sibling.
Qed.

Record live_inv (bound : Z) (st : Process * list TestCert) : Prop := {
  li_counter : 0 <= COUNTER st.1 <= bound;
  li_lives : Forall (lives st.1) st.2;
  li_distinct : NoDup (dir <$> st.2) }.

Lemma fresh_dir label s c : lives s c -> dir c <> cert_dir label (COUNTER s).
Proof.
  intros (l & u & Hu & (-> & _) & _). unfold cert_dir. intros [= ->%dir_name_inj]. lia.
Qed.

Lemma step_live bound st o :
  bound < u64_max -> plain_label o -> live_inv bound st -> live_inv (bound + 1) (step st o).
Proof.
  destruct st as [s live]. intros Hb Hp [Hc Hl Hd]. destruct o as [label|i]; cbn in *.
  - assert (wp (generate label) s (fun r s' => COUNTER s' = COUNTER s + 1 /\
        Forall (lives s') live /\ forall c, r = Ok c ->
          placed (cert_dir label (COUNTER s)) c /\ readable c s' /\ genuine c)) as Hg.
    { unfold generate. apply wp_bind. unfold wp at 1, fetch_add. rewrite generate_dir by done.
      set (s1 := s <| COUNTER := _ |>).
      eapply wp_mono; [apply wp_wlp; [apply wp_generate_in|apply keeps_generate_in]|].
      intros r s' [Hr Ho]. assert (COUNTER s1 = COUNTER s + 1) as E1.
      { unfold s1, as_u64. cbn. apply Z.mod_small. unfold u64_max in *. lia. }
      split_and!; [destruct Ho; congruence| |intros c Hc'; by apply Hr].
      apply (Forall_impl _ _ _ Hl). intros c Hc'. eapply lives_outside; [exact Ho| |].
      - by apply fresh_dir.
      - destruct Hc' as (l & u & Hu & H'). exists l, u. split; [lia|exact H']. }
    unfold wp in Hg. destruct (generate label s) as [c s'|e s'| |]; try done.
    + destruct Hg as (En & Hl' & Hc'). destruct (Hc' _ eq_refl) as (Hpl & Hr & Hge).
      split; cbn; [lia| |].
      * constructor; [|done]. exists label, (COUNTER s). split; [lia|done].
      * constructor; [|done]. destruct Hpl as [-> _].
        intros (c' & E & Hin)%list_elem_of_fmap. rewrite Forall_forall in Hl.
        symmetry in E. by eapply fresh_dir; [apply Hl|].
    + destruct Hg as (En & Hl' & _). split; cbn; [lia|done|done].
  - destruct (live !! i) as [c|] eqn:Hi; [|split; cbn; [lia|done|done]]. cbn.
    pose proof (keeps_drop c s) as Ho. unfold wlp in Ho. cbn in Ho.
    assert (exists label u, dir c = cert_dir label u) as (label & u & Ed).
    { rewrite Forall_forall in Hl. apply list_elem_of_lookup_2, Hl in Hi.
      destruct Hi as (l & v & _ & (E & _) & _). by eauto. }
    rewrite <- (take_drop_middle live i c Hi) in Hl, Hd. rewrite delete_take_drop.
    rewrite <- Permutation_middle in Hl. rewrite fmap_app in Hd. cbn in Hd.
    rewrite <- Permutation_middle, <- fmap_app in Hd.
    apply Forall_cons in Hl as [_ Hl]. apply NoDup_cons in Hd as [Hn Hd].
    split; cbn; [lia| |done]. rewrite Forall_forall in *. intros c' Hc'.
    eapply (lives_outside label u); [rewrite <- Ed; exact Ho| |by apply Hl].
    intros E. apply Hn. rewrite Ed, <- E. by apply list_elem_of_fmap_2.
Qed.

Lemma run_live bound ops st :
  bound + slen ops <= u64_max -> Forall plain_label ops -> live_inv bound st ->
  live_inv (bound + slen ops) (run ops st).
Proof.
  revert bound st. induction ops as [|o ops IH]; intros bound st Hb Hp Hi.
  { by rewrite slen_nil, Z.add_0_r. }
  rewrite slen_cons in *. apply Forall_cons in Hp as [Ho Hp].
  replace (bound + (1 + slen ops)) with (bound + 1 + slen ops) by lia.
  pose proof (slen_nonneg ops). apply IH; [lia|done|]. apply step_live; [lia|done|done].
Qed.

(** The tests of a process do not disturb each other: after any of them made and dropped
    certificates, or panicked, whatever calls of the file system failed, the files of each
    certificate that is still there hold it, its key belongs to it, and its CA vouches for
    localhost. *)
Theorem test_certs_usable ops (s : Process)
    (Hstart : COUNTER s = 0) (Hops : slen ops <= u64_max) (Hlabels : Forall plain_label ops) :
  let '(s', live) := run ops (s, []) in Forall (fun c => readable c s' /\ genuine c) live.
Proof.
  pose proof (run_live 0 ops (s, [])) as H. destruct (run ops (s, [])) as [s' live].
  destruct H as [_ Hl _]; [lia|done|by split; cbn; [lia|constructor|constructor]|].
  apply (Forall_impl _ _ _ Hl). intros c (? & ? & _ & _ & Hr & Hg). done.
Qed.

Lemma wp_write_self_signed d s :
  wp (write_self_signed d) s (fun r s' => forall p, r = Ok p ->
    p = (join d "cert.pem", join d "key.pem") /\ is_dir d (fs s') = true /\
    exists cert key, content_of p.1 (fs s') = Some cert /\ content_of p.2 (fs s') = Some key /\
      key_matches cert key = true).
Proof.
  unfold write_self_signed, make_self_signed. apply wp_bind, wp_io; [|done]. intros s1 _ _.
  apply wp_bind, wp_bind, wp_expected; [|done]. intros p _.
  apply wp_bind, wp_generate_key; [|done]. intros k.
  apply wp_bind, wp_expected; [|done]. intros c Hc%doc_self_signed. apply wp_ret.
  apply wp_bind, wp_io; [|done]. intros s4 E4 O4. apply wp_bind, wp_io; [|done]. intros s5 E5 O5.
  apply wp_ret. intros ? [= <-]. split; [done|]. split; [rewrite E5; by apply write_parent|].
  apply write_content in O4, O5. exists (pem c), (serialize_pem k).
  cbn [fst snd] in *. rewrite E5, O5, write_content_other, E4 by done. done.
Qed.

(** The context of the fuzz target is made once, from a certificate and its key. *)
Theorem server_tls_ctx_once {TlsContext} (new_server : path -> path -> files -> option TlsContext)
    st ctx st' (Hrun : server_tls_ctx new_server st = Done ctx st') :
  server_tls_ctx new_server st' = Done ctx st' /\
  (st.1 = None -> exists d fs cert key,
    new_server (join d "cert.pem") (join d "key.pem") fs = Some ctx /\
    content_of (join d "cert.pem") fs = Some cert /\
    content_of (join d "key.pem") fs = Some key /\ key_matches cert key = true).
Proof.
  unfold server_tls_ctx, get_or_init in *. destruct st as [[c|] s]; cbn [fst snd] in *.
  { injection Hrun as <- <-. done. }
  set (d := join temp_dir _) in Hrun. set (init := mbind _ _) in Hrun.
  assert (wp init s (fun r _ => forall c, r = Ok c -> exists fs cert key,
    new_server (join d "cert.pem") (join d "key.pem") fs = Some c /\
    content_of (join d "cert.pem") fs = Some cert /\
    content_of (join d "key.pem") fs = Some key /\ key_matches cert key = true)) as H.
  { unfold init. apply wp_bind. eapply wp_mono; [apply wp_write_self_signed|].
    intros [p|e] s1 Hp; [|done]. destruct (Hp _ eq_refl) as (-> & _ & cert & key & Hf).
    apply wp_bind, wp_bind, wp_gets, wp_expected; [|done]. intros c Hc.
    apply wp_bind, wp_modify, wp_ret. intros ? [= <-]. by exists (fs s1), cert, key. }
  unfold wp in H. destruct (init s) as [c s'|e s'| |]; try done. injection Hrun as <- <-.
  split; [done|]. intros _. exists d. by apply H.
Qed.

(** ** Nothing is left behind *)

(** Everything outside of [d] stays as it is, once the directory that [d] is in exists. *)
Definition same_outside (d : path) (s s' : Process) : Prop :=
  is_dir (tail d) (fs s) = true ->
  is_dir (tail d) (fs s') = true /\ forall q, under d q = false -> fs s' !! q = fs s !! q.

#[export] Instance same_outside_preorder d : PreOrder (same_outside d).
Proof.
  split; [by intros s Hs|]. intros s1 s2 s3 H1 H2 Hd.
  destruct (H1 Hd) as [Hd2 E1]. destruct (H2 Hd2) as [Hd3 E2]. split; [done|].
  intros q Hq. by rewrite E2, E1.
Qed.

Lemma same_io x t msg f :
  (forall fs q, is_dir t fs = true -> under (x :: t) q = false -> (f fs).1 !! q = fs !! q) ->
  keeps (same_outside (x :: t)) (io msg f).
Proof.
  intros Hf s. unfold wlp, io. specialize (Hf (fs s)).
  destruct (f (fs s)) as [fs' ok]. cbn in Hf.
  assert (same_outside (x :: t) s (s <| fs := fs' |>)) as H; [|by destruct ok].
  intros Ht. cbn in *. split; [|by intros; apply Hf].
  destruct t as [|y t]; [done|]. unfold is_dir in *. rewrite Hf; [done|done|].
  apply bool_decide_eq_false. intros [k E%(f_equal length)].
  rewrite length_app in E. cbn in E. lia.
Qed.

Lemma same_create_dir_all x t msg : keeps (same_outside (x :: t)) (io msg (create_dir_all (x :: t))).
Proof.
  apply same_io. intros fs q Ht Hq. cbn. destruct (fs !! (x :: t)) as [[]|]; try done.
  replace (create_dir_all t fs) with (fs, true) by (destruct t; cbn in *; by rewrite ?Ht).
  cbn. destruct (refuses_dir _ _); [done|]. cbn. rewrite lookup_insert_ne; [done|].
  intros <-. by rewrite under_refl in Hq.
Qed.

Lemma same_write d msg p t :
  d <> [] -> under d p = true -> keeps (same_outside d) (io msg (write p t)).
Proof.
  intros Hd Hp. destruct d as [|x d]; [done|]. apply same_io. intros fs q _ Hq.
  rewrite write_other; [done|]. intros ->. by rewrite Hp in Hq.
Qed.

Lemma same_expected d {A} msg (o : option A) : keeps (same_outside d) (expected msg o).
Proof. intros s. unfold wlp. by destruct o; cbn. Qed.

Lemma same_generate_key d msg : keeps (same_outside d) (generate_key msg).
Proof. intros s. unfold wlp, generate_key. by destruct (key_generate _); cbn. Qed.

#[local] Hint Resolve same_create_dir_all same_write same_expected same_generate_key : certs.

Lemma same_generate_in x t : keeps (same_outside (x :: t)) (generate_in (x :: t)).
Proof. unfold generate_in, make_ca, make_server. keeps_outside. Qed.

Lemma same_write_self_signed x t : keeps (same_outside (x :: t)) (write_self_signed (x :: t)).
Proof. unfold write_self_signed, make_self_signed. keeps_outside. Qed.

Lemma removed_restores x t s s' :
  same_outside (x :: t) s s' -> is_dir t (fs s) = true -> is_dir (x :: t) (fs s') = true ->
  (forall q fs, refuses_removal q fs = false) ->
  (forall q, under (x :: t) q = true -> fs s !! q = None) ->
  remove_dir_all (x :: t) (fs s') = fs s.
Proof.
  intros Hs Ht Hd Hr Hn. destruct (Hs Ht) as [_ Hq]. unfold remove_dir_all. rewrite Hd.
  apply map_eq. intros q. rewrite map_lookup_filter. destruct (under (x :: t) q) eqn:E.
  - rewrite Hn by done. destruct (fs s' !! q); cbn; [|done].
    rewrite option_guard_False; [done|]. by rewrite E, Hr.
  - rewrite Hq by done. destruct (fs s !! q); cbn; [|done].
    rewrite option_guard_True; [done|]. by rewrite E.
Qed.

(** A test that ends leaves the files as it found them: dropping the certificate, or
    removing those of a unit test, undoes what making them did. *)
Theorem test_certs_cleaned_up label (s : Process)
    (Hlabel : ~ has "/" label) (Htemp : is_dir temp_dir (fs s) = true)
    (Hremove : forall q fs, refuses_removal q fs = false)
    (Hfresh : forall prefix q, under (dir_name prefix label (COUNTER s) :: temp_dir) q = true ->
      fs s !! q = None) :
  (forall c s', generate label s = Done c s' ->
    exists s'', drop c s' = Done tt s'' /\ fs s'' = fs s) /\
  (forall c k s', generate_test_certs label s = Done (c, k) s' ->
    exists s'', remove_test_certs c k s' = Done tt s'' /\ fs s'' = fs s).
Proof.
  split.
  - intros c s'. unfold generate, mbind, M_bind, fetch_add. rewrite generate_dir by done.
    set (s1 := s <| COUNTER := _ |>). intros E.
    pose proof (wp_generate_in (cert_dir label (COUNTER s)) s1) as H.
    pose proof (same_generate_in (dir_name "ngtcp2_interop_" label (COUNTER s)) temp_dir s1) as Hk.
    change (_ :: temp_dir) with (cert_dir label (COUNTER s)) in Hk.
    unfold wp, wlp in *. rewrite E in H, Hk. destruct (H _ eq_refl) as (Hd & [Ed _] & _).
    eexists. split; [done|]. cbn. rewrite Ed. apply (removed_restores _ _ s1); [exact Hk|exact Htemp|exact Hd|done|apply Hfresh].
  - intros c k s'. unfold generate_test_certs, mbind, M_bind, fetch_add.
    rewrite (join_dir_name "n" "gtcp2_test_") by (done || by vm_compute; set_solver).
    set (s1 := s <| COUNTER := _ |>). intros E.
    pose proof (wp_write_self_signed (dir_name "ngtcp2_test_" label (COUNTER s) :: temp_dir) s1) as H.
    pose proof (same_write_self_signed (dir_name "ngtcp2_test_" label (COUNTER s)) temp_dir s1) as Hk.
    unfold wp, wlp in *. rewrite E in H, Hk. destruct (H _ eq_refl) as ([= -> ->] & Hd & _).
    eexists. split; [done|]. apply (removed_restores _ _ s1); [exact Hk|exact Htemp|exact Hd|done|apply Hfresh].
Qed.
End doc.
End certs.

(** ** Witnesses *)

(** A machine that refuses nothing, and certificates that are the number of their key, and
    those of their issuers. *)
#[local] Instance computer : Machine := {
  temp_dir := ["tmp"];
  pid := 42;
  refuses_dir _ _ := false;
  refuses_write _ _ _ := Written;
  refuses_removal _ _ := false }.

#[local] Instance numbers : Rcgen := {
  KeyPair := nat;
  Certificate := string;
  params_new names := Some (mkCertificateParams names [] NoCa [] [] false);
  key_generate n := Some n;
  self_signed _ k := Some (pretty k +:+ ".");
  signed_by _ k i := Some (pretty k +:+ "." +:+ " by " +:+ pretty i.2 +:+ ".");
  pem c := c;
  serialize_pem k := pretty k }.

#[local] Instance numbers_doc : RcgenDoc.
Proof.
  refine {|
    chain_valid ca leaf _ := bool_decide
      (String.list_ascii_of_string (" by " +:+ ca) `suffix_of` String.list_ascii_of_string leaf);
    key_matches cert key := bool_decide
      (String.list_ascii_of_string (key +:+ ".") `prefix_of` String.list_ascii_of_string cert) |}.
  - by intros names p [= <-].
  - intros p k c [= <-]. by apply bool_decide_eq_true.
  - intros p k i c [= <-]. apply bool_decide_eq_true. cbn [pem serialize_pem numbers].
    rewrite !list_ascii_app. eexists. by rewrite <- app_assoc.
  - intros cp ck ca p k leaf host [= <-] [= <-] _ _ _ _ _. apply bool_decide_eq_true.
    cbn [pem numbers snd]. rewrite !list_ascii_app. eexists. by rewrite !app_assoc.
Defined.

Definition booted : Process := mkProcess {[ ["tmp"] := Dir ]} 0 0.

Lemma test_certs_usable_witness :
  let '(s', live) := run [Generate "a"; Generate "b"; DropNth 0; Generate "a"] (booted, []) in
  length live = 2%nat /\ Forall (fun c => readable c s' /\ genuine c) live.
Proof.
  pose proof (test_certs_usable [Generate "a"; Generate "b"; DropNth 0; Generate "a"] booted
    eq_refl ltac:(vm_compute; discriminate)
    ltac:(repeat constructor; by intros ?%list_elem_of_singleton)) as H.
  destruct (run _ _) as [s' live] eqn:E. split; [|exact H].
  change live with (s', live).2. rewrite <- E. by vm_compute.
Defined.

Definition only_pair (p q : path) (fs : files) : option unit :=
  match content_of p fs, content_of q fs with Some _, Some _ => Some tt | _, _ => None end.

Lemma server_tls_ctx_once_witness :
  exists st, server_tls_ctx only_pair (None, booted) = Done tt st /\
    server_tls_ctx only_pair st = Done tt st.
Proof.
  eexists. split; [by vm_compute|]. refine (proj1 (server_tls_ctx_once only_pair (None, booted) _ _ _)).
  by vm_compute.
Defined.

Lemma test_certs_cleaned_up_witness :
  exists c s', generate "a" booted = Done c s' /\
    exists s'', drop c s' = Done tt s'' /\ fs s'' = fs booted.
Proof.
  destruct (generate "a" booted) as [c s'|e s'| |] eqn:E; [|by vm_compute in E..].
  exists c, s'. split; [done|]. apply (test_certs_cleaned_up "a"); [..|exact E].
  - by intros ?%list_elem_of_singleton.
  - done.
  - done.
  - intros prefix q [k ->]%bool_decide_eq_true. cbn. apply lookup_singleton_ne.
    intros H%(f_equal length). rewrite length_app in H. cbn in H. lia.
Defined.
End TestCerts.
