(* ===== verification/Interop.v ===== *)
(** * The applications of the interoperability tests (src/interop/src/lib.rs)

    The echo server and the clients that run against other implementations of QUIC, as
    programs on accepted connections and on client connections: a failed [expect] is a
    panic, an [await] whose inputs have not come is [None]. Their theorem is about tokio-ngtcp2
    as its users see it: what comes back is what was sent. *)
From S2P Require Import Prelude Types Errors Tokens Params InFlight Conn Callbacks Effects Transport.
From S2P Require Import Streams Routes Tokio Flow World ServerConn Server ServerInv Accepted.
From S2P Require Import Client ClientInv Delivery Stack Integrity.
Import Types Errors Tokens Effects Transport World ServerConn Flow Delivery.

Module Interop.

(** ** Programs *)

(** [.await.expect(..)] *)
Definition expected {S A} (m : M S A) : M S A :=
  r ← attempt m; match r with Ok a => mret a | Err _ => panic end.

(** What follows an [await]. *)
Definition awaits {S A B} (m : M S (option A)) (k : A -> M S (option B)) : M S (option B) :=
  o ← m; match o with Some a => k a | None => mret None end.
Notation "x ←? y ; z" := (awaits y (fun x => z))
  (at level 20, y at level 100, z at level 200, only parsing).

(** [hq-interop] *)
Definition ALPN : bytes := [104; 113; 45; 105; 110; 116; 101; 114; 111; 112].
Definition ephemeral_addr : SocketAddr := SockV4 [127; 0; 0; 1] 0.

Section programs.
Context {str : Strerror} {api : TokenApi} {env : Env} {tr : Transport} {bud : TransportBudget}.

(** *** The echo server *)

Notation ast := (Server.AcceptedConnection * World)%type.
Notation sys := (Server.Server * World)%type.

Record Echoed := mkEchoed {
  data : bytes; received_early_data : bool; path_validated : bool; echo_sent : bool }.

Definition echo_back (stream_id : StreamId) (d : bytes) : M ast unit :=
  _ ← expected (Accepted.write_stream stream_id d true);
  expected Accepted.flush.

(** Each turn has the inputs of its [recv_event]. *)
Fixpoint drive_loop (until_closed : bool) (turns : list (list Accepted.wake))
    (received : bytes) (path_validated echo_sent : bool) : M ast (option (bytes * bool * bool)) :=
  match turns with
  | [] => mret None
  | wakes :: turns =>
      event ←? expected (Accepted.recv_event wakes);
      match event with
      | Tokio.StreamData stream_id d fin =>
          expected (Accepted.extend_max_stream_offset stream_id (slen d)) ;;
          let received := received ++ d in
          if (fin : bool) then
            echo_back stream_id received ;;
            if negb until_closed then mret (Some (received, path_validated, true))
            else drive_loop until_closed turns received path_validated true
          else drive_loop until_closed turns received path_validated echo_sent
      | Tokio.PathValidated _ true => drive_loop until_closed turns received true echo_sent
      | Tokio.ConnectionClosed _ _ _ => mret (Some (received, path_validated, echo_sent))
      | _ => drive_loop until_closed turns received path_validated echo_sent
      end
  end.

Definition drive_until_closed (until_closed : bool) (turns : list (list Accepted.wake))
    : M ast (option Echoed) :=
  r ←? drive_loop until_closed turns [] false false;
  early ← Accepted.ac Accepted.received_early_data;
  mret (Some (mkEchoed r.1.1 early r.1.2 r.2)).

Section server.
Context {sep : Server.Endpoint} {ord : Server.HashOrder}.

(** [Server::bind] on what setting up TLS and the sockets gave. *)
Definition bind_server (default : Params.ngtcp2_settings) (default_params : Params.TransportParams)
    (tls early : result Error unit) (bound : result Error SocketAddr)
    (config : option Server.ServerConfig) : outcome Server.Server :=
  match Server.bind tls early bound
    (from_option id (Server.ServerConfig_new default default_params [ALPN]) config) with
  | Ok server => Ret server
  | Err _ => Panic
  end.

(** The connection is dropped at the end. *)
Definition accept_and_drive (until_closed : bool) (inputs : list Server.input)
    (turns : list (list Accepted.wake)) : M sys (option Echoed) :=
  a ←? expected (Server.accept inputs);
  fun s =>
    match drive_until_closed until_closed turns (a, s.2) with
    | Done (Some e) (a, w) => Done (Some e) (s.1, Accepted.drop a w)
    | Done None (_, w) => Done None (s.1, w)
    | Fail e (_, w) => Fail e (s.1, w)
    | Panics => Panics
    | Diverges => Diverges
    end.

Definition accept_and_echo_one : list Server.input -> list (list Accepted.wake) ->
  M sys (option Echoed) := accept_and_drive false.
Definition accept_and_echo_until_closed : list Server.input -> list (list Accepted.wake) ->
  M sys (option Echoed) := accept_and_drive true.

(** Each connection has the inputs until it is accepted, and those of its turns. *)
Fixpoint accept_and_echo_n (count : nat)
    (inputs : nat -> list Server.input * list (list Accepted.wake)) : M sys (option (list Echoed)) :=
  match count with
  | O => mret (Some [])
  | S count =>
      e ←? accept_and_echo_one (inputs 0%nat).1 (inputs 0%nat).2;
      es ←? accept_and_echo_n count (fun n => inputs (S n));
      mret (Some (e :: es))
  end.

(** [results.remove(0)] *)
Definition accept_and_echo (inputs : list Server.input) (turns : list (list Accepted.wake))
    : M sys (option Echoed) :=
  results ←? accept_and_echo_n 1 (fun _ => (inputs, turns));
  match results with e :: _ => mret (Some e) | [] => panic end.
End server.

(** *** The clients *)

Notation cst := (Client.ClientConnection * World)%type.
Notation turn := (list Client.wake).

Fixpoint read_loop (turns : list turn) (received : bytes) : M cst (option bytes) :=
  match turns with
  | [] => mret None
  | wakes :: turns =>
      event ←? expected (Client.recv_event wakes);
      match event with
      | Tokio.StreamData stream_id d fin =>
          expected (Client.extend_max_stream_offset stream_id (slen d)) ;;
          let received := received ++ d in
          if (fin : bool) then mret (Some received) else read_loop turns received
      | _ => read_loop turns received
      end
  end.

Definition read_until_fin (turns : list turn) : M cst (option bytes) :=
  received ←? read_loop turns [];
  expected Client.flush ;;
  mret (Some received).

Fixpoint fetch_session_ticket (turns : list turn) : M cst (option Conn.SessionTicket) :=
  ticket ← expected Client.take_session_ticket;
  match ticket, turns with
  | Some ticket, _ => mret (Some ticket)
  | None, [] => mret None
  | None, wakes :: turns =>
      _ ←? expected (Client.recv_event wakes);
      fetch_session_ticket turns
  end.

(** Sending the payload on a new stream, with its end. *)
Definition send_payload (payload : bytes) : M cst unit :=
  stream_id ← expected Client.open_bidi_stream;
  _ ← expected (Client.write_stream stream_id payload true);
  expected Client.flush.

(** [b"done"] *)
Definition done_reason : bytes := [100; 111; 110; 101].

(** Reading the echo and closing. *)
Definition receive_echo (turns : list turn) : M cst (option bytes) :=
  echoed ←? read_until_fin turns;
  expected (Client.close 0 done_reason) ;;
  mret (Some echoed).

(** [client_roundtrip] once it is connected. *)
Definition exchange (payload : bytes) (turns : list turn) : M cst (option bytes) :=
  send_payload payload ;; receive_echo turns.

(** [while !conn.is_handshake_completed()]; the turns that are left. *)
Fixpoint await_handshake (turns : list turn) : M cst (option (list turn)) :=
  completed ← Client.cl Client.is_handshake_completed;
  if (completed : bool) then mret (Some turns)
  else
    match turns with
    | [] => mret None
    | wakes :: turns => _ ←? expected (Client.recv_event wakes); await_handshake turns
    end.

Record EarlyDataEcho := mkEarlyDataEcho { echoed : bytes; accepted : bool }.

(** The second connection of [client_roundtrip_early_data]. *)
Definition exchange_early_data (payload : bytes) (turns : list turn) : M cst (option EarlyDataEcho) :=
  early ← Client.cl Client.is_in_early_data;
  if negb early then panic
  else
    send_payload payload ;;
    turns ←? await_handshake turns;
    accepted ← Client.cl Client.is_early_data_accepted;
    echoed ←? receive_echo turns;
    mret (Some (mkEarlyDataEcho echoed accepted)).

(** Waiting for an event; the turns that are left. [stop] says of an event whether the
    wait is over, and [None] that the test fails. *)
Fixpoint await_event (stop : Tokio.ConnectionEvent -> option bool) (turns : list turn)
    : M cst (option (list turn)) :=
  match turns with
  | [] => mret None
  | wakes :: turns =>
      event ←? expected (Client.recv_event wakes);
      match stop event with
      | Some true => mret (Some turns)
      | Some false => await_event stop turns
      | None => panic
      end
  end.

Definition is_confirmed (event : Tokio.ConnectionEvent) : option bool :=
  match event with Tokio.HandshakeConfirmed => Some true | _ => Some false end.
Definition is_validated (event : Tokio.ConnectionEvent) : option bool :=
  match event with
  | Tokio.PathValidated _ true => Some true
  | Tokio.PathValidated _ false => None
  | _ => Some false
  end.

(** At most [n] attempts; each has the socket that binding gives it and the inputs of the
    [recv_event] after a failure. *)
Fixpoint migrate_loop (n : nat) (attempts : list (result Error SocketAddr * turn))
    : M cst (option bool) :=
  match n, attempts with
  | O, _ => mret (Some false)
  | S _, [] => mret None
  | S n, (socket, wakes) :: attempts =>
      r ← attempt (Client.migrate socket);
      match r with
      | Ok _ => mret (Some true)
      | Err _ => _ ←? expected (Client.recv_event wakes); migrate_loop n attempts
      end
  end.

(** [client_roundtrip_with_migration] once it is connected. *)
Definition exchange_with_migration (payload : bytes) (before : list turn)
    (attempts : list (result Error SocketAddr * turn)) (after : list turn) : M cst (option bytes) :=
  _ ←? await_event is_confirmed before;
  migrated ←? migrate_loop 10 attempts;
  if negb migrated then panic
  else
    after ←? await_event is_validated after;
    send_payload payload ;; receive_echo after.

Section connecting.
Context {ep : Client.Endpoint}.
Context (default : Params.ngtcp2_settings) (default_params : Params.TransportParams).

Definition client_config (ca_cert_pem : string) : Client.ClientConfig :=
  Client.with_ca_cert_pem ca_cert_pem
    (Client.with_verify_peer true (Client.ClientConfig_new default default_params [ALPN])).

(** A program on a connection that was just made. *)
Definition connected {A} (connect : M World (option Client.ClientConnection))
    (m : M cst (option A)) : M World (option A) :=
  c ←? expected connect;
  fun w =>
    match m (c, w) with
    | Done o (_, w) => Done o w
    | Fail e (_, w) => Fail e w
    | Panics => Panics
    | Diverges => Diverges
    end.

Definition client_roundtrip (server_addr : SocketAddr) (ca_cert_pem : string) (payload : bytes)
    (wakes : list (option Client.wake)) (turns : list turn) : M World (option bytes) :=
  connected (Client.connect_with_config server_addr ephemeral_addr "localhost"
    (client_config ca_cert_pem) wakes) (exchange payload turns).

(** The connection that fetches the ticket. *)
Definition fetch_and_close (turns : list turn) : M cst (option Conn.SessionTicket) :=
  ticket ←? fetch_session_ticket turns;
  expected (Client.close 0 done_reason) ;;
  mret (Some ticket).

(** [as_ticket] is the ticket as the constructor of a connection takes it. *)
Definition client_roundtrip_early_data (as_ticket : Conn.SessionTicket -> Client.session_ticket)
    (server_addr : SocketAddr) (ca_cert_pem : string) (payload : bytes)
    (wakes : list (option Client.wake)) (turns : list turn)
    (wakes' : list (option Client.wake)) (turns' : list turn) : M World (option EarlyDataEcho) :=
  ticket ←? connected (Client.connect_with_config server_addr ephemeral_addr "localhost"
    (client_config ca_cert_pem) wakes) (fetch_and_close turns);
  connected (Client.connect_with_early_data server_addr ephemeral_addr "localhost"
    (client_config ca_cert_pem) (as_ticket ticket) wakes') (exchange_early_data payload turns').

Definition client_roundtrip_with_migration (server_addr : SocketAddr) (ca_cert_pem : string)
    (payload : bytes) (wakes : list (option Client.wake)) (before : list turn)
    (attempts : list (result Error SocketAddr * turn)) (after : list turn) : M World (option bytes) :=
  connected (Client.connect_with_config server_addr ephemeral_addr "localhost"
    (client_config ca_cert_pem) wakes) (exchange_with_migration payload before attempts after).
End connecting.
End programs.

(** ** What a program does *)

(** The data of all streams. *)
Definition payload_of (e : Tokio.ConnectionEvent) : bytes :=
  match e with Tokio.StreamData _ d _ => d | _ => [] end.
Definition payloads (log : list Tokio.ConnectionEvent) : bytes := concat (map payload_of log).

(** The writes to a stream, of writes to all streams. *)
Notation write := (StreamId * bytes * bool)%type.
Definition writes_to (id : StreamId) (ws : list write) : list (bytes * bool) :=
  concat (map (fun w => put_bytes id w.1.1 w.1.2 w.2) ws).

Lemma writes_to_app id ws ws' : writes_to id (ws ++ ws') = writes_to id ws ++ writes_to id ws'.
Proof. unfold writes_to. by rewrite map_app, concat_app. Qed.

Lemma payloads_app log log' : payloads (log ++ log') = payloads log ++ payloads log'.
Proof. unfold payloads. by rewrite map_app, concat_app. Qed.

Section wpe.
Context {S : Type}.

(** The postcondition of a test: it passes with [Q], or an expectation fails. *)
Definition wpe {A} (m : M S A) (s : S) (Q : A -> S -> Prop) : Prop :=
  match m s with Done a s => Q a s | Panics => True | Fail _ _ | Diverges => False end.

Lemma wpe_mono {A} (m : M S A) s (P Q : A -> S -> Prop) :
  wpe m s P -> (forall a s, P a s -> Q a s) -> wpe m s Q.
Proof. unfold wpe. destruct (m s); naive_solver. Qed.

Lemma wpe_bind {A B} (m : M S A) (f : A -> M S B) s Q :
  wpe m s (fun a s => wpe (f a) s Q) -> wpe (m ≫= f) s Q.
Proof. unfold wpe, mbind, M_bind. by destruct (m s). Qed.

Lemma wpe_expected_wpp {A} P (m : M S A) s Q :
  wpp P m s (fun r s => match r with Ok a => Q a s | Err _ => True end) -> wpe (expected m) s Q.
Proof. unfold wpe, wpp, expected, mbind, M_bind, attempt. by destruct (m s). Qed.

Lemma wpe_expected {A} (m : M S A) s Q :
  wp m s (fun r s => match r with Ok a => Q a s | Err _ => True end) -> wpe (expected m) s Q.
Proof. unfold wpe, wp, expected, mbind, M_bind, attempt. by destruct (m s). Qed.
End wpe.

Section traced.
Context {tr : Transport} {acc : Streams.TransportAccept} {rcv : Received}.
Context {S : Type} (I : S -> Prop) (port_of : S -> port).

(** The application was given the events [log] and made the writes [ws]. *)
Definition flows (log : list Tokio.ConnectionEvent) (ws : list write) (s s' : S) : Prop :=
  forall id, flow id (told_all log) (writes_to id ws) [] (port_of s) (port_of s').

Lemma flows_refl s : flows [] [] s s.
Proof. intros id. reflexivity. Qed.

Lemma flows_trans l1 w1 l2 w2 s1 s2 s3 :
  flows l1 w1 s1 s2 -> flows l2 w2 s2 s3 -> flows (l1 ++ l2) (w1 ++ w2) s1 s3.
Proof.
  intros H1 H2 id. rewrite told_all_app, writes_to_app.
  exact (flow_trans id _ _ [] _ _ [] _ _ _ (H1 id) (H2 id)).
Qed.

(** A call that succeeds gives the events [log] and makes the writes [ws]. *)
Definition step {A} (m : M S A) (log : A -> list Tokio.ConnectionEvent) (ws : A -> list write) : Prop :=
  forall s, I s -> wp m s (fun r s' => I s' /\
    match r with Ok a => flows (log a) (ws a) s s' | Err _ => True end).

Lemma step_intro {A} (m : M S A) log ws :
  (forall s, I s -> wp m s (fun _ s' => I s')) ->
  (forall id s, wlp m s (fun r s' => match r with
     | Ok a => flow id (told_all (log a)) (writes_to id (ws a)) [] (port_of s) (port_of s')
     | Err _ => True end)) ->
  step m log ws.
Proof.
  intros Hm Hf s Hs. eapply wp_mono.
  { eapply wp_wlp; [exact (Hm s Hs)|]. apply (wlp_forall m s (fun id r s' => match r with
      | Ok a => flow id (told_all (log a)) (writes_to id (ws a)) [] (port_of s) (port_of s')
      | Err _ => True
      end)). intros id. apply Hf. }
  intros [a|e] s' [H1 H2]; (split; [done|]); [|done]. intros id. apply H2.
Qed.

Lemma step_quiet {A} (m : M S A) :
  (forall s, I s -> wp m s (fun _ s' => I s')) -> (forall id, keeps (quietly port_of id) m) ->
  step m (fun _ => []) (fun _ => []).
Proof.
  intros Hm Hk. apply step_intro; [done|]. intros id s. eapply wlp_mono; [apply Hk|]. by intros [].
Qed.

Lemma step_recv (m : M S (option Tokio.ConnectionEvent)) :
  (forall s, I s -> wp m s (fun _ s' => I s')) ->
  (forall id, gives port_of id event_data m) -> step m option_list (fun _ => []).
Proof.
  intros Hm Hg. apply step_intro; [done|]. intros id s. eapply wlp_mono; [apply Hg|].
  intros [[e|]|] s' H; [|exact H|done]. cbn [option_list option_rect].
  by rewrite told_all_one.
Qed.

(** A program, with the events it was given and the writes it made. *)
Definition traced {A} (m : M S A)
    (P : A -> list Tokio.ConnectionEvent -> list write -> Prop) : Prop :=
  forall s, I s -> wpe m s (fun a s' => I s' /\ exists log ws, flows log ws s s' /\ P a log ws).

Lemma traced_mono {A} (m : M S A) P Q :
  traced m P -> (forall a log ws, P a log ws -> Q a log ws) -> traced m Q.
Proof. intros Hm H s Hs. eapply wpe_mono; [by apply Hm|]. naive_solver. Qed.

Lemma traced_ret {A} (a : A) P : P a [] [] -> traced (mret a) P.
Proof. intros H s Hs. unfold wpe. cbn. split; [done|]. exists [], []. split; [apply flows_refl|done]. Qed.

Lemma traced_panic {A} P : traced (panic : M S A) P.
Proof. by intros s Hs. Qed.

Lemma traced_get {A} (f : S -> A) P : (forall a, P a [] []) -> traced (gets f) P.
Proof. intros H s Hs. unfold wpe. cbn. split; [done|]. exists [], []. split; [apply flows_refl|done]. Qed.

Lemma traced_expected {A} (m : M S A) log ws :
  step m log ws -> traced (expected m) (fun a l w => l = log a /\ w = ws a).
Proof.
  intros Hm s Hs. apply wpe_expected. eapply wp_mono; [by apply Hm|].
  intros [a|e] s' [H1 H2]; [|done]. split; [done|]. eauto.
Qed.

Lemma traced_bind {A B} (m : M S A) (k : A -> M S B) P Q :
  traced m P ->
  (forall a log ws, P a log ws -> traced (k a) (fun b l w => Q b (log ++ l) (ws ++ w))) ->
  traced (m ≫= k) Q.
Proof.
  intros Hm Hk s Hs. apply wpe_bind. eapply wpe_mono; [by apply Hm|].
  intros a s1 (H1 & log & ws & F1 & HP). eapply wpe_mono; [by apply (Hk _ _ _ HP)|].
  intros b s2 (H2 & log' & ws' & F2 & HQ). split; [done|]. do 2 eexists. split; [|exact HQ].
  by eapply flows_trans.
Qed.

Lemma traced_await {A B} (m : M S (option A)) (k : A -> M S (option B)) P Q :
  traced m P -> (forall log ws, P None log ws -> Q None log ws) ->
  (forall a log ws, P (Some a) log ws -> traced (k a) (fun b l w => Q b (log ++ l) (ws ++ w))) ->
  traced (awaits m k) Q.
Proof.
  intros Hm HN Hk. eapply traced_bind; [exact Hm|]. intros [a|] log ws HP; [by apply Hk|].
  apply traced_ret. rewrite !app_nil_r. by apply HN.
Qed.

(** The next event, if it has come. *)
Lemma traced_event {B} (m : M S (option Tokio.ConnectionEvent))
    (k : Tokio.ConnectionEvent -> M S (option B)) Q :
  step m option_list (fun _ => []) -> Q None [] [] ->
  (forall e, traced (k e) (fun b l w => Q b (e :: l) w)) ->
  traced (awaits (expected m) k) Q.
Proof.
  intros Hm HN Hk. eapply traced_await; [by apply traced_expected|by intros log ws [-> ->]|].
  intros e log ws [-> ->]. apply Hk.
Qed.

(** A call without events. *)
Lemma traced_call {A B} (m : M S A) (ws : A -> list write) (k : A -> M S B) Q :
  step m (fun _ => []) ws -> (forall a, traced (k a) (fun b l w => Q b l (ws a ++ w))) ->
  traced (expected m ≫= k) Q.
Proof.
  intros Hm Hk. eapply traced_bind; [by apply traced_expected|]. intros a log w [-> ->]. apply Hk.
Qed.
End traced.

(** ** The calls of the programs *)

Section ends.
Context {str : Strerror} {api : TokenApi} {env : Env} {tr : Transport} {bud : TransportBudget}.
Context {api_doc : TokenApiDoc api} {doc : TransportDoc} {acc : Streams.TransportAccept}.
Context {rcv : Received} {sdoc : StreamsDoc}.

Section client.
Notation cst := (Client.ClientConnection * World)%type.
Notation aport := (fun s : cst => client_port s.1).
Notation step := (step ClientInv.client_ok aport).
Notation traced := (traced ClientInv.client_ok aport).

Lemma cli_total {A} (m : M cst A) :
  ClientInv.safe m -> forall s, ClientInv.client_ok s -> wp m s (fun _ s' => ClientInv.client_ok s').
Proof. intros Hm s Hs. eapply wp_mono; [by apply Hm|]. intros r s' H. apply H. Qed.

Lemma cli_method m s : ClientInv.client_ok s ->
  wp (ClientInv.run_method m) s (fun _ s' => ClientInv.client_ok s').
Proof.
  intros Hs. eapply wp_mono; [by apply ClientInv.method_moves|]. intros r s' [H _]. apply H.
Qed.

Lemma cli_recv wakes : step (Client.recv_event wakes) option_list (fun _ => []).
Proof.
  apply step_recv; [apply cli_total, ClientInv.cl_safe_recv_event|].
  intros id. apply client_recv_event.
Qed.

Lemma cli_extend i n : step (Client.extend_max_stream_offset i n) (fun _ => []) (fun _ => []).
Proof.
  apply step_quiet; [exact (cli_method (ClientInv.ExtendMaxStreamOffset i n))|]. intros id.
  apply keeps_bind; [exact _|apply client_conn, sd_extend_offset|].
  intros _. apply client_conn, keeps_modify. intros c. apply sd_max_offset.
Qed.

Lemma cli_flush : step Client.flush (fun _ => []) (fun _ => []).
Proof. apply step_quiet; [exact (cli_method ClientInv.Flush)|]. intros id. apply client_flush. Qed.

Lemma cli_close code why : step (Client.close code why) (fun _ => []) (fun _ => []).
Proof. apply step_quiet; [exact (cli_method (ClientInv.Close code why))|]. intros id. apply client_close. Qed.

Lemma cli_open : step Client.open_bidi_stream (fun _ => []) (fun _ => []).
Proof.
  apply step_quiet; [intros s Hs; exact (wp_before _ _ _ _ (cli_method ClientInv.OpenBidiStream s Hs))|].
  intros id. apply client_conn, sd_open_bidi.
Qed.

Lemma cli_ticket : step Client.take_session_ticket (fun _ => []) (fun _ => []).
Proof.
  apply step_quiet; [intros s Hs; exact (wp_before _ _ _ _ (cli_method ClientInv.TakeSessionTicket s Hs))|].
  intros id. apply client_conn, sd_ticket.
Qed.

Lemma cli_write i d fin : step (Client.write_stream i d fin) (fun _ => []) (fun _ => [(i, d, fin)]).
Proof.
  apply step_intro; [intros s Hs; exact (wp_before _ _ _ _ (cli_method (ClientInv.WriteStream i d fin) s Hs))|].
  intros id s. eapply wlp_mono; [apply (client_write id)|]. intros [n|e] s' H; [|done].
  unfold writes_to. cbn. by rewrite app_nil_r.
Qed.

Lemma cli_migrate socket P :
  (forall r, P r [] []) -> traced (attempt (Client.migrate socket)) P.
Proof.
  intros HP s Hs. pose proof (cli_method (ClientInv.Migrate socket) s Hs) as Hm.
  pose proof (wlp_forall _ _ _ (fun id => client_migrate id socket s)) as Hf.
  unfold wpe, wp, wlp, attempt in *. cbn in Hm.
  destruct (Client.migrate socket s) as [u s'|e s'| |]; try done; (split; [done|]);
    exists [], []; (split; [intros id; apply (Hf id)|apply HP]).
Qed.

(** *** The programs *)

Definition read_post (received : bytes) (o : option bytes) (log : list Tokio.ConnectionEvent)
    (ws : list write) : Prop :=
  ws = [] /\ forall r, o = Some r -> r = received ++ payloads log.

Lemma read_post_event received o e log ws :
  read_post (received ++ payload_of e) o log ws -> read_post received o (e :: log) ws.
Proof. intros [-> H]. split; [done|]. intros r ->%H. by rewrite <- app_assoc. Qed.

Lemma read_loop_traced turns received : traced (read_loop turns received) (read_post received).
Proof.
  revert received. induction turns as [|wakes turns IH]; intros received; cbn [read_loop];
    [by apply traced_ret|].
  eapply traced_event; [apply cli_recv|done|]. intros e.
  assert (payload_of e = [] -> traced (read_loop turns received)
    (fun o l w => read_post received o (e :: l) w)) as Hskip.
  { intros Hp. eapply traced_mono; [apply IH|]. intros o log ws H. apply read_post_event.
    by rewrite Hp, app_nil_r. }
  destruct e; try by apply Hskip.
  eapply traced_call; [apply cli_extend|]. intros []. cbn [app]. destruct fin.
  - apply traced_ret, read_post_event. split; [done|]. intros r [= <-]. by rewrite app_nil_r.
  - eapply traced_mono; [apply IH|]. intros o log ws.
    exact (read_post_event received o (Tokio.StreamData stream_id d false) log ws).
Qed.

Lemma read_until_fin_traced turns : traced (read_until_fin turns) (read_post []).
Proof.
  eapply traced_await; [apply read_loop_traced|done|]. intros r log ws [-> H].
  eapply traced_call; [apply cli_flush|]. intros []. apply traced_ret. split; [done|].
  rewrite app_nil_r. intros r' [= <-]. by apply H.
Qed.

Lemma receive_echo_traced turns : traced (receive_echo turns) (read_post []).
Proof.
  eapply traced_await; [apply read_until_fin_traced|done|]. intros r log ws [-> H].
  eapply traced_call; [apply cli_close|]. intros []. apply traced_ret. split; [done|].
  rewrite app_nil_r. intros r' [= <-]. by apply H.
Qed.

Lemma send_payload_traced payload :
  traced (send_payload payload) (fun _ log ws => log = [] /\ exists i, ws = [(i, payload, true)]).
Proof.
  eapply traced_call; [apply cli_open|]. intros i. eapply traced_call; [apply cli_write|]. intros n.
  eapply traced_mono; [apply traced_expected, cli_flush|]. intros u log ws [-> ->]. cbn. eauto.
Qed.

(** The payload was written, and what was read is the data of the last events. *)
Definition exchange_post (payload : bytes) (echo : option bytes)
    (log : list Tokio.ConnectionEvent) (ws : list write) : Prop :=
  (exists i, ws = [(i, payload, true)]) /\
  forall r, echo = Some r -> exists before after, log = before ++ after /\ r = payloads after.

Lemma exchange_traced payload turns :
  traced (exchange payload turns) (fun o log ws =>
    (exists i, ws = [(i, payload, true)]) /\ forall r, o = Some r -> r = payloads log).
Proof.
  eapply traced_bind; [apply send_payload_traced|]. intros u log ws [-> [i ->]].
  eapply traced_mono; [apply receive_echo_traced|]. intros o l w [-> H]. split; [by exists i|exact H].
Qed.

Lemma await_handshake_traced turns : traced (await_handshake turns) (fun _ _ ws => ws = []).
Proof.
  induction turns as [|wakes turns IH]; cbn [await_handshake];
    (eapply traced_bind; [by apply (traced_get _ _ _ (fun _ l w => l = [] /\ w = []))|]);
    (intros [] log ws [-> ->]; [by apply traced_ret|]); [by apply traced_ret|].
  eapply traced_event; [apply cli_recv|done|]. intros e. eapply traced_mono; [apply IH|]. done.
Qed.

Lemma await_event_traced stop turns : traced (await_event stop turns) (fun _ _ ws => ws = []).
Proof.
  induction turns as [|wakes turns IH]; cbn [await_event]; [by apply traced_ret|].
  eapply traced_event; [apply cli_recv|done|]. intros e. destruct (stop e) as [[]|].
  - by apply traced_ret.
  - eapply traced_mono; [apply IH|]. done.
  - apply traced_panic.
Qed.

Lemma fetch_traced turns : traced (fetch_session_ticket turns) (fun _ _ ws => ws = []).
Proof.
  induction turns as [|wakes turns IH]; cbn [fetch_session_ticket];
    (eapply traced_call; [apply cli_ticket|]); (intros [t|]; [by apply traced_ret|]).
  - by apply traced_ret.
  - eapply traced_event; [apply cli_recv|done|]. intros e. eapply traced_mono; [apply IH|]. done.
Qed.

Lemma fetch_and_close_traced turns : traced (fetch_and_close turns) (fun _ _ ws => ws = []).
Proof.
  eapply traced_await; [apply fetch_traced|done|]. intros t log ws ->.
  eapply traced_call; [apply cli_close|]. intros []. by apply traced_ret.
Qed.

Lemma migrate_loop_traced n attempts : traced (migrate_loop n attempts) (fun _ _ ws => ws = []).
Proof.
  revert attempts. induction n as [|n IH]; intros [|[socket wakes] attempts]; cbn [migrate_loop];
    try by apply traced_ret.
  eapply traced_bind; [by apply (cli_migrate _ (fun _ l w => l = [] /\ w = []))|].
  intros [u|e] log ws [-> ->]; [by apply traced_ret|].
  eapply traced_event; [apply cli_recv|done|]. intros e'. eapply traced_mono; [apply IH|]. done.
Qed.

(** The echo after events that were passed over. *)
Lemma exchange_late payload turns log :
  traced (send_payload payload ;; receive_echo turns) (fun o l w =>
    exchange_post payload o (log ++ l) ([] ++ w)).
Proof.
  eapply traced_mono; [apply exchange_traced|]. intros o l w [H1 H2]. split; [exact H1|].
  intros r ->%H2. by exists log, l.
Qed.

Lemma exchange_with_migration_traced payload before attempts after :
  traced (exchange_with_migration payload before attempts after) (fun o log ws =>
    match o with Some _ => exchange_post payload o log ws | None => True end).
Proof.
  eapply traced_await; [apply await_event_traced|done|]. intros _ log ws ->.
  eapply traced_await; [apply migrate_loop_traced|done|]. intros migrated log' ws ->.
  destruct migrated; [|apply traced_panic]. cbn [negb].
  eapply traced_await; [apply await_event_traced|done|]. intros turns log'' ws ->.
  eapply traced_mono; [apply (exchange_late payload turns (log ++ log' ++ log''))|].
  intros [r|] l w H; [|done]. cbn [app] in *. by rewrite <- !app_assoc in H.
Qed.

Lemma exchange_early_data_traced payload turns :
  traced (exchange_early_data payload turns) (fun o log ws =>
    (exists i, ws = [(i, payload, true)]) /\ match o with
      | Some r => exists before after, log = before ++ after /\ echoed r = payloads after
      | None => True
      end).
Proof.
  eapply traced_bind; [by apply (traced_get _ _ _ (fun _ l w => l = [] /\ w = []))|].
  intros [] log ws [-> ->]; [|apply traced_panic]. cbn [negb].
  eapply traced_bind; [apply send_payload_traced|]. intros u log ws [-> [i ->]].
  eapply traced_await; [apply await_handshake_traced|intros log ws ->; split; [by exists i|done]|].
  intros rest log ws ->.
  eapply traced_bind; [by apply (traced_get _ _ _ (fun _ l w => l = [] /\ w = []))|].
  intros ok log' ws [-> ->].
  eapply traced_await; [apply receive_echo_traced|intros l w [-> _]; split; [by exists i|done]|].
  intros r l w [-> H]. apply traced_ret. split; [by exists i|]. rewrite !app_nil_r.
  exists log, l. split; [done|]. by apply H.
Qed.
End client.

Section accepted.
Context (key : ConnectionId) (rx : nat).
Notation ast := (Server.AcceptedConnection * World)%type.
Notation step := (step (handle_ok key rx) (fun s : ast => server_port (Server.ac_inner s.1))).

Lemma acn_method m s : handle_ok key rx s ->
  wp (Accepted.run_method m) s (fun _ s' => handle_ok key rx s').
Proof.
  intros [Hk Hr Hw]. pose proof (Accepted.world_ok_owner key rx) as HW.
  eapply wp_mono; [by apply (Accepted.acc_safe_method _ _ _ HW)|]. intros r s' [I1 I2 _ I4 _].
  constructor; [congruence|congruence|done].
Qed.

Lemma acn_recv wakes : Forall Accepted.wake_ok wakes ->
  step (Accepted.recv_event wakes) option_list (fun _ => []).
Proof.
  intros Hw. apply step_recv; [|intros id; apply accepted_recv_event].
  intros s Hs. exact (accepted_call_total key rx (Recv wakes) s Hw Hs).
Qed.

Lemma acn_extend i n : step (Accepted.extend_max_stream_offset i n) (fun _ => []) (fun _ => []).
Proof.
  apply step_quiet; [exact (acn_method (Accepted.ExtendMaxStreamOffset i n))|]. intros id.
  apply keeps_bind; [exact _|apply accepted_conn, sd_extend_offset|].
  intros _. apply accepted_conn, keeps_modify. intros c. apply sd_max_offset.
Qed.

Lemma acn_flush : step Accepted.flush (fun _ => []) (fun _ => []).
Proof. apply step_quiet; [exact (acn_method Accepted.Flush)|]. intros id. apply accepted_flush. Qed.

Lemma acn_write i d fin : step (Accepted.write_stream i d fin) (fun _ => []) (fun _ => [(i, d, fin)]).
Proof.
  apply step_intro; [intros s Hs; exact (wp_before _ _ _ _ (acn_method (Accepted.WriteStream i d fin) s Hs))|].
  intros id s. eapply wlp_mono; [apply (accepted_write id)|]. intros [n|e] s' H; [|done].
  unfold writes_to. cbn. by rewrite app_nil_r.
Qed.

(** ** The programs *)

(** What the echo server answers to events: at each end, all it received so far. *)
Fixpoint echoes (received : bytes) (log : list Tokio.ConnectionEvent) : list write :=
  match log with
  | [] => []
  | Tokio.StreamData i d fin :: log =>
      (if (fin : bool) then [(i, received ++ d, true)] else []) ++ echoes (received ++ d) log
  | _ :: log => echoes received log
  end.

Definition drive_post (until_closed : bool) (received : bytes) (o : option (bytes * bool * bool))
    (log : list Tokio.ConnectionEvent) (ws : list write) : Prop :=
  ws = echoes received log /\
  match o with
  | Some (r, _, _) =>
      r = received ++ payloads log /\
      (until_closed = false -> ws = [] \/ exists i, ws = [(i, r, true)])
  | None => until_closed = false -> ws = []
  end.

Lemma drive_post_skip u received o e log ws :
  drive_post u received o log ws -> payload_of e = [] -> echoes received (e :: log) = echoes received log ->
  drive_post u received o (e :: log) ws.
Proof.
  intros [-> H] Hp He. split; [done|]. destruct o as [[[r pv] es]|]; [|done].
  change (payloads (e :: log)) with (payload_of e ++ payloads log). by rewrite Hp.
Qed.

Lemma drive_post_data u received o i d log ws :
  drive_post u (received ++ d) o log ws ->
  drive_post u received o (Tokio.StreamData i d false :: log) ws.
Proof.
  intros [-> H]. split; [done|]. destruct o as [[[r pv] es]|]; [|done].
  change (payloads (_ :: log)) with (d ++ payloads log). by rewrite app_assoc.
Qed.

Lemma drive_post_fin received o i d log ws :
  drive_post true (received ++ d) o log ws ->
  drive_post true received o (Tokio.StreamData i d true :: log) ((i, received ++ d, true) :: ws).
Proof.
  intros [-> H]. split; [done|]. destruct o as [[[r pv] es]|]; [|done].
  change (payloads (_ :: log)) with (d ++ payloads log). rewrite app_assoc. by destruct H.
Qed.

Notation traced := (traced (handle_ok key rx) (fun s : ast => server_port (Server.ac_inner s.1))).

Lemma echo_back_traced i d :
  traced (echo_back i d) (fun _ log ws => log = [] /\ ws = [(i, d, true)]).
Proof.
  eapply traced_call; [apply acn_write|]. intros n. eapply traced_mono; [apply traced_expected, acn_flush|].
  by intros u log ws [-> ->].
Qed.

Lemma drive_loop_traced u turns received pv es :
  Forall (Forall Accepted.wake_ok) turns ->
  traced (drive_loop u turns received pv es) (drive_post u received).
Proof.
  intros Ht. revert received pv es. induction Ht as [|wakes turns Hw _ IH]; intros received pv es;
    cbn [drive_loop]; [by apply traced_ret|].
  eapply traced_event; [by apply acn_recv|done|]. intros e.
  assert (forall pv es, payload_of e = [] -> (forall log, echoes received (e :: log) = echoes received log) ->
    traced (drive_loop u turns received pv es) (fun o l w => drive_post u received o (e :: l) w)) as Hskip.
  { intros pv' es' Hp He. eapply traced_mono; [apply IH|]. intros o log ws H. by apply drive_post_skip. }
  destruct e as [| | | |i d fin| | | | | | | | |path []|]; try by apply Hskip.
  - eapply traced_call; [apply acn_extend|]. intros []. destruct fin; cbn [app].
    + eapply traced_bind; [apply echo_back_traced|]. intros _ log ws [-> ->]. cbn [app].
      destruct u; cbn [negb].
      * eapply traced_mono; [apply IH|]. intros o log ws. apply drive_post_fin.
      * apply traced_ret. split; [done|]. cbn. rewrite app_nil_r. split; [done|]. eauto.
    + eapply traced_mono; [apply IH|]. intros o log ws. apply drive_post_data.
  - apply traced_ret. split; [done|]. cbn. rewrite app_nil_r. auto.
Qed.

Definition echo_post (o : option Echoed) (log : list Tokio.ConnectionEvent) (ws : list write) : Prop :=
  match o with
  | Some e => data e = payloads log /\ (ws = [] \/ exists i, ws = [(i, data e, true)])
  | None => ws = []
  end.

Lemma drive_traced turns :
  Forall (Forall Accepted.wake_ok) turns -> traced (drive_until_closed false turns) echo_post.
Proof.
  intros Ht. eapply traced_await; [by apply drive_loop_traced| |].
  - intros log ws [_ H]. by apply H.
  - intros [[r pv] es] log ws [_ [Hr H]]. eapply traced_bind; [by apply (traced_get _ _ _ (fun _ l w => l = [] /\ w = []))|].
    intros early l w [-> ->]. apply traced_ret. rewrite !app_nil_r. cbn. split; [done|]. by apply H.
Qed.
End accepted.

(** ** The programs from their start *)

Lemma connected_wpe {cep : Client.Endpoint} {env_doc : EnvDoc} {cep_doc : Client.EndpointDoc}
    {A} remote_addr local_addr name config ticket wakes (m : M _ (option A)) P w :
  traced ClientInv.client_ok (fun s => client_port s.1) m P ->
  wpe (connected (Client.connect_inner remote_addr local_addr name config ticket wakes) m) w
    (fun _ _ => True).
Proof.
  intros Hm. apply wpe_bind. eapply wpe_expected_wpp, wpp_mono; [apply ClientInv.connect_ok|].
  intros [[c|]|e] w' Hc; [|done..]. unfold wpe. pose proof (Hm (c, w') Hc) as H. unfold wpe in H.
  by destruct (m (c, w')) as [? []|? []| |].
Qed.

(** The clients never fail otherwise than in an expectation, and never run for ever. *)
Lemma clients_end {cep : Client.Endpoint} {env_doc : EnvDoc} {cep_doc : Client.EndpointDoc}
    default default_params as_ticket server_addr ca payload wakes wakes' turns turns' before attempts w :
  wpe (client_roundtrip default default_params server_addr ca payload wakes turns) w (fun _ _ => True) /\
  wpe (client_roundtrip_early_data default default_params as_ticket server_addr ca payload
    wakes turns wakes' turns') w (fun _ _ => True) /\
  wpe (client_roundtrip_with_migration default default_params server_addr ca payload wakes before
    attempts turns) w (fun _ _ => True).
Proof.
  split; [|split].
  - eapply connected_wpe, exchange_traced.
  - apply wpe_bind. eapply wpe_mono; [eapply connected_wpe, fetch_and_close_traced|].
    intros [t|] w' _; [|done]. eapply connected_wpe, exchange_early_data_traced.
  - eapply connected_wpe, exchange_with_migration_traced.
Qed.

Section server.
Context {sep : Server.Endpoint} {ord : Server.HashOrder}.
Context {env_doc : EnvDoc} {write_doc : ServerInv.TokenWriteDoc} {ep_doc : ServerInv.EndpointDoc} {ord_doc : Server.HashOrderDoc}.
Notation server_ok := (ServerInv.inv world_ok ∅ Server.MAX_CONNECTIONS).

Lemma drop_world_ok a w : world_ok w -> world_ok (Accepted.drop a w).
Proof.
  intros [[Hl Ht] Hf]. unfold Accepted.drop, close_channel. destruct (channels _ !! _).
  all: by constructor; [constructor|].
Qed.

Lemma accept_and_drive_wpe inputs turns s :
  Forall ServerInv.input_ok inputs -> Forall (Forall Accepted.wake_ok) turns -> server_ok s ->
  wpe (accept_and_drive false inputs turns) s (fun _ s' => server_ok s').
Proof.
  intros Hi Ht Hs. apply wpe_bind, wpe_expected. eapply wp_mono; [by apply ServerInv.accept_wp|].
  intros [[a|]|e] [sv w] [H1 H2]; [|done..]. destruct H1 as [I1 I2 I3 I4 I5 I6]. cbn in *.
  assert (handle_ok (Server.ac_connection_id a) (Server.ac_inbound_rx a) (a, w)) as Ha by done.
  pose proof (drive_traced _ _ turns Ht (a, w) Ha) as H. unfold wpe in *. cbn [snd].
  destruct (drive_until_closed false turns (a, w)) as [[e|] [a' w']|? []| |]; try done.
  - destruct H as [[_ _ Hw] _]. constructor; try done. cbn. by apply drop_world_ok.
  - destruct H as [[_ _ Hw] _]. by constructor.
Qed.

(** The echo server takes its connections one after the other. *)
Lemma accept_and_echo_n_ends count inputs s :
  (forall n, Forall ServerInv.input_ok (inputs n).1 /\ Forall (Forall Accepted.wake_ok) (inputs n).2) ->
  server_ok s ->
  wpe (accept_and_echo_n count inputs) s (fun o s' =>
    server_ok s' /\ forall es, o = Some es -> length es = count).
Proof.
  revert inputs s. induction count as [|count IH]; intros inputs s Hi Hs; cbn [accept_and_echo_n].
  { split; [done|]. by intros es [= <-]. }
  destruct (Hi 0%nat) as [Hi1 Hi2].
  apply wpe_bind. eapply wpe_mono; [by apply accept_and_drive_wpe|]. intros [e|] s1 H1; [|done].
  apply wpe_bind. eapply wpe_mono; [apply IH; [intros n; apply Hi|exact H1]|].
  intros [es|] s2 [H2 Hl]; [|done]. split; [done|]. intros ? [= <-]. cbn. by rewrite Hl.
Qed.
End server.

(** ** Both ends *)

(** Where one stream carries all the data, the payloads are its data. *)
Lemma payloads_only id log :
  (forall i, i <> id -> app_bytes i log = []) -> payloads log = app_bytes id log.
Proof.
  induction log as [|e log IH]; intros H; [done|].
  change (payloads (e :: log)) with (payload_of e ++ payloads log).
  change (app_bytes id (e :: log)) with (reported id e ++ app_bytes id log).
  assert (forall i, i <> id -> reported i e = [] /\ app_bytes i log = []) as H'.
  { intros i Hi. apply app_nil. by apply (H i Hi). }
  rewrite IH by (intros i Hi; by apply H'). f_equal.
  destruct e as [| | | |i d fin| | | | | | | | | |]; try done. cbn.
  case_bool_decide as Hi; [done|]. specialize (H' _ Hi). cbn in H'.
  by rewrite bool_decide_true in H' by done; destruct H'.
Qed.

Definition only (id : StreamId) (p : port) : Prop := forall i, i <> id -> received (p_conn p) i = [].

Lemma only_payloads id log ws p0 p :
  (forall i, fresh i p0) -> (forall i, flow i (told_all log) (writes_to i ws) [] p0 p) ->
  only id p -> payloads log = app_bytes id log.
Proof.
  intros H0 Hf Ho. apply payloads_only. intros i Hi. destruct (Hf i) as [(es & H1 & H2) _ _].
  destruct (H0 i) as [Hr _]. specialize (Ho i Hi). unfold received in Ho.
  rewrite H1, <- app_bytes_from, map_app, Hr, H2, app_bytes_app, app_bytes_told in Ho.
  by apply app_nil in Ho as [Ho _].
Qed.

Lemma flow_sent id got ws ds p0 p :
  fresh id p0 -> flow id got ws ds p0 p -> offered id ws p.
Proof. intros (_ & _ & Hp) [_ _ Ho]. exact (Ho [] Hp). Qed.

Definition quic (id : StreamId) (r s : port) : Prop :=
  received (p_conn r) id `prefix_of` Streams.accepted (p_conn s) id.

(** The QUIC connections delivered everything, nothing was reset, nothing waits. *)
Record all_through (id : StreamId) (r s : port) : Prop := {
  at_all : received (p_conn r) id = Streams.accepted (p_conn s) id;
  at_some : Streams.accepted (p_conn s) id <> [];
  at_uncut : cut (p_conn s) id = false;
  at_sent : Streams.pending_data (p_pending s) id = [];
  at_read : waiting id r = [] }.

Lemma got_prefix id log ws ws' r0 r s0 s i d :
  (forall j, fresh j r0) -> (forall j, flow j (told_all log) (writes_to j ws) [] r0 r) ->
  (forall j, fresh j s0) -> (exists log', forall j, flow j (told_all log') (writes_to j ws') [] s0 s) ->
  ws' = [] \/ ws' = [(i, d, true)] -> only id r ->
  (quic id r s -> payloads log `prefix_of` d) /\
  (all_through id r s -> payloads log = d).
Proof.
  intros Hr Fr Hs [log' Fs] Hws Ho. rewrite (only_payloads id log ws r0 r) by done.
  pose proof (flow_delivered id _ _ _ _ _ _ _ _ _ _ (Hr id) (Fr id) (Hs id) (Fs id)) as [_ Hp Ha _].
  rewrite app_bytes_told in Hp, Ha.
  destruct (flow_sent id _ _ _ _ _ (Hs id) (Fs id)) as [Hacc _ _].
  assert (writes_to id ws' = [] \/ writes_to id ws' = [(d, true)]) as Hw.
  { destruct Hws as [->| ->]; [by left|]. unfold writes_to, put_bytes. cbn.
    case_bool_decide; [by right|by left]. }
  split.
  - intros Hq%Hp. destruct Hw as [Hw|Hw]; rewrite Hw in Hq.
    + apply prefix_nil_inv in Hq as ->. apply prefix_nil.
    + by rewrite written_one in Hq.
  - intros [A1 A2 A3 A4 A5]. destruct Hw as [Hw|Hw]; rewrite Hw in *.
    + by apply prefix_nil_inv in Hacc.
    + rewrite Ha by done. apply written_one.
Qed.

(** C27: the echo server and its client agree: of a client that sends a payload and waits
    for the echo, and an accepted connection that the echo server drives, neither ends
    otherwise than with a result, waiting, or in an expectation that fails. On a stream
    that carries all the data, and with QUIC connections that deliver prefixes of what
    they took, the server reads a prefix of the payload and the client gets a prefix of the
    payload back; both get all of it when everything came through. *)
Theorem echo_roundtrip (payload : bytes) (turns : list (list Client.wake))
    (turns' : list (list Accepted.wake)) (c : Client.ClientConnection) (w : World)
    (a : Server.AcceptedConnection) (w' : World) (id : StreamId)
    (Hc : ClientInv.client_ok (c, w)) (Hw' : world_ok w')
    (Hturns : Forall (Forall Accepted.wake_ok) turns')
    (Hfc : forall i, fresh i (client_port c))
    (Hfa : forall i, fresh i (server_port (Server.ac_inner a))) :
  wpe (exchange payload turns) (c, w) (fun echo s1 =>
  wpe (drive_until_closed false turns') (a, w') (fun result s2 =>
    let client := client_port s1.1 in
    let server := server_port (Server.ac_inner s2.1) in
    only id client -> only id server ->
    (forall e, result = Some e ->
       (quic id server client -> data e `prefix_of` payload) /\
       (all_through id server client -> data e = payload)) /\
    (forall r, echo = Some r ->
       (quic id server client -> quic id client server -> r `prefix_of` payload) /\
       (all_through id server client -> all_through id client server -> r = payload)))).
Proof.
  eapply wpe_mono; [by apply exchange_traced|].
  intros echo s1 (_ & log1 & ws1 & F1 & [i1 ->] & Hecho).
  eapply wpe_mono.
  { apply (drive_traced (Server.ac_connection_id a) (Server.ac_inbound_rx a)); [done|by constructor]. }
  intros result s2 (_ & log2 & ws2 & F2 & Hres) client server Ho1 Ho2.
  assert ((quic id server client -> payloads log2 `prefix_of` payload) /\
    (all_through id server client -> payloads log2 = payload)) as [P1 P2].
  { eapply (got_prefix id log2 ws2 _ _ server _ client i1 payload); [exact Hfa|exact F2|exact Hfc| | |done].
    - exists log1. exact F1.
    - by right. }
  assert (forall i d, ws2 = [] \/ ws2 = [(i, d, true)] ->
    (quic id client server -> payloads log1 `prefix_of` d) /\
    (all_through id client server -> payloads log1 = d)) as Hback.
  { intros i d Hd. eapply (got_prefix id log1 _ ws2 _ client _ server i d); [exact Hfc|exact F1|exact Hfa| |done..].
    exists log2. exact F2. }
  split.
  - intros e ->. destruct Hres as [-> _]. by split.
  - intros r ->%Hecho. destruct result as [e|]; cbn in Hres.
    + destruct Hres as [He Hws].
      assert (exists i, ws2 = [] \/ ws2 = [(i, data e, true)]) as [i Hi]
        by (destruct Hws as [H|[i H]]; [exists 0; by left|exists i; by right]).
      destruct (Hback i (data e) Hi) as [B1 B2]. rewrite He in B1, B2. split.
      * intros Q1 Q2. transitivity (payloads log2); auto.
      * intros A1 A2. rewrite B2, P2; auto.
    + destruct (Hback 0 payload (or_introl Hres)) as [B1 B2]. split; auto.
Qed.
End ends.

(** ** Witness *)

#[local] Existing Instances toy_strerror ServerInv.server_api ServerInv.server_api_doc toy_env
  Conn.toy_ngtcp2 Conn.toy_tls InFlight.exact_allocator Conn.toy_ngtcp2_doc toy_ngtcp2_write_doc
  Stack.toy_ngtcp2_budget connection_transport connection_transport_doc Stack.connection_budget
  Integrity.connection_received Integrity.connection_accept Integrity.connection_streams_doc
  Integrity.toy_streams Integrity.toy_streams_doc.

Definition toy_payload : bytes := [0x40; 1; 0].
Definition toy_turns : list (list Client.wake) :=
  [[Client.FromSocket toy_payload (SockV4 [127; 0; 0; 1] 4433) 0]; []].
Definition toy_server_turns : list (list Accepted.wake) :=
  [[Accepted.FromSocket toy_payload toy_addr toy_addr 0]; []].

(** The result of a program that passed. *)
Definition passed {S A} (o : exit S (option A)) : option A :=
  match o with Done r _ => r | _ => None end.

Lemma echo_roundtrip_witness :
  passed (exchange toy_payload toy_turns (Integrity.toy_client, Integrity.toy_host)) = Some toy_payload /\
  option_map (fun e => (data e, echo_sent e)) (passed
    (drive_until_closed false toy_server_turns (Integrity.toy_accepted, Accepted.toy_shared)))
    = Some (toy_payload, true) /\
  wpe (exchange toy_payload toy_turns) (Integrity.toy_client, Integrity.toy_host) (fun echo s1 =>
  wpe (drive_until_closed false toy_server_turns) (Integrity.toy_accepted, Accepted.toy_shared) (fun result s2 =>
    only 4 (client_port s1.1) -> only 4 (server_port (Server.ac_inner s2.1)) ->
    forall r, echo = Some r -> all_through 4 (server_port (Server.ac_inner s2.1)) (client_port s1.1) ->
      all_through 4 (client_port s1.1) (server_port (Server.ac_inner s2.1)) -> r = toy_payload)).
Proof.
  split; [vm_compute; reflexivity|]. split; [vm_compute; reflexivity|].
  eapply wpe_mono.
  { apply (echo_roundtrip toy_payload toy_turns toy_server_turns Integrity.toy_client Integrity.toy_host
      Integrity.toy_accepted Accepted.toy_shared 4).
    - constructor; [apply Client.slen_new_send_buf|apply Streams.pending_new_wf|reflexivity].
    - apply Accepted.toy_shared_ok.
    - constructor; [constructor; [solve_bytes|constructor]|constructor; [constructor|constructor]].
    - intros i. by apply fresh_new.
    - intros i. by apply fresh_new. }
  cbv beta. intros echo s1 H. refine (wpe_mono _ _ _ _ H _). clear H. intros result s2 H' H1 H2 r Hr.
  destruct (H' H1 H2) as [_ Hback]. destruct (Hback r Hr) as [_ Hall]. exact Hall.
Defined.
End Interop.
