(* ===== verification/Fuzz.v ===== *)
(** * The fuzz targets (src/fuzz/fuzz_targets/)

    Each target is a function on arbitrary bytes whose assertions state what the crate
    promises on input from the network; a failing assertion is a panic. The theorems say
    that no input makes a target panic or run for ever. *)
From stdpp Require Import list.
From S2P Require Import Prelude Varint Packet Types Errors Tokens Params Callbacks Conn.
From S2P Require Import InFlight Effects Transport.
Import Types Errors Tokens Callbacks Effects Transport.

Module Fuzz.
#[local] Existing Instances Params.Settings_eta.
Local Open Scope rust_scope.

(** [assert!] *)
Definition assert (b : bool) : M unit unit := if b then mret tt else panic.

Definition from_outcome {A} (o : outcome A) : M unit A :=
  match o with Ret a => mret a | Panic => panic end.

(** ** varint_decode.rs, split_packets.rs *)

Definition varint_decode (d : bytes) : M unit unit :=
  match Varint.decode d with
  | None => mret tt
  | Some (value, len) =>
      assert ((len =? 1) || (len =? 2) || (len =? 4) || (len =? 8)) ;;
      assert (len <=? slen d) ;;
      assert (value <=? Varint.MAX) ;;
      buf ← from_outcome (Varint.encode_to_vec value []);
      assert (slen buf =? Varint.encoded_len value) ;;
      assert (bool_decide (Varint.decode buf = Some (value, slen buf)))
  end.

Definition split_packets (d : bytes) : M unit unit :=
  match Packet.split_packets d with
  | None => diverge
  | Some o =>
      packets ← from_outcome o;
      assert (foldl Z.add 0 (map slen packets) =? slen d) ;;
      for_each packets (fun packet => assert (negb (slen packet =? 0)))
  end.

Section tokens.
Context {str : Strerror} {api : TokenApi}.

(** ** accept_initial.rs, decode_packet_version.rs *)

Definition MIN_INITIAL_DATAGRAM_SIZE : Z := 1200.
Definition MIN_INITIAL_DCIDLEN : Z := 8.

Definition supported (version : Z) : bool :=
  (version =? NGTCP2_PROTO_VER_V1) || (version =? NGTCP2_PROTO_VER_V2).

Definition accept_initial (d : bytes) : M unit unit :=
  match Tokens.accept_initial d with
  | None => mret tt
  | Some initial =>
      assert (supported (ai_version initial)) ;;
      assert (MIN_INITIAL_DATAGRAM_SIZE <=? slen d) ;;
      match ai_token initial with
      | [] => assert (MIN_INITIAL_DCIDLEN <=? Types.len (ai_dcid initial))
      | _ => mret tt
      end
  end.

Definition decode_packet_version (d : bytes) : M unit unit :=
  match Tokens.decode_packet_version d with
  | None => mret tt
  | Some packet_version =>
      assert (negb (pv_version packet_version =? 0)) ;;
      match pv_header_type packet_version with
      | Some _ => assert (supported (pv_version packet_version))
      | None => mret tt
      end
  end.

(** ** verify_retry_token.rs, verify_new_token.rs *)

(** The loop of [corrupt]: byte [i] of the input changes byte [i] of the token, or is
    pushed at its end. *)
Fixpoint corrupt_loop (i : nat) (d corrupted : bytes) : bytes :=
  match d with
  | [] => corrupted
  | byte :: d =>
      corrupt_loop (S i) d
        (match corrupted !! i with
         | Some dst => <[i := Z.lxor dst byte]> corrupted
         | None => corrupted ++ [byte]
         end)
  end.
Definition corrupt (token d : bytes) : bytes := corrupt_loop 0 d token.

Definition fuzz_secret : RetrySecret := replicate (Z.to_nat RETRY_SECRET_LEN) 0x42.
Definition client_addr : SocketAddr := SockV4 [127; 0; 0; 1] 4433.
Definition retry_scid : ConnectionId := mkCid (replicate 8 0x11).
Definition original_dcid : ConnectionId := mkCid (replicate 8 0x22).

Definition verify_retry_token (d : bytes) : M unit unit :=
  r ← from_outcome (generate_retry_token fuzz_secret V1 client_addr retry_scid original_dcid 0);
  match r with
  | Err _ => mret tt
  | Ok token =>
      _ ← from_outcome (Tokens.verify_retry_token fuzz_secret (corrupt (tok_bytes token) d) V1
            client_addr retry_scid (Params.from_secs 10) 0);
      mret tt
  end.

Definition verify_new_token (d : bytes) : M unit unit :=
  r ← from_outcome (generate_new_token fuzz_secret client_addr 0);
  match r with
  | Err _ => mret tt
  | Ok token =>
      let _ := Tokens.verify_new_token fuzz_secret (corrupt (tok_bytes token) d) client_addr
        (Params.from_secs 10) 0 in
      mret tt
  end.

(** What the documentation of [accept_initial] (retry.rs) and of ngtcp2 says of the
    packets [ngtcp2_accept] accepts; an id lies in its array of 20 bytes. *)
Class AcceptDoc : Prop := {
  accept_doc d hd : ngtcp2_accept d = (0, hd) ->
    supported (hd_version hd) = true /\ MIN_INITIAL_DATAGRAM_SIZE <= slen d /\
    (hd_token hd = None \/ hd_token hd = Some [] ->
     MIN_INITIAL_DCIDLEN <= datalen (hd_dcid hd) <= slen (cid_data (hd_dcid hd))) }.

Lemma wp_assert b Q : b = true -> Q (Ok tt) tt -> wp (assert b) tt Q.
Proof. intros ->. done. Qed.

Lemma varint_decode_total d : are_bytes d -> varint_decode d tt = Done tt tt.
Proof.
  intros Hb. unfold varint_decode. destruct (Varint.decode d) as [[value len]|] eqn:Hd; [|done].
  destruct (Varint.decode_Some _ _ _ Hb Hd) as ([H0 Hm] & Hlen & _ & Hl).
  destruct (Varint.encode_panics [] value) as (_ & _ & H). destruct (H Hm) as [He Hn]. cbn in He.
  unfold assert, from_outcome, mbind, M_bind, mret, M_ret. rewrite He, Hn.
  replace ((len =? 1) || (len =? 2) || (len =? 4) || (len =? 8)) with true; cbn.
  2:{ symmetry. set_unfold in Hlen. destruct Hlen as [->|[->|[->|[->|[]]]]]; done. }
  destruct (Z.leb_spec len (slen d)), (Z.leb_spec value Varint.MAX); try lia. rewrite Z.eqb_refl.
  rewrite bool_decide_true; [done|].
  pose proof (Varint.decode_encode_word value [] (conj H0 Hm)) as Hw.
  by rewrite app_nil_r in Hw.
Qed.

Lemma sum_slen (ps : list bytes) n : foldl Z.add n (map slen ps) = n + slen (concat ps).
Proof.
  revert n. induction ps as [|p ps IH]; intros n; cbn; [rewrite slen_nil; lia|].
  rewrite IH, slen_app. lia.
Qed.

Lemma wp_Done {A} (m : M unit A) (a : A) : wp m tt (fun r _ => r = Ok a) -> m tt = Done a tt.
Proof. unfold wp. destruct (m tt) as [? []|? []| |]; [by intros [= ->]|done..]. Qed.

Lemma split_packets_total d : are_bytes d -> split_packets d tt = Done tt tt.
Proof.
  intros Hb. destruct (Packet.split_loop_splits (length d) [] d Hb (le_n _)) as (ps & Hps & Hs).
  apply wp_Done. unfold split_packets, Packet.split_packets. rewrite Hps. cbn [app].
  apply wp_bind, wp_ret, wp_bind, wp_assert.
  { rewrite sum_slen, (Packet.splits_concat _ _ Hs). apply Z.eqb_refl. }
  pose proof (Packet.splits_nonempty _ _ Hs) as Hne. rewrite Forall_forall in Hne.
  eapply wp_mono; [apply (wp_for_each (fun _ => True)); [done|]|by intros r s [-> _]].
  intros p [] Hp _. apply wp_assert; [|done]. destruct (Z.eqb_spec (slen p) 0) as [Hz|]; [|done].
  apply slen_zero_inv in Hz. by destruct (Hne p Hp).
Qed.

Lemma accept_initial_total {doc : AcceptDoc} d : accept_initial d tt = Done tt tt.
Proof.
  unfold accept_initial, Tokens.accept_initial. pose proof (accept_doc d) as Hdoc.
  destruct (ngtcp2_accept d) as [rv hd]. destruct (Z.eqb_spec rv 0) as [->|]; [|done].
  destruct (Hdoc hd eq_refl) as (Hv & Hl & Ht). cbn [negb].
  destruct (Types.new (raw_cid_bytes (hd_dcid hd))) as [dcid|] eqn:Hd; [|done].
  destruct (Types.new (raw_cid_bytes (hd_scid hd))) as [scid|]; [|done]. cbn [ai_version ai_token ai_dcid].
  unfold assert, mbind, M_bind. rewrite Hv. destruct (Z.leb_spec MIN_INITIAL_DATAGRAM_SIZE (slen d)); [|lia].
  cbn. apply new_cid_ok in Hd as [_ Hd].
  assert (hd_token hd = None \/ hd_token hd = Some [] ->
    (MIN_INITIAL_DCIDLEN <=? Types.len dcid) = true) as Hlen.
  { intros H0. apply Z.leb_le. destruct (Ht H0) as [H1 H2].
    change (Types.len dcid) with (slen (as_bytes dcid)). rewrite Hd.
    unfold raw_cid_bytes, MIN_INITIAL_DCIDLEN in *. rewrite slen_take; lia. }
  destruct (hd_token hd) as [[|t ts]|]; try done; rewrite Hlen; auto.
Qed.

Lemma decode_packet_version_total d : decode_packet_version d tt = Done tt tt.
Proof.
  unfold decode_packet_version, Tokens.decode_packet_version.
  destruct (head d) as [first|]; [|done]. destruct (_ =? 0); [done|].
  destruct (ngtcp2_pkt_decode_version_cid d) as [rv raw]. destruct (_ && _); [done|].
  destruct (vc_dcid raw), (vc_scid raw); try done.
  destruct (Z.eqb_spec (vc_version raw) 0) as [|Hv]; [done|].
  destruct (Types.new _); [|done]. destruct (Types.new _); [|done]. cbn.
  unfold assert, mbind, M_bind. destruct (Z.eqb_spec (vc_version raw) 0); [done|]. cbn.
  unfold long_header_type, supported.
  by destruct (vc_version raw =? NGTCP2_PROTO_VER_V1), (vc_version raw =? NGTCP2_PROTO_VER_V2).
Qed.

Lemma verify_tokens_total {doc : TokenApiDoc api} d :
  verify_retry_token d tt = Done tt tt /\ verify_new_token d tt = Done tt tt.
Proof.
  unfold verify_retry_token, verify_new_token, mbind, M_bind. split.
  - destruct (generate_retry_token_ret fuzz_secret V1 client_addr retry_scid original_dcid 0)
      as [[token|e] ->]; [done..| |done]. cbn.
    destruct (verify_retry_token_ret fuzz_secret (corrupt (tok_bytes token) d) V1 client_addr
      retry_scid (Params.from_secs 10) 0) as (r & -> & _); done.
  - by destruct (generate_new_token_ret fuzz_secret client_addr 0) as [[token|e] ->].
Qed.

(** C36: the assertions of the fuzz targets hold on every input: whatever the bytes, none
    of the parsing targets panics or runs for ever. *)
Theorem fuzz_targets_total {doc : TokenApiDoc api} {accept : AcceptDoc} (d : bytes)
    (Hd : are_bytes d) :
  Forall (fun target => target d tt = Done tt tt)
    [varint_decode; split_packets; accept_initial; decode_packet_version;
     verify_retry_token; verify_new_token].
Proof.
  repeat (apply Forall_cons; split); [..|constructor]; try apply verify_tokens_total.
  - by apply varint_decode_total.
  - by apply split_packets_total.
  - apply accept_initial_total.
  - apply decode_packet_version_total.
Qed.

(** The loop of [corrupt] computes the exclusive or of the token and the input,
    byte by byte, with what is longer of the two kept as it is. *)
Theorem corrupt_is_xor (token d : bytes) :
  corrupt token d =
    zip_with Z.lxor token d ++ drop (length d) token ++ drop (length token) d.
Proof.
  enough (forall pre token, corrupt_loop (length pre) d (pre ++ token) =
    pre ++ zip_with Z.lxor token d ++ drop (length d) token ++ drop (length token) d) as H
    by apply (H []).
  clear token. induction d as [|b d IH]; intros pre [|t token]; cbn.
  - by rewrite !app_nil_r.
  - by rewrite ?app_nil_r.
  - rewrite app_nil_r, lookup_ge_None_2 by done.
    specialize (IH (pre ++ [b]) []). rewrite length_app, Nat.add_1_r, app_nil_r in IH. rewrite IH.
    cbn. rewrite <- app_assoc. destruct d; cbn; rewrite ?drop_nil; done.
  - rewrite lookup_app_r, Nat.sub_diag by done. cbn.
    rewrite insert_app_r_alt, Nat.sub_diag by done. cbn.
    specialize (IH (pre ++ [Z.lxor t b]) token).
    rewrite length_app, Nat.add_1_r, <- !app_assoc in IH. exact IH.
Qed.
End tokens.

(** ** conn_read_pkt.rs *)

Section drive.
Context {str : Strerror} {tr : Transport}.
(** [ngtcp2_err_infer_quic_transport_error_code] *)
Context (infer_quic_transport_error_code : Z -> Z).

Definition SEND_BUFFER_SIZE : Z := 1500.
Definition MAX_WRITE_ITERATIONS : nat := 64.
Definition new_send_buf : bytes := replicate (Z.to_nat SEND_BUFFER_SIZE) 0.

Fixpoint drain_loop (n : nat) (buf : bytes) (ts : Z) : M conn unit :=
  match n with
  | O => mret tt
  | S n =>
      r ← attempt (t_write_pkt buf ts);
      match r with
      | Err _ => mret tt
      | Ok (written, _, _, buf) => if written =? 0 then mret tt else drain_loop n buf ts
      end
  end.
Definition drain_packets (ts : Z) : M conn unit := drain_loop MAX_WRITE_ITERATIONS new_send_buf ts.

(** [while conn.poll_event().is_some() {}] *)
Fixpoint poll_events (fuel : nat) : M conn unit :=
  match fuel with
  | O => diverge
  | S fuel =>
      o ← call t_poll_event;
      match o with Some _ => poll_events fuel | None => mret tt end
  end.
Fixpoint poll_qlog (fuel : nat) : M conn unit :=
  match fuel with
  | O => diverge
  | S fuel =>
      o ← call t_poll_qlog_data;
      match o with Some _ => poll_qlog fuel | None => mret tt end
  end.

Definition local_addr : SocketAddr := SockV4 [127; 0; 0; 1] 50000.
Definition remote_addr : SocketAddr := SockV4 [127; 0; 0; 1] 4433.

(** The part of the target after the connection was made. *)
Definition drive (is_server : bool) (datagram : bytes) : M conn unit :=
  (if is_server then mret tt else drain_packets 0) ;;
  r ← attempt (t_read_pkt {| local := local_addr; remote := remote_addr |} PacketInfo_default
        datagram 0);
  match r with
  | Ok _ => drain_packets 0
  | Err e =>
      match classify_connection_error e with
      | Ignore => drain_packets 0
      | TransportClose | ApplicationClose =>
          let error_code :=
            match e with Ngtcp2 _ code => infer_quic_transport_error_code code | _ => 0 end in
          _ ← attempt (t_write_connection_close new_send_buf error_code [] 0);
          mret tt
      | SilentDrop | Terminal | InternalKind => mret tt
      end
  end ;;
  n ← gets (fun c => length (t_events c));
  poll_events (S n) ;;
  poll_qlog 2.

(** ** Lemmas *)

Lemma drain_loop_total {doc : TransportDoc} n buf ts c : wp (drain_loop n buf ts) c (fun r _ => r = Ok tt).
Proof.
  revert buf c. induction n as [|n IH]; intros buf c; [done|]. cbn.
  apply wp_bind, wp_attempt. eapply wp_mono; [apply write_pkt_spec|].
  intros [[[[k pi] path] buf']|e] c' _; [|by apply wp_ret]. destruct (k =? 0); [by apply wp_ret|apply IH].
Qed.

Lemma poll_events_total {doc : TransportDoc} fuel c :
  (length (t_events c) < fuel)%nat -> wp (poll_events fuel) c (fun r _ => r = Ok tt).
Proof.
  revert c. induction fuel as [|fuel IH]; intros c Hf; [lia|]. cbn.
  apply wp_bind, wp_call. rewrite poll_event_spec. pose proof (poll_event_rest c) as Hr.
  destruct (t_events c) as [|e es]; cbn; [by apply wp_ret|].
  apply IH. rewrite (Hr e es eq_refl). cbn in Hf. lia.
Qed.

Lemma poll_qlog_total {doc : TransportDoc} c : wp (poll_qlog 2) c (fun r _ => r = Ok tt).
Proof.
  cbn. apply wp_bind, wp_call. pose proof (poll_qlog_drained c) as Hd.
  destruct (t_poll_qlog_data c) as [c1 [d|]]; [|by apply wp_ret]. cbn in *.
  apply wp_bind, wp_call. by rewrite (Hd d eq_refl).
Qed.

Lemma drive_total {doc : TransportDoc} is_server datagram c :
  wp (drive is_server datagram) c (fun r _ => r = Ok tt).
Proof.
  unfold drive, drain_packets. apply wp_bind.
  apply (wp_mono _ _ (fun r _ => r = Ok tt)).
  { destruct is_server; [by apply wp_ret|apply drain_loop_total]. }
  intros r c1 ->. apply wp_bind, wp_attempt. eapply wp_mono; [apply read_pkt_total|].
  intros r c2 _. apply wp_bind. apply (wp_mono _ _ (fun r _ => r = Ok tt)).
  { destruct r as [u|e]; [apply drain_loop_total|].
    destruct (classify_connection_error e); try by apply wp_ret.
    1: apply drain_loop_total.
    all: apply wp_bind, wp_attempt; (eapply wp_mono; [apply write_close_spec|]);
      intros r c3 _; by apply wp_ret. }
  intros r' c3 ->. apply wp_bind, wp_gets, wp_bind.
  eapply wp_mono; [apply poll_events_total; lia|]. intros r' c4 ->. apply poll_qlog_total.
Qed.

End drive.

Section connection.
Context {str : Strerror} {api : TokenApi} {ng : Conn.Ngtcp2Api} {tls : Conn.Tls}.
Context {allocator : InFlight.Allocator}.
#[local] Existing Instance connection_transport.

(** What the target uses besides the connection: the TLS session of either role, [None]
    when an [expect] of the setup fails, and the default parameters of ngtcp2. *)
Context (create_session : bool -> option Conn.TlsSession).
Context (transport_params_default : Params.TransportParams).
Context (infer_quic_transport_error_code : Z -> Z).

Definition base_params : Params.TransportParams :=
  Params.with_reset_stream_at
    (Params.with_datagram (Params.TransportParams_new transport_params_default) 1200) true.

Definition fuzz_settings : Params.Settings :=
  (Params.Settings_new Conn.ngtcp2_settings_default 0)
    <| Params.stateless_reset_secret :=
         Some (replicate (Z.to_nat STATELESS_RESET_SECRET_LEN) 0x5a) |>
    <| Params.qlog := true |>.

Definition conn_read_pkt (is_server : bool) (datagram : bytes) : M unit unit :=
  let dcid := mkCid (replicate 16 0x11) in
  let scid := mkCid (replicate 16 0x22) in
  params ← (if is_server
            then from_outcome (Params.with_original_dcid base_params (mkCid (replicate 16 0x33)))
            else mret base_params);
  session ← expect (create_session is_server);
  r ← from_outcome (A := tracked (result Error Conn.Connection))
    (if is_server
     then Conn.server_new dcid scid local_addr remote_addr V1 session params fuzz_settings
     else Conn.client_new dcid scid local_addr remote_addr V1 "localhost" session params
            fuzz_settings);
  match (fst r : result Error Conn.Connection) with
  | Err _ => mret tt
  | Ok c => zoom (fun _ => (c : conn)) (fun _ s => s) (drive infer_quic_transport_error_code is_server datagram)
  end.

(** C35: no datagram breaks a connection: the target of the receive path returns for each
    datagram and either role, once its setup gave it a TLS session: neither making the
    connection, nor reading the datagram, writing the answers or a CONNECTION_CLOSE, nor
    taking the events and the qlog panics or runs for ever. *)
Theorem conn_read_pkt_total {ng_doc : Conn.Ngtcp2Doc} {write_doc : Ngtcp2WriteDoc}
    (is_server : bool) (datagram : bytes) (Hs : create_session is_server <> None) :
  conn_read_pkt is_server datagram tt = Done tt tt.
Proof.
  apply wp_Done.
  assert (forall b n, (n <= 20)%nat -> cid_ok (mkCid (replicate n b))) as Hcid.
  { intros b n Hn. unfold cid_ok, Types.len, slen, NGTCP2_MAX_CIDLEN. cbn.
    rewrite length_replicate. lia. }
  unfold conn_read_pkt. apply wp_bind.
  apply (wp_mono _ _ (fun r _ => exists p, r = Ok p)).
  { destruct is_server; apply wp_ret; by eexists. }
  intros r [] [params ->]. apply wp_bind.
  destruct (create_session is_server) as [session|]; [|done]. apply (wp_expect _ session); [done|].
  apply wp_bind. apply (wp_mono _ _ (fun r _ => exists p, r = Ok p)).
  { destruct is_server.
    - destruct (Conn.server_new_settled (mkCid (replicate 16 0x11)) (mkCid (replicate 16 0x22))
        local_addr remote_addr V1 session params fuzz_settings) as (r & o & -> & _);
        [apply Hcid; lia..|by eexists].
    - destruct (Conn.client_new_settled (mkCid (replicate 16 0x11)) (mkCid (replicate 16 0x22))
        local_addr remote_addr V1 "localhost" session params fuzz_settings) as (r & o & -> & _);
        [apply Hcid; lia..|by eexists]. }
  intros r [] [[[c|e] o] ->]; [|by apply wp_ret]. apply wp_zoom. cbn.
  eapply wp_mono; [apply (drive_total (tr := connection_transport) _ is_server datagram c)|]. done.
Qed.
End connection.

(** ** Witnesses *)

#[local] Existing Instances toy_strerror toy_api Conn.toy_ngtcp2 Conn.toy_tls
  InFlight.exact_allocator Conn.toy_ngtcp2_doc toy_ngtcp2_write_doc.

Lemma toy_accept_doc : AcceptDoc.
Proof.
  constructor. intros d hd. cbn. destruct (Z.ltb_spec (slen d) 1200); [done|]. intros [= <-].
  split; [done|]. by split.
Qed.

(** An Initial packet of 1200 bytes is accepted, and as a number, a buffer or a token it
    is what it is. *)
Lemma fuzz_targets_total_witness :
  let d := 0xc3 :: replicate 1199 0 in
  Tokens.accept_initial d <> None /\ accept_initial d tt = Done tt tt.
Proof.
  intros d. split; [vm_compute; discriminate|].
  assert (are_bytes d) as Hd.
  { apply Forall_cons. split; [unfold is_u8; lia|]. apply Forall_replicate. unfold is_u8. lia. }
  pose proof (fuzz_targets_total (doc := toy_api_doc) (accept := toy_accept_doc) d Hd) as H.
  exact (proj1 (Forall_forall _ _) H accept_initial ltac:(right; right; left)).
Defined.

Lemma conn_read_pkt_total_witness :
  conn_read_pkt (fun _ => Some tt) Params.toy_params (fun code => code) false [0xc3; 7] tt
    = Done tt tt.
Proof.
  apply conn_read_pkt_total; [apply Conn.toy_ngtcp2_doc|apply toy_ngtcp2_write_doc|discriminate].
Defined.
End Fuzz.
