(* ===== verification/Quiche.v ===== *)
(** * A client on raw quiche (src/interop/quiche-driver/src/raw_quiche.rs)

    The driver that the interoperability tests run in a process of its own, for what
    tokio-quiche cannot do: 0-RTT data and migration. quiche and the sockets are
    parameters. The errors of this program are strings; here a string is an [Internal]
    error. *)
From S2P Require Import Prelude Types Errors Effects.
Import Types Errors Effects.

Module Quiche.

(** ** quiche and the operating system *)

Inductive QError := QDone | QOther (msg : string).
Record SendInfo := mkSendInfo { si_from : SocketAddr; si_to : SocketAddr }.
Record RecvInfo := mkRecvInfo { ri_to : SocketAddr; ri_from : SocketAddr }.
Inductive PathEvent := Validated (local peer : SocketAddr) | OtherPathEvent.

(** The setters of [quiche::Config] that do not fail. *)
Inductive QSetting :=
| SetMaxIdleTimeout (ms : Z)
| SetMaxRecvUdpPayloadSize (n : Z)
| SetMaxSendUdpPayloadSize (n : Z)
| SetInitialMaxData (n : Z)
| SetInitialMaxStreamDataBidiLocal (n : Z)
| SetInitialMaxStreamDataBidiRemote (n : Z)
| SetInitialMaxStreamDataUni (n : Z)
| SetInitialMaxStreamsBidi (n : Z)
| SetInitialMaxStreamsUni (n : Z)
| VerifyPeer (b : bool)
| SetDisableActiveMigration (b : bool)
| EnableEarlyData.

Class Quiche := {
  qconfig : Type;
  qconn : Type;
  q_show : QError -> string;
  q_config_new : result QError qconfig;
  q_set : QSetting -> qconfig -> qconfig;
  q_set_application_protos : list bytes -> qconfig -> result QError qconfig;
  q_load_verify_locations_from_file : string -> qconfig -> result QError qconfig;
  q_connect : option string -> bytes -> SocketAddr -> SocketAddr -> qconfig -> result QError qconn;
  q_send : bytes -> qconn -> qconn * (bytes * result QError (Z * SendInfo));
  q_recv : bytes -> RecvInfo -> qconn -> qconn * result QError Z;
  q_on_timeout : qconn -> qconn;
  q_is_established : qconn -> bool;
  q_available_dcids : qconn -> Z;
  q_session : qconn -> option bytes;
  q_set_session : bytes -> qconn -> qconn * result QError unit;
  q_new_scid : bytes -> Z -> bool -> qconn -> qconn * result QError Z;
  q_probe_path : SocketAddr -> SocketAddr -> qconn -> qconn * result QError Z;
  q_migrate : SocketAddr -> SocketAddr -> qconn -> qconn * result QError Z;
  q_path_event_next : qconn -> qconn * option PathEvent;
  q_readable : qconn -> list Z;
  q_stream_recv : Z -> bytes -> qconn -> qconn * (bytes * result QError (Z * bool));
  q_stream_send : Z -> bytes -> bool -> qconn -> qconn * result QError Z;
  q_close : bool -> Z -> bytes -> qconn -> qconn * result QError unit;
  q_is_resumed : qconn -> bool;
  q_is_in_early_data : qconn -> bool;
  q_is_draining : qconn -> bool;
  q_is_closed : qconn -> bool;
  q_is_timed_out : qconn -> bool }.

(** What [UdpSocket::recv_from] fails with: the read timeout passed, or something else. *)
Inductive recv_error := NothingYet | RecvFailed (msg : string).

Class Host := {
  host : Type;
  usock : Type;
  h_bind : string -> host -> host * result string usock;
  h_set_read_timeout : usock -> Z -> host -> host * result string unit;
  h_local_addr : usock -> host -> host * result string SocketAddr;
  h_send_to : usock -> bytes -> SocketAddr -> host -> host * result string Z;
  h_recv_from : usock -> bytes -> host -> host * (bytes * result recv_error (Z * SocketAddr));
  h_now : host -> host * Z;
  h_fill : nat -> host -> host * result string bytes;
  h_show_addr : SocketAddr -> string;
  (** the order of the keys of a [HashMap] *)
  h_keys : gmap SocketAddr usock -> list SocketAddr }.

(** How much quiche and the clock allow: quiche has a number of packets to send, of path
    events and of pieces of stream data at a time; and the clock can be read a number of
    times before it passes a deadline. *)
Class Budget `{Quiche} `{Host} := {
  packets_left : qconn -> nat;
  events_left : qconn -> nat;
  reads_left : qconn -> nat;
  clock_left : Z -> host -> nat;
  send_left buf c : let '(c', (buf', r)) := q_send buf c in
    match r with Ok (n, _) => (packets_left c' < packets_left c)%nat | Err _ => True end;
  path_event_left c : let '(c', e) := q_path_event_next c in
    e <> None -> (events_left c' < events_left c)%nat;
  stream_recv_left id buf c : let '(c', (buf', r)) := q_stream_recv id buf c in
    match r with Ok _ => (reads_left c' < reads_left c)%nat | Err _ => True end;
  now_left d h : let '(h', t) := h_now h in
    (clock_left d h' <= clock_left d h)%nat /\
    (t <= d -> (clock_left d h' < clock_left d h)%nat) }.

(** What they document: no length is beyond the buffer; other calls do not turn the clock
    back; the order of the keys is one of the keys. *)
Class QuicheDoc `{Budget} : Prop := {
  qd_config : exists c, q_config_new = Ok c;
  qd_alpn c l : exists c', q_set_application_protos l c = Ok c';
  qd_send buf c : let '(c', (buf', r)) := q_send buf c in
    match r with Ok (n, _) => 0 <= n <= slen buf' | Err _ => True end;
  qd_stream_recv id buf c : let '(c', (buf', r)) := q_stream_recv id buf c in
    match r with Ok (n, _) => 0 <= n <= slen buf' | Err _ => True end;
  hd_recv_from s buf h : let '(h', (buf', r)) := h_recv_from s buf h in
    match r with Ok (n, _) => 0 <= n <= slen buf' | Err _ => True end;
  hd_clock d h h' :
    (exists a, h' = (h_bind a h).1) \/ (exists s t, h' = (h_set_read_timeout s t h).1) \/
    (exists s, h' = (h_local_addr s h).1) \/ (exists s b t, h' = (h_send_to s b t h).1) \/
    (exists s b, h' = (h_recv_from s b h).1) \/ (exists n, h' = (h_fill n h).1) ->
    (clock_left d h' <= clock_left d h)%nat;
  hd_keys m : h_keys m ≡ₚ (map_to_list m).*1 }.

Section raw.
Context {q : Quiche} {os : Host} {bud : Budget}.

Definition MAX_DATAGRAM_SIZE : Z := 1350.
Definition QUICHE_TIMEOUT : Z := 20 * 1000000000.
Definition POLL_INTERVAL : Z := 20 * 1000000.
(** [hq-interop] *)
Definition ALPN : bytes := [104; 113; 45; 105; 110; 116; 101; 114; 111; 112].
Definition MAX_CONN_ID_LEN : nat := 20.

(** [.map_err(|e| format!("{what}: {e}"))?] *)
Definition or_fail {S A} (what : string) (r : result string A) : M S A :=
  match r with Ok a => mret a | Err e => throw (Internal (what +:+ ": " +:+ e)) end.
Definition or_fail_q {S A} (what : string) (r : result QError A) : M S A :=
  match r with Ok a => mret a | Err e => throw (Internal (what +:+ ": " +:+ q_show e)) end.
Definition expect_q {S A} (r : result QError A) : M S A :=
  match r with Ok a => mret a | Err _ => panic end.

Definition client_config (ca_cert_path : string) : M host qconfig :=
  config ← expect_q q_config_new;
  config ← expect_q (q_set_application_protos [ALPN] config);
  let config := foldl (fun c s => q_set s c) config
    [SetMaxIdleTimeout 10000; SetMaxRecvUdpPayloadSize MAX_DATAGRAM_SIZE;
     SetMaxSendUdpPayloadSize MAX_DATAGRAM_SIZE; SetInitialMaxData 10000000;
     SetInitialMaxStreamDataBidiLocal 1000000; SetInitialMaxStreamDataBidiRemote 1000000;
     SetInitialMaxStreamDataUni 1000000; SetInitialMaxStreamsBidi 100;
     SetInitialMaxStreamsUni 100; VerifyPeer true] in
  config ← or_fail_q "failed to load certificate" (q_load_verify_locations_from_file ca_cert_path config);
  mret (q_set (SetDisableActiveMigration false) config).

Definition bind_socket : M host usock :=
  r ← call (h_bind "127.0.0.1:0");
  socket ← or_fail "failed to bind" r;
  r ← call (h_set_read_timeout socket POLL_INTERVAL);
  or_fail "failed to set timeout" r ;;
  mret socket.

Definition local_addr_of (socket : usock) : M host SocketAddr :=
  r ← call (h_local_addr socket); or_fail "failed to get local address" r.

Definition connect (server_addr local_addr : SocketAddr) (config : qconfig) : M host qconn :=
  r ← call (h_fill MAX_CONN_ID_LEN);
  scid ← or_fail "failed to generate scid" r;
  or_fail_q "failed to create connection"
    (q_connect (Some "localhost") scid local_addr server_addr config).

(** ** The driver *)

Record ClientDriver := mkDriver {
  conn : qconn;
  sockets : gmap SocketAddr usock;
  out : bytes;
  buf : bytes;
  deadline : Z }.
#[export] Instance ClientDriver_eta : Eta ClientDriver := fun d =>
  mkDriver (conn d) (sockets d) (out d) (buf d) (deadline d).
Notation dst := (ClientDriver * host)%type.

Definition driver_new (c : qconn) (socket : usock) : M host ClientDriver :=
  local_addr ← local_addr_of socket;
  now ← call h_now;
  mret (mkDriver c {[local_addr := socket]} (repeat 0 1350) (repeat 0 65535) (now + QUICHE_TIMEOUT)).

(** The connection, the world outside, and the fields. *)
Definition on_conn {A} (f : qconn -> qconn * A) : M dst A := call (fun s =>
  let '(c, a) := f (conn s.1) in ((s.1 <| conn := c |>, s.2), a)).
Definition on_host {A} (m : M host A) : M dst A := zoom snd (fun h s => (s.1, h)) m.
Definition field {A} (f : ClientDriver -> A) : M dst A := gets (fun s => f s.1).
Definition set_driver (f : ClientDriver -> ClientDriver) : M dst unit := modify (fun s => (f s.1, s.2)).
Definition prefix {S} (b : bytes) (n : Z) : M S bytes := expect (slice b 0 n).

Definition add_socket (socket : usock) : M dst SocketAddr :=
  local_addr ← on_host (local_addr_of socket);
  set_driver (fun d => d <| sockets := <[local_addr := socket]> (sockets d) |>) ;;
  mret local_addr.

(** [conn.send(&mut out)] and [conn.stream_recv(id, &mut buf)] *)
Definition conn_send : M dst (result QError (Z * SendInfo)) :=
  b ← field out;
  '(b, r) ← on_conn (q_send b);
  set_driver (fun d => d <| out := b |>) ;; mret r.
Definition conn_stream_recv (id : Z) : M dst (result QError (Z * bool)) :=
  b ← field buf;
  '(b, r) ← on_conn (q_stream_recv id b);
  set_driver (fun d => d <| buf := b |>) ;; mret r.

Fixpoint send_loop (fuel : nat) : M dst unit :=
  match fuel with
  | O => diverge
  | S fuel =>
      r ← conn_send;
      match r with
      | Ok (written, info) =>
          ss ← field sockets;
          match ss !! si_from info with
          | None => throw (Internal ("no socket bound to " +:+ h_show_addr (si_from info)))
          | Some socket =>
              b ← field out;
              d ← prefix b written;
              r ← on_host (call (h_send_to socket d (si_to info)));
              _ ← or_fail "failed to send packet" r;
              send_loop fuel
          end
      | Err QDone => mret tt
      | Err e => throw (Internal ("failed to write packet: " +:+ q_show e))
      end
  end.
Definition send_pending : M dst unit := fun s => send_loop (S (packets_left (conn s.1))) s.

Fixpoint recv_any (local_addrs : list SocketAddr) : M dst bool :=
  match local_addrs with
  | [] => mret false
  | local_addr :: local_addrs =>
      ss ← field sockets;
      socket ← expect (ss !! local_addr);
      b ← field buf;
      '(b, r) ← on_host (call (h_recv_from socket b));
      set_driver (fun d => d <| buf := b |>) ;;
      match r with
      | Ok (len, from) =>
          d ← prefix b len;
          _ ← on_conn (q_recv d (mkRecvInfo local_addr from));
          mret true
      | Err NothingYet => recv_any local_addrs
      | Err (RecvFailed e) => throw (Internal ("failed to receive packet: " +:+ e))
      end
  end.
Definition recv_once : M dst bool :=
  ss ← field sockets; recv_any (h_keys ss).

(** The end of a turn of each loop. *)
Definition drive : M dst unit :=
  received ← recv_once;
  (if (received : bool) then mret tt else on_conn (fun c => (q_on_timeout c, tt))) ;;
  send_pending.

(** [Instant::now() > self.deadline] *)
Definition timed_out : M dst bool :=
  now ← on_host (call h_now);
  d ← field deadline;
  mret (d <? now).

Fixpoint wait_loop (fuel : nat) (predicate : qconn -> bool) (description : string) : M dst unit :=
  match fuel with
  | O => diverge
  | S fuel =>
      c ← field conn;
      if predicate c then mret tt
      else
        late ← timed_out;
        if (late : bool) then throw (Internal ("timed out while waiting for " +:+ description))
        else drive ;; wait_loop fuel predicate description
  end.
(** How many turns the clock allows. *)
Definition turns (s : dst) : nat := S (clock_left (deadline s.1) s.2).
Definition wait_until (predicate : qconn -> bool) (description : string) : M dst unit := fun s =>
  wait_loop (turns s) predicate description s.

(** Whether the event is among those that wait; the later ones stay. *)
Fixpoint find_validated (fuel : nat) (local_addr : SocketAddr) : M dst bool :=
  match fuel with
  | O => diverge
  | S fuel =>
      e ← on_conn q_path_event_next;
      match e with
      | None => mret false
      | Some (Validated local _) =>
          if bool_decide (local = local_addr) then mret true else find_validated fuel local_addr
      | Some OtherPathEvent => find_validated fuel local_addr
      end
  end.

Fixpoint validated_loop (fuel : nat) (local_addr : SocketAddr) : M dst unit :=
  match fuel with
  | O => diverge
  | S fuel =>
      late ← timed_out;
      if (late : bool) then
        throw (Internal ("timed out while waiting for the path validation of " +:+ h_show_addr local_addr))
      else
        found ← (fun s => find_validated (S (events_left (conn s.1))) local_addr s);
        if (found : bool) then mret tt
        else drive ;; validated_loop fuel local_addr
  end.
Definition wait_path_validated (local_addr : SocketAddr) : M dst unit := fun s =>
  validated_loop (turns s) local_addr s.

(** [while let Ok(..) = conn.stream_recv(..)]: the data so far, and whether a FIN came *)
Fixpoint read_stream (fuel : nat) (id : Z) (acc : bytes * bool) : M dst (bytes * bool) :=
  match fuel with
  | O => diverge
  | S fuel =>
      r ← conn_stream_recv id;
      match r with
      | Ok (read, stream_fin) =>
          b ← field buf;
          d ← prefix b read;
          read_stream fuel id (acc.1 ++ d, acc.2 || stream_fin)
      | Err _ => mret acc
      end
  end.
Fixpoint read_streams (ids : list Z) (acc : bytes * bool) : M dst (bytes * bool) :=
  match ids with
  | [] => mret acc
  | id :: ids =>
      acc ← (fun s => read_stream (S (reads_left (conn s.1))) id acc s);
      read_streams ids acc
  end.

Fixpoint echo_loop (fuel : nat) (received : bytes) : M dst bytes :=
  match fuel with
  | O => diverge
  | S fuel =>
      late ← timed_out;
      if (late : bool) then throw (Internal "timed out while waiting for the echo")
      else
        c ← field conn;
        '(received, fin) ← read_streams (q_readable c) (received, false);
        if (fin : bool) then mret received else drive ;; echo_loop fuel received
  end.
Definition read_echo : M dst bytes := fun s => echo_loop (turns s) [] s.

(** ** The clients *)

(** [conn.close(..)] and the packets of it *)
Definition close_connection : M dst unit :=
  r ← on_conn (q_close false 0 []);
  or_fail_q "failed to close the connection" r ;;
  send_pending.

Definition send_payload (what : string) (payload : bytes) : M dst unit :=
  r ← on_conn (q_stream_send 0 payload true);
  _ ← or_fail_q what r; mret tt.

(** A driver that is dropped at the end. *)
Definition run_with {A} (driver : ClientDriver) (body : M dst A) : M host A := fun h =>
  match body (driver, h) with
  | Done a (_, h) => Done a h
  | Fail e (_, h) => Fail e h
  | Panics => Panics
  | Diverges => Diverges
  end.

(** A socket, a connection on it, and what the client does with them. *)
Definition with_driver {A} (server_addr : SocketAddr) (config : qconfig) (body : M dst A) : M host A :=
  socket ← bind_socket;
  local_addr ← local_addr_of socket;
  c ← connect server_addr local_addr config;
  driver ← driver_new c socket;
  run_with driver body.

Definition fetch_body : M dst bytes :=
  send_pending ;;
  wait_until (fun c => q_is_established c && bool_decide (is_Some (q_session c))) "the session ticket" ;;
  c ← field conn;
  match q_session c with
  | None => throw (Internal "the session ticket is not available")
  | Some session => close_connection ;; mret session
  end.
Definition fetch_session (server_addr : SocketAddr) (ca_cert_path : string) : M host bytes :=
  config ← client_config ca_cert_path;
  with_driver server_addr config fetch_body.

Definition early_data_body (session payload : bytes) : M dst bytes :=
  r ← on_conn (q_set_session session);
  or_fail_q "failed to set session" r ;;
  send_payload "failed to send early data" payload ;;
  send_pending ;;
  echoed ← read_echo;
  c ← field conn;
  if negb (q_is_resumed c) then throw (Internal "the server did not resume the session")
  else mret echoed.
Definition client_early_data_roundtrip (server_addr : SocketAddr) (ca_cert_path : string)
    (payload : bytes) : M host bytes :=
  session ← fetch_session server_addr ca_cert_path;
  config ← client_config ca_cert_path;
  with_driver server_addr (q_set EnableEarlyData config) (early_data_body session payload).

(** [u128::from_be_bytes] *)
Definition from_be_bytes (b : bytes) : Z := foldl (fun n x => n * 256 + x) 0 b.

Definition migrate_body (server_addr : SocketAddr) (payload : bytes) : M dst bytes :=
  send_pending ;;
  wait_until q_is_established "the handshake" ;;
  wait_until (fun c => 0 <? q_available_dcids c) "a spare destination connection id" ;;
  r ← on_host (call (h_fill MAX_CONN_ID_LEN));
  scid ← or_fail "failed to generate scid" r;
  r ← on_host (call (h_fill 16));
  reset_token ← or_fail "failed to generate reset token" r;
  r ← on_conn (q_new_scid scid (from_be_bytes reset_token) false);
  _ ← or_fail_q "failed to issue a new scid" r;
  send_pending ;;
  socket ← on_host bind_socket;
  new_local_addr ← add_socket socket;
  r ← on_conn (q_probe_path new_local_addr server_addr);
  _ ← or_fail_q "failed to probe the new path" r;
  wait_path_validated new_local_addr ;;
  r ← on_conn (q_migrate new_local_addr server_addr);
  _ ← or_fail_q "failed to migrate" r;
  send_pending ;;
  send_payload "failed to send request" payload ;;
  echoed ← read_echo;
  close_connection ;;
  mret echoed.
Definition client_migrate_roundtrip (server_addr : SocketAddr) (ca_cert_path : string)
    (payload : bytes) : M host bytes :=
  config ← client_config ca_cert_path;
  with_driver server_addr config (migrate_body server_addr payload).

(** ** The clients end *)

(** [m] returns, and relates the state it starts from to the one it leaves. *)
Definition ends {S A} (R : S -> S -> Prop) (m : M S A) : Prop :=
  forall s, wp m s (fun _ s' => R s s').

Section ends.
Context {S : Type} (R : S -> S -> Prop) `{!PreOrder R}.
Lemma ends_ret {A} (a : A) : ends R (mret a).
Proof. intros s. apply wp_ret. reflexivity. Qed.
Lemma ends_throw {A} e : ends R (throw e : M S A).
Proof. intros s. apply wp_throw. reflexivity. Qed.
Lemma ends_gets {A} (f : S -> A) : ends R (gets f).
Proof. intros s. apply wp_gets. reflexivity. Qed.
Lemma ends_modify f : (forall s, R s (f s)) -> ends R (modify f).
Proof. intros H s. apply wp_modify, H. Qed.
Lemma ends_call {A} (f : S -> S * A) : (forall s, R s (f s).1) -> ends R (call f).
Proof. intros H s. apply wp_call, H. Qed.
Lemma ends_bind {A B} (m : M S A) (f : A -> M S B) :
  ends R m -> (forall a, ends R (f a)) -> ends R (m ≫= f).
Proof.
  intros Hm Hf s. apply wp_bind. eapply wp_mono; [apply Hm|]. intros [a|e] s1 H1; [|done].
  eapply wp_mono; [apply Hf|]. intros r s2 H2. by etrans.
Qed.
(** What the first part promises besides may help the second. *)
Lemma ends_bind_wp {A B} (m : M S A) (f : A -> M S B) s (P : A -> S -> Prop) :
  wp m s (fun r s' => R s s' /\ match r with Ok a => P a s' | Err _ => True end) ->
  (forall a s', R s s' -> P a s' -> wp (f a) s' (fun _ s2 => R s' s2)) ->
  wp (m ≫= f) s (fun _ s' => R s s').
Proof.
  intros Hm Hf. apply wp_bind. eapply wp_mono; [exact Hm|]. intros [a|e] s1 [H1 HP]; [|done].
  eapply wp_mono; [by apply Hf|]. intros r s2 H2. by etrans.
Qed.
Lemma ends_or_fail {A} what (r : result string A) : ends R (or_fail what r).
Proof. destruct r; [apply ends_ret|apply ends_throw]. Qed.
Lemma ends_or_fail_q {A} what (r : result QError A) : ends R (or_fail_q what r).
Proof. destruct r; [apply ends_ret|apply ends_throw]. Qed.
Lemma ends_expect_q {A} (r : result QError A) : (exists a, r = Ok a) -> ends R (expect_q r).
Proof. intros [a ->]. apply ends_ret. Qed.
End ends.

(** Time passes, and the deadline stays. *)
Definition earlier (h h' : host) : Prop := forall d, (clock_left d h' <= clock_left d h)%nat.
Definition later (s s' : dst) : Prop :=
  deadline s'.1 = deadline s.1 /\ earlier s.2 s'.2.
#[local] Instance earlier_preorder : PreOrder earlier.
Proof. split; [by intros ? ?|]. intros h1 h2 h3 H1 H2 d. etrans; [apply H2|apply H1]. Qed.
#[local] Instance later_preorder : PreOrder later.
Proof. split; [by split|]. intros s1 s2 s3 [H1 H2] [H3 H4]. split; [congruence|by etrans]. Qed.

Context {doc : QuicheDoc}.

Lemma ends_now : ends earlier (call h_now).
Proof.
  apply ends_call. intros h d. pose proof (now_left d h) as H. destruct (h_now h). apply H.
Qed.
Lemma ends_host {A} (f : host -> host * A) : (forall h d, clock_left d (f h).1 <= clock_left d h)%nat ->
  ends earlier (call f).
Proof. intros H. apply ends_call. intros h d. apply H. Qed.

Lemma ends_on_conn {A} (f : qconn -> qconn * A) : ends later (on_conn f).
Proof. intros [d h]. unfold wp, on_conn, call. cbn. by destruct (f (conn d)). Qed.
Lemma ends_on_host {A} (m : M host A) : ends earlier m -> ends later (on_host m).
Proof. intros Hm s. apply wp_zoom. eapply wp_mono; [apply Hm|]. by split. Qed.
Lemma ends_field {A} (f : ClientDriver -> A) : ends later (field f).
Proof. apply ends_gets, _. Qed.
Lemma ends_set_driver f : (forall d, deadline (f d) = deadline d) -> ends later (set_driver f).
Proof. intros H. apply ends_modify. intros s. split; [apply H|reflexivity]. Qed.

Create HintDb ends.
#[local] Hint Resolve ends_ret ends_throw ends_gets ends_field ends_or_fail ends_or_fail_q ends_now
  ends_on_conn ends_on_host ends_set_driver earlier_preorder later_preorder : ends.
Ltac ends_auto :=
  repeat first
    [ solve [eauto with ends]
    | match goal with |- forall _, _ => intro end
    | match goal with |- ends _ (match ?x with _ => _ end) => destruct x end
    | match goal with |- ends _ (let '(_, _) := ?x in _) => destruct x end
    | match goal with |- ends _ (mbind _ _) => apply ends_bind; [apply _| |] end
    | apply ends_on_host
    | match goal with |- ends _ (call _) => apply ends_host; intros; apply hd_clock; eauto 10 end ].

Lemma ends_local_addr_of socket : ends earlier (local_addr_of socket).
Proof. unfold local_addr_of. ends_auto. Qed.
#[local] Hint Resolve ends_local_addr_of : ends.
Lemma ends_bind_socket : ends earlier bind_socket.
Proof. unfold bind_socket. ends_auto. Qed.
Lemma ends_connect server local config : ends earlier (connect server local config).
Proof. unfold connect. ends_auto. Qed.
Lemma ends_driver_new c socket : ends earlier (driver_new c socket).
Proof. unfold driver_new. ends_auto. Qed.
Lemma ends_add_socket socket : ends later (add_socket socket).
Proof. unfold add_socket. ends_auto. Qed.
#[local] Hint Resolve ends_bind_socket ends_connect ends_driver_new ends_add_socket : ends.

Lemma ends_client_config path : ends earlier (client_config path).
Proof.
  unfold client_config. apply ends_bind; [apply _|apply ends_expect_q, qd_config; apply _|intros c].
  apply ends_bind; [apply _|apply ends_expect_q, qd_alpn; apply _|intros c']. ends_auto.
Qed.
#[local] Hint Resolve ends_client_config : ends.

(** *** The loops *)

Lemma slice_prefix {A} (b : list A) n : 0 <= n <= slen b -> exists d, slice b 0 n = Some d.
Proof. intros H. unfold slice. bool_cases; [by eexists|lia..]. Qed.

Lemma wp_conn_send s : wp conn_send s (fun r s' => later s s' /\
  match r with
  | Ok (Ok (n, _)) =>
      (packets_left (conn s'.1) < packets_left (conn s.1))%nat /\ 0 <= n <= slen (out s'.1)
  | _ => True
  end).
Proof.
  destruct s as [d h]. unfold conn_send, wp, mbind, M_bind, field, gets, on_conn, call. cbn.
  pose proof (send_left (out d) (conn d)) as Hl. pose proof (qd_send (out d) (conn d)) as Hd.
  destruct (q_send (out d) (conn d)) as [c [b r]]. cbn. split; [by split|].
  by destruct r as [[n info]|e].
Qed.

Lemma wp_conn_stream_recv id s : wp (conn_stream_recv id) s (fun r s' => later s s' /\
  match r with
  | Ok (Ok (n, _)) =>
      (reads_left (conn s'.1) < reads_left (conn s.1))%nat /\ 0 <= n <= slen (buf s'.1)
  | _ => True
  end).
Proof.
  destruct s as [d h]. unfold conn_stream_recv, wp, mbind, M_bind, field, gets, on_conn, call. cbn.
  pose proof (stream_recv_left id (buf d) (conn d)) as Hl.
  pose proof (qd_stream_recv id (buf d) (conn d)) as Hd.
  destruct (q_stream_recv id (buf d) (conn d)) as [c [b r]]. cbn. split; [by split|].
  by destruct r as [[n fin]|e].
Qed.

(** [&buf[..n]] of a field *)
Lemma ends_field_prefix {A} (f : ClientDriver -> bytes) n (k : bytes -> M dst A) s :
  0 <= n <= slen (f s.1) -> (forall d, wp (k d) s (fun _ s' => later s s')) ->
  wp (b ← field f; d ← prefix b n; k d) s (fun _ s' => later s s').
Proof.
  intros Hn Hk. destruct (slice_prefix (f s.1) n Hn) as [d Hd].
  unfold wp, mbind, M_bind, field, gets, prefix. rewrite Hd. apply Hk.
Qed.

Lemma ends_send_loop fuel s : (packets_left (conn s.1) < fuel)%nat ->
  wp (send_loop fuel) s (fun _ s' => later s s').
Proof.
  revert s. induction fuel as [|fuel IH]; intros s Hf; [lia|]. cbn [send_loop].
  eapply (ends_bind_wp _ _ _ _ (fun r s' => match r with
    | Ok (n, _) => (packets_left (conn s'.1) < packets_left (conn s.1))%nat /\ 0 <= n <= slen (out s'.1)
    | _ => True end)).
  { eapply wp_mono; [apply wp_conn_send|]. by intros [[[n info]|e]|e] s' [H1 H2]. }
  intros [[n info]|[|e]] s1 H1 H2; [|by apply ends_ret, _|by apply ends_throw, _].
  apply wp_bind, wp_gets. destruct (sockets s1.1 !! si_from info) as [sock|]; [|by apply ends_throw, _].
  apply ends_field_prefix; [apply H2|]. intros d.
  eapply (ends_bind_wp _ _ _ _ (fun _ s' => conn s'.1 = conn s1.1)).
  { unfold wp, on_host, zoom, call. pose proof (hd_clock) as Hc.
    destruct (h_send_to sock d (si_to info) s1.2) as [h r] eqn:Hs. cbn. split; [|done]. split; [done|].
    intros t. apply Hc. right. right. right. left. exists sock, d, (si_to info). by rewrite Hs. }
  intros r s2 _ Hc. destruct r as [?|e]; [|by apply ends_throw, _]. apply IH. rewrite Hc. lia.
Qed.

Lemma ends_send_pending : ends later send_pending.
Proof. intros s. apply ends_send_loop. lia. Qed.
#[local] Hint Resolve ends_send_pending : ends.

Lemma ends_recv_any addrs s :
  (forall a, a ∈ addrs -> is_Some (sockets s.1 !! a)) ->
  wp (recv_any addrs) s (fun _ s' => later s s').
Proof.
  revert s. induction addrs as [|a addrs IH]; intros s Ha; [by apply ends_ret, _|]. cbn [recv_any].
  apply wp_bind, wp_gets. destruct (Ha a) as [sock Hs]; [left|]. apply wp_bind.
  eapply wp_expect; [exact Hs|]. apply wp_bind, wp_gets.
  pose proof (hd_recv_from sock (buf s.1) s.2) as Hn. pose proof hd_clock as Hc.
  destruct s as [d h]. unfold wp, mbind, M_bind at 1, on_host, zoom, call. cbn in *.
  destruct (h_recv_from sock (buf d) h) as [h' [b r]] eqn:Hr. cbn.
  assert (later (d, h) (d <| buf := b |>, h')) as Hl.
  { split; [done|]. intros t. cbn. apply Hc. do 4 right. left. exists sock, (buf d). by rewrite Hr. }
  destruct r as [[n from]|[|e]].
  - destruct (slice_prefix b n Hn) as [x Hx]. unfold prefix, mbind, M_bind. rewrite Hx. cbn.
    unfold on_conn, call. cbn. by destruct (q_recv _ _ _).
  - change (wp (recv_any addrs) (d <| buf := b |>, h') (fun _ s' => later (d, h) s')).
    eapply wp_mono; [apply IH; cbn; intros; apply Ha; by right|]. intros r' s' H. by etrans.
  - done.
Qed.

Lemma ends_recv_once : ends later recv_once.
Proof.
  intros s. apply wp_bind, wp_gets, ends_recv_any. intros a.
  rewrite hd_keys. intros ([] & -> & Hx)%list_elem_of_fmap. apply elem_of_map_to_list in Hx. by eexists.
Qed.
#[local] Hint Resolve ends_recv_once : ends.
Lemma ends_drive : ends later drive.
Proof. unfold drive. ends_auto. Qed.
#[local] Hint Resolve ends_drive : ends.

(** A loop that reads the clock in each turn. *)
Lemma wp_timed_out s : wp timed_out s (fun r s' => later s s' /\ match r with
  | Ok late => late = true \/ (turns s' < turns s)%nat
  | Err _ => True
  end).
Proof.
  destruct s as [d h]. unfold timed_out, wp, mbind, M_bind, on_host, zoom, call, field, gets. cbn.
  assert (forall t, _) as Hl by exact (fun t => now_left t h).
  destruct (h_now h) as [h' t]. cbn. split; [split; [done|intros x; apply Hl]|].
  destruct (Z.ltb_spec (deadline d) t); [by left|right]. unfold turns. cbn.
  apply (proj1 (Nat.succ_lt_mono _ _)). by apply Hl.
Qed.

Lemma ends_turn {A} (late : M dst A) (go : M dst A) s :
  ends later late ->
  (forall s', (turns s' < turns s)%nat -> wp go s' (fun _ s2 => later s' s2)) ->
  wp (b ← timed_out; if (b : bool) then late else go) s (fun _ s' => later s s').
Proof.
  intros Hlate Hgo. eapply (ends_bind_wp _ _ _ _ (fun b s' => b = true \/ (turns s' < turns s)%nat)).
  { eapply wp_mono; [apply wp_timed_out|]. by intros [b|e] s' [H1 H2]. }
  intros [] s1 _ Hb; [apply Hlate|]. destruct Hb as [|Hb]; [done|]. by apply Hgo.
Qed.

(** A turn that goes on. *)
Lemma ends_drive_then {A} (go : M dst A) s :
  (forall s', (turns s' <= turns s)%nat -> wp go s' (fun _ s2 => later s' s2)) ->
  wp (drive ;; go) s (fun _ s' => later s s').
Proof.
  intros Hgo. apply (ends_bind_wp _ _ _ _ (fun _ s' => turns s' <= turns s)%nat).
  - eapply wp_mono; [apply ends_drive|]. intros r s' H. split; [done|]. destruct r; [|done].
    destruct H as [Hd Hc]. unfold turns. rewrite Hd. apply le_n_S, Hc.
  - intros _ s' _. apply Hgo.
Qed.

Lemma ends_wait_loop fuel p text s : (turns s <= fuel)%nat ->
  wp (wait_loop fuel p text) s (fun _ s' => later s s').
Proof.
  revert s. induction fuel as [|fuel IH]; intros s Hf; [unfold turns in Hf; lia|]. cbn [wait_loop].
  apply wp_bind, wp_gets. destruct (p (conn s.1)); [by apply ends_ret, _|].
  apply ends_turn; [apply ends_throw, _|]. intros s1 H1. apply ends_drive_then. intros s2 H2.
  apply IH. lia.
Qed.
Lemma ends_wait_until p text : ends later (wait_until p text).
Proof. intros s. by apply ends_wait_loop. Qed.

Lemma ends_find_validated fuel a s : (events_left (conn s.1) < fuel)%nat ->
  wp (find_validated fuel a) s (fun _ s' => later s s').
Proof.
  revert s. induction fuel as [|fuel IH]; intros s Hf; [lia|]. cbn [find_validated].
  eapply (ends_bind_wp _ _ _ _ (fun e s' => e <> None ->
    (events_left (conn s'.1) < events_left (conn s.1))%nat)).
  { destruct s as [d h]. unfold wp, on_conn, call. cbn.
    pose proof (path_event_left (conn d)) as He. by destruct (q_path_event_next (conn d)). }
  intros [[local peer|]|] s1 _ H1; [|apply IH|by apply ends_ret, _].
  - case_bool_decide; [by apply ends_ret, _|]. apply IH. specialize (H1 ltac:(done)). lia.
  - specialize (H1 ltac:(done)). lia.
Qed.

Lemma ends_validated_loop fuel a s : (turns s <= fuel)%nat ->
  wp (validated_loop fuel a) s (fun _ s' => later s s').
Proof.
  revert s. induction fuel as [|fuel IH]; intros s Hf; [unfold turns in Hf; lia|]. cbn [validated_loop].
  apply ends_turn; [apply ends_throw, _|]. intros s1 H1.
  eapply (ends_bind_wp _ _ _ _ (fun _ s' => turns s' <= turns s1)%nat).
  { eapply wp_mono; [apply ends_find_validated; lia|]. intros r s' H. split; [done|]. destruct r; [|done].
    destruct H as [Hd Hc]. unfold turns. rewrite Hd. apply le_n_S, Hc. }
  intros [] s2 _ H2; [by apply ends_ret, _|]. apply ends_drive_then. intros s3 H3. apply IH. lia.
Qed.
Lemma ends_wait_path a : ends later (wait_path_validated a).
Proof. intros s. by apply ends_validated_loop. Qed.

Lemma ends_read_stream fuel id acc s : (reads_left (conn s.1) < fuel)%nat ->
  wp (read_stream fuel id acc) s (fun _ s' => later s s').
Proof.
  revert acc s. induction fuel as [|fuel IH]; intros acc s Hf; [lia|]. cbn [read_stream].
  eapply (ends_bind_wp _ _ _ _ (fun r s' => match r with
    | Ok (n, _) => (reads_left (conn s'.1) < reads_left (conn s.1))%nat /\ 0 <= n <= slen (buf s'.1)
    | _ => True end)).
  { eapply wp_mono; [apply wp_conn_stream_recv|]. by intros [[[n fin]|e]|e] s' [H1 H2]. }
  intros [[n fin]|e] s1 _ H1; [|by apply ends_ret, _]. apply ends_field_prefix; [apply H1|].
  intros d. apply IH. lia.
Qed.
Lemma ends_read_streams ids acc : ends later (read_streams ids acc).
Proof.
  revert acc. induction ids as [|id ids IH]; intros acc; cbn [read_streams]; [apply ends_ret, _|].
  apply ends_bind; [apply _| |apply IH]. intros s. apply ends_read_stream. lia.
Qed.
#[local] Hint Resolve ends_wait_until ends_wait_path ends_read_streams : ends.

Lemma ends_echo_loop fuel d s : (turns s <= fuel)%nat ->
  wp (echo_loop fuel d) s (fun _ s' => later s s').
Proof.
  revert d s. induction fuel as [|fuel IH]; intros d s Hf; [unfold turns in Hf; lia|]. cbn [echo_loop].
  apply ends_turn; [apply ends_throw, _|]. intros s1 H1. apply wp_bind, wp_gets.
  eapply (ends_bind_wp _ _ _ _ (fun _ s' => turns s' <= turns s1)%nat).
  { eapply wp_mono; [apply ends_read_streams|]. intros r s' H. split; [done|]. destruct r; [|done].
    destruct H as [Hd Hc]. unfold turns. rewrite Hd. apply le_n_S, Hc. }
  intros [received []] s2 _ H2; [by apply ends_ret, _|]. apply ends_drive_then. intros s3 H3.
  apply IH. lia.
Qed.
Lemma ends_read_echo : ends later read_echo.
Proof. intros s. by apply ends_echo_loop. Qed.
#[local] Hint Resolve ends_read_echo : ends.

Lemma ends_with_driver {A} server config (body : M dst A) :
  ends later body -> ends earlier (with_driver server config body).
Proof.
  intros Hb. unfold with_driver. ends_auto. intros h0. unfold wp, run_with.
  match goal with |- context [body (?d, h0)] => pose proof (Hb (d, h0)) as H end. unfold wp in H.
  destruct (body _) as [x [d' h']|e [d' h']| |]; try done; apply H.
Qed.
#[local] Hint Resolve ends_with_driver : ends.

Lemma ends_close_connection : ends later close_connection.
Proof. unfold close_connection. ends_auto. Qed.
Lemma ends_send_payload what payload : ends later (send_payload what payload).
Proof. unfold send_payload. ends_auto. Qed.
#[local] Hint Resolve ends_close_connection ends_send_payload : ends.
Lemma ends_fetch_session server path : ends earlier (fetch_session server path).
Proof.
  unfold fetch_session. apply ends_bind; [apply _|apply ends_client_config|]. intros config.
  apply ends_with_driver. unfold fetch_body. ends_auto.
Qed.
#[local] Hint Resolve ends_fetch_session : ends.

Lemma ends_early_data_body session payload : ends later (early_data_body session payload).
Proof. unfold early_data_body. ends_auto. Qed.
Lemma ends_migrate_body server payload : ends later (migrate_body server payload).
Proof. unfold migrate_body. ends_auto. Qed.
#[local] Hint Resolve ends_early_data_body ends_migrate_body : ends.
Lemma ends_early_data server path payload : ends earlier (client_early_data_roundtrip server path payload).
Proof. unfold client_early_data_roundtrip. ends_auto. Qed.
Lemma ends_migrate server path payload : ends earlier (client_migrate_roundtrip server path payload).
Proof. unfold client_migrate_roundtrip. ends_auto. Qed.
End raw.

(** ** The calls that quiche gets

    quiche with a log of the calls that change a connection. The programs cannot see it. *)

Inductive qevent :=
| Sent (info : SendInfo)
| Processed
| Ticked
| SessionSet
| NewScid
| Probed (local peer : SocketAddr)
| PathEventSeen (e : PathEvent)
| Migrated (local peer : SocketAddr)
| ReadData (id : Z) (d : bytes) (fin : bool)
| Wrote (id : Z) (d : bytes) (fin : bool)
| Closed.

Section log.
Context {q : Quiche}.
Notation lconn := (qconn * list qevent)%type.

(** A call that is logged when it succeeds. *)
Definition note {A B} (c : lconn) (r : qconn * A) (ok : A -> option B) (e : B -> qevent) : lconn * A :=
  ((r.1, c.2 ++ match ok r.2 with Some b => [e b] | None => [] end), r.2).
Definition success {E A} (r : result E A) : option A := match r with Ok a => Some a | Err _ => None end.

Definition logged : Quiche := {|
  qconfig := qconfig;
  qconn := lconn;
  q_show := q_show;
  q_config_new := q_config_new;
  q_set := q_set;
  q_set_application_protos := q_set_application_protos;
  q_load_verify_locations_from_file := q_load_verify_locations_from_file;
  q_connect name scid local peer config :=
    match q_connect name scid local peer config with Ok c => Ok (c, []) | Err e => Err e end;
  q_send b c := note c (q_send b c.1) (fun r => success r.2) (fun x => Sent x.2);
  q_recv b info c := note c (q_recv b info c.1) Some (fun _ => Processed);
  q_on_timeout c := (q_on_timeout c.1, c.2 ++ [Ticked]);
  q_is_established c := q_is_established c.1;
  q_available_dcids c := q_available_dcids c.1;
  q_session c := q_session c.1;
  q_set_session b c := note c (q_set_session b c.1) success (fun _ => SessionSet);
  q_new_scid id token b c := note c (q_new_scid id token b c.1) success (fun _ => NewScid);
  q_probe_path l r c := note c (q_probe_path l r c.1) success (fun _ => Probed l r);
  q_migrate l r c := note c (q_migrate l r c.1) success (fun _ => Migrated l r);
  q_path_event_next c := note c (q_path_event_next c.1) id PathEventSeen;
  q_readable c := q_readable c.1;
  q_stream_recv id b c := note c (q_stream_recv id b c.1)
    (fun r => match r with
              | (b, Ok (n, fin)) => Some (take (Z.to_nat n) b, fin)
              | _ => None end)
    (fun x => ReadData id x.1 x.2);
  q_stream_send id b fin c := note c (q_stream_send id b fin c.1) success (fun _ => Wrote id b fin);
  q_close app code reason c := note c (q_close app code reason c.1) success (fun _ => Closed);
  q_is_resumed c := q_is_resumed c.1;
  q_is_in_early_data c := q_is_in_early_data c.1;
  q_is_draining c := q_is_draining c.1;
  q_is_closed c := q_is_closed c.1;
  q_is_timed_out c := q_is_timed_out c.1 |}.

Context {os : Host} {bud : Budget}.

Definition logged_budget : @Budget logged os.
Proof.
  refine (@Build_Budget logged os (fun c => packets_left c.1) (fun c => events_left c.1)
    (fun c => reads_left c.1) clock_left _ _ _ now_left); cbn.
  - intros b [c l]. pose proof (send_left b c). cbn. by destruct (q_send b c) as [c' [b' []]].
  - intros [c l]. pose proof (path_event_left c). cbn. by destruct (q_path_event_next c).
  - intros id b [c l]. pose proof (stream_recv_left id b c). cbn.
    by destruct (q_stream_recv id b c) as [c' [b' []]].
Defined.
#[local] Existing Instances logged logged_budget | 0.
Notation dst := (@ClientDriver logged os * host)%type.

(** What [m] adds to the log. *)
Definition adds {A} (P : result Error A -> list qevent -> Prop) (m : M dst A) : Prop :=
  forall s, wlp m s (fun r s' => exists l, (conn s'.1).2 = (conn s.1).2 ++ l /\ P r l).

Lemma adds_mono {A} (P Q : result Error A -> list qevent -> Prop) m :
  adds P m -> (forall r l, P r l -> Q r l) -> adds Q m.
Proof. intros Hm HPQ s. eapply wlp_mono; [apply Hm|]. intros r s' (l & Hl & HP). eauto. Qed.

Lemma adds_bind {A B} P (Q : A -> result Error B -> list qevent -> Prop) (m : M dst A) (f : A -> M dst B) :
  adds P m -> (forall a, adds (Q a) (f a)) ->
  adds (fun r l => match r with
    | Err e => P (Err e) l \/ exists a l1 l2, l = l1 ++ l2 /\ P (Ok a) l1 /\ Q a (Err e) l2
    | Ok b => exists a l1 l2, l = l1 ++ l2 /\ P (Ok a) l1 /\ Q a (Ok b) l2
    end) (m ≫= f).
Proof.
  intros Hm Hf s. apply wlp_bind. eapply wlp_mono; [apply Hm|]. intros [a|e] s1 (l1 & H1 & HP).
  - eapply wlp_mono; [apply Hf|]. intros r s2 (l2 & H2 & HQ). exists (l1 ++ l2).
    rewrite H2, H1, app_assoc. split; [done|]. destruct r; [|right]; eauto 10.
  - exists l1. eauto.
Qed.

Lemma adds_nil {A} (P : result Error A -> list qevent -> Prop) (m : M dst A) :
  (forall s, wlp m s (fun r s' => (conn s'.1).2 = (conn s.1).2 /\ P r [])) -> adds P m.
Proof.
  intros Hm s. eapply wlp_mono; [apply Hm|]. intros r s' [H HP]. exists []. by rewrite app_nil_r.
Qed.

(** No stream data goes either way. *)
Definition quiet_event (e : qevent) : Prop :=
  match e with ReadData _ _ _ | Wrote _ _ _ => False | _ => True end.
Definition quiet {A} (m : M dst A) : Prop := adds (fun _ l => Forall quiet_event l) m.

Lemma quiet_bind {A B} (m : M dst A) (f : A -> M dst B) :
  quiet m -> (forall a, quiet (f a)) -> quiet (m ≫= f).
Proof.
  intros Hm Hf. eapply adds_mono; [apply (adds_bind _ _ m f Hm Hf)|].
  intros [b|e] l; [|intros [H|(a & l1 & l2 & -> & H1 & H2)]; [done|by apply Forall_app_2]].
  intros (a & l1 & l2 & -> & H1 & H2). by apply Forall_app_2.
Qed.
Lemma quiet_ret {A} (a : A) : quiet (mret a).
Proof. apply adds_nil. by intros s. Qed.
Lemma quiet_throw {A} e : quiet (throw e : M dst A).
Proof. apply adds_nil. by intros s. Qed.
Lemma quiet_diverge {A} : quiet (diverge : M dst A).
Proof. by intros s. Qed.
Lemma quiet_field {A} (f : ClientDriver -> A) : quiet (field f).
Proof. apply adds_nil. by intros s. Qed.
Lemma quiet_set_driver f : (forall d, conn (f d) = conn d) -> quiet (set_driver f).
Proof. intros H. apply adds_nil. intros s. unfold wlp, set_driver, modify. cbn. by rewrite H. Qed.
Lemma quiet_on_host {A} (m : M host A) : quiet (on_host m).
Proof. apply adds_nil. intros s. apply wlp_zoom. unfold wlp. by destruct (m s.2). Qed.
Lemma quiet_expect {A} (o : option A) : quiet (expect o).
Proof. apply adds_nil. intros s. by destruct o. Qed.
Lemma quiet_or_fail {A} what (r : result string A) : quiet (or_fail what r).
Proof. destruct r; [apply quiet_ret|apply quiet_throw]. Qed.
Lemma quiet_or_fail_q {A} what (r : result QError A) : quiet (or_fail_q what r).
Proof. destruct r; [apply quiet_ret|apply quiet_throw]. Qed.

(** A call that is logged. *)
Lemma adds_note {A B} (f : @qconn q -> @qconn q * A) (ok : A -> option B) e P :
  (forall r, P (Ok r) match ok r with Some b => [e b] | None => [] end) ->
  adds P (on_conn (fun c => note c (f c.1) ok e)).
Proof.
  intros HP s. unfold wlp, on_conn, call. cbn. eexists. split; [reflexivity|]. apply HP.
Qed.
Lemma quiet_note {A B} (f : @qconn q -> @qconn q * A) (ok : A -> option B) e :
  (forall b, quiet_event (e b)) -> quiet (on_conn (fun c => note c (f c.1) ok e)).
Proof. intros He. apply adds_note. intros r. destruct (ok r); by repeat constructor. Qed.

Create HintDb quiet.
#[local] Hint Resolve quiet_ret quiet_throw quiet_diverge quiet_field quiet_set_driver quiet_on_host
  quiet_expect quiet_or_fail quiet_or_fail_q : quiet.
Ltac quiet_auto :=
  repeat first
    [ solve [eauto with quiet]
    | match goal with |- forall _, _ => intro end
    | match goal with |- quiet (match ?x with _ => _ end) => destruct x end
    | match goal with |- quiet (let '(_, _) := ?x in _) => destruct x end
    | apply quiet_bind ].

Lemma quiet_conn_send : quiet conn_send.
Proof.
  unfold conn_send. quiet_auto.
  by apply (quiet_note (q_send _) (fun r => success r.2) (fun x => Sent x.2)).
Qed.
#[local] Hint Resolve quiet_conn_send : quiet.
Lemma quiet_send_loop fuel : quiet (send_loop fuel).
Proof. induction fuel; cbn [send_loop]; unfold prefix; quiet_auto. Qed.
Lemma quiet_send_pending : quiet send_pending.
Proof. intros s. apply quiet_send_loop. Qed.
Lemma quiet_recv_any addrs : quiet (recv_any addrs).
Proof.
  induction addrs; cbn [recv_any]; unfold prefix; quiet_auto.
  by apply (quiet_note (q_recv _ _) Some (fun _ => Processed)).
Qed.
#[local] Hint Resolve quiet_send_pending quiet_recv_any : quiet.
Lemma quiet_drive : quiet drive.
Proof.
  unfold drive, recv_once. quiet_auto. intros s. unfold wlp, on_conn, call. cbn. eexists.
  split; [reflexivity|]. by repeat constructor.
Qed.
Lemma quiet_timed_out : quiet timed_out.
Proof. unfold timed_out. quiet_auto. Qed.
#[local] Hint Resolve quiet_drive quiet_timed_out : quiet.
Lemma quiet_wait_loop fuel p text : quiet (wait_loop fuel p text).
Proof. induction fuel; cbn [wait_loop]; quiet_auto. Qed.
Lemma quiet_wait_until p text : quiet (wait_until p text).
Proof. intros s. apply quiet_wait_loop. Qed.
Lemma quiet_add_socket socket : quiet (add_socket socket).
Proof. unfold add_socket. quiet_auto. Qed.
Lemma quiet_probe l r : quiet (on_conn (q_probe_path l r)).
Proof. by apply (quiet_note (q_probe_path l r) success (fun _ => Probed l r)). Qed.
Lemma quiet_new_scid id token b : quiet (on_conn (q_new_scid id token b)).
Proof. by apply (quiet_note (q_new_scid id token b) success (fun _ => NewScid)). Qed.
Lemma quiet_set_session b : quiet (on_conn (q_set_session b)).
Proof. by apply (quiet_note (q_set_session b) success (fun _ => SessionSet)). Qed.
Lemma quiet_close_connection : quiet close_connection.
Proof.
  unfold close_connection. quiet_auto.
  by apply (quiet_note (q_close _ _ _) success (fun _ => Closed)).
Qed.
#[local] Hint Resolve quiet_wait_until quiet_add_socket quiet_probe quiet_new_scid quiet_set_session
  quiet_close_connection : quiet.

(** *** What comes in order *)

(** Data was read, and nothing written. *)
Fixpoint data_read (l : list qevent) : bytes :=
  match l with
  | [] => []
  | ReadData _ d _ :: l => d ++ data_read l
  | _ :: l => data_read l
  end.
Definition fin_read (l : list qevent) : bool :=
  existsb (fun e => match e with ReadData _ _ fin => fin | _ => false end) l.
Definition no_write (e : qevent) : Prop := match e with Wrote _ _ _ => False | _ => True end.

Lemma data_read_app l1 l2 : data_read (l1 ++ l2) = data_read l1 ++ data_read l2.
Proof. induction l1 as [|[]]; cbn; rewrite ?IHl1, ?app_assoc; done. Qed.
Lemma fin_read_app l1 l2 : fin_read (l1 ++ l2) = fin_read l1 || fin_read l2.
Proof. apply existsb_app. Qed.
Lemma quiet_no_read l : Forall quiet_event l -> data_read l = [] /\ fin_read l = false /\ Forall no_write l.
Proof.
  unfold fin_read. induction 1 as [|e l He _ (IH1 & IH2 & IH3)]; [done|].
  destruct e; try done; cbn; rewrite IH1, IH2; repeat split; by constructor.
Qed.

Definition log_of (s : dst) : list qevent := (conn s.1).2.

(** From a log with [P], when it returns a value. *)
Definition hoare {A} (P : list qevent -> Prop) (m : M dst A) (Q : A -> list qevent -> Prop) : Prop :=
  forall s, P (log_of s) ->
    wlp m s (fun r s' => match r with Ok a => Q a (log_of s') | Err _ => True end).

Lemma hoare_bind {A B} P Q R (m : M dst A) (f : A -> M dst B) :
  hoare P m Q -> (forall a, hoare (Q a) (f a) R) -> hoare P (m ≫= f) R.
Proof.
  intros Hm Hf s HP. apply wlp_bind. eapply wlp_mono; [by apply Hm|]. intros [a|e] s1 H1; [|done].
  by apply Hf.
Qed.
Lemma hoare_ret {A} P (a : A) : hoare P (mret a) (fun a' l => a' = a /\ P l).
Proof. by intros s HP. Qed.
Lemma hoare_throw {A} P e Q : hoare P (throw e : M dst A) Q.
Proof. by intros s HP. Qed.
Lemma hoare_mono {A} (P P' : list qevent -> Prop) (m : M dst A) (Q Q' : A -> list qevent -> Prop) :
  hoare P m Q -> (forall l, P' l -> P l) -> (forall a l, Q a l -> Q' a l) -> hoare P' m Q'.
Proof.
  intros Hm HP HQ s Hs. eapply wlp_mono; [by apply Hm, HP|]. intros [a|e] s'; [apply HQ|done].
Qed.

(** Quiet calls change nothing that they do not show. *)
Definition closed (P : list qevent -> Prop) : Prop :=
  forall l l', Forall quiet_event l' -> P l -> P (l ++ l').
Lemma hoare_quiet {A} P (m : M dst A) : closed P -> quiet m -> hoare P m (fun _ => P).
Proof.
  intros HP Hm s Hs. eapply wlp_mono; [apply Hm|]. intros [a|e] s' (l & Hl & Hq); [|done].
  unfold log_of. rewrite Hl. by apply HP.
Qed.
Lemma hoare_note {A B} (f : @qconn q -> @qconn q * A) (ok : A -> option B) e P (Q : A -> list qevent -> Prop) :
  (forall r l, P l -> Q r (l ++ match ok r with Some b => [e b] | None => [] end)) ->
  hoare P (on_conn (fun c => note c (f c.1) ok e)) Q.
Proof. intros H s Hs. unfold wlp, on_conn, call. cbn. by apply H. Qed.
Lemma hoare_or_fail_q {A} P what (r : result QError A) (Q : A -> list qevent -> Prop) :
  (forall a l, r = Ok a -> P l -> Q a l) -> hoare P (or_fail_q what r) Q.
Proof. intros H s Hs. destruct r; [|done]. by apply H. Qed.

(** *** The order of a migration *)

Definition silent (l : list qevent) : Prop := Forall quiet_event l.
Definition validated (local : SocketAddr) (l : list qevent) : Prop :=
  silent l /\ exists peer, PathEventSeen (Validated local peer) ∈ l.
Definition migrated (server_addr : SocketAddr) (l : list qevent) : Prop :=
  exists local l1 l2, l = l1 ++ Migrated local server_addr :: l2 /\ validated local l1 /\ silent l2.

Lemma silent_closed : closed silent.
Proof. intros l l' Hl' Hl. by apply Forall_app_2. Qed.
Lemma validated_closed local : closed (validated local).
Proof. intros l l' Hl' [Hl [peer Hp]]. split; [by apply Forall_app_2|]. exists peer. apply elem_of_app. by left. Qed.
Lemma migrated_closed server : closed (migrated server).
Proof.
  intros l l' Hl' (local & l1 & l2 & -> & H1 & H2). exists local, l1, (l2 ++ l'). rewrite <- app_assoc.
  split; [done|]. split; [done|]. by apply Forall_app_2.
Qed.

Lemma hoare_find_validated fuel local :
  hoare silent (find_validated fuel local) (fun b l => if b : bool then validated local l else silent l).
Proof.
  induction fuel as [|fuel IH]; cbn [find_validated]; [by intros s _|].
  eapply (hoare_bind _ (fun e l => silent l /\ match e with Some e => PathEventSeen e ∈ l | None => True end)).
  - apply (hoare_note q_path_event_next id PathEventSeen). intros [e|] l Hl; cbn.
    + split; [by apply Forall_app_2; [|repeat constructor]|]. apply elem_of_app. right. left.
    + by rewrite app_nil_r.
  - intros [[a peer|]|]; [case_bool_decide|..].
    + subst. intros s [H1 H2]. cbn. split; [done|]. by exists peer.
    + by eapply hoare_mono; [apply IH|intros l []|].
    + by eapply hoare_mono; [apply IH|intros l []|].
    + by intros s [].
Qed.

Lemma hoare_validated_loop fuel local :
  hoare silent (validated_loop fuel local) (fun _ => validated local).
Proof.
  induction fuel as [|fuel IH]; cbn [validated_loop]; [by intros s _|].
  eapply hoare_bind; [apply hoare_quiet, quiet_timed_out; apply silent_closed|]. intros [].
  { apply hoare_throw. }
  eapply (hoare_bind _ (fun b l => if b : bool then validated local l else silent l)).
  { intros s. apply hoare_find_validated. }
  intros []; [by intros s|]. eapply hoare_bind; [|intros; apply IH].
  apply hoare_quiet, quiet_drive. apply silent_closed.
Qed.

(** *** What is read *)

(** From a log [l0] on only reading and calls without data *)
Definition has_read (l0 : list qevent) (d : bytes) (fin : bool) (l : list qevent) : Prop :=
  exists l', l = l0 ++ l' /\ Forall no_write l' /\ data_read l' = d /\ fin_read l' = fin.

Lemma has_read_closed l0 d fin : closed (has_read l0 d fin).
Proof.
  intros l l2 Hq (l' & -> & Hw & Hd & Hf). destruct (quiet_no_read _ Hq) as (H1 & H2 & H3).
  exists (l' ++ l2). rewrite <- app_assoc, data_read_app, fin_read_app, H1, H2, app_nil_r, orb_false_r.
  split; [done|]. split; [by apply Forall_app_2|done].
Qed.

Lemma hoare_read_stream l0 fuel id acc :
  hoare (has_read l0 acc.1 acc.2) (read_stream fuel id acc) (fun r => has_read l0 r.1 r.2).
Proof.
  revert acc. induction fuel as [|fuel IH]; intros acc; cbn [read_stream]; [by intros s _|].
  intros [dr h] Hs. unfold conn_stream_recv, wlp, mbind, M_bind, field, gets, on_conn, call. cbn.
  destruct (q_stream_recv id (buf dr) (conn dr).1) as [c [b [[n fin]|e]]]; cbn.
  - unfold prefix, expect, slice. destruct (_ && _ && _) eqn:Hn; [|done]. cbn. rewrite Z.sub_0_r, drop_0.
    apply (IH (acc.1 ++ take (Z.to_nat n) b, acc.2 || fin) (_, h)). cbn.
    destruct Hs as (l' & Hl & Hw & Hd & Hf). unfold log_of in *. cbn in *. rewrite Hl.
    exists (l' ++ [ReadData id (take (Z.to_nat n) b) fin]). rewrite <- app_assoc, data_read_app, fin_read_app, Hd, Hf.
    split; [done|]. split; [by apply Forall_app_2; [|repeat constructor]|].
    cbn. by rewrite app_nil_r, orb_false_r.
  - unfold log_of in *. cbn in *. by rewrite app_nil_r.
Qed.

Lemma hoare_read_streams l0 ids acc :
  hoare (has_read l0 acc.1 acc.2) (read_streams ids acc) (fun r => has_read l0 r.1 r.2).
Proof.
  revert acc. induction ids as [|id ids IH]; intros acc; cbn [read_streams].
  { by intros s Hs. }
  eapply (hoare_bind _ (fun r => has_read l0 r.1 r.2)); [intros s; apply hoare_read_stream|]. intros r. apply IH.
Qed.

Lemma hoare_echo_loop l0 fuel d :
  hoare (has_read l0 d false) (echo_loop fuel d) (fun r => has_read l0 r true).
Proof.
  revert d. induction fuel as [|fuel IH]; intros d; cbn [echo_loop]; [by intros s _|].
  eapply hoare_bind; [apply hoare_quiet, quiet_timed_out; apply has_read_closed|]. intros [].
  { apply hoare_throw. }
  eapply (hoare_bind _ (fun _ => has_read l0 d false)); [by intros s|]. intros c.
  eapply hoare_bind; [apply (hoare_read_streams l0 _ (d, false))|]. intros [r []]; cbn.
  { by intros s. }
  eapply hoare_bind; [|intros; apply IH]. apply hoare_quiet, quiet_drive. apply has_read_closed.
Qed.
Lemma hoare_read_echo l0 : hoare (fun l => l = l0) read_echo (fun r => has_read l0 r true).
Proof.
  intros s Hs. apply hoare_echo_loop. exists []. by rewrite app_nil_r.
Qed.

(** *** The two clients *)

(** The payload was written after [l1], with the FIN, nothing else was written, and the
    data that was read since up to a FIN is [echoed]. *)
Definition echoed_after (l1 : list qevent) (payload echoed : bytes) (l : list qevent) : Prop :=
  exists l2, l = l1 ++ Wrote 0 payload true :: l2 /\ Forall no_write l2 /\
    data_read l2 = echoed /\ fin_read l2 = true.

Lemma hoare_send_payload what payload l0 :
  hoare (fun l => l = l0) (send_payload what payload) (fun _ l => l = l0 ++ [Wrote 0 payload true]).
Proof.
  unfold send_payload.
  eapply (hoare_bind _ (fun r l => forall n, r = Ok n -> l = l0 ++ [Wrote 0 payload true])).
  { apply (hoare_note (q_stream_send 0 payload true) success (fun _ => Wrote 0 payload true)).
    intros r l -> n ->. done. }
  intros r. eapply (hoare_bind _ (fun _ l => l = l0 ++ [Wrote 0 payload true])); [|by intros ? s].
  apply hoare_or_fail_q. intros n l -> H. by apply (H n).
Qed.

Lemma echoed_after_read l1 payload echoed l :
  has_read (l1 ++ [Wrote 0 payload true]) echoed true l -> echoed_after l1 payload echoed l.
Proof. intros (l' & -> & H). exists l'. rewrite <- app_assoc. by destruct H as (? & ? & ?). Qed.

Lemma quiet_connects p text : hoare silent (wait_until p text) (fun _ => silent).
Proof. apply hoare_quiet, quiet_wait_until. apply silent_closed. Qed.

Lemma quiet_call_host {A} (f : host -> host * A) : quiet (on_host (call f)).
Proof. apply quiet_on_host. Qed.

(** Up to the new path: no stream data goes either way. *)
Lemma hoare_migrate server payload :
  hoare (fun l => l = []) (migrate_body server payload)
    (fun echoed l => exists l1, migrated server l1 /\ echoed_after l1 payload echoed l).
Proof.
  unfold migrate_body.
  assert (forall A (m : M dst A), quiet m -> hoare silent m (fun _ => silent)) as Hq.
  { intros A m Hm. apply hoare_quiet, Hm. apply silent_closed. }
  eapply (hoare_mono silent _ _ _ _); [|by intros l ->; constructor|intros a l H; exact H].
  do 14 (eapply hoare_bind; [apply Hq; eauto with quiet|intros ?]).
  match goal with |- hoare _ (_ ← wait_path_validated ?x; _) _ => rename x into local end.
  eapply (hoare_bind _ (fun _ => validated local)); [intros s; apply hoare_validated_loop|intros _].
  eapply (hoare_bind _ (fun r l => forall n, r = Ok n -> migrated server l)).
  { apply (hoare_note (q_migrate local server) success (fun _ => Migrated local server)).
    intros r l Hl n ->. exists local, l, []. split; [done|]. split; [done|constructor]. }
  intros r. eapply (hoare_bind _ (fun _ => migrated server)).
  { apply hoare_or_fail_q. intros n l -> H. by apply (H n). }
  intros ?. eapply hoare_bind; [apply hoare_quiet, quiet_send_pending; apply migrated_closed|intros ?].
  intros s Hl. set (l0 := log_of s) in *.
  match goal with |- wlp ?m _ _ =>
    assert (hoare (fun l => l = l0) m (echoed_after l0 payload)) as H end.
  2:{ eapply wlp_mono; [by apply H|]. intros [echoed|e] s' H'; [by exists l0|done]. }
  eapply hoare_bind; [apply hoare_send_payload|intros ?].
  eapply hoare_bind; [apply hoare_read_echo|intros echoed].
  eapply hoare_bind; [apply hoare_quiet, quiet_close_connection; apply has_read_closed|intros ?].
  intros s' Hs'. by apply echoed_after_read.
Qed.

Lemma hoare_early_data session payload :
  hoare (fun l => l = []) (early_data_body session payload)
    (fun echoed => echoed_after [SessionSet] payload echoed).
Proof.
  unfold early_data_body.
  eapply (hoare_bind _ (fun r l => forall n, r = Ok n -> l = [SessionSet])).
  { apply (hoare_note (q_set_session session) success (fun _ => SessionSet)). by intros r l -> n ->. }
  intros r. eapply (hoare_bind _ (fun _ l => l = [SessionSet])).
  { apply hoare_or_fail_q. intros n l -> H. by apply (H n). }
  intros ?. eapply hoare_bind; [apply hoare_send_payload|intros ?].
  set (l1 := [SessionSet] ++ [Wrote 0 payload true]).
  eapply (hoare_bind _ (fun _ => has_read l1 [] false)).
  { eapply hoare_mono; [apply (hoare_quiet (has_read l1 [] false)); [apply has_read_closed|]| |].
    - apply quiet_send_pending.
    - intros l ->. exists []. by rewrite app_nil_r.
    - done. }
  intros ?. eapply (hoare_bind _ (fun r => has_read l1 r true)); [intros s; apply hoare_echo_loop|].
  intros echoed. eapply (hoare_bind _ (fun _ => has_read l1 echoed true)); [by intros s|]. intros c.
  destruct (negb _); [apply hoare_throw|]. intros s Hs. by apply echoed_after_read.
Qed.

#[export] Instance logged_doc {doc : @QuicheDoc q os bud} : @QuicheDoc logged os logged_budget.
Proof.
  destruct doc as [H1 H2 H3 H4 H5 H6 H7]. constructor; [exact H1|exact H2|..|exact H5|exact H6|exact H7]; cbn.
  - intros b c. specialize (H3 b (fst c)). by destruct (@q_send q b (fst c)) as [c' [b' []]].
  - intros id b c. specialize (H4 id b (fst c)).
    by destruct (@q_stream_recv q id b (fst c)) as [c' [b' []]].
Qed.

(** ** Properties *)

(** The clients of the driver always return: whatever quiche, the server and the sockets
    do, no index is out of range, and each loop is over once quiche has nothing more to
    give or the clock is past the deadline. *)
Theorem quiche_clients_end {doc : @QuicheDoc q os bud} (server_addr : SocketAddr)
    (ca_cert_path : string) (payload : bytes) (h : host) :
  wp (@client_early_data_roundtrip q os bud server_addr ca_cert_path payload) h (fun _ _ => True) /\
  wp (@client_migrate_roundtrip q os bud server_addr ca_cert_path payload) h (fun _ _ => True).
Proof.
  split; (eapply wp_mono; [first [apply ends_early_data|apply ends_migrate]|done]).
Qed.

(** C30: the order of the two scenarios of the driver, on any quiche, for a connection just made. When the
    client returns an echo, it wrote its payload once and read all of the echo, up to a
    FIN, after that: in a migration after the new path was validated and the connection
    had moved there, with no stream data before; with early data right after the session
    was set, before any packet was sent. *)
Theorem quiche_clients_in_order {doc : @QuicheDoc q os bud} (server_addr : SocketAddr)
    (session payload : bytes) (s : dst) (Hnew : log_of s = []) :
  wp (migrate_body server_addr payload) s (fun r s' => forall echoed, r = Ok echoed ->
    exists l1, migrated server_addr l1 /\ echoed_after l1 payload echoed (log_of s')) /\
  wp (early_data_body session payload) s (fun r s' => forall echoed, r = Ok echoed ->
    echoed_after [SessionSet] payload echoed (log_of s')).
Proof.
  assert (forall A (m : M dst A) P Q, ends later m -> hoare P m Q -> P (log_of s) ->
    wp m s (fun r s' => forall a, r = Ok a -> Q a (log_of s'))) as H.
  { intros A m P Q Hm HQ HP. eapply wp_mono; [by apply wp_wlp; [apply Hm|apply HQ]|].
    by intros r s' [_ Hr] a ->. }
  split.
  - exact (H _ _ _ _ (ends_migrate_body _ _) (hoare_migrate _ _) Hnew).
  - exact (H _ _ _ _ (ends_early_data_body _ _) (hoare_early_data _ _) Hnew).
Qed.
End log.

(** ** Witnesses *)

(** A quiche whose handshake is over, that resumes, validates each path that is probed,
    and echoes what is written in one piece once a packet was processed; its socket
    always has a datagram, and the clock ticks each ten seconds. *)
Record toy_qconn := mkToyQ { tq_packets : nat; tq_path : option PathEvent; tq_echo : option bytes }.

#[local] Instance toy_quiche : Quiche := {|
  qconfig := unit;
  qconn := toy_qconn;
  q_show _ := "error";
  q_config_new := Ok tt;
  q_set _ c := c;
  q_set_application_protos _ c := Ok c;
  q_load_verify_locations_from_file _ c := Ok c;
  q_connect _ _ _ _ _ := Ok (mkToyQ 1 None None);
  q_send b c := match tq_packets c with
    | S n => (mkToyQ n (tq_path c) (tq_echo c), ([1; 2], Ok (2, mkSendInfo (SockV4 [127; 0; 0; 1] 1) (SockV4 [127; 0; 0; 1] 2))))
    | O => (c, (b, Err QDone))
    end;
  q_recv b _ c := (c, Ok (slen b));
  q_on_timeout c := c;
  q_is_established _ := true;
  q_available_dcids _ := 1;
  q_session _ := Some [9];
  q_set_session _ c := (c, Ok tt);
  q_new_scid _ _ _ c := (c, Ok 1);
  q_probe_path l r c := (mkToyQ (tq_packets c) (Some (Validated l r)) (tq_echo c), Ok 1);
  q_migrate _ _ c := (c, Ok 1);
  q_path_event_next c := (mkToyQ (tq_packets c) None (tq_echo c), tq_path c);
  q_readable c := match tq_echo c with Some _ => [0] | None => [] end;
  q_stream_recv _ b c := match tq_echo c with
    | Some d => (mkToyQ (tq_packets c) (tq_path c) None, (d, Ok (slen d, true)))
    | None => (c, (b, Err QDone))
    end;
  q_stream_send _ b _ c := (mkToyQ (S (tq_packets c)) (tq_path c) (Some b), Ok (slen b));
  q_close _ _ _ c := (c, Ok tt);
  q_is_resumed _ := true;
  q_is_in_early_data _ := false;
  q_is_draining _ := false;
  q_is_closed _ := false;
  q_is_timed_out _ := false |}.

#[local] Instance toy_q_host : Host := {|
  host := nat;
  usock := unit;
  h_bind _ h := (h, Ok tt);
  h_set_read_timeout _ _ h := (h, Ok tt);
  h_local_addr _ h := (h, Ok (SockV4 [127; 0; 0; 1] 1));
  h_send_to _ b _ h := (h, Ok (slen b));
  h_recv_from _ b h := (h, (b, Ok (1 `min` slen b, SockV4 [127; 0; 0; 1] 2)));
  h_now h := (S h, Z.of_nat h * 10000000000);
  h_fill n h := (h, Ok (repeat 7 n));
  h_show_addr _ := "addr";
  h_keys m := (map_to_list m).*1 |}.

#[local] Instance toy_q_budget : Budget.
Proof.
  refine (@Build_Budget toy_quiche toy_q_host tq_packets
    (fun c => match tq_path c with Some _ => 1%nat | None => 0%nat end)
    (fun c => match tq_echo c with Some _ => 1%nat | None => 0%nat end)
    (fun d h => Z.to_nat (d / 10000000000 + 1 - Z.of_nat h)) _ _ _ _); cbn.
  - intros b c. destruct (tq_packets c); cbn; [done|lia].
  - intros c. destruct (tq_path c); cbn; [lia|done].
  - intros id b c. destruct (tq_echo c); cbn; [lia|done].
  - intros d h. lia.
Defined.

#[local] Instance toy_q_doc : QuicheDoc.
Proof.
  constructor; cbn.
  - by exists tt.
  - intros c _. by exists c.
  - intros b c. destruct (tq_packets c); cbn; [done|done].
  - intros id b c. pose proof (slen_nonneg (default [] (tq_echo c))). destruct (tq_echo c); cbn in *; [lia|done].
  - intros s b h. pose proof (slen_nonneg b). lia.
  - intros d h h' H. by repeat destruct H as [H|H]; decompose [ex] H; subst.
  - done.
Qed.

Definition toy_driver : @ClientDriver logged toy_q_host :=
  @mkDriver logged toy_q_host (mkToyQ 1 None None, []) {[SockV4 [127; 0; 0; 1] 1 := tt]}
    (repeat 0 8) (repeat 0 8) QUICHE_TIMEOUT.
Definition toy_server : SocketAddr := SockV4 [127; 0; 0; 1] 2.

Lemma quiche_clients_end_witness :
  (exists h, @client_migrate_roundtrip toy_quiche toy_q_host toy_q_budget toy_server "ca.pem" [5; 6] 0%nat = Done [5; 6] h) /\
  wp (@client_migrate_roundtrip toy_quiche toy_q_host toy_q_budget toy_server "ca.pem" [5; 6]) 0%nat (fun _ _ => True).
Proof.
  split; [eexists; vm_compute; reflexivity|].
  apply (@quiche_clients_end toy_quiche toy_q_host toy_q_budget toy_q_doc toy_server "ca.pem" [5; 6] 0%nat).
Defined.

Lemma quiche_clients_in_order_witness :
  wp (@migrate_body logged toy_q_host logged_budget toy_server [5; 6]) (toy_driver, 0%nat) (fun r s' =>
    r = Ok [5; 6] /\ exists l1, migrated toy_server l1 /\ echoed_after l1 [5; 6] [5; 6] (log_of s')).
Proof.
  assert (forall A (m : M (@ClientDriver logged toy_q_host * nat) A) a P s,
    match m s with Done a' _ => a' = a | _ => False end ->
    wp m s (fun r s' => forall x, r = Ok x -> P x s') ->
    wp m s (fun r s' => r = Ok a /\ P a s')) as H.
  { intros A m a P s Hm Hp. unfold wp in *. destruct (m s); try done. subst a0. by split; [|apply Hp]. }
  refine (H _ _ [5; 6] (fun echoed s' =>
    exists l1, migrated toy_server l1 /\ echoed_after l1 [5; 6] echoed (log_of s')) _ _ _).
  - vm_compute. reflexivity.
  - exact (proj1 (@quiche_clients_in_order toy_quiche toy_q_host toy_q_budget toy_q_doc toy_server [9] [5; 6]
      (toy_driver, 0%nat) eq_refl)).
Defined.
End Quiche.
