(* ===== verification/QuicheApps.v ===== *)
(** * The applications on tokio-quiche, and the command line
      (src/interop/quiche-driver/src/tokio_quiche_driver.rs, bin/quiche_driver.rs)

    The echo client and the echo server that run as callbacks of a worker of
    tokio-quiche, and the program that starts them. The worker is a parameter: it calls
    the application in any order, and the connection may be another one at each call. *)
From stdpp Require Import pretty.
From S2P Require Import Prelude Types Errors Effects Quiche.
Import Types Errors Effects Quiche.

Module QuicheApps.

(** ** tokio-quiche *)

(** The fields of [QuicSettings] that the drivers set. *)
Inductive TSetting :=
| TAlpn (l : list bytes)
| TMaxIdleTimeout (o : option Z)
| TMaxRecvUdpPayloadSize (n : Z)
| TMaxSendUdpPayloadSize (n : Z)
| TInitialMaxData (n : Z)
| TInitialMaxStreamDataBidiLocal (n : Z)
| TInitialMaxStreamDataBidiRemote (n : Z)
| TInitialMaxStreamDataUni (n : Z)
| TInitialMaxStreamsBidi (n : Z)
| TInitialMaxStreamsUni (n : Z)
| TDisableClientIpValidation (b : bool)
| TVerifyPeer (b : bool)
| TEnableEarlyData (b : bool)
| TDisableActiveMigration (b : bool).

Record TlsCertificatePaths := mkTlsCertificatePaths { cert : string; private_key : string }.

(** BoringSSL's context builder *)
Class Boring := {
  ssl_builder : Type;
  ssl_new : option ssl_builder;
  ssl_set_ca_file : string -> ssl_builder -> option ssl_builder;
  ssl_set_verify_peer : ssl_builder -> ssl_builder }.

Section hook.
Context {boring : Boring}.

Definition create_custom_ssl_context_builder (settings : TlsCertificatePaths) : option ssl_builder :=
  builder ← ssl_new;
  builder ← ssl_set_ca_file (cert settings) builder;
  Some (ssl_set_verify_peer builder).
End hook.

Section apps.
Context {q : Quiche} {os : Host} {bud : Budget}.

(** [?] on a result of quiche *)
Definition try_q {S A} (r : result QError A) : M S A :=
  match r with Ok a => mret a | Err e => throw (Internal (q_show e)) end.

(** [loop { match qconn.stream_recv(..) { .. } }]: the buffer, the data, and whether a FIN
    came *)
Fixpoint recv_all {S} (get : S -> qconn) (set : qconn -> S -> S) (fuel : nat) (id : Z) (buf : bytes)
    (acc : bytes * bool) : M S (bytes * (bytes * bool)) :=
  match fuel with
  | O => diverge
  | Datatypes.S fuel =>
      '(buf, r) ← call (fun s => let '(c, x) := q_stream_recv id buf (get s) in (set c s, x));
      match r with
      | Ok (read, fin) =>
          d ← prefix buf read;
          recv_all get set fuel id buf (acc.1 ++ d, acc.2 || fin)
      | Err QDone => mret (buf, acc)
      | Err e => throw (Internal (q_show e))
      end
  end.
Definition new_buf : bytes := repeat 0 1350.

(** ** The client *)

Record EchoClientApp := mkEchoClientApp {
  payload : bytes;
  sent : bool;
  received : bytes;
  fin : bool;
  done : bool;
  outcome : bool }.
#[export] Instance EchoClientApp_eta : Eta EchoClientApp := fun a =>
  mkEchoClientApp (payload a) (sent a) (received a) (fin a) (done a) (outcome a).

(** The application, the connection that the worker lends it, and what went through the
    channel of the outcome. *)
Record client := mkClient {
  cl_app : EchoClientApp; cl_conn : qconn; cl_told : list (result string bytes) }.
#[export] Instance client_eta : Eta client := fun s => mkClient (cl_app s) (cl_conn s) (cl_told s).

Definition EchoClientApp_new (payload : bytes) : EchoClientApp :=
  mkEchoClientApp payload false [] false false true.

Definition app {A} (f : EchoClientApp -> A) : M client A := gets (fun s => f (cl_app s)).
Definition set_app (f : EchoClientApp -> EchoClientApp) : M client unit :=
  modify (fun s => s <| cl_app := f (cl_app s) |>).
Definition on_qconn {A} (f : qconn -> qconn * A) : M client A :=
  call (fun s => let '(c, a) := f (cl_conn s) in (s <| cl_conn := c |>, a)).

Definition send_request : M client unit :=
  already ← app sent;
  c ← gets cl_conn;
  if already || negb (q_is_established c) then mret tt
  else
    p ← app payload;
    r ← on_qconn (q_stream_send 0 p true);
    _ ← try_q r;
    set_app (fun a => a <| sent := true |>).

Definition finish (r : result string bytes) : M client unit :=
  tx ← app outcome;
  if (tx : bool) then
    set_app (fun a => a <| outcome := false |>) ;;
    modify (fun s => s <| cl_told := cl_told s ++ [r] |>)
  else mret tt.

Definition on_conn_established : M client unit := send_request.
Definition should_act (a : EchoClientApp) : bool := negb (done a).

Fixpoint read_all (ids : list Z) (buf : bytes) : M client unit :=
  match ids with
  | [] => mret tt
  | id :: ids =>
      '(buf, (d, f)) ← (fun s => recv_all cl_conn (fun c s => s <| cl_conn := c |>)
                  (S (reads_left (cl_conn s))) id buf ([], false) s);
      set_app (fun a => a <| received := received a ++ d |> <| fin := fin a || f |>) ;;
      read_all ids buf
  end.

Definition process_reads : M client unit :=
  c ← gets cl_conn;
  read_all (q_readable c) new_buf ;;
  f ← app fin;
  d ← app done;
  if f && negb d then
    set_app (fun a => a <| done := true |>) ;;
    _ ← on_qconn (q_close false 0 []);
    r ← app received;
    set_app (fun a => a <| received := [] |>) ;;
    finish (Ok r)
  else mret tt.

Definition process_writes : M client unit := send_request.

Definition on_conn_close (r : result string unit) : M client unit :=
  f ← app fin;
  if (f : bool) then mret tt
  else finish (Err match r with
    | Ok _ => "the connection closed before the echo arrived"
    | Err e => "the connection failed: " +:+ e
    end).

(** The callbacks of [ApplicationOverQuic]. *)
Inductive callback :=
| OnConnEstablished
| ProcessReads
| ProcessWrites
| OnConnClose (r : result string unit).

Definition client_call (k : callback) : M client unit :=
  match k with
  | OnConnEstablished => on_conn_established
  | ProcessReads => process_reads
  | ProcessWrites => process_writes
  | OnConnClose r => on_conn_close r
  end.

(** The worker's calls, each with the connection as it is by then. A callback that fails
    does not end the application here: the worker decides what to call next. *)
Fixpoint client_run (calls : list (qconn * callback)) : M client unit :=
  match calls with
  | [] => mret tt
  | (c, k) :: calls =>
      modify (fun s => s <| cl_conn := c |>) ;;
      _ ← attempt (client_call k);
      client_run calls
  end.

(** ** The server *)

Record ServerOptions := mkServerOptions { early_data : bool; migration : bool }.

Record EchoServerApp := mkEchoServerApp {
  options : ServerOptions;
  s_received : bytes;
  early_data_received : bool;
  extra_scid_issued : bool;
  reported : bool;
  close_reported : bool }.
#[export] Instance EchoServerApp_eta : Eta EchoServerApp := fun a =>
  mkEchoServerApp (options a) (s_received a) (early_data_received a) (extra_scid_issued a)
    (reported a) (close_reported a).

(** The application, the connection, the random numbers, and the lines on the standard
    output. *)
Record server := mkServer {
  sv_app : EchoServerApp; sv_conn : qconn; sv_host : host; sv_stdout : list string }.
#[export] Instance server_eta : Eta server := fun s =>
  mkServer (sv_app s) (sv_conn s) (sv_host s) (sv_stdout s).

Definition EchoServerApp_new (options : ServerOptions) : EchoServerApp :=
  mkEchoServerApp options [] false false false false.

Definition sapp {A} (f : EchoServerApp -> A) : M server A := gets (fun s => f (sv_app s)).
Definition set_sapp (f : EchoServerApp -> EchoServerApp) : M server unit :=
  modify (fun s => s <| sv_app := f (sv_app s) |>).
Definition on_sconn {A} (f : qconn -> qconn * A) : M server A :=
  call (fun s => let '(c, a) := f (sv_conn s) in (s <| sv_conn := c |>, a)).
Definition on_shost {A} (f : host -> host * A) : M server A :=
  call (fun s => let '(h, a) := f (sv_host s) in (s <| sv_host := h |>, a)).

Definition issue_extra_scid : M server unit :=
  o ← sapp options;
  issued ← sapp extra_scid_issued;
  c ← gets sv_conn;
  if negb (migration o) || issued || negb (q_is_established c) then mret tt
  else
    r ← on_shost (h_fill MAX_CONN_ID_LEN);
    scid ← or_fail "failed to generate scid" r;
    r ← on_shost (h_fill 16);
    reset_token ← or_fail "failed to generate reset token" r;
    r ← on_sconn (q_new_scid scid (from_be_bytes reset_token) false);
    _ ← try_q r;
    set_sapp (fun a => a <| extra_scid_issued := true |>).

Definition write_report (line : string) : M server unit :=
  modify (fun s => s <| sv_stdout := sv_stdout s ++ [line] |>).

Definition show_bool (b : bool) : string := if b then "true" else "false".
Definition report_line (n : Z) (early : bool) : string :=
  pretty n +:+ " bytes (early data: " +:+ show_bool early +:+ ")".

Definition report : M server unit :=
  r ← sapp reported;
  if (r : bool) then mret tt
  else
    set_sapp (fun a => a <| reported := true |>) ;;
    d ← sapp s_received;
    early ← sapp early_data_received;
    write_report (report_line (slen d) early) ;;
    set_sapp (fun a => a <| s_received := [] |>).

Definition report_peer_close : M server unit :=
  cr ← sapp close_reported;
  r ← sapp reported;
  if cr || negb r then mret tt
  else
    c ← gets sv_conn;
    if q_is_draining c then
      set_sapp (fun a => a <| close_reported := true |>) ;;
      write_report "peer closed"
    else if q_is_closed c || q_is_timed_out c then
      set_sapp (fun a => a <| close_reported := true |>) ;;
      write_report "connection ended without a peer close"
    else mret tt.

Fixpoint echo_all (ids : list Z) (buf : bytes) : M server unit :=
  match ids with
  | [] => mret tt
  | id :: ids =>
      '(buf, (data, fin)) ← (fun s => recv_all sv_conn (fun c s => s <| sv_conn := c |>)
                        (S (reads_left (sv_conn s))) id buf ([], false) s);
      (if (fin : bool) then
         c ← gets sv_conn;
         (if q_is_in_early_data c then set_sapp (fun a => a <| early_data_received := true |>)
          else mret tt) ;;
         set_sapp (fun a => a <| s_received := s_received a ++ data |>) ;;
         r ← on_sconn (q_stream_send id data true);
         _ ← try_q r;
         report
       else mret tt) ;;
      echo_all ids buf
  end.

Definition server_process_reads : M server unit :=
  c ← gets sv_conn;
  echo_all (q_readable c) new_buf ;;
  report_peer_close.

Definition server_process_writes : M server unit := report_peer_close ;; issue_extra_scid.

(** [on_conn_close] is that of the trait, which does nothing. *)
Definition server_call (k : callback) : M server unit :=
  match k with
  | ProcessReads => server_process_reads
  | ProcessWrites => server_process_writes
  | OnConnEstablished | OnConnClose _ => mret tt
  end.

Fixpoint server_run (calls : list (qconn * callback)) : M server unit :=
  match calls with
  | [] => mret tt
  | (c, k) :: calls =>
      modify (fun s => s <| sv_conn := c |>) ;;
      _ ← attempt (server_call k);
      server_run calls
  end.

(** ** The callbacks return *)

Context {doc : QuicheDoc}.

Lemma wp_recv_all {S} (get : S -> qconn) (set : qconn -> S -> S) fuel id b acc s (Q : S -> Prop) :
  (forall c s, get (set c s) = c) -> (forall c s, Q s -> Q (set c s)) ->
  (reads_left (get s) < fuel)%nat -> Q s ->
  wp (recv_all get set fuel id b acc) s (fun _ s' => Q s').
Proof.
  intros Hg Hset. revert s b acc. induction fuel as [|fuel IH]; intros s b acc Hf Hs; [lia|].
  cbn [recv_all]. unfold wp, mbind, M_bind, call.
  pose proof (stream_recv_left id b (get s)) as Hl. pose proof (qd_stream_recv id b (get s)) as Hn.
  destruct (q_stream_recv id b (get s)) as [c [b' [[n fin]|[|e]]]]; cbn; [|by apply Hset..].
  destruct (slice_prefix b' n Hn) as [d Hd]. unfold prefix, expect. rewrite Hd.
  apply (IH (set c s)); [rewrite Hg; lia|by apply Hset].
Qed.

(** *** The client tells its caller once *)

(** The sender is there until it was used, which [done] asks for. [ended]: the worker said
    that the connection closed. *)
Record told_once (ended : Prop) (s : client) : Prop := {
  to_outcome : outcome (cl_app s) = bool_decide (cl_told s = []);
  to_once : (length (cl_told s) <= 1)%nat;
  to_ended : ended -> cl_told s <> [] \/ fin (cl_app s) = true }.

Section told.
Context (ended : Prop).
Notation told := (told_once ended).

Lemma told_once_conn c s : told s -> told (s <| cl_conn := c |>).
Proof. by intros []. Qed.

Ltac app_steps :=
  repeat first
    [ wp_step
    | match goal with
      | |- wp (app _) _ _ => unfold app
      | |- wp (set_app _) _ _ => unfold set_app
      | |- wp (on_qconn _) _ _ => unfold on_qconn
      end ].

Lemma wp_send_request s : told s -> wp send_request s (fun _ s' => told s').
Proof.
  intros Hs. unfold send_request. app_steps. case_match; [done|]. app_steps.
  destruct Hs. by destruct (q_stream_send _ _ _ _) as [c [n|e]].
Qed.

(** Whoever is told is told once. *)
Lemma wp_finish ended' r s :
  outcome (cl_app s) = bool_decide (cl_told s = []) -> (length (cl_told s) <= 1)%nat ->
  wp (finish r) s (fun _ s' => told_once ended' s').
Proof.
  intros H1 H2. unfold finish. app_steps. rewrite H1. case_bool_decide as Ht; app_steps.
  - constructor; cbn; rewrite Ht; [done|cbn; lia|by left].
  - constructor; [by rewrite H1, bool_decide_eq_false_2|done|by left].
Qed.

Lemma wp_read_all ids b s : told s -> wp (read_all ids b) s (fun _ s' => told s').
Proof.
  revert b s. induction ids as [|id ids IH]; intros b s Hs; cbn [read_all]; [done|]. wp_step.
  eapply wp_mono; [apply (wp_recv_all cl_conn _ _ id b _ s told)|]; [done| |lia|done|].
  - intros c s1. apply told_once_conn.
  - intros [[b' [d f]]|e] s1 H1; [|done]. app_steps. apply IH. destruct H1 as [H1 H2 H3].
    constructor; [done..|]. cbn. intros H. destruct (H3 H) as [?|Hf]; [by left|right]. by rewrite Hf.
Qed.

Lemma wp_client_call k s : told s ->
  wp (client_call k) s (fun r s' => told_once (ended \/ exists x, k = OnConnClose x) s').
Proof.
  intros Hs.
  assert (forall s', (forall x, k <> OnConnClose x) -> told s' ->
    told_once (ended \/ exists x, k = OnConnClose x) s') as Hno.
  { intros s' Hk [H1 H2 H3]. constructor; [done..|]. intros [H|[x H]]; [by apply H3|by destruct (Hk x)]. }
  destruct k as [| | |x]; cbn [client_call].
  1,3: eapply wp_mono; [by apply wp_send_request|]; intros r s' H; by apply Hno.
  - unfold process_reads. app_steps.
    eapply wp_mono; [by apply wp_read_all|]. intros [u|e] s1 H1; [|by apply Hno]. app_steps.
    case_match; [|app_steps; by apply Hno]. destruct H1 as [H1 H2 H3]. app_steps.
    destruct (q_close _ _ _ _) as [c r]. cbn. app_steps. by apply wp_finish.
  - unfold on_conn_close. app_steps. destruct Hs as [H1 H2 H3].
    destruct (fin (cl_app s)) eqn:Hf; app_steps; [by constructor; [| |right]|]. by apply wp_finish.
Qed.
End told.

(** The echo client: whatever callbacks the worker makes, with whatever connections, no
    callback panics or loops for ever, the caller is told at most one result, and it has
    been told once [on_conn_close] was called, unless a FIN was read. *)
Theorem echo_client_tells_once (p : bytes) (c : qconn) (calls : list (qconn * callback)) :
  wp (client_run calls) (mkClient (EchoClientApp_new p) c []) (fun r s' => r = Ok tt /\
    (length (cl_told s') <= 1)%nat /\
    ((exists c' x, (c', OnConnClose x) ∈ calls) -> cl_told s' <> [] \/ fin (cl_app s') = true)).
Proof.
  assert (forall ended s, told_once ended s -> wp (client_run calls) s (fun r s' => r = Ok tt /\
    told_once (ended \/ exists c' x, (c', OnConnClose x) ∈ calls) s')) as H.
  { induction calls as [|[c1 k] calls IH]; intros ended s Hs; cbn [client_run].
    { split; [done|]. destruct Hs as [H1 H2 H3]. constructor; [done..|].
      intros [H|(? & ? & []%elem_of_nil)]. by apply H3. }
    repeat wp_step. eapply wp_mono; [apply wp_client_call, told_once_conn, Hs|]. intros r s1 H1.
    eapply wp_mono; [eapply IH; exact H1|]. intros r' s' (-> & [H2 H3 H4]). split; [done|].
    constructor; [done..|]. intros [H|(c' & x & [[= <- <-]|H]%elem_of_cons)]; apply H4;
      [by left; left|left; right; by exists x|right; by exists c', x]. }
  eapply wp_mono; [apply (H False)|]; [constructor; [done|cbn; lia|done]|].
  intros r s' (-> & [_ H1 H2]). split; [done|]. split; [done|]. intros Hc. apply H2. by right.
Qed.

(** *** The server reports once *)

(** The lines so far: the report of the first echo, then how the connection ended. *)
Definition lines_ok (s : server) : Prop :=
  exists n early how,
    sv_stdout s = (if reported (sv_app s) then [report_line n early] else []) ++
                  (if close_reported (sv_app s) then [how] else []) /\
    (close_reported (sv_app s) = true -> reported (sv_app s) = true).

Lemma lines_ok_eq s s' :
  sv_stdout s' = sv_stdout s -> reported (sv_app s') = reported (sv_app s) ->
  close_reported (sv_app s') = close_reported (sv_app s) -> lines_ok s -> lines_ok s'.
Proof. unfold lines_ok. by intros -> -> ->. Qed.

Ltac sapp_steps :=
  repeat first
    [ wp_step
    | match goal with
      | |- wp (sapp _) _ _ => unfold sapp
      | |- wp (set_sapp _) _ _ => unfold set_sapp
      | |- wp (on_sconn _) _ _ => unfold on_sconn
      | |- wp (on_shost _) _ _ => unfold on_shost
      | |- wp (write_report _) _ _ => unfold write_report
      end ].

Lemma wp_report s : lines_ok s -> wp report s (fun _ s' => lines_ok s').
Proof.
  intros (n & early & how & Hs & Hc). unfold report. sapp_steps.
  destruct (reported (sv_app s)) eqn:Hr; sapp_steps; [by exists n, early, how; rewrite Hr|].
  destruct (close_reported (sv_app s)) eqn:Hcr; [by specialize (Hc eq_refl)|].
  eexists _, _, how. cbn. rewrite Hs, Hcr. by split.
Qed.

Lemma wp_report_peer_close s : lines_ok s -> wp report_peer_close s (fun _ s' => lines_ok s').
Proof.
  intros (n & early & how & Hs & Hc). unfold report_peer_close. sapp_steps.
  destruct (close_reported (sv_app s)) eqn:Hcr; cbn [orb].
  { sapp_steps. exists n, early, how. by rewrite Hcr. }
  destruct (reported (sv_app s)) eqn:Hr; cbn [negb]; sapp_steps; [|exists n, early, how; by rewrite Hcr, Hr].
  destruct (q_is_draining _); sapp_steps; [|destruct (_ || _); sapp_steps].
  1,2: eexists n, early, _; cbn; rewrite Hs, Hr; by split.
  exists n, early, how. by rewrite Hcr, Hr.
Qed.

Lemma wp_echo_all ids b s : lines_ok s -> wp (echo_all ids b) s (fun _ s' => lines_ok s').
Proof.
  revert b s. induction ids as [|id ids IH]; intros b s Hs; cbn [echo_all]; [done|]. wp_step.
  eapply wp_mono; [apply (wp_recv_all sv_conn _ _ id b _ s lines_ok)|]; [done|by intros c s1|lia|done|].
  intros [[b' [d f]]|e] s1 H1; [|done]. wp_step.
  assert (forall m : M server unit, wp m s1 (fun _ s' => lines_ok s') ->
    wp m s1 (fun r s2 => match r with
      | Ok _ => wp (echo_all ids b') s2 (fun _ s' => lines_ok s')
      | Err _ => lines_ok s2 end)) as Hgo.
  { intros m Hm. eapply wp_mono; [exact Hm|]. intros [u|e] s2 H2; [by apply IH|done]. }
  apply Hgo. destruct f; [|done]. sapp_steps. eapply (wp_mono _ _ (fun r s' => lines_ok s')).
  - destruct (q_is_in_early_data _); sapp_steps; [|done]. by eapply lines_ok_eq; [| | |exact H1].
  - intros [u|e] s2 H2; [|done]. sapp_steps. destruct (q_stream_send _ _ _ _) as [c [n|e]]; cbn; [|done].
    apply wp_report. by eapply lines_ok_eq; [| | |exact H2].
Qed.

Lemma wp_server_call k s : lines_ok s -> wp (server_call k) s (fun _ s' => lines_ok s').
Proof.
  intros Hs. destruct k; cbn [server_call]; [done| | |done].
  - unfold server_process_reads. sapp_steps. eapply wp_mono; [by apply wp_echo_all|].
    intros [u|e] s1 H1; [by apply wp_report_peer_close|done].
  - unfold server_process_writes, issue_extra_scid. sapp_steps.
    eapply wp_mono; [by apply wp_report_peer_close|]. intros [u|e] s1 H1; [|done]. sapp_steps.
    destruct (_ || _ || _); [done|]. sapp_steps. destruct (h_fill _ _) as [h r]. cbn.
    destruct r as [scid|e]; [|done]. cbn. sapp_steps. cbn. destruct (h_fill _ _) as [h' r]. cbn.
    destruct r as [token|e]; [|done]. cbn. sapp_steps. cbn.
    destruct (q_new_scid _ _ _ _) as [c [n|e]]; cbn; [|done]. done.
Qed.

Lemma wp_server_run calls s :
  lines_ok s -> wp (server_run calls) s (fun r s' => r = Ok tt /\ lines_ok s').
Proof.
  revert s. induction calls as [|[c1 k] calls IH]; intros s Hs; cbn [server_run]; [done|].
  repeat wp_step. eapply wp_mono; [by apply wp_server_call|]. intros r s1 H1. by apply IH.
Qed.
Lemma lines_ok_new o c h : lines_ok (mkServer (EchoServerApp_new o) c h []).
Proof. by exists 0, false, "". Qed.

(** The echo server writes at most two lines for a connection, whatever callbacks the
    worker makes: the length of the first echo it returned, and how the connection ended,
    which only follows an echo. *)
Theorem echo_server_reports (o : ServerOptions) (c : qconn) (h : host) (calls : list (qconn * callback)) :
  wp (server_run calls) (mkServer (EchoServerApp_new o) c h []) (fun r s' => r = Ok tt /\
    (sv_stdout s' = [] \/ exists n early, sv_stdout s' = [report_line n early] \/
      exists how, sv_stdout s' = [report_line n early; how])).
Proof.
  eapply wp_mono; [apply wp_server_run, lines_ok_new|].
  intros r s' (-> & n & early & how & -> & Hc). split; [done|].
  destruct (reported _), (close_reported _); [|..|by left]; [right; exists n, early; right; by exists how| |].
  - right. exists n, early. by left.
  - by specialize (Hc eq_refl).
Qed.
End apps.

(** ** What the echo server writes back *)

Section echoes.
Context {q : Quiche} {os : Host} {bud : Budget}.
#[local] Existing Instances logged logged_budget | 0.
#[local] Hint Cut [_* logged _* logged] : typeclass_instances.
Notation server := (@server logged os).

Definition is_read (id : Z) (e : qevent) : Prop :=
  match e with ReadData id' _ _ => id' = id | _ => False end.

(** A stream is read until there is nothing more: the reads in order, the buffer and the
    connection after the last one. *)
Inductive reads_up (id : Z) : bytes -> @qconn q -> list qevent -> bytes -> @qconn q -> Prop :=
| reads_done b c b' c' :
    @q_stream_recv q id b c = (c', (b', Err QDone)) -> reads_up id b c [] b' c'
| reads_more b c b1 c1 n fin l b2 c2 :
    @q_stream_recv q id b c = (c1, (b1, Ok (n, fin))) -> reads_up id b1 c1 l b2 c2 ->
    reads_up id b c (ReadData id (take (Z.to_nat n) b1) fin :: l) b2 c2.

(** Each stream in turn is read until there is nothing more, and what was read is handed
    back in one write with a FIN when the FIN was among it. *)
Inductive echoes : list Z -> bytes -> @qconn q -> list (Z * list qevent) -> @qconn q -> Prop :=
| echoes_nil b c : echoes [] b c [] c
| echoes_cons id ids b c l b1 c1 c2 pieces c3 :
    reads_up id b c l b1 c1 ->
    (if fin_read l then exists n, @q_stream_send q id (data_read l) true c1 = (c2, Ok n)
     else c2 = c1) ->
    echoes ids b1 c2 pieces c3 -> echoes (id :: ids) b c ((id, l) :: pieces) c3.

Lemma reads_up_read id b c l b' c' : reads_up id b c l b' c' -> Forall (is_read id) l.
Proof. induction 1; by constructor. Qed.
Lemma echoes_ids ids b c pieces c' : echoes ids b c pieces c' ->
  map fst pieces = ids /\ Forall (fun p => Forall (is_read p.1) p.2) pieces.
Proof.
  induction 1 as [|id ids b c l b1 c1 c2 pieces c3 Hr _ _ [<- IH]]; [by split|].
  split; [done|]. constructor; [|done]. by eapply reads_up_read.
Qed.

Lemma wlp_recv_all {S} (get : S -> @qconn logged) (set : @qconn logged -> S -> S) fuel id b acc s :
  (forall c s, get (set c s) = c) -> (forall c c' s, set c' (set c s) = set c' s) ->
  wlp (recv_all get set fuel id b acc) s (fun r s' =>
    forall b' acc', r = Ok (b', acc') -> exists c l,
    s' = set c s /\ c.2 = (get s).2 ++ l /\ reads_up id b (get s).1 l b' c.1 /\
    acc' = (acc.1 ++ data_read l, acc.2 || fin_read l)).
Proof.
  intros Hg Hset. revert s b acc. induction fuel as [|fuel IH]; intros s b acc; [done|].
  cbn [recv_all]. unfold wlp, mbind, M_bind, call. cbn.
  destruct (@q_stream_recv q id b (get s).1) as [c [b' [[n fin]|e]]] eqn:Hrecv; cbn.
  - unfold prefix, expect, slice. destruct (_ && _ && _) eqn:Hn; [|done]. cbn. rewrite Z.sub_0_r, drop_0.
    set (d := take (Z.to_nat n) b'). set (c1 := (c, _)).
    pose proof (IH (set c1 s) b' (acc.1 ++ d, acc.2 || fin)) as H. unfold wlp in H.
    destruct (recv_all _ _ _ _ _ _ _) as [r s2|e s2| |]; try done.
    intros b2 acc2 [= ->]. destruct (H _ _ eq_refl) as (c2 & l & -> & Hc & Hl & ->).
    rewrite Hset, Hg in *. cbn in Hc, Hl. exists c2, (ReadData id d fin :: l). split; [done|].
    rewrite Hc, <- app_assoc. split; [done|]. split; [by eapply reads_more|].
    cbn. by rewrite app_assoc, orb_assoc.
  - rewrite app_nil_r. destruct e; cbn; [|done]. intros b2 acc2 [= <- <-].
    eexists _, []. split; [reflexivity|]. cbn. rewrite !app_nil_r, orb_false_r.
    split; [done|]. split; [by apply reads_done|]. by destruct acc.
Qed.

(** What the calls on one stream after the other add to the log. *)
Definition echo_log (pieces : list (Z * list qevent)) : list qevent :=
  concat (map (fun p => p.2 ++ if fin_read p.2 then [Wrote p.1 (data_read p.2) true] else []) pieces).

Definition log_of_server (s : server) : list qevent := (sv_conn s).2.

Lemma wlp_echo_all ids b (s : server) :
  wlp (echo_all ids b) s (fun r s' => r = Ok tt -> exists pieces,
    echoes ids b (sv_conn s).1 pieces (sv_conn s').1 /\
    log_of_server s' = log_of_server s ++ echo_log pieces).
Proof.
  revert b s. induction ids as [|id ids IH]; intros b s; cbn [echo_all].
  { intros _. exists []. rewrite app_nil_r. split; [constructor|done]. }
  apply wlp_bind. eapply wlp_mono; [by apply (wlp_recv_all sv_conn)|].
  intros [[b' acc]|e] s1 H1; [|done].
  destruct (H1 _ _ eq_refl) as (c & l & -> & Hc & Hl & Hacc). cbn in Hacc. rewrite Hacc.
  apply wlp_bind.
  eapply (wlp_mono _ _ (fun r (s2 : server) => r = Ok tt ->
    (if fin_read l then exists n, @q_stream_send q id (data_read l) true c.1 = ((sv_conn s2).1, Ok n)
     else (sv_conn s2).1 = c.1) /\
    log_of_server s2 = log_of_server s ++ l ++
      (if fin_read l then [Wrote id (data_read l) true] else []))).
  2:{ intros [[]|e] s2 H2; [|done]. destruct (H2 eq_refl) as [Hsend Hlog].
      eapply wlp_mono; [apply IH|]. intros r s' H Hr. destruct (H Hr) as (ps & Hp & Hlog').
      exists ((id, l) :: ps). split; [by eapply echoes_cons|].
      rewrite Hlog', Hlog. unfold echo_log. cbn. by rewrite <- !app_assoc. }
  assert (log_of_server (s <| sv_conn := c |>) = log_of_server s ++ l) as Hs1 by exact Hc.
  destruct (fin_read l); [|by intros _; rewrite app_nil_r, Hs1].
  apply wlp_bind. unfold wlp at 1, gets. apply wlp_bind.
  eapply (wlp_mono _ _ (fun _ (s2 : server) => sv_conn s2 = c)); [by destruct (q_is_in_early_data _)|].
  intros [u|e] s2 H2; [|done]. apply wlp_bind. unfold wlp at 1, set_sapp, modify.
  unfold wlp, mbind, M_bind, on_sconn, call. cbn. unfold log_of_server in *. rewrite H2.
  destruct (@q_stream_send q _ _ _ _) as [c2 [n|e]]; cbn; [|done].
  unfold report, mbind, M_bind, sapp, gets. cbn.
  destruct (reported _); cbn; intros _; (split; [by exists n|]); by rewrite Hc, <- app_assoc.
Qed.

Lemma wlp_process_reads (s : server) :
  wlp server_process_reads s (fun r s' => r = Ok tt -> exists pieces,
    echoes (q_readable (sv_conn s)) new_buf (sv_conn s).1 pieces (sv_conn s').1 /\
    log_of_server s' = log_of_server s ++ echo_log pieces).
Proof.
  unfold server_process_reads. apply wlp_bind. unfold wlp at 1, gets. apply wlp_bind.
  eapply wlp_mono; [apply wlp_echo_all|]. intros [[]|e] s1 H1; [|done].
  destruct (H1 eq_refl) as (pieces & Hp & Hlog).
  assert (forall s2, sv_conn s2 = sv_conn s1 -> exists pieces,
    echoes (q_readable (sv_conn s)) new_buf (sv_conn s).1 pieces (sv_conn s2).1 /\
    log_of_server s2 = log_of_server s ++ echo_log pieces) as Hend
    by (unfold log_of_server in *; intros s2 ->; by exists pieces).
  unfold report_peer_close, wlp, mbind, M_bind, sapp, gets. cbn.
  destruct (_ || _); [by intros _; apply Hend|].
  destruct (q_is_draining _); [by intros _; apply Hend|].
  destruct (q_is_closed _ || _); by intros _; apply Hend.
Qed.

(** The reads and writes of one stream, in order. *)
Definition on_stream (id : Z) (e : qevent) : bool :=
  match e with ReadData id' _ _ | Wrote id' _ _ => bool_decide (id' = id) | _ => false end.
Definition stream_log (id : Z) (l : list qevent) : list qevent :=
  filter (fun e => on_stream id e = true) l.

(** What the log of a stream that was read as [got] holds then: these reads, and one write
    of all their data with a FIN, if and only if the FIN was among them. *)
Definition echoed (id : Z) (got l : list qevent) : Prop :=
  l = got ++ if fin_read got then [Wrote id (data_read got) true] else [].

Lemma stream_log_same id l : Forall (is_read id) l -> stream_log id l = l.
Proof.
  unfold stream_log. induction 1 as [|e l He _ IH]; [done|]. rewrite filter_cons_True, IH; [done|].
  destruct e; try done. cbn in *. by rewrite bool_decide_true.
Qed.
Lemma stream_log_other id id' l : id' <> id -> Forall (is_read id') l -> stream_log id l = [].
Proof.
  intros Hne. unfold stream_log. induction 1 as [|e l He _ IH]; [done|].
  rewrite filter_cons_False, IH; [done|]. destruct e; try done. cbn in *.
  by rewrite bool_decide_false by congruence.
Qed.

(** Among the calls on several streams, those on one of them are as if it were alone. *)
Lemma stream_log_echo id pieces :
  NoDup (map fst pieces) -> Forall (fun p => Forall (is_read p.1) p.2) pieces ->
  exists got, echoed id got (stream_log id (echo_log pieces)) /\
    if decide (id ∈ map fst pieces) then (id, got) ∈ pieces else got = [].
Proof.
  induction pieces as [|[i l] pieces IH]; [by exists []|]. cbn [map fst].
  intros [Hi Hnd]%NoDup_cons [Hl Hp]%Forall_cons. destruct (IH Hnd Hp) as (got & He & Hin).
  unfold echo_log, stream_log, echoed in *. cbn [map concat fst snd] in *.
  rewrite !filter_app, He. destruct (decide (i = id)) as [->|Hne].
  - rewrite decide_False in Hin by done. subst got. exists l. rewrite decide_True by left.
    split; [|left]. change (fin_read []) with false. cbn iota. rewrite !app_nil_r.
    f_equal; [by apply stream_log_same|]. destruct (fin_read l); [|done].
    rewrite filter_cons_True; [done|]. cbn. by rewrite bool_decide_true.
  - exists got. split.
    + pose proof (stream_log_other id i l Hne Hl) as Hnil. unfold stream_log in Hnil.
      rewrite Hnil. destruct (fin_read l); [|done].
      rewrite filter_cons_False; [done|]. cbn. by rewrite bool_decide_false.
    + repeat case_decide; set_solver.
Qed.

(** C29: the echo server on tokio-quiche writes the data of a stream back as it is. After
    any callbacks, a call of [process_reads] that returns without an error took the
    readable streams in turn, and read each until quiche had nothing more. For a
    stream of which nothing was read or written before, its log then holds these reads,
    and, if and only if the FIN is among them, one write of all the data read, in order and
    with a FIN. A stream that is not readable is left alone. *)
Theorem echo_server_echoes_call {doc : @QuicheDoc q os bud} (o : ServerOptions)
    (c0 c : @qconn logged) (h : host) (calls : list (@qconn logged * callback))
    (Hnd : NoDup (q_readable c)) :
  wp (server_run calls) (mkServer (EchoServerApp_new o) c0 h []) (fun _ s =>
    wp server_process_reads (s <| sv_conn := c |>) (fun r s' => r = Ok tt -> exists pieces,
      echoes (q_readable c) new_buf c.1 pieces (sv_conn s').1 /\
      forall id, stream_log id c.2 = [] ->
      exists got, echoed id got (stream_log id (log_of_server s')) /\
        if decide (id ∈ q_readable c) then (id, got) ∈ pieces else got = [])).
Proof.
  eapply wp_mono; [apply wp_server_run, lines_ok_new|]. intros _ s [_ Hs].
  eapply wp_mono; [apply wp_wlp; [apply (wp_server_call ProcessReads)|apply wlp_process_reads]|].
  - exact Hs.
  - intros r s' [_ H] Hr. destruct (H Hr) as (pieces & He & Hlog). exists pieces. split; [done|].
    intros id Hid. apply echoes_ids in He as [Hids Hp].
    change (q_readable (sv_conn (s <| sv_conn := c |>))) with (q_readable c) in Hids.
    rewrite <- Hids in *.
    destruct (stream_log_echo id pieces Hnd Hp) as (got & Hgot & Hin).
    exists got. split; [|done]. rewrite Hlog. unfold stream_log, log_of_server in *. cbn.
    by rewrite filter_app, Hid.
Qed.
End echoes.

(** ** The drivers' entry points *)

(** What the entry points use of tokio-quiche and of a UDP socket of tokio. *)
Class TokioQuiche `{Quiche} `{Host} := {
  tq_settings : Type;
  tq_default : tq_settings;
  tq_set : TSetting -> tq_settings -> tq_settings;
  tq_params : Type;
  (** the last argument: with a [ClientCaHook] *)
  tq_new_client : tq_settings -> option TlsCertificatePaths -> bool -> tq_params;
  tq_new_server : tq_settings -> TlsCertificatePaths -> bool -> tq_params;
  tq_socket : Type;
  tq_bind : string -> host -> host * result string tq_socket;
  tq_connect_socket : tq_socket -> SocketAddr -> host -> host * result string unit;
  tq_from_udp : tq_socket -> result string tq_socket;
  (** the worker runs the application in the background *)
  tq_connect_with_config : tq_socket -> option string -> tq_params -> EchoClientApp -> host ->
    host * result string unit;
  (** [timeout(..)] on the channel of the outcome *)
  tq_timeout_outcome : Z -> host -> host * option (option (result string bytes));
  (** the connections that the listeners offer until they stop, and the start of one *)
  tq_initial : Type;
  tq_listen : list usock -> tq_params -> host -> host * result string (list (list (result string tq_initial)));
  tq_start : tq_initial -> EchoServerApp -> host -> host }.

Section entry.
Context {q : Quiche} {os : Host} {bud : Budget} {tq : TokioQuiche}.

Definition base_settings : tq_settings :=
  foldl (fun s x => tq_set x s) tq_default
    [TAlpn [ALPN]; TMaxIdleTimeout (Some 2000000000);
     TMaxRecvUdpPayloadSize MAX_DATAGRAM_SIZE; TMaxSendUdpPayloadSize MAX_DATAGRAM_SIZE;
     TInitialMaxData 10000000; TInitialMaxStreamDataBidiLocal 1000000;
     TInitialMaxStreamDataBidiRemote 1000000; TInitialMaxStreamDataUni 1000000;
     TInitialMaxStreamsBidi 100; TInitialMaxStreamsUni 100; TDisableClientIpValidation true].

Definition client_roundtrip (server_addr : SocketAddr) (ca_cert_path : string) (payload : bytes)
    : M host bytes :=
  let settings := tq_set (TVerifyPeer true) base_settings in
  let tls_cert := mkTlsCertificatePaths ca_cert_path ca_cert_path in
  let params := tq_new_client settings (Some tls_cert) true in
  r ← call (tq_bind "127.0.0.1:0");
  socket ← or_fail "failed to bind" r;
  r ← call (tq_connect_socket socket server_addr);
  or_fail "failed to connect the socket" r ;;
  socket ← or_fail "failed to use socket" (tq_from_udp socket);
  r ← call (tq_connect_with_config socket (Some "localhost") params (EchoClientApp_new payload));
  or_fail "failed to connect" r ;;
  o ← call (tq_timeout_outcome QUICHE_TIMEOUT);
  match o with
  | Some (Some (Ok d)) => mret d
  | Some (Some (Err e)) => throw (Internal e)
  | Some None => throw (Internal "the connection worker stopped without a result")
  | None => throw (Internal "timed out while waiting for the echo")
  end.

Definition server_echo (listener : usock) (cert_path key_path : string) (o : ServerOptions)
    : M host unit :=
  let settings := if early_data o then tq_set (TEnableEarlyData true) base_settings else base_settings in
  let settings := tq_set (TDisableActiveMigration (negb (migration o))) settings in
  let params := tq_new_server settings (mkTlsCertificatePaths cert_path key_path) false in
  r ← call (tq_listen [listener] params);
  streams ← or_fail "failed to listen" r;
  stream ← expect (head streams);
  for_each stream (fun r =>
    match r with
    | Ok initial => modify (tq_start initial (EchoServerApp_new o))
    | Err _ => mret tt
    end) ;;
  throw (Internal "the listener stopped").

(** *** The command line *)

(** What the process wrote. *)
Record process := mkProcess { p_host : host; p_stdout : list bytes; p_stderr : list string }.
#[export] Instance process_eta : Eta process := fun p => mkProcess (p_host p) (p_stdout p) (p_stderr p).

Inductive ExitCode := SUCCESS | FAILURE.
Record Options := mkOptions { o_early_data : bool; o_migration : bool }.
#[export] Instance Options_eta : Eta Options := fun o => mkOptions (o_early_data o) (o_migration o).

(** [str::parse::<SocketAddr>], and the bytes of a string *)
Context (parse_addr : string -> option SocketAddr) (runtime_new : result string unit).
Definition as_bytes (s : string) : bytes := map (fun a => Z.of_nat (Ascii.nat_of_ascii a)) (String.list_ascii_of_string s).

Definition eprintln (line : string) : M process unit :=
  modify (fun p => p <| p_stderr := p_stderr p ++ [line] |>).
Definition write_stdout (d : bytes) : M process unit :=
  modify (fun p => p <| p_stdout := p_stdout p ++ [d] |>).
Definition on_process {A} (m : M host A) : M process A :=
  zoom p_host (fun h p => p <| p_host := h |>) m.

Definition usage : M process unit :=
  eprintln "usage: quiche_driver client <server_addr> <ca_cert_path> <payload> [--early-data] [--migrate]" ;;
  eprintln "       quiche_driver server <cert_path> <key_path> [--early-data] [--migration]".

Fixpoint parse_loop (args : list string) (positional : list string) (options : Options)
    : result string (list string * Options) :=
  match args with
  | [] => Ok (positional, options)
  | arg :: args =>
      if String.eqb arg "--early-data" then
        parse_loop args positional (options <| o_early_data := true |>)
      else if String.eqb arg "--migration" || String.eqb arg "--migrate" then
        parse_loop args positional (options <| o_migration := true |>)
      else if String.prefix "--" arg then Err ("unknown option: " +:+ arg)
      else parse_loop args (positional ++ [arg]) options
  end.
Definition parse_args (args : list string) : result string (list string * Options) :=
  parse_loop args [] (mkOptions false false).

Definition run_async {A} (future : M host A) : M host A :=
  or_fail "failed to start the runtime" runtime_new ;; future.

(** The text of an error; all of this program are strings. *)
Definition error_text (e : Error) : string := match e with Internal s => s | _ => "" end.

Definition client_main (args : list string) : M process ExitCode :=
  match parse_args args with
  | Err e => eprintln e ;; usage ;; mret FAILURE
  | Ok (positional, options) =>
      match positional with
      | [addr; ca_cert_path; payload] =>
          if o_early_data options && o_migration options then
            eprintln "--early-data and --migrate cannot be used together" ;; mret FAILURE
          else
            match parse_addr addr with
            | None => eprintln ("invalid server address: " +:+ addr) ;; mret FAILURE
            | Some server_addr =>
                let payload := as_bytes payload in
                result ← attempt (on_process
                  (if o_migration options then client_migrate_roundtrip server_addr ca_cert_path payload
                   else if o_early_data options then client_early_data_roundtrip server_addr ca_cert_path payload
                   else run_async (client_roundtrip server_addr ca_cert_path payload)));
                match result with
                | Ok echoed => write_stdout echoed ;; mret SUCCESS
                | Err e => eprintln ("quiche client failed: " +:+ error_text e) ;; mret FAILURE
                end
            end
      | _ => usage ;; mret FAILURE
      end
  end.

Definition server_main (args : list string) : M process ExitCode :=
  match parse_args args with
  | Err e => eprintln e ;; usage ;; mret FAILURE
  | Ok (positional, options) =>
      match positional with
      | [cert_path; key_path] =>
          r ← on_process (call (h_bind "127.0.0.1:0"));
          match r with
          | Err e => eprintln ("failed to bind: " +:+ e) ;; mret FAILURE
          | Ok listener =>
              r ← on_process (call (h_local_addr listener));
              match r with
              | Err e => eprintln ("failed to get local address: " +:+ e) ;; mret FAILURE
              | Ok addr =>
                  write_stdout (as_bytes (h_show_addr addr) ++ [10]) ;;
                  result ← attempt (on_process (run_async (server_echo listener cert_path key_path
                    (mkServerOptions (o_early_data options) (o_migration options)))));
                  match result with
                  | Ok _ => mret SUCCESS
                  | Err e => eprintln ("quiche server failed: " +:+ error_text e) ;; mret FAILURE
                  end
              end
          end
      | _ => usage ;; mret FAILURE
      end
  end.

Definition main (args : list string) : M process ExitCode :=
  match args with
  | "client" :: args => client_main args
  | "server" :: args => server_main args
  | _ => usage ;; mret FAILURE
  end.

Definition is_option (a : string) : bool := String.prefix "--" a.
Definition parsed (args pos : list string) (o : Options) (r : result string (list string * Options)) : Prop :=
  match r with
  | Ok (positional, options) =>
      positional = pos ++ filter (fun a => is_option a = false) args /\
      (o_early_data options = true <-> o_early_data o = true \/ "--early-data" ∈ args) /\
      (o_migration options = true <-> o_migration o = true \/ "--migration" ∈ args \/ "--migrate" ∈ args)
  | Err _ => exists a, a ∈ args /\ is_option a = true /\
      a ∉ ["--early-data"; "--migration"; "--migrate"]
  end.

Lemma parse_loop_spec args pos o : parsed args pos o (parse_loop args pos o).
Proof.
  revert pos o. induction args as [|a args IH]; intros pos o; cbn [parse_loop].
  { unfold parsed. cbn. rewrite app_nil_r. set_solver. }
  assert (forall pos' o', parsed args pos' o' (parse_loop args pos' o') ->
    pos' = pos ++ filter (fun a => is_option a = false) [a] ->
    (o_early_data o' = true <-> o_early_data o = true \/ a = "--early-data") ->
    (o_migration o' = true <-> o_migration o = true \/ a = "--migration" \/ a = "--migrate") ->
    parsed (a :: args) pos o (parse_loop args pos' o')) as Hgo.
  { intros pos' o' H -> H1 H2. unfold parsed in *. destruct (parse_loop _ _ _) as [[p x]|e].
    - destruct H as (-> & -> & ->). rewrite <- app_assoc, <- filter_app. split; [done|].
      rewrite H1, H2, !elem_of_cons. split; naive_solver.
    - destruct H as (y & Hy & H). exists y. split; [by right|done]. }
  destruct (String.eqb_spec a "--early-data") as [->|H1]; [by apply Hgo; [apply IH|cbn; by rewrite app_nil_r|naive_solver..]|].
  destruct (String.eqb_spec a "--migration") as [->|H2]; [by apply Hgo; [apply IH|cbn; by rewrite app_nil_r|naive_solver..]|].
  destruct (String.eqb_spec a "--migrate") as [->|H3]; [by apply Hgo; [apply IH|cbn; by rewrite app_nil_r|naive_solver..]|].
  cbn [orb]. change (String.prefix "--" a) with (is_option a). destruct (is_option a) eqn:Ha.
  - exists a. split; [left|]. split; [done|]. set_solver.
  - apply Hgo; [apply IH|by rewrite filter_cons_True|naive_solver..].
Qed.

(** The arguments of the driver: what does not begin with two dashes is positional, in
    order; an option holds when one of its names is among the arguments, wherever it
    stands; and only an unknown option is an error. *)
Theorem driver_arguments (args : list string) :
  parsed args [] (mkOptions false false) (parse_args args).
Proof. apply parse_loop_spec. Qed.

Context {doc : QuicheDoc}.

Lemma ends_client_roundtrip a path d : ends (fun _ _ => True) (client_roundtrip a path d).
Proof.
  assert (forall A (f : host -> host * A), ends (fun _ _ => True) (call f)) as Hc by by intros; apply ends_call.
  unfold client_roundtrip.
  repeat (apply ends_bind; [by split|first [apply Hc|by apply ends_or_fail]|intros ?]).
  intros h. by destruct (_ : option (option (result string bytes))) as [[[]|]|].
Qed.

Lemma wp_attempt_process {A} (m : M host A) (p : process) (Q : result Error A -> process -> Prop) :
  wp m (p_host p) (fun _ _ => True) ->
  (forall r h, Q r (p <| p_host := h |>)) ->
  wp (attempt (on_process m)) p (fun r p' => match r with Ok r => Q r p' | Err _ => False end).
Proof.
  intros Hm HQ. apply wp_attempt, wp_zoom. eapply wp_mono; [exact Hm|]. intros r h _. apply HQ.
Qed.

(** The client of the command line: it always exits; with success it has written the echo,
    once, and nothing on the error output; with failure it has written nothing on the
    standard output and the reason on the error output. *)
Theorem driver_client_exits (args : list string) (p : process) :
  wp (main ("client" :: args)) p (fun r p' => exists code, r = Ok code /\
    match code with
    | SUCCESS => p_stderr p' = p_stderr p /\ exists d, p_stdout p' = p_stdout p ++ [d]
    | FAILURE => p_stdout p' = p_stdout p /\ exists line lines, p_stderr p' = p_stderr p ++ line :: lines
    end).
Proof.
  cbn [main]. unfold client_main.
  assert (wp (usage ;; mret FAILURE) p (fun r p' => exists code, r = Ok code /\
    match code with
    | SUCCESS => p_stderr p' = p_stderr p /\ exists d, p_stdout p' = p_stdout p ++ [d]
    | FAILURE => p_stdout p' = p_stdout p /\ exists line lines, p_stderr p' = p_stderr p ++ line :: lines
    end)) as Husage.
  { exists FAILURE. split; [done|]. split; [done|]. eexists _, _. cbn. by rewrite <- app_assoc. }
  destruct (parse_args args) as [[pos o]|e].
  2:{ exists FAILURE. split; [done|]. split; [done|]. eexists _, _. cbn. by rewrite <- !app_assoc. }
  destruct pos as [|addr [|ca [|payload [|]]]]; try exact Husage.
  destruct (_ && _). { exists FAILURE. split; [done|]. split; [done|]. by eexists _, _. }
  destruct (parse_addr addr) as [a|]; [|exists FAILURE; split; [done|]; split; [done|]; by eexists _, _].
  apply wp_bind. eapply wp_mono.
  - apply (wp_attempt_process _ p (fun r p' => p_stdout p' = p_stdout p /\ p_stderr p' = p_stderr p)); [|done].
    destruct (o_migration o); [eapply wp_mono; [apply ends_migrate|done]|].
    destruct (o_early_data o); [eapply wp_mono; [apply ends_early_data|done]|].
    unfold run_async. destruct runtime_new as [[]|]; [apply ends_client_roundtrip|done].
  - intros [[echoed|e]|?] p' H; [| |done]; cbn in H; destruct H as [H1 H2].
    + exists SUCCESS. split; [done|]. cbn. rewrite H1, H2. split; [done|]. by eexists.
    + exists FAILURE. split; [done|]. cbn. rewrite H1, H2. split; [done|]. by eexists _, _.
Qed.
End entry.

(** ** Witnesses *)

(** A connection is the pieces that its stream has now. *)
#[local] Instance toy_pieces : Quiche := {|
  qconfig := unit;
  qconn := list (bytes * bool);
  q_show _ := "error";
  q_config_new := Ok tt;
  q_set _ c := c;
  q_set_application_protos _ c := Ok c;
  q_load_verify_locations_from_file _ c := Ok c;
  q_connect _ _ _ _ _ := Ok [];
  q_send b c := (c, (b, Err QDone));
  q_recv b _ c := (c, Ok (slen b));
  q_on_timeout c := c;
  q_is_established _ := true;
  q_available_dcids _ := 0;
  q_session _ := None;
  q_set_session _ c := (c, Ok tt);
  q_new_scid _ _ _ c := (c, Ok 1);
  q_probe_path _ _ c := (c, Ok 1);
  q_migrate _ _ c := (c, Ok 1);
  q_path_event_next c := (c, None);
  q_readable c := match c with [] => [] | _ => [0] end;
  q_stream_recv _ b c := match c with
    | (d, fin) :: c => (c, (d, Ok (slen d, fin)))
    | [] => (c, (b, Err QDone))
    end;
  q_stream_send _ b _ c := (c, Ok (slen b));
  q_close _ _ _ c := (c, Ok tt);
  q_is_resumed _ := false;
  q_is_in_early_data _ := false;
  q_is_draining _ := false;
  q_is_closed _ := false;
  q_is_timed_out _ := false |}.
#[local] Existing Instance toy_q_host.

#[local] Instance toy_pieces_budget : Budget.
Proof.
  refine (@Build_Budget toy_pieces toy_q_host (fun _ => 0%nat) (fun _ => 0%nat)
    (@length (bytes * bool)) (fun d h => Z.to_nat (d / 10000000000 + 1 - Z.of_nat h)) _ _ _ _); cbn.
  - done.
  - done.
  - intros id b [|[d fin] c]; cbn; [done|lia].
  - intros d h. lia.
Defined.

#[local] Instance toy_pieces_doc : QuicheDoc.
Proof.
  constructor; cbn.
  - by exists tt.
  - intros c _. by exists c.
  - done.
  - intros id b [|[d fin] c]; cbn; [done|]. pose proof (slen_nonneg d). lia.
  - intros s b h. pose proof (slen_nonneg b). lia.
  - intros d h h' H. by repeat destruct H as [H|H]; decompose [ex] H; subst.
  - done.
Qed.

Definition toy_echo : @server logged toy_q_host :=
  @mkServer logged toy_q_host (EchoServerApp_new (mkServerOptions false false)) ([], []) 0%nat [].

(** Data that arrives in two calls of [process_reads] comes back without its first part. *)
Lemma echo_server_loses_parts :
  match @server_run logged toy_q_host logged_budget
      [((([1; 2], false) :: [], []), ProcessReads); ((([3], true) :: [], []), ProcessReads)] toy_echo with
  | Done _ s => (log_of_server s, sv_stdout s) =
      ([ReadData 0 [3] true; Wrote 0 [3] true], ["1 bytes (early data: false)"])
  | _ => False
  end.
Proof. vm_compute. reflexivity. Qed.

Lemma echo_server_echoes_call_witness :
  wp (@server_run logged toy_q_host logged_budget [(([], []), OnConnEstablished)]) toy_echo (fun _ s =>
    wp (@server_process_reads logged toy_q_host logged_budget)
      (mkServer (q := logged) (sv_app s) ([([3], false); ([4], true)], []) (sv_host s) (sv_stdout s))
      (fun r s' => r = Ok tt -> exists got, echoed 0 got (stream_log 0 (log_of_server s')))).
Proof.
  eapply wp_mono.
  { apply (@echo_server_echoes_call toy_pieces toy_q_host toy_pieces_budget toy_pieces_doc
      (mkServerOptions false false) ([], []) ([([3], false); ([4], true)], []) 0%nat
      [(([], []), OnConnEstablished)]). cbn. apply NoDup_singleton. }
  intros x s H. eapply wp_mono; [exact H|]. intros r s' Hs Hr.
  destruct (Hs Hr) as (pieces & _ & Hids). destruct (Hids 0 eq_refl) as (got & Hgot & _). by exists got.
Defined.

(** Two pieces in one call come back as one. *)
Example echo_server_echoes_pieces :
  match @server_run logged toy_q_host logged_budget
      [((([1; 2], false) :: [([3], true)], []), ProcessReads)] toy_echo with
  | Done _ s => log_of_server s =
      [ReadData 0 [1; 2] false; ReadData 0 [3] true; Wrote 0 [1; 2; 3] true]
  | _ => False
  end.
Proof. vm_compute. reflexivity. Qed.
End QuicheApps.
