(* ===== verification/Build.v ===== *)
(** * The build script (src/ngtcp2-sys/build.rs)

    What Cargo runs before it compiles the crate that wraps the C library: it downloads
    the library that was built for this platform, or builds it from source. The machine
    it runs on is a parameter: files, environment variables, and the programs it starts
    (curl, tar, git, sha256sum, cmake). A panic ends the script with a message, which is
    all that Cargo sees; here it is an [Internal] error, with the state the script leaves.
    Texts that are compared are ASCII: digests, versions, names of variables. *)
From Stdlib Require Import Ascii.
From S2P Require Import Prelude Errors Effects.
Import Errors Effects.

Module Build.

(** ** Strings *)

Definition to_lower (a : ascii) : ascii :=
  let n := nat_of_ascii a in if (65 <=? n)%nat && (n <=? 90)%nat then ascii_of_nat (n + 32) else a.
Definition to_upper (a : ascii) : ascii :=
  let n := nat_of_ascii a in if (97 <=? n)%nat && (n <=? 122)%nat then ascii_of_nat (n - 32) else a.
Fixpoint map_string (f : ascii -> ascii) (s : string) : string :=
  match s with EmptyString => EmptyString | String a s => String (f a) (map_string f s) end.
Definition to_lowercase : string -> string := map_string to_lower.
Definition to_uppercase : string -> string := map_string to_upper.
(** [replace('\\', "/")] *)
Definition forward_slashes : string -> string :=
  map_string (fun a => if Ascii.eqb a "092"%char then "/"%char else a).

Fixpoint strip_prefix (p s : string) : option string :=
  match p, s with
  | EmptyString, _ => Some s
  | String a p, String b s => if Ascii.eqb a b then strip_prefix p s else None
  | String _ _, EmptyString => None
  end.
Definition strip_suffix (p s : string) : option string :=
  String.rev <$> strip_prefix (String.rev p) (String.rev s).
Definition starts_with (p s : string) : bool :=
  match strip_prefix p s with Some _ => true | None => false end.
Definition ends_with (p s : string) : bool :=
  match strip_suffix p s with Some _ => true | None => false end.

Fixpoint trim_start_matches (a : ascii) (s : string) : string :=
  match s with
  | String b s' => if Ascii.eqb a b then trim_start_matches a s' else s
  | EmptyString => s
  end.
Definition trim_matches (a : ascii) (s : string) : string :=
  String.rev (trim_start_matches a (String.rev (trim_start_matches a s))).

Fixpoint split_on (c : ascii) (s : string) : list string :=
  match s with
  | EmptyString => [""]
  | String a s =>
      if Ascii.eqb a c then "" :: split_on c s else
      match split_on c s with x :: l => String a x :: l | [] => [String a ""] end
  end.
Definition newline : string := String "010"%char "".
Definition strip_cr (s : string) : string := default s (strip_suffix (String "013"%char "") s).
(** [str::lines]: each line ends with a newline; after the last newline a line begins
    only if there is text. *)
Definition lines (s : string) : list string :=
  let l := split_on "010"%char s in
  map strip_cr (removelast l) ++
  match last l with Some (String a x) => [String a x] | _ => [] end.

(** ** The machine *)

(** A [Command] and its [Output]: whether the exit status is a success, and what the
    program wrote to its standard output. *)
Record Command := mkCommand { program : string; current_dir : option string; args : list string }.
Record Output := mkOutput { success : bool; out : string }.

(** What sha256sum prints literally; it escapes a backslash and a newline in a name. *)
Fixpoint plain (s : string) : bool :=
  match s with
  | EmptyString => true
  | String a s => negb (Ascii.eqb a "092"%char) && negb (Ascii.eqb a "010"%char) && plain s
  end.

(** What is handed to bindgen. *)
Record Bindgen := mkBindgen {
  header : string;
  clang_args : list string;
  allowlist_function : string;
  allowlist_type : string;
  allowlist_var : string }.

Class Machine := {
  host : Type;
  (** the environment; [None] is text that is not Unicode *)
  m_vars : host -> list (option string * option string);
  (** [std::fs]; [None] is an error *)
  m_read_to_string : string -> host -> option string;
  m_exists : string -> host -> bool;
  m_create_dir_all : string -> host -> host * option unit;
  m_write : string -> string -> host -> host * option unit;
  (** [None]: the program could not be started *)
  m_run : Command -> host -> host * option Output;
  (** [std::path] *)
  m_join : string -> string -> string;
  m_parent : string -> option string;
  (** shiguredo_toml *)
  table : Type;
  value : Type;
  toml_parse : string -> option table;
  tb_get : string -> table -> option value;
  tv_get : string -> value -> option value;
  tv_as_str : value -> option string;
  tv_as_table : value -> option table;
  (** shiguredo_cmake; [None] is a panic *)
  cm_set_cmake_env : host -> host * option unit;
  cm_build : string -> list (string * string) -> host -> host * option string;
  (** bindgen *)
  bg_generate : Bindgen -> host -> host * option string }.

(** What the programs document: curl writes what the URL serves; sha256sum prints the
    digest of a file and changes nothing. *)
Class MachineDoc `{Machine} := {
  contents : string -> host -> option string;
  published : string -> string;
  sha256 : string -> string;
  doc_read p h t : m_read_to_string p h = Some t -> contents p h = Some t;
  doc_join d : m_join d "prebuilt.tar.gz" <> m_join d "prebuilt.tar.gz.sha256";
  doc_curl url dest h : let '(h', o) := m_run (mkCommand "curl" None ["-fsSL"; "-o"; dest; url]) h in
    match o with
    | Some o => success o = true -> contents dest h' = Some (published url) /\
        forall p, p <> dest -> contents p h' = contents p h
    | None => True
    end;
  doc_sha256 c path h : plain path = true ->
    c = mkCommand "shasum" None ["-a"; "256"; path] \/ c = mkCommand "sha256sum" None [path] ->
    let '(h', o) := m_run c h in
    (forall p, contents p h' = contents p h) /\
    match o with
    | Some o => success o = true -> exists b rest, contents path h = Some b /\
        String.words (out o) = sha256 b :: rest
    | None => True
    end;
  doc_hexadecimal b : to_lowercase (sha256 b) = sha256 b }.

(** The features of the crate and the target of the script. *)
Record Cfg := mkCfg {
  source_build : bool;
  overwrite : bool;
  target_os_macos : bool;
  target_env_msvc : bool }.

(** The script: the machine, the lines it printed, and the programs it started, each with
    the machine they found. *)
Record Ran `{Machine} := mkRan { found : host; command : Command; gave : option Output }.
Record Script `{Machine} := mkScript {
  machine : host;
  stdout : list string;
  stderr : list string;
  ran : list Ran }.
Arguments mkRan {_} found command gave.
Arguments mkScript {_} machine stdout stderr ran.
#[export] Instance Script_eta `{Machine} : Eta Script := fun s =>
  mkScript (machine s) (stdout s) (stderr s) (ran s).

Section script.
Context {mach : Machine} (cfg : Cfg).
Notation B := (M Script).

Definition fails {A} (msg : string) : B A := throw (Internal msg).
Definition or_fails {A} (msg : string) (o : option A) : B A :=
  match o with Some a => mret a | None => fails msg end.
Definition must {A} (o : option A) : B A := or_fails "build script must succeed" o.
Definition on_machine {A} (f : host -> host * A) : B A := call (fun s =>
  let '(h, a) := f (machine s) in (s <| machine := h |>, a)).
Definition look {A} (f : host -> A) : B A := gets (fun s => f (machine s)).
Definition println (line : string) : B unit := modify (fun s => s <| stdout := stdout s ++ [line] |>).
Definition eprintln (line : string) : B unit := modify (fun s => s <| stderr := stderr s ++ [line] |>).

(** [Command::status] and [Command::output] *)
Definition run (c : Command) : B (option Output) := call (fun s =>
  let '(h, o) := m_run c (machine s) in
  (s <| machine := h |> <| ran := ran s ++ [mkRan (machine s) c o] |>, o)).

(** [std::env::var]: [None] is an error. *)
Fixpoint lookup_var (key : string) (l : list (option string * option string)) : option string :=
  match l with
  | [] => None
  | (Some k, v) :: l => if String.eqb k key then v else lookup_var key l
  | (None, _) :: l => lookup_var key l
  end.
Definition var (key : string) : B (option string) := look (fun h => lookup_var key (m_vars h)).

(** ** aws-lc *)

Definition LIB_NAME : string := "ngtcp2".
Definition STATIC_LIBS : list string := ["ngtcp2"; "ngtcp2_crypto_boringssl"].

(** [for (key, _) in std::env::vars()], which panics where it finds text that is not
    Unicode *)
Fixpoint find_links_name (l : list (option string * option string)) : B string :=
  match l with
  | [] => fails "DEP_AWS_LC_*_INCLUDE not found - aws-lc-sys dependency required"
  | (Some key, Some _) :: l =>
      if starts_with "DEP_AWS_LC_" key && ends_with "_INCLUDE" key then
        middle ← must (strip_prefix "DEP_" key);
        middle ← must (strip_suffix "_INCLUDE" middle);
        mret (to_lowercase middle)
      else find_links_name l
  | _ :: l => fails "called `Result::unwrap()` on an `Err` value"
  end.
Definition detect_aws_lc_links_name : B string := l ← look m_vars; find_links_name l.

Definition aws_lc_include_dir : B string :=
  links ← detect_aws_lc_links_name;
  let include_env := "DEP_" +:+ to_uppercase links +:+ "_INCLUDE" in
  v ← var include_env;
  or_fails (include_env +:+ " not set - aws-lc-sys dependency required") v.

(** ** The source tree *)

Definition read_external_dependency (name : string) : B table :=
  v ← var "CARGO_MANIFEST_DIR";
  manifest_dir ← must v;
  t ← look (m_read_to_string (m_join manifest_dir "Cargo.toml"));
  cargo_toml ← or_fails "Failed to read Cargo.toml" t;
  parsed ← or_fails "Failed to parse Cargo.toml" (toml_parse cargo_toml);
  or_fails ("Missing [package.metadata.external-dependencies." +:+ name +:+ "]")
    (p ← tb_get "package" parsed;
     m ← tv_get "metadata" p;
     e ← tv_get "external-dependencies" m;
     d ← tv_get name e;
     tv_as_table d).

Definition succeeded (o : option Output) : bool :=
  match o with Some o => success o | None => false end.

(** [.status().expect(not_started)] and [if !status.success() { panic!(failed) }] *)
Definition run_or_fail (not_started failed : string) (c : Command) : B unit :=
  o ← run c;
  status ← or_fails not_started o;
  if success status then mret tt else fails failed.

Definition fetch_failed : string := "cargo:warning=Failed to fetch ngtcp2; using existing checkout".

Definition fetch_ngtcp2 (out_dir : string) : B string :=
  dep ← read_external_dependency "ngtcp2";
  git_url ← or_fails "Missing 'git' field in ngtcp2 dependency" (v ← tb_get "git" dep; tv_as_str v);
  let branch := v ← tb_get "branch" dep; tv_as_str v in
  let version := v ← tb_get "version" dep; tv_as_str v in
  match version, branch with
  | None, None => fails "ngtcp2 dependency requires either 'branch' or 'version'"
  | _, _ =>
      let ngtcp2_dir := m_join out_dir "ngtcp2" in
      e ← look (m_exists ngtcp2_dir);
      (if e : bool then
         status ← run (mkCommand "git" (Some ngtcp2_dir) ["fetch"; "origin"; "--tags"]);
         if succeeded status then mret tt
         else println fetch_failed
       else
         run_or_fail "Failed to execute git clone" ("Failed to clone ngtcp2 from " +:+ git_url)
           (mkCommand "git" None ["clone"; git_url; ngtcp2_dir])) ;;
      rev ← match version, branch with
            | Some ver, _ => mret ("v" +:+ ver)
            | None, Some branch_name => mret branch_name
            | None, None => fails "internal error: entered unreachable code: checked above"
            end;
      run_or_fail "Failed to execute git checkout" ("Failed to checkout " +:+ rev +:+ " in ngtcp2")
        (mkCommand "git" (Some ngtcp2_dir) ["checkout"; "--force"; rev]) ;;
      mret ngtcp2_dir
  end.

(** ** The library that was built for this platform *)

Definition not_available : string :=
  "Build ngtcp2 from source with `--features source-build` instead".

(** [for line in content.lines()] *)
Fixpoint find_version (l : list string) : B string :=
  match l with
  | [] => fails ("prebuilt ngtcp2 is not available for this Linux distribution. " +:+ not_available)
  | line :: l =>
      match strip_prefix "VERSION_ID=" line with
      | Some version =>
          let version := trim_matches "034"%char version in
          if existsb (String.eqb version) ["22.04"; "24.04"; "26.04"] then mret version
          else find_version l
      | None => find_version l
      end
  end.
Definition linux_version : B string :=
  t ← look (m_read_to_string "/etc/os-release");
  content ← or_fails
    "Failed to read /etc/os-release. Build with `--features source-build` instead" t;
  find_version (lines content).

Definition target_platform : B string :=
  t ← var "NGTCP2_TARGET";
  match t with
  | Some target => mret target
  | None =>
      o ← var "CARGO_CFG_TARGET_OS";
      a ← var "CARGO_CFG_TARGET_ARCH";
      let target_os := default "" o in
      let target_arch := default "" a in
      if String.eqb target_os "linux" && String.eqb target_arch "x86_64" then
        v ← linux_version; mret ("ubuntu-" +:+ v +:+ "_x86_64")
      else if String.eqb target_os "linux" && String.eqb target_arch "aarch64" then
        v ← linux_version; mret ("ubuntu-" +:+ v +:+ "_arm64")
      else if String.eqb target_os "macos" && String.eqb target_arch "aarch64" then
        mret "macos_arm64"
      else fails ("prebuilt ngtcp2 is not available for os=" +:+ target_os +:+ ", arch=" +:+
                  target_arch +:+ ". " +:+ not_available)
  end.

Definition download (url dest : string) : B unit :=
  run_or_fail "Failed to execute curl. Ensure curl is installed"
    ("Failed to download " +:+ url +:+ ". " +:+ not_available)
    (mkCommand "curl" None ["-fsSL"; "-o"; dest; url]).

(** [split_whitespace().next()] *)
Definition first_word (s : string) : option string := head (String.words s).

Definition sha256_command (path : string) : Command :=
  if target_os_macos cfg then mkCommand "shasum" None ["-a"; "256"; path]
  else mkCommand "sha256sum" None [path].

Definition compute_sha256 (path : string) : B string :=
  o ← run (sha256_command path);
  output ← or_fails
    (if target_os_macos cfg then "Failed to execute shasum. Ensure shasum is installed"
     else "Failed to execute sha256sum. Ensure coreutils is installed") o;
  if success output then
    w ← or_fails "Unexpected shasum/sha256sum output format" (first_word (out output));
    mret (to_lowercase w)
  else fails ("Failed to compute SHA256 checksum of " +:+ path).

Definition verify_sha256 (file_path checksum_path : string) : B unit :=
  t ← look (m_read_to_string checksum_path);
  text ← or_fails "Failed to read SHA256 checksum file" t;
  w ← or_fails "SHA256 checksum file is empty" (first_word text);
  let expected := to_lowercase w in
  actual ← compute_sha256 file_path;
  if String.eqb actual expected then eprintln ("SHA256 checksum verified: " +:+ actual)
  else fails ("SHA256 checksum mismatch:" +:+ newline +:+ "  expected: " +:+ expected +:+
              newline +:+ "  actual:   " +:+ actual).

(** [for lib in STATIC_LIBS { if !path.exists() { panic!(..) } }] *)
Fixpoint check_libs (lib_dir archive_url : string) (l : list string) : B unit :=
  match l with
  | [] => mret tt
  | lib :: l =>
      let path := m_join lib_dir ("lib" +:+ lib +:+ ".a") in
      e ← look (m_exists path);
      if e : bool then check_libs lib_dir archive_url l
      else fails (path +:+ " is missing in " +:+ archive_url +:+ ". " +:+ not_available)
  end.

Definition archive_of (version target : string) : string :=
  "https://github.com/shiguredo/ngtcp2-rs/releases/download/" +:+ version +:+ "/" +:+
  LIB_NAME +:+ "-" +:+ target +:+ ".tar.gz".

Definition download_prebuilt (out_dir : string) : B (string * string) :=
  target ← target_platform;
  v ← var "CARGO_PKG_VERSION";
  version ← or_fails "CARGO_PKG_VERSION is not set" v;
  let archive_url := archive_of version target in
  let checksum_url := archive_url +:+ ".sha256" in
  let archive_path := m_join out_dir "prebuilt.tar.gz" in
  let checksum_path := m_join out_dir "prebuilt.tar.gz.sha256" in
  let prebuilt_dir := m_join out_dir "prebuilt" in
  r ← on_machine (m_create_dir_all prebuilt_dir);
  or_fails "Failed to create prebuilt directory" r ;;
  eprintln ("Downloading prebuilt ngtcp2: " +:+ archive_url) ;;
  download archive_url archive_path ;;
  download checksum_url checksum_path ;;
  verify_sha256 archive_path checksum_path ;;
  run_or_fail "Failed to execute tar. Ensure tar is installed" ("Failed to extract " +:+ archive_url)
    (mkCommand "tar" None ["xzf"; archive_path; "-C"; prebuilt_dir]) ;;
  let lib_dir := m_join prebuilt_dir "lib" in
  let include_dir := m_join prebuilt_dir "include" in
  check_libs lib_dir archive_url STATIC_LIBS ;;
  mret (lib_dir, include_dir).

(** ** The library built from source *)

Definition overwrite_bindgen (out_dir : string) : B unit :=
  v ← var "CARGO_MANIFEST_DIR";
  manifest_dir ← must v;
  let ngtcp2_installed_include := m_join out_dir "include" in
  let ngtcp2_source_include := m_join (m_join (m_join out_dir "ngtcp2") "lib") "includes" in
  aws_lc_include ← aws_lc_include_dir;
  g ← on_machine (bg_generate (mkBindgen (m_join manifest_dir "src/wrapper.h")
        ["-I" +:+ ngtcp2_installed_include; "-I" +:+ ngtcp2_source_include; "-I" +:+ aws_lc_include]
        "ngtcp2_.*" "ngtcp2_.*" "NGTCP2_.*"));
  bindings ← or_fails "Failed to generate ngtcp2 bindings" g;
  w ← on_machine (m_write (m_join (m_join manifest_dir "src") "bindings.rs") bindings);
  or_fails "Failed to write ngtcp2 bindings" w.

Definition build_from_source (out_dir : string) : B (string * string) :=
  ngtcp2_dir ← fetch_ngtcp2 out_dir;
  aws_lc_include ← aws_lc_include_dir;
  aws_lc_out_dir ← or_fails "Failed to get parent directory of include path" (m_parent aws_lc_include);
  let aws_lc_lib_dir := m_join (m_join aws_lc_out_dir "build") "artifacts" in
  aws_lc_links ← detect_aws_lc_links_name;
  let '(ssl_lib, crypto_lib) :=
    if target_env_msvc cfg then
      (m_join aws_lc_lib_dir (aws_lc_links +:+ "_ssl.lib"),
       m_join aws_lc_lib_dir (aws_lc_links +:+ "_crypto.lib"))
    else
      (m_join aws_lc_lib_dir ("lib" +:+ aws_lc_links +:+ "_ssl.a"),
       m_join aws_lc_lib_dir ("lib" +:+ aws_lc_links +:+ "_crypto.a")) in
  let boringssl_libraries := forward_slashes ssl_lib +:+ ";" +:+ forward_slashes crypto_lib in
  r ← on_machine cm_set_cmake_env;
  or_fails "set_cmake_env" r ;;
  d ← on_machine (cm_build ngtcp2_dir
        [("ENABLE_STATIC_LIB", "ON"); ("ENABLE_SHARED_LIB", "OFF"); ("ENABLE_LIB_ONLY", "ON");
         ("BUILD_TESTING", "OFF"); ("ENABLE_OPENSSL", "OFF"); ("ENABLE_BORINGSSL", "ON");
         ("BORINGSSL_INCLUDE_DIR", aws_lc_include); ("BORINGSSL_LIBRARIES", boringssl_libraries)]);
  ngtcp2_dst ← or_fails "build" d;
  lib64 ← look (m_exists (m_join ngtcp2_dst "lib64"));
  let lib_dir := m_join ngtcp2_dst (if lib64 : bool then "lib64" else "lib") in
  (if overwrite cfg then overwrite_bindgen out_dir else mret tt) ;;
  mret (lib_dir, m_join ngtcp2_dst "include").

(** ** The script *)

Definition should_use_prebuilt : bool := negb (source_build cfg || overwrite cfg).

Definition rerun_if : list string :=
  ["cargo::rerun-if-changed=Cargo.toml"; "cargo::rerun-if-changed=src/wrapper.h";
   "cargo::rerun-if-changed=build.rs";
   "cargo::rerun-if-env-changed=CARGO_FEATURE_SOURCE_BUILD";
   "cargo::rerun-if-env-changed=NGTCP2_TARGET"].

Definition main : B unit :=
  for_each rerun_if println ;;
  v ← var "OUT_DIR";
  out_dir ← must v;
  docs_rs ← var "DOCS_RS";
  match docs_rs with
  | Some _ => mret tt
  | None =>
      '(lib_dir, include_dir) ←
        (if should_use_prebuilt then download_prebuilt out_dir else build_from_source out_dir);
      println ("cargo:rustc-link-search=native=" +:+ lib_dir) ;;
      for_each STATIC_LIBS (fun lib => println ("cargo:rustc-link-lib=static=" +:+ lib)) ;;
      println ("cargo:include=" +:+ include_dir)
  end.

(** ** Steps of the script *)

Definition ran_after (s : Script) (c : Command) : Script :=
  let '(h, o) := m_run c (machine s) in
  s <| machine := h |> <| ran := ran s ++ [mkRan (machine s) c o] |>.
Definition result_of (s : Script) (c : Command) : option Output := (m_run c (machine s)).2.

Implicit Types (s : Script) (c : Command).

Lemma ran_ran_after s c : ran (ran_after s c) = ran s ++ [mkRan (machine s) c (result_of s c)].
Proof. unfold ran_after, result_of. by destruct (m_run c (machine s)). Qed.
Lemma stdout_ran_after s c : stdout (ran_after s c) = stdout s.
Proof. unfold ran_after. by destruct (m_run c (machine s)). Qed.
Lemma machine_ran_after s c : machine (ran_after s c) = (m_run c (machine s)).1.
Proof. unfold ran_after. by destruct (m_run c (machine s)). Qed.

Lemma wp_look {A} (f : host -> A) s Q : Q (Ok (f (machine s))) s -> wp (look f) s Q.
Proof. done. Qed.
Lemma wp_or_fails {A} msg (o : option A) s Q :
  (forall a, o = Some a -> Q (Ok a) s) -> (o = None -> Q (Err (Internal msg)) s) ->
  wp (or_fails msg o) s Q.
Proof. intros H1 H2. destruct o; [by apply H1|by apply H2]. Qed.
Lemma wp_run c s Q : Q (Ok (result_of s c)) (ran_after s c) -> wp (run c) s Q.
Proof.
  unfold wp, run, call, result_of, ran_after. by destruct (m_run c (machine s)).
Qed.
Lemma wp_run_or_fail n f c s Q :
  (succeeded (result_of s c) = true -> Q (Ok tt) (ran_after s c)) ->
  (forall msg, Q (Err (Internal msg)) (ran_after s c)) ->
  wp (run_or_fail n f c) s Q.
Proof.
  intros Hok Hfail. unfold run_or_fail. apply wp_bind, wp_run, wp_bind.
  apply wp_or_fails; [|intros _; apply Hfail]. intros o Ho.
  unfold succeeded in Hok. rewrite Ho in Hok.
  destruct (success o); [apply wp_ret, Hok; done|apply wp_throw, Hfail].
Qed.
Lemma wp_on_machine {A} (f : host -> host * A) s Q :
  Q (Ok (f (machine s)).2) (s <| machine := (f (machine s)).1 |>) -> wp (on_machine f) s Q.
Proof. unfold wp, on_machine, call. by destruct (f (machine s)). Qed.

(** [does R m]: [m] returns, and relates the state it starts from to the one it leaves. *)
Definition does {A} (R : Script -> Script -> Prop) (m : B A) : Prop :=
  forall s, wp m s (fun _ s' => R s s').

Section does.
Context (R : Script -> Script -> Prop) `{!PreOrder R}.

Lemma does_ret {A} (a : A) : does R (mret a).
Proof. intros s. apply wp_ret. reflexivity. Qed.
Lemma does_fails {A} msg : does R (fails msg : B A).
Proof. intros s. apply wp_throw. reflexivity. Qed.
Lemma does_or_fails {A} msg (o : option A) : does R (or_fails msg o).
Proof. intros s. apply wp_or_fails; intros; reflexivity. Qed.
Lemma does_look {A} (f : host -> A) : does R (look f).
Proof. intros s. apply wp_look. reflexivity. Qed.
Lemma does_bind {A C} (m : B A) (f : A -> B C) :
  does R m -> (forall a, does R (f a)) -> does R (m ≫= f).
Proof.
  intros Hm Hf s. apply wp_bind. eapply wp_mono; [apply Hm|]. intros [a|e] s1 H1; [|done].
  eapply wp_mono; [apply Hf|]. intros r s2 H2. by etrans.
Qed.
Lemma does_println line : (forall s, R s (s <| stdout := stdout s ++ [line] |>)) -> does R (println line).
Proof. intros H s. apply wp_modify, H. Qed.
Lemma does_run c : (forall s, R s (ran_after s c)) -> does R (run c).
Proof. intros H s. apply wp_run, H. Qed.
Lemma does_run_or_fail n f c : (forall s, R s (ran_after s c)) -> does R (run_or_fail n f c).
Proof. intros H s. apply wp_run_or_fail; intros; apply H. Qed.
Lemma does_on_machine {A} (f : host -> host * A) :
  (forall s h, R s (s <| machine := h |>)) -> does R (on_machine f).
Proof. intros H s. apply wp_on_machine, H. Qed.
End does.

Ltac does_step :=
  match goal with
  | |- does _ (mbind _ _) => apply does_bind; [apply _| |intros]
  | |- does _ (mret _) => apply does_ret; apply _
  | |- does _ (fails _) => apply does_fails; apply _
  | |- does _ (or_fails _ _) => apply does_or_fails; apply _
  | |- does _ (must _) => apply does_or_fails; apply _
  | |- does _ (look _) => apply does_look; apply _
  | |- does _ (var _) => apply does_look; apply _
  | |- does _ (match ?x with _ => _ end) => destruct x
  | H : does _ ?m |- does _ ?m => exact H
  end.

(** What only looks at the machine. *)
Lemma find_links_name_looks l : does eq (find_links_name l).
Proof. induction l as [|[[?|] [?|]] l IH]; cbn; repeat does_step. Qed.
Lemma aws_lc_include_dir_looks : does eq aws_lc_include_dir.
Proof.
  unfold aws_lc_include_dir, detect_aws_lc_links_name. repeat does_step.
  apply find_links_name_looks.
Qed.
Lemma read_external_dependency_looks name : does eq (read_external_dependency name).
Proof. unfold read_external_dependency. repeat does_step. Qed.
Lemma find_version_looks l : does eq (find_version l).
Proof. induction l as [|x l IH]; cbn; repeat does_step. Qed.
Lemma target_platform_looks : does eq target_platform.
Proof.
  unfold target_platform, linux_version. repeat does_step; apply find_version_looks.
Qed.
Lemma check_libs_looks d u l : does eq (check_libs d u l).
Proof. induction l as [|x l IH]; cbn; repeat does_step. Qed.

(** A part that only looks, in front of the rest. *)
Lemma wp_looks {A C} (m : B A) (f : A -> B C) s Q :
  does eq m -> (forall a, m s = Done a s -> wp (f a) s Q) -> (forall e, m s = Fail e s -> Q (Err e) s) ->
  wp (m ≫= f) s Q.
Proof.
  intros Hm Hf He. apply wp_bind. specialize (Hm s). unfold wp in *.
  destruct (m s) as [a s'|e s'| |] eqn:E; [subst s'..|done|done].
  - apply (Hf a eq_refl).
  - apply (He e eq_refl).
Qed.

(** ** The archive is what was published *)

Section verified.
Context {doc : MachineDoc}.

(** An archive that tar was told to extract. *)
Definition verified (r : Ran) : Prop :=
  exists archive dir url b w rest,
    command r = mkCommand "tar" None ["xzf"; archive; "-C"; dir] /\
    contents archive (found r) = Some b /\ b = published url /\
    String.words (published (url +:+ ".sha256")) = w :: rest /\ to_lowercase w = sha256 b.
Definition extracts_verified (l : list Ran) : Prop :=
  forall r, r ∈ l -> program (command r) = "tar" -> verified r.

(** The programs that were started are kept, others than tar added. *)
Definition no_tar s s' : Prop :=
  exists l, ran s' = ran s ++ l /\ Forall (fun r => program (command r) <> "tar") l.
#[local] Instance no_tar_preorder : PreOrder no_tar.
Proof.
  split.
  - intros s. exists []. by rewrite app_nil_r.
  - intros s1 s2 s3 (l & Hl & Fl) (l' & Hl' & Fl'). exists (l ++ l').
    rewrite Hl', Hl, app_assoc. split; [done|]. by apply Forall_app.
Qed.
Lemma no_tar_verified s s' : no_tar s s' -> extracts_verified (ran s) -> extracts_verified (ran s').
Proof.
  intros (l & -> & Hl) H r Hr Hp. apply elem_of_app in Hr as [Hr|Hr]; [by apply H|].
  rewrite Forall_forall in Hl. by destruct (Hl r Hr).
Qed.
Lemma no_tar_ran_after s c : program c <> "tar" -> no_tar s (ran_after s c).
Proof. intros H. eexists. rewrite ran_ran_after. split; [done|]. by repeat constructor. Qed.

Lemma does_weaken {A} (R R' : Script -> Script -> Prop) (m : B A) :
  does R m -> (forall s s', R s s' -> R' s s') -> does R' m.
Proof. intros H HR s. eapply wp_mono; [apply H|]. intros r s'. apply HR. Qed.
Lemma looks_no_tar {A} (m : B A) : does eq m -> does no_tar m.
Proof. intros H. eapply does_weaken; [exact H|]. by intros s s' ->. Qed.

Lemma println_no_tar line : does no_tar (println line).
Proof. apply does_println. intros s. exists []. by rewrite app_nil_r. Qed.
Lemma on_machine_no_tar {A} (f : host -> host * A) : does no_tar (on_machine f).
Proof. apply does_on_machine. intros s h. exists []. by rewrite app_nil_r. Qed.

Lemma fetch_ngtcp2_no_tar out_dir : does no_tar (fetch_ngtcp2 out_dir).
Proof.
  unfold fetch_ngtcp2. apply does_bind; [apply _|apply looks_no_tar, read_external_dependency_looks|].
  intros dep. repeat first [does_step | apply println_no_tar
    | apply does_run; intros; by apply no_tar_ran_after
    | apply does_run_or_fail; intros; by apply no_tar_ran_after].
Qed.
Lemma build_from_source_no_tar out_dir : does no_tar (build_from_source out_dir).
Proof.
  unfold build_from_source, overwrite_bindgen, detect_aws_lc_links_name.
  repeat first [does_step | apply fetch_ngtcp2_no_tar | apply on_machine_no_tar
    | apply looks_no_tar, aws_lc_include_dir_looks | apply looks_no_tar, find_links_name_looks].
Qed.

(** What [verify_sha256] leaves: nothing changed, and if it returns, the file has the
    digest that the checksum file names. *)
Lemma verify_sha256_correct file sum s b t :
  plain file = true -> contents file (machine s) = Some b -> contents sum (machine s) = Some t ->
  wp (verify_sha256 file sum) s (fun r s' => no_tar s s' /\
    (r = Ok tt -> contents file (machine s') = Some b /\
      exists w rest, String.words t = w :: rest /\ to_lowercase w = sha256 b)).
Proof.
  intros Hplain Hb Ht. unfold verify_sha256.
  apply wp_bind, wp_look, wp_bind, wp_or_fails; [|by intros _].
  intros t' Hr. apply doc_read in Hr. rewrite Ht in Hr. injection Hr as <-.
  unfold first_word. destruct (String.words t) as [|w rest] eqn:Hw; [by apply wp_bind|].
  apply wp_bind, wp_ret, wp_bind. unfold compute_sha256. apply wp_bind, wp_run.
  set (c := sha256_command file).
  assert (no_tar s (ran_after s c)) as Hnt.
  { apply no_tar_ran_after. unfold c, sha256_command. by destruct (target_os_macos cfg). }
  pose proof (doc_sha256 c file (machine s) Hplain) as Hsum.
  unfold result_of. destruct (m_run c (machine s)) as [h' o] eqn:Ho. cbn.
  destruct Hsum as [Hsame Hsum].
  { unfold c, sha256_command. destruct (target_os_macos cfg); auto. }
  apply wp_bind, wp_or_fails; [|by intros _]. intros o' ->. cbn in Hsum.
  destruct (success o') eqn:Es; [|by apply wp_throw].
  destruct (Hsum eq_refl) as (b' & rest' & Hb' & Hout). unfold first_word. rewrite Hout.
  cbn. rewrite Hb in Hb'. injection Hb' as <-. apply wp_bind, wp_ret, wp_ret.
  rewrite doc_hexadecimal. destruct (String.eqb_spec (sha256 b) (to_lowercase w)) as [E|E];
    [|by apply wp_throw].
  apply wp_modify. split.
  - destruct Hnt as (l & Hl & Fl). by exists l.
  - intros _. cbn. rewrite machine_ran_after, Ho, Hsame. eauto.
Qed.

Definition lib_path (lib_dir lib : string) : string := m_join lib_dir ("lib" +:+ lib +:+ ".a").

Lemma check_libs_correct d u l s :
  wp (check_libs d u l) s (fun r s' => s' = s /\
    (r = Ok tt -> forall lib, lib ∈ l -> m_exists (lib_path d lib) (machine s) = true)).
Proof.
  induction l as [|x l IH]; cbn.
  { split; [done|]. intros _ lib Hl. by apply elem_of_nil in Hl. }
  apply wp_bind, wp_look. destruct (m_exists _ _) eqn:E; [|by apply wp_throw].
  eapply wp_mono; [apply IH|]. intros r s' [-> H]. split; [done|].
  intros Hr lib Hl. apply elem_of_cons in Hl as [->|Hl]; [done|]. by apply H.
Qed.

(** What curl was told to fetch is at its place. *)
Lemma download_correct url dest s :
  wp (download url dest) s (fun r s' => no_tar s s' /\ stdout s' = stdout s /\
    (r = Ok tt -> contents dest (machine s') = Some (published url) /\
      forall p, p <> dest -> contents p (machine s') = contents p (machine s))).
Proof.
  unfold download. set (c := mkCommand _ _ _).
  assert (no_tar s (ran_after s c)) as Hnt by by apply no_tar_ran_after.
  apply wp_run_or_fail; [|intros msg; by rewrite stdout_ran_after].
  intros Hok. split; [done|]. split; [apply stdout_ran_after|]. intros _.
  rewrite machine_ran_after. pose proof (doc_curl url dest (machine s)) as H.
  fold c in H. unfold result_of in Hok. destruct (m_run c (machine s)) as [h o]. cbn in *.
  destruct o as [o|]; [|done]. by apply H.
Qed.

Lemma verify_sha256_stdout file sum :
  does (fun s s' => stdout s' = stdout s) (verify_sha256 file sum).
Proof.
  assert (PreOrder (fun s s' => stdout s' = stdout s)) as Hpre by (split; congruence).
  unfold verify_sha256, compute_sha256.
  repeat first [does_step | apply does_run; intros; apply stdout_ran_after].
  by intros s.
Qed.

(** The download: nothing is extracted that is not the published archive, and the files
    that will be linked are there. *)
Lemma download_prebuilt_correct out_dir s :
  plain (m_join out_dir "prebuilt.tar.gz") = true -> extracts_verified (ran s) ->
  wp (download_prebuilt out_dir) s (fun r s' => extracts_verified (ran s') /\ stdout s' = stdout s /\
    forall l i, r = Ok (l, i) -> forall lib, lib ∈ STATIC_LIBS ->
      m_exists (lib_path l lib) (machine s') = true).
Proof.
  intros Hplain Hs. unfold download_prebuilt. set (a := m_join out_dir "prebuilt.tar.gz").
  apply wp_looks; [apply target_platform_looks| |done]. intros target _.
  apply wp_bind, wp_look, wp_bind, wp_or_fails; [|done]. intros version _.
  set (url := archive_of version target).
  apply wp_bind, wp_on_machine, wp_bind, wp_or_fails; [|done]. intros _ _.
  apply wp_bind, wp_modify, wp_bind. eapply wp_mono; [apply download_correct|].
  intros r s1 (N1 & O1 & H1). apply no_tar_verified in N1; [|exact Hs].
  change (stdout s1 = stdout s) in O1.
  destruct r as [[]|e]; [|done]. destruct (H1 eq_refl) as [C1 _].
  apply wp_bind. eapply wp_mono; [apply download_correct|].
  intros r s2 (N2 & O2 & H2). apply no_tar_verified in N2; [|exact N1].
  destruct r as [[]|e]; [|split; [done|]; split; [congruence|done]]. destruct (H2 eq_refl) as [C2 K2].
  rewrite <- (K2 a) in C1; [|apply doc_join].
  apply wp_bind. eapply wp_mono.
  { apply wp_and; [eapply verify_sha256_correct; eassumption|apply verify_sha256_stdout]. }
  intros r s3 [[N3 H3] O3]. apply no_tar_verified in N3; [|exact N2].
  destruct r as [[]|e]; [|split; [done|]; split; [congruence|done]].
  destruct (H3 eq_refl) as (C3 & w & rest & Hw & Hb).
  set (c := mkCommand "tar" None _). apply wp_bind.
  assert (extracts_verified (ran (ran_after s3 c))) as H4.
  { rewrite ran_ran_after. intros x Hx Hp. apply elem_of_app in Hx as [Hx|Hx]; [by apply N3|].
    apply list_elem_of_singleton in Hx as ->. cbn.
    exists a, (m_join out_dir "prebuilt"), url, (published url), w, rest. done. }
  apply wp_run_or_fail; [intros _|intros msg].
  - apply wp_bind. eapply wp_mono; [apply check_libs_correct|]. intros r s5 [-> H5].
    pose proof (stdout_ran_after s3 c) as O4.
    destruct r as [[]|e]; [|split; [done|]; split; [congruence|done]].
    apply wp_ret. split; [done|]. split; [congruence|]. intros l i Hli. injection Hli as <- <-.
    by apply H5.
  - rewrite stdout_ran_after. split; [done|]. split; [congruence|done].
Qed.

(** Building from source prints nothing but the warning. *)
Definition warns s s' : Prop :=
  exists w, stdout s' = stdout s ++ w /\ Forall (fun line => line = fetch_failed) w.
#[local] Instance warns_preorder : PreOrder warns.
Proof.
  split.
  - intros s. exists []. by rewrite app_nil_r.
  - intros s1 s2 s3 (w & Hw & Fw) (w' & Hw' & Fw'). exists (w ++ w').
    rewrite Hw', Hw, app_assoc. split; [done|]. by apply Forall_app.
Qed.
Lemma silent_warns s s' : stdout s' = stdout s -> warns s s'.
Proof. intros H. exists []. by rewrite H, app_nil_r. Qed.
Lemma looks_warns {A} (m : B A) : does eq m -> does warns m.
Proof. intros H. eapply does_weaken; [exact H|]. by intros s s' ->. Qed.
Lemma on_machine_warns {A} (f : host -> host * A) : does warns (on_machine f).
Proof. apply does_on_machine. intros s h. by apply silent_warns. Qed.

Lemma fetch_ngtcp2_warns out_dir : does warns (fetch_ngtcp2 out_dir).
Proof.
  unfold fetch_ngtcp2. apply does_bind; [apply _|apply looks_warns, read_external_dependency_looks|].
  intros dep. repeat first [does_step
    | apply does_println; intros ?; exists [fetch_failed]; split; [done|by repeat constructor]
    | apply does_run; intros; apply silent_warns, stdout_ran_after
    | apply does_run_or_fail; intros; apply silent_warns, stdout_ran_after].
Qed.
Lemma build_from_source_warns out_dir : does warns (build_from_source out_dir).
Proof.
  unfold build_from_source, overwrite_bindgen, detect_aws_lc_links_name.
  repeat first [does_step | apply fetch_ngtcp2_warns | apply on_machine_warns
    | apply looks_warns, aws_lc_include_dir_looks | apply looks_warns, find_links_name_looks].
Qed.

Lemma for_each_println {A} (f : A -> string) l s :
  for_each l (fun x => println (f x)) s = Done tt (s <| stdout := stdout s ++ map f l |>).
Proof.
  revert s. induction l as [|x l IH]; intros s; cbn.
  { rewrite app_nil_r. by destruct s. }
  unfold mbind, M_bind. cbn. rewrite IH. cbn. by rewrite <- app_assoc.
Qed.

Definition link_lines (lib_dir include_dir : string) : list string :=
  ["cargo:rustc-link-search=native=" +:+ lib_dir; "cargo:rustc-link-lib=static=ngtcp2";
   "cargo:rustc-link-lib=static=ngtcp2_crypto_boringssl"; "cargo:include=" +:+ include_dir].

(** What the script printed after the lines on when to run it again. *)
Definition prints (s : Script) (r : result Error unit) (s' : Script) (printed : list string) : Prop :=
  match r with
  | Ok _ => match lookup_var "DOCS_RS" (m_vars (machine s)) with
      | Some _ => printed = [] /\ ran s' = ran s
      | None => exists lib_dir include_dir warnings, printed = warnings ++ link_lines lib_dir include_dir /\
          Forall (fun line => line = fetch_failed) warnings /\
          (should_use_prebuilt = true -> warnings = [] /\
             forall lib, lib ∈ STATIC_LIBS -> m_exists (lib_path lib_dir lib) (machine s') = true)
      end
  | Err _ => Forall (fun line => line = fetch_failed) printed
  end.

(** C28: on any machine, whatever files, environment and programs it has, the build script
    does not panic and does not diverge, and it unpacks no archive whose digest it has not
    checked. It prints the lines that say when to run it again. When it then succeeds in a
    documentation build, it has printed nothing more and run no program; when it succeeds
    otherwise, the last lines tell Cargo to link the static libraries, after at most
    warnings that a fetch failed, and with prebuilt libraries there are no warnings and
    each library is in the directory that Cargo is told. When it fails, it has printed
    nothing more but such warnings. *)
Theorem build_script_correct s :
  ran s = [] ->
  (forall d, lookup_var "OUT_DIR" (m_vars (machine s)) = Some d ->
     plain (m_join d "prebuilt.tar.gz") = true) ->
  wp main s (fun r s' => extracts_verified (ran s') /\
    exists printed, stdout s' = stdout s ++ rerun_if ++ printed /\ prints s r s' printed).
Proof.
  intros Hran Hplain. assert (extracts_verified (ran s)) as Hv.
  { rewrite Hran. intros r Hr. by apply elem_of_nil in Hr. }
  unfold main. apply wp_bind. unfold wp at 1. rewrite (for_each_println id), map_id.
  set (s1 := s <| stdout := stdout s ++ rerun_if |>).
  assert (forall e, extracts_verified (ran s1) /\ exists printed,
    stdout s1 = stdout s ++ rerun_if ++ printed /\ prints s (Err e) s1 printed) as Herr.
  { intros e. split; [done|]. exists []. rewrite app_nil_r. by repeat constructor. }
  apply wp_bind, wp_look, wp_bind, wp_or_fails; [|intros _; apply Herr]. intros d Hd.
  apply wp_bind, wp_look. change (m_vars (machine s1)) with (m_vars (machine s)) in *.
  destruct (lookup_var "DOCS_RS" _) as [v|] eqn:Edocs.
  { apply wp_ret. split; [done|]. exists []. rewrite app_nil_r. split; [done|]. cbn. by rewrite Edocs. }
  apply wp_bind.
  apply (wp_mono _ _ (fun r s' => extracts_verified (ran s') /\ exists w,
    stdout s' = stdout s1 ++ w /\ Forall (fun line => line = fetch_failed) w /\
    (should_use_prebuilt = true -> w = [] /\ forall l i, r = Ok (l, i) -> forall lib, lib ∈ STATIC_LIBS ->
       m_exists (lib_path l lib) (machine s') = true))).
  { destruct should_use_prebuilt.
    - eapply wp_mono; [by apply download_prebuilt_correct; [apply Hplain|]|].
      intros r s' (H1 & H2 & H3). split; [done|]. exists []. by rewrite app_nil_r.
    - eapply wp_mono; [apply wp_and; [apply build_from_source_no_tar|apply build_from_source_warns]|].
      intros r s' [H1 (w & H2 & H3)]. split; [by eapply no_tar_verified|]. by exists w. }
  intros [[lib_dir include_dir]|e] s2 (V2 & w & O2 & W & P).
  - apply wp_bind, wp_modify, wp_bind. unfold wp at 1. rewrite for_each_println.
    apply wp_modify. split; [done|]. exists (w ++ link_lines lib_dir include_dir). split.
    { cbn. rewrite O2. cbn. by rewrite <- !app_assoc. }
    cbn. rewrite Edocs. exists lib_dir, include_dir, w. split; [done|]. split; [done|].
    intros E. destruct (P E) as [-> Hl]. split; [done|]. by eapply Hl.
  - split; [done|]. exists w. split; [|done]. rewrite O2. cbn. by rewrite <- app_assoc.
Qed.
End verified.

(** ** Which library *)

Lemma app_cons a (x y : string) : String a x +:+ y = String a (x +:+ y).
Proof. done. Qed.
Lemma app_nil (x : string) : "" +:+ x = x.
Proof. done. Qed.
Lemma app_nil_end (x : string) : x +:+ "" = x.
Proof. induction x as [|a x IH]; [done|]. by rewrite app_cons, IH. Qed.
Lemma app_assoc_string (x y z : string) : (x +:+ y) +:+ z = x +:+ y +:+ z.
Proof. induction x as [|a x IH]; [done|]. by rewrite !app_cons, IH. Qed.
Lemma strip_prefix_app p t : strip_prefix p (p +:+ t) = Some t.
Proof.
  induction p as [|a p IH]; [done|]. rewrite app_cons. cbn -[Ascii.eqb].
  by rewrite Ascii.eqb_refl.
Qed.
Lemma rev_app_acc x y : String.rev_app x y = String.rev x +:+ y.
Proof.
  unfold String.rev. revert y. induction x as [|a x IH]; intros y; [done|].
  cbn. by rewrite IH, (IH (String a "")), app_assoc_string.
Qed.
Lemma rev_cons a x : String.rev (String a x) = String.rev x +:+ String a "".
Proof. apply (rev_app_acc x (String a "")). Qed.
Lemma rev_app x y : String.rev (x +:+ y) = String.rev y +:+ String.rev x.
Proof.
  induction x as [|a x IH]; [by rewrite app_nil, app_nil_end|].
  by rewrite app_cons, !rev_cons, IH, app_assoc_string.
Qed.
Lemma rev_involutive x : String.rev (String.rev x) = x.
Proof. induction x as [|a x IH]; [done|]. by rewrite rev_cons, rev_app, IH. Qed.
Lemma strip_suffix_app p t : strip_suffix p (t +:+ p) = Some t.
Proof. unfold strip_suffix. rewrite rev_app, strip_prefix_app. cbn. by rewrite rev_involutive. Qed.

Definition names_aws_lc (key : string) : bool :=
  starts_with "DEP_AWS_LC_" key && ends_with "_INCLUDE" key.

(** The include directory is the value of the first variable that names one. *)
Lemma aws_lc_include_dir_correct s l1 l2 middle path :
  m_vars (machine s) = l1 ++ (Some ("DEP_" +:+ middle +:+ "_INCLUDE"), Some path) :: l2 ->
  Forall (fun kv => exists k v, kv = (Some k, Some v) /\ names_aws_lc k = false) l1 ->
  names_aws_lc ("DEP_" +:+ middle +:+ "_INCLUDE") = true ->
  to_uppercase (to_lowercase middle) = middle ->
  aws_lc_include_dir s = Done path s.
Proof.
  intros Hvars Hl1 Hkey Hup. set (key := "DEP_" +:+ middle +:+ "_INCLUDE") in *.
  assert (find_links_name (m_vars (machine s)) s = Done (to_lowercase middle) s) as Hf.
  { rewrite Hvars. clear Hvars. induction Hl1 as [|kv l1 (k & v & -> & Hk) Hl1 IH].
    - cbn -[starts_with ends_with strip_prefix]. fold (names_aws_lc key). rewrite Hkey.
      unfold key, must. rewrite strip_prefix_app. unfold mbind, M_bind. cbn -[strip_suffix].
      by rewrite strip_suffix_app.
    - cbn -[starts_with ends_with]. fold (names_aws_lc k). by rewrite Hk. }
  assert (lookup_var key (m_vars (machine s)) = Some path) as Hl.
  { rewrite Hvars. clear -Hl1 Hkey. induction Hl1 as [|kv l1 (k & v & -> & Hk) Hl1 IH]; cbn.
    - by rewrite String.eqb_refl.
    - destruct (String.eqb_spec k key) as [->|E]; [congruence|done]. }
  unfold aws_lc_include_dir, detect_aws_lc_links_name, look, gets, mbind, M_bind.
  rewrite Hf, Hup. fold key. unfold var, look, gets. by rewrite Hl.
Qed.

Lemma find_version_correct l s :
  wp (find_version l) s (fun r s' => s' = s /\
    forall v, r = Ok v -> v = "22.04" \/ v = "24.04" \/ v = "26.04").
Proof.
  induction l as [|x l IH]; [done|]; cbn -[trim_matches strip_prefix].
  destruct (strip_prefix _ x) as [v|]; [|exact IH].
  set (w := trim_matches _ v). cbn.
  destruct (String.eqb_spec w "22.04"); [|destruct (String.eqb_spec w "24.04");
    [|destruct (String.eqb_spec w "26.04"); [|exact IH]]];
  (split; [done|]; intros ? [= <-]; auto).
Qed.

(** The platforms that the release workflow builds for. *)
Lemma target_platform_released s :
  lookup_var "NGTCP2_TARGET" (m_vars (machine s)) = None ->
  wp target_platform s (fun r s' => s' = s /\ forall t, r = Ok t ->
    t ∈ ["ubuntu-22.04_x86_64"; "ubuntu-22.04_arm64"; "ubuntu-24.04_x86_64"; "ubuntu-24.04_arm64";
         "ubuntu-26.04_x86_64"; "ubuntu-26.04_arm64"; "macos_arm64"]).
Proof.
  intros Hv. unfold target_platform. apply wp_bind, wp_look. rewrite Hv.
  apply wp_bind, wp_look, wp_bind, wp_look.
  assert (forall a, a = "_x86_64" \/ a = "_arm64" ->
    wp (v ← linux_version; mret ("ubuntu-" +:+ v +:+ a)) s (fun r s' => s' = s /\ forall t, r = Ok t ->
    t ∈ ["ubuntu-22.04_x86_64"; "ubuntu-22.04_arm64"; "ubuntu-24.04_x86_64"; "ubuntu-24.04_arm64";
         "ubuntu-26.04_x86_64"; "ubuntu-26.04_arm64"; "macos_arm64"])) as H.
  { intros a Ha. unfold linux_version. apply wp_bind, wp_bind, wp_look, wp_bind, wp_or_fails; [|done].
    intros text _. eapply wp_mono; [apply find_version_correct|]. intros [v|e] s' [-> Hr]; [|done].
    apply wp_ret. split; [done|]. intros t [= <-].
    destruct (Hr v eq_refl) as [-> |[-> | ->]]; destruct Ha as [-> | ->]; set_solver. }
  destruct (_ && _); [apply H; auto|]. destruct (_ && _); [apply H; auto|].
  destruct (_ && _); [|by apply wp_throw]. apply wp_ret. split; [done|]. intros t [= <-]. set_solver.
Qed.

(** ** Which commit

    The working tree comes from the repository and is at the tag, or at the branch if
    there is no tag. A checkout that exists is used even if it could not be updated. *)
Definition git_url_of (dep : table) : option string := tb_get "git" dep ≫= tv_as_str.
Definition revision (dep : table) : option string :=
  match tb_get "version" dep ≫= tv_as_str with
  | Some ver => Some ("v" +:+ ver)
  | None => tb_get "branch" dep ≫= tv_as_str
  end.
Definition obtain (dir url : string) (present : bool) : Command :=
  if present then mkCommand "git" (Some dir) ["fetch"; "origin"; "--tags"]
  else mkCommand "git" None ["clone"; url; dir].
Definition checkout (dir rev : string) : Command :=
  mkCommand "git" (Some dir) ["checkout"; "--force"; rev].

(** Two programs ran, the second from where the first left the machine. *)
Definition checked_out (dir : string) (dep : table) (s s' : Script) : Prop :=
  exists url rev s1,
    let present := m_exists dir (machine s) in
    let first := obtain dir url present in
    git_url_of dep = Some url /\ revision dep = Some rev /\
    (present = false -> succeeded (result_of s first) = true) /\
    machine s1 = machine (ran_after s first) /\ ran s1 = ran (ran_after s first) /\
    s' = ran_after s1 (checkout dir rev) /\ succeeded (result_of s1 (checkout dir rev)) = true.

Lemma fetch_ngtcp2_correct out_dir dep s :
  let dir := m_join out_dir "ngtcp2" in
  read_external_dependency "ngtcp2" s = Done dep s ->
  wp (fetch_ngtcp2 out_dir) s (fun r s' => forall d, r = Ok d -> d = dir /\ checked_out dir dep s s').
Proof.
  intros dir Hdep. unfold fetch_ngtcp2. apply wp_looks;
    [apply read_external_dependency_looks| |by rewrite Hdep].
  intros dep' Hd. rewrite Hdep in Hd. injection Hd as <-.
  apply wp_bind, wp_or_fails; [|done]. intros url Hurl. fold dir.
  set (present := m_exists dir (machine s)). set (first := obtain dir url present).
  assert (forall (rev : B string) s1,
    (present = false -> succeeded (result_of s first) = true) ->
    machine s1 = machine (ran_after s first) -> ran s1 = ran (ran_after s first) ->
    (exists x, revision dep = Some x /\ rev s1 = Done x s1) ->
    wp (rev ← rev; run_or_fail "Failed to execute git checkout"
          ("Failed to checkout " +:+ rev +:+ " in ngtcp2") (checkout dir rev) ;; mret dir) s1
      (fun r s' => forall d, r = Ok d -> d = dir /\ checked_out dir dep s s')) as Hend.
  { intros rev s1 E1 E2 E3 (x & E4 & E5). apply wp_bind. unfold wp at 1. rewrite E5.
    apply wp_bind, wp_run_or_fail; [|done].
    intros Hok. apply wp_ret. intros d [= <-]. split; [done|]. by exists url, x, s1. }
  unfold revision in Hend.
  destruct (tb_get "version" dep ≫= tv_as_str) as [ver|] eqn:Ever;
    destruct (tb_get "branch" dep ≫= tv_as_str) as [br|] eqn:Ebr; try by apply wp_throw.
  all: apply wp_bind, wp_look; fold present.
  all: apply wp_bind; destruct present eqn:Ep.
  all: try (apply wp_run_or_fail; [|done]; intros Hok; apply Hend; try done; eauto).
  all: apply wp_bind, wp_run; destruct (succeeded _); apply wp_modify || apply wp_ret;
    apply Hend; try done; eauto.
Qed.
End script.

(** ** A computer

    The programs on it do to its files what they document, with a checksum of four bits
    and an archive that is the list of its files. git has one repository and its clone. *)
Record Computer := mkComputer {
  vars : list (option string * option string);
  files : gmap string string;
  origin : gmap string string;
  origin_tags : gmap string string;
  tracking : gmap string string;
  tags : gmap string string;
  heads : gmap string string;
  commit : string }.
#[export] Instance Computer_eta : Eta Computer := fun c =>
  mkComputer (vars c) (files c) (origin c) (origin_tags c) (tracking c) (tags c) (heads c) (commit c).

Definition unix_join (d x : string) : string :=
  match x with
  | String "/"%char _ => x
  | _ => if String.eqb d "" then x else if ends_with "/" d then d +:+ x else d +:+ "/" +:+ x
  end.
(** [Path::parent] of a path with no [.] components and no slashes in a row *)
Fixpoint drop_last (s : list string) : option string :=
  match s with
  | [] | [_] => None
  | [x; _] => Some x
  | x :: l => d ← drop_last l; Some (x +:+ "/" +:+ d)
  end.
Definition unix_parent (s : string) : option string := drop_last (split_on "/"%char s).

Definition four_bits (b : string) : string :=
  let n := foldr (fun a n => n + Z.of_nat (nat_of_ascii a)) 0 (String.list_ascii_of_string b) mod 16 in
  nth (Z.to_nat n) ["0"; "1"; "2"; "3"; "4"; "5"; "6"; "7"; "8"; "9"; "a"; "b"; "c"; "d"; "e"; "f"] "0".

Definition done_with (text : string) : option Output := Some (mkOutput true text).
Definition failed : option Output := Some (mkOutput false "").

Definition run_program (web : gmap string string) (c : Command) (m : Computer) : Computer * option Output :=
  match program c, args c with
  | "curl", [_; _; dest; url] =>
      match web !! url with
      | Some b => (m <| files := <[dest := b]> (files m) |>, done_with "")
      | None => (m, failed)
      end
  | "sha256sum", [path] | "shasum", [_; _; path] =>
      match files m !! path with
      | Some b => (m, done_with (four_bits b +:+ "  " +:+ path))
      | None => (m, failed)
      end
  | "tar", [_; path; _; dir] =>
      match files m !! path with
      | Some b => (m <| files := foldr (fun x => <[unix_join dir x := ""]>) (files m) (String.words b) |>, done_with "")
      | None => (m, failed)
      end
  | "git", ["clone"; _; dir] =>
      (m <| files := <[dir := ""]> (files m) |> <| tracking := origin m |> <| tags := origin_tags m |>, done_with "")
  | "git", ["fetch"; _; _] => (m <| tracking := origin m |> <| tags := origin_tags m |>, done_with "")
  | "git", [_; _; rev] =>
      match heads m !! rev, tags m !! rev, tracking m !! rev with
      | Some x, _, _ | None, Some x, _ => (m <| commit := x |>, done_with "")
      | None, None, Some x => (m <| heads := <[rev := x]> (heads m) |> <| commit := x |>, done_with "")
      | None, None, None => (m, failed)
      end
  | _, _ => (m, None)
  end.

(** A manifest is a branch name; cmake puts the commit it built into the library. *)
Inductive Node := Str (s : string) | Tab (l : list (string * Node)).
Definition find_node (name : string) (l : list (string * Node)) : option Node :=
  snd <$> find (fun kv => String.eqb kv.1 name) l.
Definition manifest (branch : string) : list (string * Node) :=
  [("package", Tab [("metadata", Tab [("external-dependencies", Tab [("ngtcp2",
      Tab [("git", Str "https://github.com/ngtcp2/ngtcp2"); ("branch", Str branch)])])])])].

Definition computer (web : gmap string string) : Machine := {|
  host := Computer;
  m_vars := vars;
  m_read_to_string p m := files m !! p;
  m_exists p m := bool_decide (is_Some (files m !! p));
  m_create_dir_all p m := (m, Some tt);
  m_write p b m := (m <| files := <[p := b]> (files m) |>, Some tt);
  m_run := run_program web;
  m_join := unix_join;
  m_parent := unix_parent;
  table := list (string * Node);
  value := Node;
  toml_parse text := Some (manifest text);
  tb_get := find_node;
  tv_get name v := match v with Tab l => find_node name l | Str _ => None end;
  tv_as_str v := match v with Str x => Some x | Tab _ => None end;
  tv_as_table v := match v with Tab l => Some l | Str _ => None end;
  cm_set_cmake_env m := (m, Some tt);
  cm_build _ _ m := (m <| files := <["/out/lib/libngtcp2.a" := commit m]> (files m) |>, Some "/out");
  bg_generate _ m := (m, Some "bindings") |}.

Lemma four_bits_words b rest : exists l, String.words (four_bits b +:+ "  " +:+ rest) = four_bits b :: l.
Proof.
  unfold four_bits. set (n := Z.to_nat _). clearbody n.
  do 16 (destruct n as [|n]; [by eexists|]). destruct n; by eexists.
Qed.
Lemma four_bits_lower b : to_lowercase (four_bits b) = four_bits b.
Proof.
  unfold four_bits. set (n := Z.to_nat _). clearbody n.
  do 16 (destruct n as [|n]; [done|]). by destruct n.
Qed.

Lemma unix_join_archive d : unix_join d "prebuilt.tar.gz" <> unix_join d "prebuilt.tar.gz.sha256".
Proof.
  unfold unix_join. destruct (String.eqb d ""); [done|].
  destruct (ends_with "/" d); intros H; apply (inj (String.app d)) in H; [done|].
  by apply (inj (String.app "/")) in H.
Qed.

Definition computer_doc (web : gmap string string) : @MachineDoc (computer web).
Proof.
  refine (@Build_MachineDoc (computer web) (fun p (m : Computer) => files m !! p)
    (fun url => default "" (web !! url)) four_bits _ _ _ _ _).
  - done.
  - apply unix_join_archive.
  - intros url dest h. cbn. destruct (web !! url) as [b|]; cbn; [|done].
    intros _. split; [by rewrite lookup_insert_eq|]. intros p Hp. by rewrite lookup_insert_ne.
  - intros c path h _ [-> | ->]; cbn; (destruct (files h !! path) as [b|] eqn:E; cbn; [|done]);
      (split; [done|]; intros _; destruct (four_bits_words b path) as [l Hl]; by exists b, l).
  - apply four_bits_lower.
Defined.

(** ** Scripts on a computer *)

Definition env (l : list (string * string)) : list (option string * option string) :=
  map (fun kv => (Some kv.1, Some kv.2)) l.
Definition release : string := archive_of "1.0" "macos_arm64".
Definition mac (files : gmap string string) : Computer := mkComputer
  (env [("OUT_DIR", "/out"); ("CARGO_PKG_VERSION", "1.0"); ("CARGO_CFG_TARGET_OS", "macos");
        ("CARGO_CFG_TARGET_ARCH", "aarch64"); ("CARGO_MANIFEST_DIR", "/src");
        ("DEP_AWS_LC_0_47_0_INCLUDE", "/aws/include")])
  files {["main" := "c1"]} ∅ ∅ ∅ ∅ "".
Definition start {web} (m : Computer) : @Script (computer web) := @mkScript (computer web) m [] [] [].
Definition prebuilt_cfg : Cfg := mkCfg false false true false.
Definition source_cfg : Cfg := mkCfg true false true false.

(** The release: an archive with both libraries, and its checksum. *)
Definition archive : string := "lib/libngtcp2.a lib/libngtcp2_crypto_boringssl.a".
Definition good_web : gmap string string :=
  {[release := archive; release +:+ ".sha256" := four_bits archive +:+ "  archive"]}.

Lemma build_script_correct_witness :
  let s := @start good_web (mac ∅) in
  match @main (computer good_web) prebuilt_cfg s with Done _ s' => length (ran s') = 4%nat | _ => False end /\
  wp (@main (computer good_web) prebuilt_cfg) s (fun r s' =>
    @extracts_verified (computer good_web) (computer_doc good_web) (ran s') /\
    exists printed, stdout s' = stdout s ++ rerun_if ++ printed /\ prints prebuilt_cfg s r s' printed).
Proof.
  intros s. split; [vm_compute; reflexivity|].
  apply (@build_script_correct (computer good_web) prebuilt_cfg (computer_doc good_web)).
  - reflexivity.
  - intros d Hd. injection Hd as <-. reflexivity.
Defined.

(** Another archive than the one the checksum is of: nothing is extracted. *)
Definition bad_web : gmap string string :=
  {[release := "lib/libngtcp2.a lib/libngtcp2_crypto_boringssl.b";
    release +:+ ".sha256" := four_bits archive +:+ "  archive"]}.
Example tampered_archive_refused :
  match @main (computer bad_web) prebuilt_cfg (start (mac ∅)) with
  | Fail _ s => map (fun r => program (command r)) (ran s) = ["curl"; "curl"; "shasum"] /\
      stdout s = rerun_if
  | _ => False
  end.
Proof. by vm_compute. Qed.

(** The check for a damaged archive looks at files that an earlier run may have left: an
    archive without libraries is accepted where one was extracted before. *)
Definition empty_web : gmap string string :=
  {[release := "lib/README"; release +:+ ".sha256" := four_bits "lib/README" +:+ "  archive"]}.
Example stale_libraries_accepted :
  let old := files (match @main (computer good_web) prebuilt_cfg (start (mac ∅)) with
                    | Done _ s => machine s | _ => mac ∅ end) in
  match @main (computer empty_web) prebuilt_cfg (start (mac ∅)),
        @main (computer empty_web) prebuilt_cfg (start (mac old)) with
  | Fail _ _, Done _ s => stdout s = rerun_if ++ link_lines "/out/prebuilt/lib" "/out/prebuilt/include"
  | _, _ => False
  end.
Proof. by vm_compute. Qed.

(** A branch that moved after the first build: the fetch updates what is known of the
    remote branch, the checkout takes the local branch of the same name, which stays where
    it was. *)
Definition checkout_after (m : Computer) : Computer :=
  match @main (computer ∅) source_cfg (@start ∅ m) with Done _ s => machine s | _ => mac ∅ end.
Example branch_stays_behind :
  let first := checkout_after (mac {["/src/Cargo.toml" := "main"]}) in
  let moved := first <| origin := {["main" := "c2"]} |> in
  let second := checkout_after moved in
  files first !! "/out/lib/libngtcp2.a" = Some "c1" /\
  tracking second !! "main" = Some "c2" /\
  files second !! "/out/lib/libngtcp2.a" = Some "c1".
Proof. by vm_compute. Qed.
End Build.
