(* ===== verification/UnitTests.v ===== *)
(** * The unit tests of the crates, run on the model

    The test modules inside conn.rs, settings.rs, stats.rs, crypto.rs, server.rs,
    streams.rs, qlog.rs and socket.rs check functions of the crates on concrete inputs.
    Here they check the definitions of this development: a test is the list of its
    assertions, in order, and all of them hold. What depends on how ngtcp2 parses a
    packet, or on aws-lc, is in [UnitTestsC]; the kernel is the loopback of [Socket], the
    defaults of ngtcp2 are those that its documentation gives. *)
From S2P Require Import Prelude Varint Packet Types Errors Tokens Params InFlight Conn.
From S2P Require Import Crypto Effects Transport Streams Limiter Routes Tokio Socket.
Import Types Effects.

Module UnitTests.

Notation test := (list bool).
Definition eq {A} `{EqDecision A} (a b : A) : bool := bool_decide (a = b).
#[export] Instance algorithm_eq_dec : EqDecision Params.CongestionAlgorithm.
Proof. solve_decision. Defined.

(** What a call gives that does not fail, on a state that does not matter. *)
Definition value {S A} (x : exit S A) : option A :=
  match x with Done a _ => Some a | _ => None end.

(** ** conn.rs *)

Section conn.
Import InFlight.
(** [Vec::with_capacity] allocates what it is asked for. *)
#[local] Instance exact : Allocator := fun n => n.

Definition digits : bytes := [48; 49; 50; 51; 52; 53; 54; 55; 56; 57].
Definition abc : bytes := [97; 98; 99].

Definition test_in_flight_stream_data_ack : test :=
  let '(data, appended, n) := append new_entry digits 1 in
  let t1 := [eq appended (0, 10); eq (unacked data) digits] in
  let data := ack_until data 4 in
  let t2 := [eq (unacked data) (drop 4 digits); eq (offset data) 4] in
  let data := ack_until data 2 in
  let t3 := [eq (unacked data) (drop 4 digits)] in
  let data := ack_until data 10 in
  let t4 := [eq (unacked data) []; eq (offset data) 10] in
  let '(data, _, _) := append data abc n in
  t1 ++ t2 ++ t3 ++ t4 ++ [eq (unacked data) abc].

Definition test_in_flight_stream_data_truncate_unwritten : test :=
  let '(data, _, n) := append new_entry digits 1 in
  let data := truncate_unwritten data 4 in
  let t1 := [eq (unacked data) (take 4 digits)] in
  let '(data, appended, _) := append data (drop 4 digits) n in
  t1 ++ [eq appended (4, 10); eq (unacked data) digits].

(** The pointer is an allocation and a position; what is there is looked up among the
    live buffers. *)
Definition memory (e : InFlightStreamData) (a : nat) (pos len : Z) : option bytes :=
  v ← list_find (fun v => alloc v = a) (buf e :: map rb_data (retired e));
  slice (elems v.2) pos (pos + len).
Definition test_in_flight_stream_data_keeps_handed_buffer_stable : test :=
  let '(data, appended, n) := append new_entry digits 1 in
  let written := alloc (buf data) in
  let '(data, _, _) := append data (replicate 1024 120) n in
  let t1 := [eq (slen (retired data)) 1; eq (memory data written appended.1 10) (Some digits)] in
  let data := ack_until data 10 in
  t1 ++ [eq (slen (retired data)) 0].

(** [(i..).map(|i| (i * 131) as u8)], [n] of them *)
Fixpoint pattern (n : nat) (i : Z) : bytes :=
  match n with O => [] | S n => as_u8 (i * 131) :: pattern n (i + 1) end.
Definition test_in_flight_stream_data_ack_does_not_move_unacked_bytes : test :=
  let payload := pattern (200 * 1024) 0 in
  let '(data, _, _) := append new_entry payload 1 in
  let base := alloc (buf data) in
  let data := ack_until data (100 * 1024) in
  [eq (start data) (100 * 1024);
   eq (unacked data) (drop (100 * 1024) payload);
   eq (memory data base (100 * 1024) 1024) (Some (take 1024 (drop (100 * 1024) payload)))].

Definition test_in_flight_stream_data_closed_stream : test :=
  let m : gmap StreamId InFlightStreamData :=
    {[0 := mkEntry 0 (mkVec 1 3 abc) 0 []; 4 := mkEntry 0 (mkVec 2 3 [100; 101; 102]) 0 []]} in
  let m := closed_stream m 0 in
  [bool_decide (m !! 0 = None); bool_decide (is_Some (m !! 4))].

Definition test_acked_stream_data : test :=
  let m : gmap StreamId InFlightStreamData :=
    {[0 := mkEntry 100 (mkVec 1 6 [97; 98; 99; 100; 101; 102]) 0 []]} in
  let m := acked_stream_data m 0 100 2 in
  let t1 := [eq (unacked <$> m !! 0) (Some [99; 100; 101; 102])] in
  let m := acked_stream_data m 4 0 10 in
  t1 ++ [eq (size m) 1%nat].
End conn.

Definition test_cid_to_raw : test :=
  match Types.new [1; 2; 3; 4] with
  | None => [false]
  | Some cid =>
      match Tokens.cid_to_raw cid with
      | Panic => [false]
      | Ret raw =>
          [eq (Tokens.datalen raw) 4; eq (take 4 (Tokens.cid_data raw)) [1; 2; 3; 4];
           forallb (fun b => b =? 0) (drop 4 (Tokens.cid_data raw))]
      end
  end.

(** The port is in network byte order at offset 2, the family at offset 0. *)
Definition sockaddr_fields (storage : bytes) : Z * Z :=
  (le_value (take 2 storage), be_value (take 2 (drop 2 storage))).
Definition test_sockaddr_to_raw_v4 : test :=
  let '(storage, len) := Types.sockaddr_to_raw (SockV4 [127; 0; 0; 1] 4433) in
  [eq len sizeof_sockaddr_in; eq (sockaddr_fields storage) (AF_INET, 4433)].
Definition test_sockaddr_to_raw_v6 : test :=
  let '(storage, len) := Types.sockaddr_to_raw (SockV6 (replicate 15 0 ++ [1]) 4433 0 0) in
  [eq len sizeof_sockaddr_in6; eq (sockaddr_fields storage) (AF_INET6, 4433)].

Definition test_session_ticket_roundtrip : test :=
  let new session transport_params := {| Conn.session := session; Conn.transport_params := transport_params |} in
  let ticket := new [1; 2; 3] [4; 5] in
  let restored := new (Conn.session ticket) (Conn.transport_params ticket) in
  [eq (Conn.session ticket) [1; 2; 3]; eq (Conn.transport_params ticket) [4; 5];
   eq (Conn.session restored, Conn.transport_params restored)
      (Conn.session ticket, Conn.transport_params ticket)].

(** ** settings.rs, stats.rs *)

Section settings.
Import Params.
Notation new := (Settings_new toy_default).
Notation to_raw := (to_raw toy_default).

Definition test_settings_defaults : test :=
  let settings := new 12345 in
  [eq (initial_ts settings) 12345;
   eq (congestion_algorithm settings) Cubic;
   eq (initial_rtt settings) DEFAULT_INITIAL_RTT;
   eq (handshake_timeout settings) None;
   eq (max_tx_udp_payload_size settings) DEFAULT_MAX_TX_UDP_PAYLOAD_SIZE;
   eq (max_window settings) 0; eq (max_stream_window settings) 0;
   eq (ack_threshold settings) 2; negb (no_tx_udp_payload_size_shaping settings);
   negb (no_pmtud settings); eq (keep_alive_timeout settings) None].

Definition test_settings_to_raw : test :=
  let settings := {|
    initial_ts := 999; congestion_algorithm := Bbr2; initial_rtt := from_millis 50;
    handshake_timeout := Some (from_secs 3); max_tx_udp_payload_size := 1200;
    max_window := 1024 * 1024; max_stream_window := 64 * 1024; ack_threshold := 10;
    no_tx_udp_payload_size_shaping := true; no_pmtud := true; qlog := true;
    preferred_versions := [V2]; available_versions := [V1; V2];
    keep_alive_timeout := Some (from_secs 30); address_validation_token := None;
    stateless_reset_secret := None |} in
  let raw := to_raw settings in
  [eq (raw_initial_ts raw) 999; eq (raw_cc_algo raw) NGTCP2_CC_ALGO_BBR;
   eq (raw_initial_rtt raw) (as_u64 (as_nanos (from_millis 50)));
   eq (raw_handshake_timeout raw) (as_u64 (as_nanos (from_secs 3)));
   eq (raw_max_tx_udp_payload_size raw) 1200; eq (raw_max_window raw) (1024 * 1024);
   eq (raw_max_stream_window raw) (64 * 1024); eq (raw_ack_thresh raw) 10;
   eq (raw_no_tx_udp_payload_size_shaping raw) 1; eq (raw_no_pmtud raw) 1; raw_qlog_write raw;
   eq (slen (raw_preferred_versions raw)) 1; eq (slen (raw_available_versions raw)) 2].

Definition test_settings_to_raw_disables_qlog : test := [negb (raw_qlog_write (to_raw (new 0)))].

Definition test_settings_to_raw_disables_timeouts : test :=
  [eq (raw_handshake_timeout (to_raw (new 0))) u64_max].

Definition test_congestion_algorithm_raw_roundtrip : test :=
  map (fun algo => eq (cc_from_raw (cc_as_raw algo)) algo) [Reno; Cubic; Bbr2].

Definition test_finite_duration_treats_max_as_disabled : test :=
  [eq (finite_duration u64_max) None; eq (finite_duration 1000) (Some (from_nanos 1000));
   eq (nanos_or_max None) u64_max; eq (nanos_or_max (Some (from_secs 1))) 1000000000].

Definition test_optional_sentinels : test :=
  [eq (optional_nanos u64_max) None; eq (optional_nanos 1000) (Some (from_nanos 1000));
   eq (optional_bytes u64_max) None; eq (optional_bytes 0) (Some 0)].
End settings.

(** ** crypto.rs *)

Definition test_encode_alpn : test :=
  [eq (Crypto.encode_alpn [[104; 113; 45; 105; 110; 116; 101; 114; 111; 112]; [104; 51]])
      [10; 104; 113; 45; 105; 110; 116; 101; 114; 111; 112; 2; 104; 51]].

(** ** server.rs *)

Section server.
Import Routes Limiter.

Definition test_resolve_dcid_short_header : test :=
  match Types.new (replicate 16 0xaa), Types.new [1] with
  | Some cid, Some key =>
      let packet := [0x40] ++ replicate 16 0xaa ++ replicate 4 0 in
      [eq (value (resolve_dcid (S := unit) {[cid := key]} {[16]} packet tt)) (Some (Some key))]
  | _, _ => [false]
  end.

Definition test_resolve_dcid_unknown : test :=
  let packet := [0x40] ++ replicate 16 0xbb in
  [eq (value (resolve_dcid (S := unit) ∅ {[16]} packet tt)) (Some None)].

(** [for _ in 0..n { if !limiter.try_acquire(ts) { break; } allowed += 1; }] *)
Fixpoint acquire_up_to (n : nat) (ts : Z) (l : StatelessResetLimiter) : StatelessResetLimiter * Z :=
  match n with
  | O => (l, 0)
  | S n =>
      let '(l, ok) := try_acquire ts l in
      if ok : bool then let '(l, k) := acquire_up_to n ts l in (l, 1 + k) else (l, 0)
  end.
Definition bursts (n : Z) : nat := Z.to_nat (n * 2).

Definition test_stateless_reset_limiter_burst : test :=
  let '(l, allowed) := acquire_up_to (bursts STATELESS_RESET_BURST) 0 Limiter.new in
  [eq allowed STATELESS_RESET_BURST; negb (try_acquire 0 l).2].

(** Every one of the requests that empty the bucket is granted. *)
Definition emptied : StatelessResetLimiter * Z :=
  acquire_up_to (Z.to_nat STATELESS_RESET_BURST) 0 Limiter.new.

Definition test_stateless_reset_limiter_refills : test :=
  let '(l, granted) := emptied in
  let t1 := [eq granted STATELESS_RESET_BURST] in
  let '(l, ok) := try_acquire 0 l in
  let '(l, allowed) := acquire_up_to (bursts STATELESS_RESET_RATE) NANOS_PER_SEC l in
  t1 ++ [negb ok; eq allowed STATELESS_RESET_RATE].

Definition test_stateless_reset_limiter_caps_at_burst : test :=
  let '(l, granted) := emptied in
  let '(l, allowed) := acquire_up_to (bursts STATELESS_RESET_BURST) (NANOS_PER_SEC * 3600) l in
  [eq granted STATELESS_RESET_BURST; eq allowed STATELESS_RESET_BURST].
End server.

(** ** streams.rs *)

Section streams.
Import Streams.

Definition varint_bytes (n : Z) : bytes :=
  match Varint.encode (replicate (Z.to_nat (Varint.encoded_len n)) 0) n with
  | Ret (buf, _) => buf
  | Panic => []
  end.

Definition test_close_packets_splits_coalesced_packets : test :=
  let handshake := [0xe3] ++ be_bytes 4 1 ++ [8] ++ replicate 8 0x11 ++ [0] ++ varint_bytes 16 ++
    replicate 16 0x33 in
  let short := 0x40 :: replicate 20 0 in
  let remote := SockV4 [127; 0; 0; 1] 4433 in
  match value (close_packets (S := unit) (handshake ++ short) remote remote 0 tt) with
  | Some [p; q] =>
      [eq (op_data p) handshake; eq (op_data q) short; eq (op_remote p) remote; eq (op_remote q) remote]
  | _ => [false]
  end.

Definition def : bytes := [100; 101; 102].
Definition test_pending_streams_push : test :=
  let pending := push (push (push pending_new 0 abc false) 0 def true) 4 [120] false in
  [negb (is_empty pending); eq (ordered_ids pending) [0; 4];
   eq (entries pending !! 0) (Some (abc ++ def, true))].

(** [if let Some(entry) = pending.entries.get_mut(&0) { entry.0.clear(); }] *)
Definition clear (id : StreamId) (p : PendingStreams) : PendingStreams :=
  p <| entries := alter (fun e => ([], e.2)) id (entries p) |>.
Definition test_pending_streams_prune : test :=
  [is_empty (prune 0 (clear 0 (push pending_new 0 abc false)));
   negb (is_empty (prune 0 (clear 0 (push pending_new 0 abc true))))].

Definition test_pending_streams_remove : test :=
  let pending := remove 0 (push pending_new 0 abc true) in
  [is_empty pending; eq (ordered_ids pending) []].
End streams.

(** ** qlog.rs *)

Definition test_file_name : test :=
  match Types.new [0x01; 0xab; 0xff] with
  | Some cid => [eq (Tokio.file_name "client-" cid) "client-01abff"]
  | None => [false]
  end.
Definition test_qlog_writer_disabled : test :=
  [match Tokio.qlog_disabled with None => true | Some _ => false end].

(** ** socket.rs *)

Section socket.
Import Socket.
#[local] Existing Instance toy_net.

(** A datagram from socket 0 to socket 1 with each codepoint, one after the other. *)
Fixpoint exchange (d : bytes) (codepoints : list Z) (k : toy_kernel) : test :=
  match codepoints with
  | [] => []
  | codepoint :: l =>
      match send_to 3 (0%nat : fd) d (toy_addr 1) codepoint k with
      | Done (Ok _) k =>
          match recv_from 3 (1%nat : fd) (replicate 64 0) k with
          | Done (Ok (len, from, received, buf)) k =>
              [eq (take (Z.to_nat len) buf) d; eq from (toy_addr 0); eq received codepoint] ++
              exchange d l k
          | _ => [false]
          end
      | _ => [false]
      end
  end.
Definition test_ecn_roundtrip_v4 : test := exchange [101; 99; 110] [NOT_ECT; ECT0; ECT1; CE] toy_idle.
Definition test_ecn_not_set_is_not_ect : test := exchange [112; 108; 97; 105; 110] [NOT_ECT] toy_idle.
End socket.

(** ** All of them *)

Definition passed (t : test) : bool := forallb id t.

Definition unit_tests : list test :=
  [test_in_flight_stream_data_ack; test_in_flight_stream_data_truncate_unwritten;
   test_in_flight_stream_data_keeps_handed_buffer_stable;
   test_in_flight_stream_data_ack_does_not_move_unacked_bytes;
   test_in_flight_stream_data_closed_stream; test_acked_stream_data; test_cid_to_raw;
   test_sockaddr_to_raw_v4; test_sockaddr_to_raw_v6; test_session_ticket_roundtrip;
   test_settings_defaults; test_settings_to_raw; test_settings_to_raw_disables_qlog;
   test_settings_to_raw_disables_timeouts; test_congestion_algorithm_raw_roundtrip;
   test_finite_duration_treats_max_as_disabled; test_optional_sentinels; test_encode_alpn;
   test_resolve_dcid_short_header; test_resolve_dcid_unknown;
   test_stateless_reset_limiter_burst; test_stateless_reset_limiter_refills;
   test_stateless_reset_limiter_caps_at_burst;
   test_close_packets_splits_coalesced_packets; test_pending_streams_push;
   test_pending_streams_prune; test_pending_streams_remove;
   test_file_name; test_qlog_writer_disabled;
   test_ecn_roundtrip_v4; test_ecn_not_set_is_not_ect].

(** Every assertion of every test holds of the model. *)
Theorem unit_tests_pass : forallb passed unit_tests = true.
Proof. vm_cast_no_check (@eq_refl bool true). Qed.
End UnitTests.
