(* ===== verification/UnitTestsC.v ===== *)
(** * The unit tests of the crates that call the C libraries

    The tests of crypto.rs, of the parsing in server.rs and of the rest of conn.rs, run on
    the model with a stand-in for each library: aws-lc before a handshake, as far as its
    documentation and the tests tell, and the two parsers of ngtcp2 that RFC 8999 and
    RFC 9000 describe. A test is the list of its assertions, as in [UnitTests]. *)
From S2P Require Import Prelude Utf8 Varint Types Errors Tokens Params InFlight Callbacks Conn Bindings.
From S2P Require Import CallbackTables CrateRoot Crypto Effects Transport Server UnitTests.
Import Types Errors Tokens UnitTests.

Module UnitTestsC.

Definition is_invalid_argument {A} (r : result Error A) : bool :=
  match r with Err (InvalidArgument _) => true | _ => false end.
Definition is_ok {A} (r : result Error A) : bool := match r with Ok _ => true | Err _ => false end.

(** ** lib.rs and the tables of conn.rs *)

Definition test_ngtcp2_version {lib : CrateRoot.Linked} : test :=
  let version := CrateRoot.ngtcp2_version in
  [negb (eq version CrateRoot.unknown); eq version CrateRoot.NGTCP2_VERSION].

Definition assert_application_callbacks_set (callbacks : gmap string CallbackTables.handler) : test :=
  map (CallbackTables.is_set callbacks)
    ["handshake_completed"; "handshake_confirmed"; "stream_open"; "stream_close2"; "stream_reset";
     "recv_stop_sending"; "extend_max_stream_data"; "extend_max_local_streams_bidi";
     "extend_max_local_streams_uni"; "recv_stream_data"; "recv_datagram";
     "recv_stateless_reset2"; "tls_early_data_rejected"]%string.
Definition test_create_client_callbacks : test :=
  let callbacks := CallbackTables.create_client_callbacks in
  map (CallbackTables.is_set callbacks)
    ["client_initial"; "recv_crypto_data"; "encrypt"; "decrypt"; "hp_mask"; "rand";
     "get_new_connection_id"]%string ++
  [negb (CallbackTables.is_set callbacks "recv_client_initial")] ++
  assert_application_callbacks_set callbacks.
Definition test_create_server_callbacks : test :=
  let callbacks := CallbackTables.create_server_callbacks in
  map (CallbackTables.is_set callbacks)
    ["recv_client_initial"; "recv_crypto_data"; "encrypt"; "decrypt"; "hp_mask"; "rand";
     "get_new_connection_id"]%string ++
  [negb (CallbackTables.is_set callbacks "client_initial")] ++
  assert_application_callbacks_set callbacks.

(** ** A stand-in for aws-lc

    A session before its handshake knows the name it was given. The files of the
    certificate exist; a certificate begins as PEM does. *)
Definition begin_certificate : string := "-----BEGIN CERTIFICATE-----".
Definition cert_path : string := "/tmp/cert.pem".
Definition key_path : string := "/tmp/key.pem".
Definition loads (file : string) : Z := if eq file cert_path || eq file key_path then 1 else 0.

#[local] Instance aws_lc : Crypto.SslApi := {|
  Crypto.SSL_CTX := unit;
  Crypto.SSL := option string;
  Crypto.X509 := unit;
  Crypto.SSL_SESSION := unit;
  Crypto.TLS_method_ok := true;
  Crypto.SSL_CTX_new := Some tt;
  Crypto.configure_client_context c := (c, 0);
  Crypto.configure_server_context c := (c, 0);
  Crypto.SSL_CTX_set_verify _ c := c;
  Crypto.SSL_CTX_set_default_verify_paths c := c;
  Crypto.SSL_CTX_set_alpn_protos _ c := (c, 0);
  Crypto.SSL_CTX_set_session_cb c := c;
  Crypto.SSL_CTX_use_certificate_chain_file f c := (c, loads f);
  Crypto.SSL_CTX_use_PrivateKey_file f c := (c, loads f);
  Crypto.SSL_CTX_set_alpn_select_cb _ c := c;
  Crypto.SSL_CTX_set_early_data_enabled _ c := c;
  Crypto.BIO_new_mem_buf_ok _ := true;
  Crypto.PEM_read_bio_X509 p := if String.prefix begin_certificate p then Some tt else None;
  Crypto.SSL_CTX_has_cert_store _ := true;
  Crypto.X509_STORE_add_cert _ c := (c, 1);
  Crypto.SSL_new _ := Some None;
  Crypto.SSL_set_accept_state s := s;
  Crypto.SSL_set_connect_state s := s;
  Crypto.SSL_set_ex_data s := (s, 1);
  Crypto.SSL_has_param _ := true;
  Crypto.SSL_set_tlsext_host_name name _ := (name, 1);
  Crypto.X509_VERIFY_PARAM_clear_host s := (s, 1);
  Crypto.SSL_set1_host _ s := (s, 1);
  Crypto.X509_VERIFY_PARAM_set1_ip _ s := (s, 1);
  Crypto.SSL_set_quic_transport_params _ s := (s, 1);
  Crypto.SSL_get0_alpn_selected _ := None;
  Crypto.SSL_SESSION_from_bytes _ _ := None;
  Crypto.SSL_SESSION_to_bytes _ := (0, None);
  Crypto.SSL_SESSION_early_data_capable _ := 0;
  Crypto.SSL_set_session _ s := (s, 1);
  Crypto.SSL_set_early_data_enabled s := s;
  Crypto.SSL_in_early_data _ := 0;
  Crypto.SSL_early_data_accepted _ := 0;
  Crypto.SSL_set_quic_early_data_context _ s := (s, 1) |}.

(** ** crypto.rs *)

Section crypto.
Import Crypto.

Definition hq_interop : bytes := [104; 113; 45; 105; 110; 116; 101; 114; 111; 112].
(** [.expect("..")] of a value that the test goes on with *)
Definition with_ok {A} (r : result Error A) (k : A -> test) : test :=
  match r with Ok a => k a | Err _ => [false] end.
Definition with_client (k : TlsContext -> test) : test := with_ok (new_client [hq_interop]).1 k.
Definition with_server (k : TlsContext -> test) : test :=
  with_ok (new_server cert_path key_path [hq_interop]).1 k.
Definition with_session (c : TlsContext) (k : TlsSession -> test) : test :=
  with_ok (create_session c) k.

Definition test_client_context_creation : test :=
  [is_ok (new_client [hq_interop]).1; is_ok (new_client_with_options [hq_interop] false).1].
Definition test_client_session_creation : test :=
  with_client (fun ctx => [is_ok (create_session ctx)]).
Definition test_set_server_name_on_client : test :=
  with_client (fun ctx => with_session ctx (fun session =>
    [is_ok (set_server_name session "localhost").2])).

Definition nul : string := String (Ascii.ascii_of_nat 0) "".
Fixpoint repeat_a (n : nat) : string :=
  match n with O => ""%string | S n => String (Ascii.ascii_of_nat 97) (repeat_a n) end.
Definition test_set_server_name_rejects_invalid_names : test :=
  with_client (fun ctx => with_session ctx (fun session =>
    map (fun name => is_invalid_argument (set_server_name session name).2)
      [""; "*.example.com"; "local" +:+ nul +:+ "host"; repeat_a 256]%string)).

(** The SNI that is set is none for an address, and the name otherwise. *)
Fixpoint switch_names (session : TlsSession) (names : list string) : test :=
  match names with
  | [] => []
  | name :: names =>
      let '(session, r) := set_server_name session name in
      let sni : option string := ssl session in
      [is_ok r; eq sni (match parse_ip name with Some _ => None | None => Some name end)] ++
      switch_names session names
  end.
Definition test_set_server_name_switches_between_dns_and_ip : test :=
  with_client (fun ctx => with_session ctx (fun session =>
    switch_names session ["localhost"; "127.0.0.1"; "localhost"; "::1"; "localhost"]%string)).

Definition test_selected_alpn_protocol_is_none_before_handshake : test :=
  with_ok (new_client [hq_interop; [104; 51]]).1 (fun ctx => with_session ctx (fun session =>
    [eq (selected_alpn_protocol session) None])).
Definition test_set_quic_transport_params : test :=
  with_client (fun ctx => with_session ctx (fun session =>
    [is_ok (set_quic_transport_params session [1; 2; 3; 4]).2])).

Definition some_pem : string := begin_certificate +:+ "AAAA-----END CERTIFICATE-----".
Definition test_add_ca_cert_pem_rejects_invalid_pem : test :=
  with_ok (new_client_with_options [hq_interop] true).1 (fun ctx =>
    [is_invalid_argument (add_ca_cert_pem "not a pem" ctx).2]).
Definition test_add_ca_cert_pem_rejects_when_verify_peer_false : test :=
  with_ok (new_client_with_options [hq_interop] false).1 (fun ctx =>
    [is_invalid_argument (add_ca_cert_pem some_pem ctx).2]).
Definition test_add_ca_cert_pem_accepts_valid_pem : test :=
  with_ok (new_client_with_options [hq_interop] true).1 (fun ctx =>
    [is_ok (add_ca_cert_pem some_pem ctx).2]).
Definition test_add_ca_cert_pem_rejects_on_server_context : test :=
  with_server (fun ctx => [is_invalid_argument (add_ca_cert_pem some_pem ctx).2]).
Definition test_new_server_rejects_missing_cert : test :=
  [negb (is_ok (new_server "/nonexistent/cert.pem" "/nonexistent/key.pem" [hq_interop]).1)].

Definition test_early_data_state_before_handshake : test :=
  with_client (fun ctx => with_session ctx (fun session =>
    [negb (is_in_early_data session); negb (is_early_data_accepted session);
     eq (take_session_ticket session).2 None])).
Definition not_a_session : bytes := [110; 111; 116; 32; 97; 32; 115; 101; 115; 115; 105; 111; 110].
Definition test_set_session_rejects_invalid_bytes : test :=
  with_client (fun ctx => with_session ctx (fun session =>
    map (fun b => is_invalid_argument (set_session session b).2) [not_a_session; [0x30; 0]; []])).
Definition test_set_session_rejects_on_server_session : test :=
  with_server (fun ctx => with_session ctx (fun session =>
    [is_invalid_argument (set_session session [0x30; 0]).2])).
Definition test_set_accept_early_data_rejects_on_client_context : test :=
  with_client (fun ctx => [is_invalid_argument (set_accept_early_data true ctx).2]).
Definition accepts (ctx : TlsContext) (expected : bool) : test :=
  with_session ctx (fun session => [eq (accept_early_data session) expected]).
Definition test_set_accept_early_data_on_server_context : test :=
  with_server (fun ctx =>
    let '(on, r) := set_accept_early_data true ctx in
    let '(off, r') := set_accept_early_data false on in
    accepts ctx false ++ [is_ok r] ++ accepts on true ++ [is_ok r'] ++ accepts off false).
Definition test_set_quic_early_data_context_on_server_session : test :=
  with_server (fun ctx => with_session ctx (fun session =>
    [is_ok (set_quic_early_data_context session [1; 2; 3]).2])).
Definition test_set_quic_early_data_context_rejects_on_client_session : test :=
  with_client (fun ctx => with_session ctx (fun session =>
    [is_invalid_argument (set_quic_early_data_context session [1; 2; 3]).2])).
End crypto.

(** ** A stand-in for the parsers of ngtcp2

    The invariant part of a long header (RFC 8999): version, ids, and what follows. *)
Section parser.
Local Open Scope rust_scope.

Definition counted (l : bytes) : option (bytes * bytes) :=
  let? n := head l in
  if slen l <? 1 + n then None else Some (take (Z.to_nat n) (tail l), drop (Z.to_nat (1 + n)) l).
Definition long_header (d : bytes) : option (Z * bytes * bytes * bytes) :=
  if slen d <? 6 then None else
  let? (dcid, l) := counted (drop 5 d) in
  let? (scid, l) := counted l in
  Some (be_value (take 4 (tail d)), dcid, scid, l).

Definition NGTCP2_ERR_INVALID_ARGUMENT : Z := -201.
Definition nothing : ngtcp2_version_cid :=
  {| vc_version := 0; vc_dcid := None; vc_scid := None |}.
(** Ids of more than 20 bytes are for other versions only; a short datagram is not answered. *)
Definition decode_version_cid (d : bytes) : Z * ngtcp2_version_cid :=
  match long_header d with
  | None => (NGTCP2_ERR_INVALID_ARGUMENT, nothing)
  | Some (version, dcid, scid, _) =>
      let r := {| vc_version := version; vc_dcid := Some dcid; vc_scid := Some scid |} in
      match from_u32 version with
      | Some _ => if (20 <? slen dcid) || (20 <? slen scid) then (NGTCP2_ERR_INVALID_ARGUMENT, nothing) else (0, r)
      | None =>
          if slen d <? 1200 then (NGTCP2_ERR_INVALID_ARGUMENT, nothing)
          else (NGTCP2_ERR_VERSION_NEGOTIATION, r)
      end
  end.

(** An Initial of a known version in a datagram of 1200 bytes, with an id of 8 bytes or a
    token. *)
Definition initial_header (d : bytes) : option ngtcp2_pkt_hd :=
  let? first := head d in
  let? (version, dcid, scid, l) := long_header d in
  let? (token_len, n) := Varint.decode l in
  let token := take (Z.to_nat token_len) (drop (Z.to_nat n) l) in
  if bool_decide (long_header_type version first = Some Initial) && negb (Z.land first 0x80 =? 0) &&
     (1200 <=? slen d) && (slen dcid <=? 20) && (slen scid <=? 20) && ((8 <=? slen dcid) || (0 <? token_len))
  then
    let cid b := mkRawCid (slen b) (zero_extended 20 b) in
    Some {| hd_version := version; hd_dcid := cid dcid; hd_scid := cid scid;
            hd_token := match token with [] => None | _ => Some token end |}
  else None.
End parser.

#[local] Existing Instance toy_strerror.
#[local] Instance parser : TokenApi := {|
  rand_fill n := if n <? 0 then None else Some (replicate (Z.to_nat n) 0);
  ngtcp2_crypto_generate_stateless_reset_token _ _ := (0, replicate 16 0);
  ngtcp2_pkt_write_stateless_reset2 buf _ _ := (0, buf);
  ngtcp2_accept d :=
    match initial_header d with
    | Some hd => (0, hd)
    | None =>
        (NGTCP2_ERR_INVALID_ARGUMENT,
         {| hd_version := 0; hd_dcid := mkRawCid 0 []; hd_scid := mkRawCid 0 []; hd_token := None |})
    end;
  ngtcp2_crypto_generate_retry_token2 _ _ _ _ _ _ := (-1, []);
  ngtcp2_crypto_verify_retry_token2 _ _ _ _ _ _ _ := (-1, mkRawCid 0 []);
  ngtcp2_crypto_generate_regular_token _ _ _ := (-1, []);
  ngtcp2_crypto_verify_regular_token _ _ _ _ _ := -1;
  ngtcp2_crypto_write_retry buf _ _ _ _ _ := (-1, buf);
  ngtcp2_crypto_write_connection_close buf _ _ _ _ _ := (-1, buf);
  ngtcp2_pkt_decode_version_cid := decode_version_cid;
  ngtcp2_pkt_write_version_negotiation buf _ _ _ _ := (-1, buf) |}.

(** ** server.rs *)

Section server.
Import Server.

Definition supported_versions : list QuicVersion := [V1; V2].
Definition resize (n : Z) (l : bytes) : bytes := take (Z.to_nat n) (l ++ replicate (Z.to_nat n) 0).
Definition make_initial (version : QuicVersion) (dcid_len scid_len : Z) : bytes :=
  let type_bits := match version with V1 => 0 | V2 => 1 end in
  let d := [Z.lor (Z.lor 0x80 0x40) (Z.shiftl type_bits 4)] ++ be_bytes 4 (as_u32 version) ++
    [as_u8 dcid_len] ++ replicate (Z.to_nat dcid_len) 0x11 ++
    [as_u8 scid_len] ++ replicate (Z.to_nat scid_len) 0x22 in
  match Varint.encode_to_vec 0 d with
  | Panic => []
  | Ret d =>
      let rest := sat_sub CrateRoot.MIN_INITIAL_DATAGRAM_SIZE (slen d + 2) in
      match Varint.encode_to_vec rest d with
      | Panic => []
      | Ret d => resize CrateRoot.MIN_INITIAL_DATAGRAM_SIZE d
      end
  end.
Definition is_none {A} (o : option A) : bool := match o with None => true | Some _ => false end.

Definition test_accept_initial_rejects_non_initial : test :=
  [is_none (accept_initial_packet (<[0%nat := 0xe0]> (make_initial V1 8 4)) supported_versions);
   is_none (accept_initial_packet (<[0%nat := 0xc0]> (make_initial V2 8 4)) supported_versions)].
Definition test_accept_initial_rejects_short_datagram : test :=
  [is_none (accept_initial_packet (take 100 (make_initial V1 8 4)) supported_versions)].
Definition test_accept_initial_accepts_initial : test :=
  match accept_initial_packet (make_initial V1 8 4) supported_versions with
  | None => [false]
  | Some (version, accepted) =>
      [eq version V1; eq (Types.len (ai_dcid accepted)) 8; eq (Types.len (ai_scid accepted)) 4;
       eq (ai_token accepted) []]
  end.
Definition test_accept_initial_accepts_v2 : test :=
  let d := make_initial V2 8 4 in
  [eq (head d) (Some 0xd0); eq (fst <$> accept_initial_packet d supported_versions) (Some V2)].
Definition test_accept_initial_rejects_unsupported_version : test :=
  [is_none (accept_initial_packet (make_initial V2 8 4) [V1])].
Definition test_accept_initial_rejects_short_dcid : test :=
  [is_none (accept_initial_packet (make_initial V1 4 4) supported_versions)].

(** [vec![first; n]] with the version 0xdeadbeef and an id of 8 bytes *)
Definition of_unknown_version (n : nat) : bytes :=
  let d := replicate n 0xc0 in
  <[5%nat := 8]> (take 1 d ++ be_bytes 4 0xdeadbeef ++ drop 5 d).
Definition test_version_negotiation_info_for_unsupported_version : test :=
  match version_negotiation_info (<[14%nat := 4]> (of_unknown_version 1300)) supported_versions with
  | None => [false]
  | Some info =>
      [eq (pv_version info) 0xdeadbeef; eq (Types.len (pv_dcid info)) 8; eq (Types.len (pv_scid info)) 4]
  end.
Definition test_version_negotiation_info_skips_supported_version : test :=
  [is_none (version_negotiation_info (make_initial V1 8 4) supported_versions)].
Definition test_version_negotiation_info_rejects_short_datagram : test :=
  [is_none (version_negotiation_info (of_unknown_version 100) supported_versions)].
Definition test_version_negotiation_info_rejects_short_header : test :=
  [is_none (version_negotiation_info (<[1%nat := 16]> (replicate 1300 0x40)) supported_versions)].
End server.

(** ** conn.rs *)

Section conn.
#[local] Existing Instances InFlight.exact_allocator.
#[local] Existing Instance Crypto.crypto_tls.
#[local] Existing Instance Conn.toy_ngtcp2.

Definition new_client_session (k : Crypto.TlsSession -> test) : test :=
  with_ok (Crypto.new_client_with_options [hq_interop] false).1 (fun ctx => with_session ctx k).
Definition random_cid : ConnectionId := mkCid (replicate 16 7).
Definition local_addr : SocketAddr := SockV4 [127; 0; 0; 1] 1.
Definition remote_addr : SocketAddr := SockV4 [127; 0; 0; 1] 2.
Definition settings : Params.Settings := Params.Settings_new Params.toy_default 0.
Definition params : Params.TransportParams := Params.TransportParams_new Params.toy_params.

Definition test_conn_early_data_state_before_handshake : test :=
  new_client_session (fun session =>
    match Conn.client_new random_cid random_cid local_addr remote_addr V1 "localhost" session
      params settings with
    | Ret (Ok conn, _) =>
        [negb (Conn.is_in_early_data conn); negb (Conn.is_early_data_accepted conn);
         negb (Conn.is_early_data_rejected conn);
         match Conn.take_session_ticket conn with Ret (_, Ok None) => true | _ => false end]
    | _ => [false]
    end).
Definition test_client_new_with_0rtt_rejects_invalid_session : test :=
  new_client_session (fun session =>
    match Conn.client_new_with_0rtt random_cid random_cid local_addr remote_addr V1 "localhost"
      session params settings
      {| Conn.session := replicate 16 0xff; Conn.transport_params := [0] |} with
    | Ret (r, _) => [is_invalid_argument r]
    | Panic => [false]
    end).
End conn.

Definition test_session_ticket_debug_hides_contents : test :=
  [eq (Conn.fmt_Debug {| Conn.session := [0xde; 0xad]; Conn.transport_params := [0xbe; 0xef; 0] |})
     "SessionTicket { session_len: 2, transport_params_len: 3 }"].

(** ** All of them *)

#[local] Existing Instance CrateRoot.of_this_build.

Definition tests_with_libraries : list test :=
  [test_ngtcp2_version; test_create_client_callbacks; test_create_server_callbacks;
   test_client_context_creation; test_client_session_creation; test_set_server_name_on_client;
   test_set_server_name_rejects_invalid_names; test_set_server_name_switches_between_dns_and_ip;
   test_selected_alpn_protocol_is_none_before_handshake; test_set_quic_transport_params;
   test_add_ca_cert_pem_rejects_invalid_pem; test_add_ca_cert_pem_rejects_when_verify_peer_false;
   test_add_ca_cert_pem_accepts_valid_pem; test_add_ca_cert_pem_rejects_on_server_context;
   test_new_server_rejects_missing_cert; test_early_data_state_before_handshake;
   test_set_session_rejects_invalid_bytes; test_set_session_rejects_on_server_session;
   test_set_accept_early_data_rejects_on_client_context;
   test_set_accept_early_data_on_server_context;
   test_set_quic_early_data_context_on_server_session;
   test_set_quic_early_data_context_rejects_on_client_session;
   test_accept_initial_rejects_non_initial; test_accept_initial_rejects_short_datagram;
   test_accept_initial_accepts_initial; test_accept_initial_accepts_v2;
   test_accept_initial_rejects_unsupported_version; test_accept_initial_rejects_short_dcid;
   test_version_negotiation_info_for_unsupported_version;
   test_version_negotiation_info_skips_supported_version;
   test_version_negotiation_info_rejects_short_datagram;
   test_version_negotiation_info_rejects_short_header;
   test_conn_early_data_state_before_handshake;
   test_client_new_with_0rtt_rejects_invalid_session; test_session_ticket_debug_hides_contents].

(** Every assertion of every test holds of the model with these libraries. *)
Theorem tests_with_libraries_pass : forallb passed tests_with_libraries = true.
Proof. vm_cast_no_check (@eq_refl bool true). Qed.
End UnitTestsC.
