(* ===== verification/PublicTests.v ===== *)
(** * The tests of the public interface

    src/ngtcp2/tests (test_varint.rs, test_packet.rs, test_types.rs, test_error.rs,
    test_version.rs, test_reset.rs) and src/tokio-ngtcp2/tests/test_config.rs, run on the
    model as in [UnitTests]. The random generator is a counter that a test hands from call
    to call; the functions of ngtcp2 are stand-ins that write the packets that RFC 9000
    (sections 10.3 and 17.2.1) describes, and parse as in [UnitTestsC]. *)
From S2P Require Import Prelude Varint Packet Types Errors Tokens Params CrateRoot Tokio.
From S2P Require Import Server Client UnitTests UnitTestsC.
Import Types Errors UnitTests UnitTestsC.

Module PublicTests.

(** A test that ends early when a value is missing *)
Definition with_some {A} (o : option A) (k : A -> test) : test :=
  match o with Some a => k a | None => [false] end.
Definition with_ret {A} (o : outcome A) (k : A -> test) : test :=
  match o with Ret a => k a | Panic => [false] end.
Definition with_cid (b : bytes) (k : ConnectionId -> test) : test := with_some (Types.new b) k.
Definition filled (n : nat) (b : Z) : bytes := replicate n b.

(** ** test_varint.rs *)

Section varint.
Import Varint.

Definition test_encoded_len_boundaries : test :=
  [eq (encoded_len 0) 1; eq (encoded_len 63) 1; eq (encoded_len 64) 2; eq (encoded_len 16383) 2;
   eq (encoded_len 16384) 4; eq (encoded_len 1073741823) 4; eq (encoded_len 1073741824) 8;
   eq (encoded_len MAX) 8].
Definition test_varint_roundtrip : test :=
  value ← [0; 1; 63; 64; 16383; 16384; 1073741823; 1073741824; MAX];
  with_ret (encode_to_vec value []) (fun buf =>
    [eq (slen buf) (encoded_len value); eq (decode buf) (Some (value, slen buf))]).
Definition test_varint_encode_into_slice : test :=
  with_ret (encode (filled 8 0) 15293) (fun '(buf, written) =>
    [eq written 2; eq (take 2 buf) [0x7b; 0xbd]]).
Definition test_varint_sequential_decode : test :=
  with_ret (encode_to_vec 37 []) (fun buf => with_ret (encode_to_vec 1000000 buf) (fun buf =>
  with_ret (encode_to_vec MAX buf) (fun buf =>
  with_some (decode buf) (fun '(v1, n1) =>
  with_some (decode (drop (Z.to_nat n1) buf)) (fun '(v2, n2) =>
  with_some (decode (drop (Z.to_nat (n1 + n2)) buf)) (fun '(v3, n3) =>
    [eq v1 37; eq v2 1000000; eq v3 MAX; eq (n1 + n2 + n3) (slen buf)])))))).
Definition test_varint_decode_empty : test := [is_none (decode [])].
Definition test_varint_decode_truncated : test :=
  [is_none (decode [0x40]); is_none (decode [0x80; 0; 0]); is_none (decode (0xc0 :: filled 6 0))].
Definition test_varint_wire_format : test :=
  '(value, expected) ←
    [(0, [0x00]); (37, [0x25]); (15293, [0x7b; 0xbd]); (494878333, [0x9d; 0x7f; 0x3e; 0x7d]);
     (151288809941952652, [0xc2; 0x19; 0x7c; 0x5e; 0xff; 0x14; 0xe8; 0x8c])];
  with_ret (encode_to_vec value []) (fun buf =>
    [eq buf expected; eq (decode expected) (Some (value, slen expected))]).
Definition test_varint_decode_ignores_length_prefix : test :=
  [eq (decode [0x7f; 0xff]) (Some (16383, 2));
   eq (decode [0xbf; 0xff; 0xff; 0xff]) (Some (1073741823, 4));
   eq (decode (filled 8 0xff)) (Some (MAX, 8))].
End varint.

(** ** test_packet.rs *)

Definition varint_bytes (n : Z) : bytes :=
  match Varint.encode (filled (Z.to_nat (Varint.encoded_len n)) 0) n with
  | Ret (buf, _) => buf
  | Panic => []
  end.
Definition short_packet (n : nat) : bytes := <[0%nat := 0x40]> (filled n 0).
Definition long_packet (first payload_len : Z) : bytes :=
  [first] ++ be_bytes 4 1 ++ [8] ++ filled 8 0x11 ++ [0] ++ varint_bytes payload_len ++
  filled (Z.to_nat payload_len) 0x33.
Definition splits_into (buf : bytes) (packets : list bytes) : test :=
  match Packet.split_packets buf with Some (Ret l) => [eq l packets] | _ => [false] end.

Definition test_split_packets_short_header : test := splits_into (short_packet 30) [short_packet 30].
Definition test_split_packets_handshake_and_short : test :=
  let handshake := long_packet 0xe3 16 in
  let short := short_packet 21 in
  splits_into (handshake ++ short) [handshake; short].
Definition test_split_packets_initial_with_token : test :=
  let initial := [0xc3] ++ be_bytes 4 1 ++ [8] ++ filled 8 0x11 ++ [0] ++ varint_bytes 4 ++
    filled 4 0x44 ++ varint_bytes 16 ++ filled 16 0x33 in
  let short := short_packet 20 in
  splits_into (initial ++ short) [initial; short].
Definition test_split_packets_retry : test := splits_into (long_packet 0xf3 16) [long_packet 0xf3 16].
Definition test_split_packets_version_negotiation : test :=
  let buf := [0x80] ++ be_bytes 4 0 ++ [8] ++ filled 8 0x11 ++ [0] ++ [0; 0; 0; 1] in
  splits_into buf [buf].
Definition test_split_packets_truncated : test :=
  let handshake := long_packet 0xe3 16 in
  let truncated := take (length handshake - 4) handshake in
  splits_into truncated [truncated].
Definition test_split_packets_empty : test := splits_into [] [].

(** ** test_types.rs *)

#[local] Instance stream_type_eq_dec : EqDecision StreamType.
Proof. solve_decision. Defined.
#[local] Instance stream_direction_eq_dec : EqDecision StreamDirection.
Proof. solve_decision. Defined.

Definition test_connection_id_new : test :=
  with_cid [1] (fun cid => [eq (Types.len cid) 1; eq (as_bytes cid) [1]; negb (is_empty cid)]) ++
  with_cid (filled 20 0xab) (fun cid => [eq (Types.len cid) 20]).
Definition test_connection_id_empty : test :=
  with_cid [] (fun cid => [eq (Types.len cid) 0; is_empty cid; eq empty cid]).
Definition test_connection_id_new_rejects_too_long : test := [is_none (Types.new (filled 21 0))].
(** The [n]th call of the generator *)
Definition fill (n : Z) (size : Z) : option bytes := Some (filled (Z.to_nat size) n).
Definition test_connection_id_random : test :=
  with_some (random (fill 1) 16) (fun cid => with_some (random (fill 2) 16) (fun other =>
    [eq (Types.len cid) 16; negb (eq cid other)])) ++
  [is_none (random (fill 3) 0); is_none (random (fill 4) 21)].
Definition test_connection_id_equality : test :=
  with_cid [1; 2; 3] (fun a => with_cid [1; 2; 3] (fun b => with_cid [1; 2; 4] (fun c =>
    let m : gmap ConnectionId string := <[a := "first"%string]> ∅ in
    [eq a b; negb (eq a c); eq (m !! b) (Some "first"%string)]))).
Definition test_connection_id_format : test :=
  with_cid [0x0a; 0x1b; 0xff] (fun cid =>
    [eq (Types.fmt_Display cid) "0a1bff"%string; eq (Types.fmt_Debug cid) "ConnectionId(0a1bff)"%string]).
Definition test_stream_type_from_stream_id : test :=
  map (fun id => eq (StreamType_from_stream_id id) Bidirectional) [0; 1; 4] ++
  map (fun id => eq (StreamType_from_stream_id id) Unidirectional) [2; 3; 6].
Definition test_stream_direction_from_stream_id : test :=
  map (fun id => eq (StreamDirection_from_stream_id id) ClientInitiated) [0; 2] ++
  map (fun id => eq (StreamDirection_from_stream_id id) ServerInitiated) [1; 3].
Definition test_quic_version_constants : test :=
  [eq NGTCP2_PROTO_VER_V1 0x00000001; eq NGTCP2_PROTO_VER_V2 0x6b3343cf].
Definition test_quic_version_conversion : test :=
  [eq (from_u32 NGTCP2_PROTO_VER_V1) (Some V1); eq (from_u32 NGTCP2_PROTO_VER_V2) (Some V2);
   eq (from_u32 0xdeadbeef) None; eq QuicVersion_default V1;
   eq (as_u32 V1) NGTCP2_PROTO_VER_V1; eq (as_u32 V2) NGTCP2_PROTO_VER_V2].
Definition test_packet_info_default : test :=
  [eq (ecn PacketInfo_default) 0; eq (ecn {| ecn := 3 |}) 3].
Definition test_path_info : test :=
  let l := SockV4 [127; 0; 0; 1] 50000 in
  let r := SockV4 [127; 0; 0; 1] 4433 in
  let path := {| local := l; remote := r |} in
  [eq (local path) l; eq (remote path) r].

(** ** test_error.rs *)

Section error.
Local Open Scope string_scope.

Definition ERR_INVALID_ARGUMENT : Z := -201.
Definition ERR_DISCARD_PKT : Z := -226.
Definition ERR_DROP_CONN : Z := -232.
Definition ERR_IDLE_CLOSE : Z := -238.
Definition ERR_RETRY : Z := -231.
Definition ERR_DRAINING : Z := -224.
Definition ERR_CLOSING : Z := -223.
Definition ERR_CRYPTO : Z := -213.

(** The names of two codes; "(unknown)" is what [ngtcp2_strerror] says of others. *)
#[local] Instance names : Strerror := fun code =>
  Some (if (code =? ERR_INVALID_ARGUMENT)%Z then "ERR_INVALID_ARGUMENT"
        else if (code =? ERR_RETRY)%Z then "ERR_RETRY" else "(unknown)").

Fixpoint contains (s part : string) : bool :=
  String.prefix part s || match s with "" => false | String.String _ s => contains s part end.
Definition kinds (codes : list Z) (kind : ConnectionErrorKind) : test :=
  map (fun code => eq (classify_connection_error (from_ngtcp2 code)) kind) codes.
Definition others : list Error :=
  [ConnectionClosed; StreamDataBlocked 0; StreamShutWr 0; InvalidArgument "x"; Internal "x"].

Definition test_error_from_ngtcp2_message : test :=
  let err := from_ngtcp2 ERR_INVALID_ARGUMENT in
  match err with
  | Ngtcp2 msg code =>
      [eq code ERR_INVALID_ARGUMENT; negb (eq msg ""); negb (eq msg "unknown error")]
  | _ => [false]
  end ++
  [contains (fmt_Display err) "ngtcp2 error"; contains (fmt_Display err) "-201"].
Definition test_error_from_ngtcp2_unknown_code : test :=
  [contains (fmt_Display (from_ngtcp2 (-99999))) "-99999"].
Definition test_error_display : test :=
  [eq (fmt_Display (InvalidArgument "bad input")) "invalid argument: bad input";
   eq (fmt_Display ConnectionClosed) "connection is closed";
   eq (fmt_Display (StreamDataBlocked 8)) "stream data blocked: 8";
   eq (fmt_Display (StreamShutWr 12)) "stream shut wr: 12";
   eq (fmt_Display (Internal "boom")) "internal error: boom"].
Definition test_classify_connection_error_ngtcp2 : test :=
  kinds [ERR_DISCARD_PKT] Ignore ++ kinds [ERR_DROP_CONN; ERR_IDLE_CLOSE; ERR_RETRY] SilentDrop ++
  kinds [ERR_DRAINING; ERR_CLOSING] Terminal ++ kinds [ERR_CRYPTO] TransportClose.
Definition test_classify_connection_error_other : test :=
  [eq (classify_connection_error (StreamDataBlocked 0)) Ignore;
   eq (classify_connection_error (StreamShutWr 0)) Ignore;
   eq (classify_connection_error ConnectionClosed) Terminal;
   eq (classify_connection_error (InvalidArgument "x")) InternalKind;
   eq (classify_connection_error (Internal "x")) InternalKind].
Definition test_is_retry_required : test :=
  [is_retry_required (from_ngtcp2 ERR_RETRY)] ++
  map (fun code => negb (is_retry_required (from_ngtcp2 code)))
    [ERR_DISCARD_PKT; ERR_DROP_CONN; ERR_IDLE_CLOSE; ERR_CRYPTO] ++
  map (fun err => negb (is_retry_required err)) others.
Definition test_error_is_std_error : test := [eq (fmt_Display ConnectionClosed) "connection is closed"].
End error.

(** ** Stand-ins for the writers of ngtcp2 *)

Definition NGTCP2_ERR_NOBUF : Z := -202.
(** [written] at the front of the buffer, or no room for it *)
Definition put (buf written : bytes) : Z * bytes :=
  if slen buf <? slen written then (NGTCP2_ERR_NOBUF, buf)
  else (slen written, written ++ drop (length written) buf).
(** The bits [01] and random octets, as many as there is room for, before the token *)
Definition stateless_reset (buf token random : bytes) : Z * bytes :=
  if slen buf <? 5 + 16 then (NGTCP2_ERR_NOBUF, buf) else
  let octets := take (Z.to_nat (slen buf - 16)) random in
  put buf (Z.lor 0x40 (Z.land 0x3f (default 0 (head octets))) :: tail octets ++ token).
Definition version_negotiation (buf : bytes) (unused : Z) (dcid scid : bytes) (versions : list Z)
    : Z * bytes :=
  put buf ([Z.lor 0x80 unused] ++ be_bytes 4 0 ++ [slen dcid] ++ dcid ++ [slen scid] ++ scid ++
    concat (map (be_bytes 4) versions)).
(** A token that depends on the secret and on the id *)
Definition derive (secret : bytes) (cid : Tokens.raw_cid) : bytes :=
  zip_with Z.lxor (take 16 secret) (take 16 (Tokens.cid_data cid)).

#[local] Existing Instance Tokens.toy_strerror.
#[local] Instance writers : Tokens.TokenApi := {|
  Tokens.rand_fill := fill 5;
  Tokens.ngtcp2_crypto_generate_stateless_reset_token secret cid := (0, derive secret cid);
  Tokens.ngtcp2_pkt_write_stateless_reset2 := stateless_reset;
  Tokens.ngtcp2_accept := Tokens.ngtcp2_accept (TokenApi := parser);
  Tokens.ngtcp2_crypto_generate_retry_token2 _ _ _ _ _ _ := (-1, []);
  Tokens.ngtcp2_crypto_verify_retry_token2 _ _ _ _ _ _ _ := (-1, Tokens.mkRawCid 0 []);
  Tokens.ngtcp2_crypto_generate_regular_token _ _ _ := (-1, []);
  Tokens.ngtcp2_crypto_verify_regular_token _ _ _ _ _ := -1;
  Tokens.ngtcp2_crypto_write_retry buf _ _ _ _ _ := (-1, buf);
  Tokens.ngtcp2_crypto_write_connection_close buf _ _ _ _ _ := (-1, buf);
  Tokens.ngtcp2_pkt_decode_version_cid := decode_version_cid;
  Tokens.ngtcp2_pkt_write_version_negotiation := version_negotiation |}.

(** ** test_version.rs *)

Section version.
Import Tokens.

Definition SUPPORTED : list QuicVersion := [V1; V2].
Definition initial_first_byte (version : Z) : Z :=
  let type_bits := if version =? NGTCP2_PROTO_VER_V2 then 1 else 0 in
  Z.lor (Z.lor 0x80 0x40) (Z.shiftl type_bits 4).
Definition make_long_header (version first_byte : Z) (dcid scid : bytes) (total_len : Z) : bytes :=
  resize total_len ([first_byte] ++ be_bytes 4 version ++ [as_u8 (slen dcid)] ++ dcid ++
    [as_u8 (slen scid)] ++ scid).
Definition make_initial (version : Z) (dcid scid : bytes) : bytes :=
  make_long_header version (initial_first_byte version) dcid scid CrateRoot.MIN_INITIAL_DATAGRAM_SIZE.
Definition is_ngtcp2 {A} (r : result Error A) : bool :=
  match r with Err (Ngtcp2 _ _) => true | _ => false end.

Definition test_quic_version_roundtrip : test :=
  [eq (as_u32 V1) NGTCP2_PROTO_VER_V1; eq (as_u32 V2) NGTCP2_PROTO_VER_V2;
   eq (from_u32 NGTCP2_PROTO_VER_V1) (Some V1); eq (from_u32 NGTCP2_PROTO_VER_V2) (Some V2);
   eq (from_u32 0xdeadbeef) None].
Definition test_decode_packet_version_extracts_cids : test :=
  let dcid := filled 8 0x11 in
  let scid := filled 16 0x22 in
  version ← [V1; V2];
  with_some (decode_packet_version (make_initial (as_u32 version) dcid scid)) (fun info =>
    [eq (pv_version info) (as_u32 version); eq (as_bytes (pv_dcid info)) dcid;
     eq (as_bytes (pv_scid info)) scid]).
Definition test_decode_packet_version_rejects_short_header : test :=
  [is_none (decode_packet_version ([0x40; 16] ++ filled 16 0xaa ++ filled 1182 0x40))].
Definition test_decode_packet_version_rejects_version_negotiation_packet : test :=
  [is_none (decode_packet_version (make_initial 0 (filled 8 0x11) (filled 8 0x22)))].
Definition test_decode_packet_version_rejects_small_datagram_for_unknown_version : test :=
  [is_none (decode_packet_version (make_long_header 0xdeadbeef 0xc0 (filled 8 0x11) (filled 8 0x22) 100))].
Definition test_decode_packet_version_accepts_small_datagram_for_known_version : test :=
  with_some (decode_packet_version
      (make_long_header NGTCP2_PROTO_VER_V1 0xc0 (filled 8 0x11) (filled 8 0x22) 100)) (fun info =>
    [eq (pv_version info) NGTCP2_PROTO_VER_V1]).
Definition test_decode_packet_version_rejects_truncated_cids : test :=
  [is_none (decode_packet_version
     (resize 32 ([0xc0] ++ be_bytes 4 NGTCP2_PROTO_VER_V1 ++ [200])))].
Definition test_decode_packet_version_rejects_empty : test := [is_none (decode_packet_version [])].

(** The ids of the client in the tests of Version Negotiation, and its answer *)
Definition negotiated (size : nat) (versions : list QuicVersion)
    (k : ConnectionId -> ConnectionId -> result Error (Z * bytes) -> test) : test :=
  with_cid (filled 8 0x11) (fun client_dcid => with_cid (filled 16 0x22) (fun client_scid =>
    k client_dcid client_scid
      (write_version_negotiation (filled size 0) client_scid client_dcid versions))).
(** The loop over the versions of the packet *)
Fixpoint versions_from (fuel : nat) (buf : bytes) (pos written : Z) : list Z * Z :=
  match fuel with
  | O => ([], pos)
  | S fuel =>
      if pos + 4 <=? written then
        let '(l, pos') := versions_from fuel buf (pos + 4) written in
        (be_value (take 4 (drop (Z.to_nat pos) buf)) :: l, pos')
      else ([], pos)
  end.
Definition test_write_version_negotiation_packet_format : test :=
  negotiated 1500 SUPPORTED (fun client_dcid client_scid r => with_ok r (fun '(written, buf) =>
    with_some (head buf) (fun first => with_some (get buf 5) (fun dcid_len =>
    let scid_offset := 6 + dcid_len in
    with_some (get buf scid_offset) (fun scid_len =>
    let '(versions, pos) := versions_from 1500 buf (scid_offset + 1 + scid_len) written in
    [negb (Z.land first 0x80 =? 0); eq (slice buf 1 5) (Some [0; 0; 0; 0]);
     eq dcid_len (Types.len client_scid);
     eq (slice buf 6 (6 + dcid_len)) (Some (as_bytes client_scid));
     eq scid_len (Types.len client_dcid);
     eq (slice buf (scid_offset + 1) (scid_offset + 1 + scid_len)) (Some (as_bytes client_dcid));
     eq versions [NGTCP2_PROTO_VER_V1; NGTCP2_PROTO_VER_V2]; eq pos written]))))).
Definition test_version_negotiation_packet_is_not_renegotiated : test :=
  negotiated 1200 SUPPORTED (fun _ _ r => with_ok r (fun '(written, buf) =>
    [is_none (decode_packet_version (take (Z.to_nat written) buf))])).
Definition test_write_version_negotiation_rejects_empty_versions : test :=
  negotiated 1500 [] (fun _ _ r => [is_invalid_argument r]).
Definition test_write_version_negotiation_rejects_small_buffer : test :=
  negotiated 8 SUPPORTED (fun _ _ r => [is_ngtcp2 r]).
Definition test_long_header_type_is_version_dependent : test :=
  map (fun '(byte, type) => eq (long_header_type NGTCP2_PROTO_VER_V1 byte) (Some type))
    [(0xc0, Initial); (0xd0, ZeroRtt); (0xe0, Handshake); (0xf0, Retry)] ++
  map (fun '(byte, type) => eq (long_header_type NGTCP2_PROTO_VER_V2 byte) (Some type))
    [(0xd0, Initial); (0xe0, ZeroRtt); (0xf0, Handshake); (0xc0, Retry)] ++
  [negb (eq (long_header_type NGTCP2_PROTO_VER_V1 0xd0) (long_header_type NGTCP2_PROTO_VER_V2 0xd0))].
Definition test_long_header_type_rejects_unknown_version : test :=
  [is_none (long_header_type 0xdeadbeef 0xc0); is_none (long_header_type 0 0xc0)].
Definition test_decode_packet_version_sets_header_type : test :=
  let dcid := filled 8 0x11 in
  let scid := filled 8 0x22 in
  let d := make_initial NGTCP2_PROTO_VER_V2 dcid scid in
  [eq (head d) (Some 0xd0)] ++
  with_some (decode_packet_version d) (fun info => [is_initial info]) ++
  with_some (decode_packet_version (<[0%nat := 0xd0]> (make_initial NGTCP2_PROTO_VER_V1 dcid scid)))
    (fun info => [negb (is_initial info); eq (pv_header_type info) (Some ZeroRtt)]) ++
  with_some (decode_packet_version (make_initial 0xdeadbeef dcid scid))
    (fun info => [is_none (pv_header_type info); negb (is_initial info)]).
End version.

(** ** test_reset.rs *)

Section reset.
Import Tokens.

(** The token of a secret of equal bytes for an id *)
Definition with_token (secret : Z) (id : bytes) (k : StatelessResetToken -> test) : test :=
  with_cid id (fun cid => with_ret (reset_token (filled 32 secret) cid) (fun r => with_some r k)).
Definition writes (token : StatelessResetToken) (received_len : Z) (k : Z -> test) : test :=
  with_ok (write_stateless_reset (filled 1200 0) token received_len) (fun '(written, _) => k written).

Definition test_secret_generate : test :=
  with_some (reset_secret_generate (api := parser)) (fun a =>
    with_some (reset_secret_generate (api := writers)) (fun b => [negb (eq a b)])).
Definition test_token_is_deterministic : test :=
  let cid := [1; 2; 3; 4; 5; 6; 7; 8] in
  with_token 0x11 cid (fun first => with_token 0x11 cid (fun second =>
  with_token 0x11 (filled 8 9) (fun of_other_cid => with_token 0x22 cid (fun of_other_secret =>
    [eq first second; negb (eq first of_other_cid); negb (eq first of_other_secret)])))).
Definition test_write_stateless_reset_packet : test :=
  with_token 0x33 (filled 16 0x0a) (fun token =>
    with_ok (write_stateless_reset (filled 1200 0) token 1200) (fun '(written, buf) =>
    with_some (head buf) (fun first =>
      [STATELESS_RESET_TOKEN_LEN <? written;
       eq (slice buf (written - STATELESS_RESET_TOKEN_LEN) written) (Some token);
       eq (Z.shiftr first 6) 1; written <=? 1200]))).
Definition test_write_stateless_reset_is_shorter_than_trigger : test :=
  with_token 0x44 (filled 16 0x0b) (fun token =>
    received_len ← [MIN_STATELESS_RESET_SIZE; 30; 43; 100];
    writes token received_len (fun written => [0 <? written; written <=? received_len])).
Definition test_write_stateless_reset_rejects_short_packet : test :=
  with_token 0x55 (filled 16 0x0c) (fun token =>
    received_len ← [0; 1; 21; MIN_STATELESS_RESET_SIZE - 1];
    writes token received_len (fun written => [eq written 0])).
Definition test_write_stateless_reset_rejects_small_buffer : test :=
  with_token 0x66 (filled 16 0x0d) (fun token =>
    [is_ngtcp2 (write_stateless_reset (filled 8 0) token 1200)]).
End reset.

(** ** tokio-ngtcp2/tests/test_config.rs *)

#[local] Instance token_kind_eq_dec : EqDecision Tokens.AddressValidationTokenKind :=
  Tokens.AddressValidationTokenKind_eq_dec.
#[local] Instance token_eq_dec : EqDecision Tokens.AddressValidationToken.
Proof. solve_decision. Defined.
#[local] Instance duration_eq_dec : EqDecision Params.Duration := Z.eq_dec.
#[local] Instance secret_eq_dec : EqDecision Tokens.StatelessResetSecret := list_eq_dec.
#[local] Instance settings_eq_dec : EqDecision Params.Settings.
Proof. solve_decision. Defined.

#[local] Existing Instance Params.Settings_eta.
Definition default_settings : Params.Settings := Params.Settings_new Params.toy_default 0.
Definition default_params : Params.TransportParams := Params.TransportParams_new Params.toy_params.
Definition h3 : bytes := [104; 51].
Definition custom_settings : Params.Settings :=
  default_settings <| Params.congestion_algorithm := Params.Bbr2 |>
    <| Params.max_tx_udp_payload_size := 1200 |> <| Params.initial_rtt := Params.from_millis 50 |>
    <| Params.keep_alive_timeout := Some (Params.from_secs 15) |> <| Params.no_pmtud := true |>.

Section client.
Import Client.
Definition of_client (alpn : list bytes) : ClientConfig :=
  ClientConfig_new Params.toy_default Params.toy_params alpn.

Definition test_client_config_defaults : test :=
  let config := of_client [hq_interop] in
  [eq (alpn_protocols config) [hq_interop]; verify_peer config;
   Tokio.DatagramConfig_is_enabled (datagram config);
   eq (handshake_timeout config : Z) (Params.from_secs 10); eq (ca_cert_pem config) [];
   eq (quic_version config) V1; eq (settings config) default_settings].
Definition test_client_config_multiple_alpn : test :=
  [eq (alpn_protocols (of_client [hq_interop; h3])) [hq_interop; h3]].
Definition test_client_config_builder_chain : test :=
  let config := of_client [hq_interop] in
  let config := with_verify_peer false config in
  let config := with_transport_params (Params.with_max_streams_bidi default_params 50) config in
  let config := with_datagram Tokio.DatagramConfig_disabled config in
  let config := with_handshake_timeout (Params.from_secs 3) config in
  let config := with_ca_cert_pem "-----BEGIN CERTIFICATE-----
AAAA
-----END CERTIFICATE-----" config in
  let config := with_quic_version V2 config in
  let config := with_settings custom_settings config in
  [negb (verify_peer config); negb (Tokio.DatagramConfig_is_enabled (datagram config));
   eq (handshake_timeout config : Z) (Params.from_secs 3); eq (slen (ca_cert_pem config)) 1;
   eq (quic_version config) V2; eq (settings config) custom_settings].
Definition test_client_config_multiple_ca_certs : test :=
  let config := with_ca_cert_pem "second" (with_ca_cert_pem "first" (of_client [hq_interop])) in
  [eq (ca_cert_pem config) ["first"; "second"]%string].
End client.

Section server.
Import Server.
Definition of_server (alpn : list bytes) : ServerConfig :=
  ServerConfig_new Params.toy_default Params.toy_params alpn.

Definition test_server_config_defaults : test :=
  let config := of_server [hq_interop] in
  [eq (alpn_protocols config) [hq_interop]; Tokio.DatagramConfig_is_enabled (datagram config);
   eq (scid_len config) 16; eq (quic_versions config) [V1; V2];
   eq (settings config) default_settings; negb (early_data config)].
Definition test_server_config_builder_chain : test :=
  let config := of_server [hq_interop] in
  let config := with_transport_params (Params.with_max_streams_uni default_params 10) config in
  let config := with_datagram Tokio.DatagramConfig_disabled config in
  let config := with_scid_len 8 config in
  let config := with_quic_versions [V2] config in
  let config := with_early_data true config in
  let config := with_settings custom_settings config in
  [negb (Tokio.DatagramConfig_is_enabled (datagram config)); eq (scid_len config) 8;
   eq (quic_versions config) [V2]; early_data config; eq (settings config) custom_settings].
Definition test_server_config_allows_empty_quic_versions : test :=
  [eq (quic_versions (with_quic_versions [] (of_server [hq_interop]))) []].
End server.

Definition test_datagram_config_values : test :=
  let config := Tokio.DatagramConfig_default in
  let off := Tokio.DatagramConfig_disabled in
  [eq (Tokio.max_datagram_frame_size config) 65535; eq (Tokio.max_tx_datagram_size config) 1200;
   Tokio.DatagramConfig_is_enabled config; eq (Tokio.max_datagram_frame_size off) 0;
   eq (Tokio.max_tx_datagram_size off) 0; negb (Tokio.DatagramConfig_is_enabled off)].
Definition test_datagram_config_custom : test :=
  [Tokio.DatagramConfig_is_enabled (Tokio.mkDatagramConfig 1000 500);
   negb (Tokio.DatagramConfig_is_enabled (Tokio.mkDatagramConfig 1000 0))].

(** ** All of them *)

Definition public_tests : list test :=
  [test_encoded_len_boundaries; test_varint_roundtrip; test_varint_encode_into_slice;
   test_varint_sequential_decode; test_varint_decode_empty; test_varint_decode_truncated;
   test_varint_wire_format; test_varint_decode_ignores_length_prefix;
   test_split_packets_short_header; test_split_packets_handshake_and_short;
   test_split_packets_initial_with_token; test_split_packets_retry;
   test_split_packets_version_negotiation; test_split_packets_truncated;
   test_split_packets_empty; test_connection_id_new; test_connection_id_empty;
   test_connection_id_new_rejects_too_long; test_connection_id_random;
   test_connection_id_equality; test_connection_id_format; test_stream_type_from_stream_id;
   test_stream_direction_from_stream_id; test_quic_version_constants;
   test_quic_version_conversion; test_packet_info_default; test_path_info;
   test_error_from_ngtcp2_message; test_error_from_ngtcp2_unknown_code; test_error_display;
   test_classify_connection_error_ngtcp2; test_classify_connection_error_other;
   test_is_retry_required; test_error_is_std_error; test_quic_version_roundtrip;
   test_decode_packet_version_extracts_cids; test_decode_packet_version_rejects_short_header;
   test_decode_packet_version_rejects_version_negotiation_packet;
   test_decode_packet_version_rejects_small_datagram_for_unknown_version;
   test_decode_packet_version_accepts_small_datagram_for_known_version;
   test_decode_packet_version_rejects_truncated_cids; test_decode_packet_version_rejects_empty;
   test_write_version_negotiation_packet_format;
   test_version_negotiation_packet_is_not_renegotiated;
   test_write_version_negotiation_rejects_empty_versions;
   test_write_version_negotiation_rejects_small_buffer;
   test_long_header_type_is_version_dependent; test_long_header_type_rejects_unknown_version;
   test_decode_packet_version_sets_header_type; test_secret_generate; test_token_is_deterministic;
   test_write_stateless_reset_packet; test_write_stateless_reset_is_shorter_than_trigger;
   test_write_stateless_reset_rejects_short_packet;
   test_write_stateless_reset_rejects_small_buffer; test_client_config_defaults;
   test_client_config_multiple_alpn; test_client_config_builder_chain;
   test_client_config_multiple_ca_certs; test_server_config_defaults;
   test_server_config_builder_chain; test_server_config_allows_empty_quic_versions;
   test_datagram_config_values; test_datagram_config_custom].

(** Every assertion of every test holds of the model. *)
Theorem public_tests_pass : forallb passed public_tests = true.
Proof. vm_cast_no_check (@eq_refl bool true). Qed.
End PublicTests.
